(** * BeeGFS CSI driver: configuration merge, volume identity codec,
      unmount safety and controller handlers

    A shallow embedding of the Go package [beegfs] (configuration model,
    [beegfs_util.go], controller server) together with models of the Go
    standard-library functions the package calls ([strings], [path],
    [net], [net/url], [regexp], [crypto/sha1], [encoding/json]).

    Conventions.
    - A Go [string] is a [string] of bytes; [len] is [String.length].
    - A Go slice of strings is [option (list string)]: [None] is the nil
      slice, which has length 0 but is encoded by JSON as [null].
    - A Go [map[string]string] is [option (gmap string string)]: [None]
      is the nil map.  Reading from or deleting in a nil map is allowed,
      storing into it panics.
    - A Go [error] is its message, [None]/[Ok] standing for [nil].
    - A runtime panic is the [Panic] outcome of [result]. *)

From Stdlib Require Import ZArith Ascii String List Lia Bool DecimalString.
From stdpp Require Import gmap strings list fin_maps.

Local Open Scope string_scope.
Local Open Scope list_scope.
Local Open Scope stdpp_scope.

(** ** Outcomes of fallible Go code *)

Inductive result (A : Type) : Type :=
| Ok (a : A)
| Err (msg : string)
| Panic (msg : string).
Arguments Ok {A} a.
Arguments Err {A} msg.
Arguments Panic {A} msg.

#[global] Instance result_eq_dec {A : Type} `{EqDecision A} : EqDecision (result A).
Proof. solve_decision. Defined.

(** Sequencing: an error or a panic of the first step ends the
    computation. *)
Definition rbind {A B : Type} (r : result A) (k : A → result B) : result B :=
  match r with
  | Ok a => k a
  | Err e => Err e
  | Panic p => Panic p
  end.

Notation "'let*' x ':=' r 'in' k" := (rbind r (fun x => k))
  (at level 10, x pattern, r at level 100, k at level 200, only parsing).

(** [errors.Wrap(err, msg)] and [errors.WithMessage(err, msg)]: the new
    message is [msg: cause]. *)
Definition errors_Wrap (cause msg : string) : string := msg +:+ ": " +:+ cause.

(** ** Package [strings] *)
Module GoStrings.

(** [strings.HasPrefix(s, prefix)]. *)
Definition HasPrefix (s p : string) : bool := String.prefix p s.

(** Drop the first [n] bytes: [s[n:]] (empty when out of range). *)
Fixpoint drop (n : nat) (s : string) : string :=
  match n, s with
  | O, _ => s
  | S k, String _ s' => drop k s'
  | S _, EmptyString => EmptyString
  end.

(** Keep the first [n] bytes: [s[:n]]. *)
Fixpoint take (n : nat) (s : string) : string :=
  match n, s with
  | O, _ => EmptyString
  | S k, String c s' => String c (take k s')
  | S _, EmptyString => EmptyString
  end.

(** [strings.HasSuffix(s, suffix)]. *)
Definition HasSuffix (s suf : string) : bool :=
  (String.length suf <=? String.length s)%nat
  && String.eqb (drop (String.length s - String.length suf) s) suf.

(** [strings.Contains(s, substr)]: [substr] occurs somewhere in [s]. *)
Fixpoint Contains (s sub : string) : bool :=
  HasPrefix s sub ||
  match s with
  | EmptyString => false
  | String _ s' => Contains s' sub
  end.

(** [strings.Index(s, substr)]: position of the first occurrence. *)
Fixpoint Index (s sub : string) : option nat :=
  if HasPrefix s sub then Some O
  else match s with
       | EmptyString => None
       | String _ s' => S <$> Index s' sub
       end.

(** [strings.LastIndex(s, substr)]: position of the last occurrence. *)
Fixpoint LastIndex (s sub : string) : option nat :=
  match s with
  | EmptyString => if HasPrefix s sub then Some O else None
  | String _ s' =>
      match LastIndex s' sub with
      | Some i => Some (S i)
      | None => if HasPrefix s sub then Some O else None
      end
  end.

(** [strings.Count(s, substr)] for a one-byte [substr]. *)
Fixpoint CountByte (s : string) (c : ascii) : nat :=
  match s with
  | EmptyString => O
  | String a s' => (if Ascii.eqb a c then 1 else 0) + CountByte s' c
  end.

(** The loop of [strings.Replace(s, old, new, n)] for a non-empty [old]:
    scanning left to right, each of the first [n] non-overlapping
    occurrences of [old] is replaced by [new] ([n < 0]: all of them).
    [skip] counts the bytes of an occurrence still to be passed over. *)
Fixpoint replace_from (old new : string) (n : Z) (skip : nat) (s : string) : string :=
  match s with
  | EmptyString => EmptyString
  | String c s' =>
      match skip with
      | S k => replace_from old new n k s'
      | O =>
          if negb (n =? 0)%Z && HasPrefix s old
          then new +:+ replace_from old new (n - 1) (String.length old - 1) s'
          else String c (replace_from old new n O s')
      end
  end.

(** [strings.Replace(s, old, new, n)].  With an empty [old] Go inserts
    [new] before each UTF-8 sequence; the package never calls it so, and
    the input is returned as it is. *)
Definition Replace (s old new : string) (n : Z) : string :=
  match old with
  | EmptyString => s
  | _ => replace_from old new n O s
  end.

(** [strings.Join(elems, sep)]. *)
Definition Join (elems : list string) (sep : string) : string := String.concat sep elems.

(** ASCII lower-casing of one byte. *)
Definition lower_byte (c : ascii) : ascii :=
  let n := nat_of_ascii c in
  if (65 <=? n)%nat && (n <=? 90)%nat then ascii_of_nat (n + 32) else c.

(** [strings.ToLower(s)] on ASCII input. *)
Fixpoint ToLower (s : string) : string :=
  match s with
  | EmptyString => EmptyString
  | String c s' => String (lower_byte c) (ToLower s')
  end.

(** Split at the first occurrence of the byte [c]: the part before it
    and, when [c] occurs, the part after it. *)
Fixpoint cut (s : string) (c : ascii) : string * option string :=
  match s with
  | EmptyString => (EmptyString, None)
  | String a s' =>
      if Ascii.eqb a c then (EmptyString, Some s')
      else let '(h, t) := cut s' c in (String a h, t)
  end.

(** [strings.Split(s, sep)] for a one-byte separator. *)
Fixpoint SplitByte (s : string) (c : ascii) : list string :=
  match s with
  | EmptyString => [EmptyString]
  | String a s' =>
      if Ascii.eqb a c then EmptyString :: SplitByte s' c
      else match SplitByte s' c with
           | h :: t => String a h :: t
           | [] => [String a EmptyString]
           end
  end.

(** The double quote. *)
Definition dq : string := String (ascii_of_nat 34) EmptyString.

(** The backslash. *)
Definition backslash : string := String (ascii_of_nat 92) EmptyString.

(** The digit of [n] below 16 in [lowerhex]. *)
Definition lowerhex (n : nat) : string :=
  String (ascii_of_nat (if (n <? 10)%nat then 48 + n else 87 + n)) EmptyString.

(** One byte of a quoted string ([appendEscapedRune], Go 1.16): the
    quote and the backslash get a backslash; a printable byte stays; the
    control bytes are written as their escapes, with two hexadecimal
    digits where there is no letter for them, and the byte 0x7f with
    four.  A byte from 0x80 on stays, as the bytes of a printable rune
    do: [unicode.IsPrint] beyond ASCII and invalid UTF-8 are not
    modelled. *)
Definition quoteByte (c : ascii) : string :=
  let n := nat_of_ascii c in
  if (n =? 34)%nat || (n =? 92)%nat then backslash +:+ String c EmptyString
  else if (32 <=? n)%nat && negb (n =? 127)%nat then String c EmptyString
  else if (n =? 7)%nat then backslash +:+ "a"
  else if (n =? 8)%nat then backslash +:+ "b"
  else if (n =? 12)%nat then backslash +:+ "f"
  else if (n =? 10)%nat then backslash +:+ "n"
  else if (n =? 13)%nat then backslash +:+ "r"
  else if (n =? 9)%nat then backslash +:+ "t"
  else if (n =? 11)%nat then backslash +:+ "v"
  else if (n <? 32)%nat then backslash +:+ "x" +:+ lowerhex (n / 16) +:+ lowerhex (n mod 16)
  else backslash +:+ "u007f".

(** [strconv.Quote(s)] and the verb [%q]: the bytes of [s], escaped,
    between double quotes. *)
Definition Quote (s : string) : string :=
  dq +:+ String.concat "" (map quoteByte (list_ascii_of_string s)) +:+ dq.

(** Every byte of [s] satisfies [p]. *)
Fixpoint all_bytes (p : ascii → bool) (s : string) : bool :=
  match s with
  | EmptyString => true
  | String c s' => p c && all_bytes p s'
  end.

End GoStrings.

(** ** Byte classes *)
Module Byte.

Definition code (c : ascii) : Z := Z.of_nat (nat_of_ascii c).

Definition between (lo hi : ascii) (c : ascii) : bool :=
  (code lo <=? code c)%Z && (code c <=? code hi)%Z.

Definition isDigit (c : ascii) : bool := between "0" "9" c.
Definition isLower (c : ascii) : bool := between "a" "z" c.
Definition isUpper (c : ascii) : bool := between "A" "Z" c.
Definition isAlpha (c : ascii) : bool := isLower c || isUpper c.
Definition isAlnum (c : ascii) : bool := isAlpha c || isDigit c.

(** Membership of a byte in a string used as a set of bytes. *)
Fixpoint oneOf (set : string) (c : ascii) : bool :=
  match set with
  | EmptyString => false
  | String a set' => Ascii.eqb a c || oneOf set' c
  end.

Definition ofZ (n : Z) : ascii := ascii_of_nat (Z.to_nat n).

End Byte.

(** ** Package [net]: textual IP addresses (Go 1.16) *)
Module GoNet.

(** Bigger than we need, not too big to worry about overflow. *)
Definition big : Z := 0xFFFFFF.

(** The loop of [dtoi]: [n] is the value and [i] the number of bytes
    read so far. *)
Fixpoint dtoi_loop (s : string) (n : Z) (i : nat) : Z * nat * bool :=
  match s with
  | String c s' =>
      if Byte.isDigit c then
        let n' := (n * 10 + (Byte.code c - Byte.code "0"))%Z in
        if (n' >=? big)%Z then (big, i, false) else dtoi_loop s' n' (S i)
      else if (i =? 0)%nat then (0%Z, O, false) else (n, i, true)
  | EmptyString => if (i =? 0)%nat then (0%Z, O, false) else (n, i, true)
  end.

(** [dtoi(s)]: decimal to integer; the number, the bytes consumed and
    success. *)
Definition dtoi (s : string) : Z * nat * bool := dtoi_loop s 0 O.

Definition hexval (c : ascii) : option Z :=
  if Byte.isDigit c then Some (Byte.code c - Byte.code "0")%Z
  else if Byte.between "a" "f" c then Some (Byte.code c - Byte.code "a" + 10)%Z
  else if Byte.between "A" "F" c then Some (Byte.code c - Byte.code "A" + 10)%Z
  else None.

Fixpoint xtoi_loop (s : string) (n : Z) (i : nat) : Z * nat * bool :=
  match s with
  | String c s' =>
      match hexval c with
      | Some d =>
          let n' := (n * 16 + d)%Z in
          if (n' >=? big)%Z then (0%Z, i, false) else xtoi_loop s' n' (S i)
      | None => if (i =? 0)%nat then (0%Z, i, false) else (n, i, true)
      end
  | EmptyString => if (i =? 0)%nat then (0%Z, i, false) else (n, i, true)
  end.

(** [xtoi(s)]: hexadecimal to integer. *)
Definition xtoi (s : string) : Z * nat * bool := xtoi_loop s 0 O.

(** The loop of [parseIPv4] over the [k] octets still to be read;
    [first] holds for the first octet, which has no dot before it. *)
Fixpoint parseIPv4_loop (k : nat) (first : bool) (s : string) (p : list Z) : option (list Z) :=
  match k with
  | O => match s with EmptyString => Some p | _ => None end
  | S k' =>
      match s with
      | EmptyString => None
      | String c s' =>
          let after_dot :=
            if first then Some s
            else if Ascii.eqb c "." then Some s' else None in
          match after_dot with
          | None => None
          | Some s1 =>
              let '(n, c1, ok) := dtoi s1 in
              if negb ok || (n >? 255)%Z then None
              else parseIPv4_loop k' false (GoStrings.drop c1 s1) (p ++ [n])
          end
      end
  end.

(** [parseIPv4(s)]: the four octets, or [None] for Go's [nil]. *)
Definition parseIPv4 (s : string) : option (list Z) := parseIPv4_loop 4 true s [].

(** One byte of [s] by index ([s[i]]), if in range. *)
Definition byteAt (s : string) (i : nat) : option ascii := String.get i s.

(** The loop of [parseIPv6], at most eight rounds since [i] grows by two
    in each.  [None] is the early [return nil]; otherwise the rest of the
    input, [i], the ellipsis position and the bytes written so far. *)
Fixpoint parseIPv6_loop (fuel : nat) (s : string) (i : nat) (ellipsis : option nat)
    (ip : list Z) : option (string * nat * option nat * list Z) :=
  if (16 <=? i)%nat then Some (s, i, ellipsis, ip) else
  match fuel with
  | O => Some (s, i, ellipsis, ip)
  | S fuel' =>
      let '(n, c, ok) := xtoi s in
      if negb ok || (n >? 0xFFFF)%Z then None
      else if (c <? String.length s)%nat && bool_decide (byteAt s c = Some "."%char) then
        (* trailing IPv4 *)
        if bool_decide (ellipsis = None) && negb (i =? 12)%nat then None
        else if (16 <? i + 4)%nat then None
        else match parseIPv4 s with
             | None => None
             | Some ip4 => Some (EmptyString, (i + 4)%nat, ellipsis, ip ++ ip4)
             end
      else
        let ip' := ip ++ [Z.shiftr n 8; Z.land n 255] in
        let i' := (i + 2)%nat in
        match GoStrings.drop c s with
        | EmptyString => Some (EmptyString, i', ellipsis, ip')
        | String c1 s2 =>
            if negb (Ascii.eqb c1 ":") then None
            else match s2 with
                 | EmptyString => None
                 | String c2 s3 =>
                     if Ascii.eqb c2 ":" then
                       match ellipsis with
                       | Some _ => None
                       | None =>
                           match s3 with
                           | EmptyString => Some (EmptyString, i', Some i', ip')
                           | _ => parseIPv6_loop fuel' s3 i' (Some i') ip'
                           end
                       end
                     else parseIPv6_loop fuel' s2 i' ellipsis ip'
                 end
        end
  end.

(** [parseIPv6(s)]: the sixteen bytes, or [None] for [nil]. *)
Definition parseIPv6 (s : string) : option (list Z) :=
  let lead := GoStrings.HasPrefix s "::" in
  let s0 := if lead then GoStrings.drop 2 s else s in
  let ellipsis0 := if lead then Some O else None in
  if lead && bool_decide (s0 = EmptyString) then Some (replicate 16 0%Z)
  else
    match parseIPv6_loop 8 s0 O ellipsis0 [] with
    | None => None
    | Some (rest, i, ellipsis, ip) =>
        match rest with
        | String _ _ => None
        | EmptyString =>
            if (i <? 16)%nat then
              match ellipsis with
              | None => None
              | Some e => Some (firstn e ip ++ replicate (16 - i) 0%Z ++ skipn e ip)
              end
            else match ellipsis with
                 | Some _ => None
                 | None => Some ip
                 end
        end
    end.

(** The scan of [ParseIP] for the first dot or colon. *)
Fixpoint ParseIP_scan (whole s : string) : option (list Z) :=
  match s with
  | EmptyString => None
  | String c s' =>
      if Ascii.eqb c "." then parseIPv4 whole
      else if Ascii.eqb c ":" then parseIPv6 whole
      else ParseIP_scan whole s'
  end.

(** [net.ParseIP(s)]; [None] is [nil]. *)
Definition ParseIP (s : string) : option (list Z) := ParseIP_scan s s.

(** [net.ParseCIDR(s)]: the address and the prefix length; [None] is the
    [ParseError]. *)
Definition ParseCIDR (s : string) : option (list Z * Z) :=
  match GoStrings.cut s "/" with
  | (_, None) => None
  | (addr, Some mask) =>
      let '(iplen, ip) :=
        match parseIPv4 addr with
        | Some ip => (4%Z, Some ip)
        | None => (16%Z, parseIPv6 addr)
        end in
      let '(n, i, ok) := dtoi mask in
      match ip with
      | None => None
      | Some ip =>
          if negb ok || negb (i =? String.length mask)%nat || (n <? 0)%Z || (n >? 8 * iplen)%Z
          then None else Some (ip, n)
      end
  end.

End GoNet.

(** ** Package [regexp]: the fragment the configuration check uses *)
Module GoRegexp.

(** Regular expressions over bytes: character classes, concatenation,
    alternation and iteration. *)
Inductive re : Type :=
| ReNone
| ReEps
| ReClass (p : ascii → bool)
| ReCat (a b : re)
| ReAlt (a b : re)
| ReStar (a : re).

Fixpoint nullable (r : re) : bool :=
  match r with
  | ReNone => false
  | ReEps => true
  | ReClass _ => false
  | ReCat a b => nullable a && nullable b
  | ReAlt a b => nullable a || nullable b
  | ReStar _ => true
  end.

Definition cat (a b : re) : re :=
  match a, b with
  | ReNone, _ => ReNone
  | _, ReNone => ReNone
  | ReEps, _ => b
  | _, _ => ReCat a b
  end.

Definition alt (a b : re) : re :=
  match a, b with
  | ReNone, _ => b
  | _, ReNone => a
  | _, _ => ReAlt a b
  end.

(** Brzozowski derivative of [r] by the byte [c]. *)
Fixpoint deriv (c : ascii) (r : re) : re :=
  match r with
  | ReNone => ReNone
  | ReEps => ReNone
  | ReClass p => if p c then ReEps else ReNone
  | ReCat a b =>
      if nullable a then alt (cat (deriv c a) b) (deriv c b)
      else cat (deriv c a) b
  | ReAlt a b => alt (deriv c a) (deriv c b)
  | ReStar a => cat (deriv c a) (ReStar a)
  end.

(** The whole of [s] is in the language of [r]: what [MatchString] decides
    for a pattern written between [^] and [$]. *)
Fixpoint full_match (r : re) (s : string) : bool :=
  match s with
  | EmptyString => nullable r
  | String c s' => full_match (deriv c r) s'
  end.

Definition opt (r : re) : re := ReAlt ReEps r.
Definition plus (r : re) : re := ReCat r (ReStar r).

(** [r{0,n}]. *)
Fixpoint upto (n : nat) (r : re) : re :=
  match n with
  | O => ReEps
  | S k => opt (ReCat r (upto k r))
  end.

(** [r{n}]. *)
Fixpoint times (n : nat) (r : re) : re :=
  match n with
  | O => ReEps
  | S k => ReCat r (times k r)
  end.

Definition lit (c : ascii) : re := ReClass (Ascii.eqb c).

End GoRegexp.

(** * The configuration model (package [beegfs], configuration file) *)

(** These parameters have no effect when specified in the
    beegfsClientConf configuration section. *)
Definition noEffectBeegfsConfOptions : list string :=
  ["sysMgmtdHost"; "connClientPortUDP"; "connPortShift"].


(** [len(s)] of a slice. *)
Definition len (s : option (list string)) : nat :=
  match s with
  | None => O
  | Some l => length l
  end.

(** The elements a [range] over the slice visits. *)
Definition elems (s : option (list string)) : list string :=
  match s with
  | None => []
  | Some l => l
  end.

(** [beegfsConfig]: the custom configuration of one BeeGFS file system.
    [connAuth] is unexported and has no yaml tag, so a configuration file
    cannot set it. *)
Record beegfsConfig : Type := {
  ConnInterfaces : option (list string);
  ConnNetFilter : option (list string);
  ConnTcpOnlyFilter : option (list string);
  BeegfsClientConf : option (gmap string string);
  connAuth : string
}.

(** The zero value [beegfsConfig{}]. *)
Definition zeroBeegfsConfig : beegfsConfig :=
  {| ConnInterfaces := None; ConnNetFilter := None; ConnTcpOnlyFilter := None;
     BeegfsClientConf := None; connAuth := "" |}.

(** [newBeegfsConfig()]: only the map is allocated. *)
Definition newBeegfsConfig : beegfsConfig :=
  {| ConnInterfaces := None; ConnNetFilter := None; ConnTcpOnlyFilter := None;
     BeegfsClientConf := Some ∅; connAuth := "" |}.

(** [FileSystemSpecificConfig] associates a [beegfsConfig] with a
    sysMgmtdHost. *)
Record FileSystemSpecificConfig : Type := {
  SysMgmtdHost : string;
  Config : beegfsConfig
}.

(** [nodeSpecificConfig]: a default configuration and file system
    specific configurations for a list of nodes. *)
Record nodeSpecificConfig : Type := {
  NodeList : list string;
  nodeDefaultConfig : beegfsConfig;
  nodeFileSystemSpecificConfigs : list FileSystemSpecificConfig
}.

(** [PluginConfig]: the configuration kept for the life of the plugin. *)
Record PluginConfig : Type := {
  DefaultConfig : beegfsConfig;
  FileSystemSpecificConfigs : list FileSystemSpecificConfig
}.

(** [pluginConfigFromFile]: the inlined [PluginConfig] and the node
    specific configurations, as unmarshalled from the file. *)
Record pluginConfigFromFile : Type := {
  filePluginConfig : PluginConfig;
  NodeSpecificConfigs : list nodeSpecificConfig
}.

(** [connAuthConfig] associates a ConnAuth with a SysMgmtdHost. *)
Record connAuthConfig : Type := {
  authSysMgmtdHost : string;
  ConnAuth : string
}.

(** The lookup [m[k]] with its [present] flag; a nil map has no key. *)
Definition mapGet (m : option (gmap string string)) (k : string) : option string :=
  match m with
  | None => None
  | Some g => g !! k
  end.

(** [delete(m, k)]; a no-op on a nil map. *)
Definition mapDelete (m : option (gmap string string)) (k : string) : option (gmap string string) :=
  match m with
  | None => None
  | Some g => Some (delete k g)
  end.

(** One slice field of [overwriteFrom]: a non-empty source is copied
    into a fresh slice ([make] and [copy]), otherwise the target stays. *)
Definition overwriteSlice (c w : option (list string)) : option (list string) :=
  if (len w =? 0)%nat then c else Some (elems w).

(** The loop [for k, v := range writeFrom.BeegfsClientConf
    { c.BeegfsClientConf[k] = v }].  The loop body runs once per key of
    the source; its first store panics when the target map is nil. *)
Definition overwriteMap (c w : option (gmap string string)) : result (option (gmap string string)) :=
  match w with
  | None => Ok c
  | Some src =>
      if bool_decide (src = ∅) then Ok c
      else match c with
           | None => Panic "assignment to entry in nil map"
           | Some dst => Ok (Some (map_fold (λ k v acc, <[k := v]> acc) dst src))
           end
  end.

(** [overwriteFrom] ONLY overwrites configuration in the receiving
    [beegfsConfig] that is also defined in [writeFrom]. *)
Definition overwriteFrom (c writeFrom : beegfsConfig) : result beegfsConfig :=
  let ci := overwriteSlice (ConnInterfaces c) (ConnInterfaces writeFrom) in
  let cn := overwriteSlice (ConnNetFilter c) (ConnNetFilter writeFrom) in
  let ct := overwriteSlice (ConnTcpOnlyFilter c) (ConnTcpOnlyFilter writeFrom) in
  let ca := if bool_decide (connAuth writeFrom ≠ "") then connAuth writeFrom else connAuth c in
  let* m := overwriteMap (BeegfsClientConf c) (BeegfsClientConf writeFrom) in
  Ok {| ConnInterfaces := ci; ConnNetFilter := cn; ConnTcpOnlyFilter := ct;
        BeegfsClientConf := m; connAuth := ca |}.

(** The inner loop of [overwriteFileSystemSpecificConfigs]: every entry
    of [writeTo] with the host of [writeFromConfig] is overwritten in
    place; the flag is [writeToHadConfig]. *)
Fixpoint overwriteMatching (writeTo : list FileSystemSpecificConfig)
    (writeFromConfig : FileSystemSpecificConfig)
    : result (list FileSystemSpecificConfig * bool) :=
  match writeTo with
  | [] => Ok ([], false)
  | writeToConfig :: rest =>
      if bool_decide (SysMgmtdHost writeToConfig = SysMgmtdHost writeFromConfig) then
        let* c := overwriteFrom (Config writeToConfig) (Config writeFromConfig) in
        let* (rest', _) := overwriteMatching rest writeFromConfig in
        Ok ({| SysMgmtdHost := SysMgmtdHost writeToConfig; Config := c |} :: rest', true)
      else
        let* (rest', had) := overwriteMatching rest writeFromConfig in
        Ok (writeToConfig :: rest', had)
  end.

(** [overwriteFileSystemSpecificConfigs] looks for configurations in
    [writeTo] and [writeFrom] with the same sysMgmtdHost; a match is
    overwritten, an unmatched [writeFrom] entry is appended. *)
Fixpoint overwriteFileSystemSpecificConfigs (writeTo writeFrom : list FileSystemSpecificConfig)
    : result (list FileSystemSpecificConfig) :=
  match writeFrom with
  | [] => Ok writeTo
  | writeFromConfig :: rest =>
      let* (writeTo', writeToHadConfig) := overwriteMatching writeTo writeFromConfig in
      overwriteFileSystemSpecificConfigs
        (if writeToHadConfig then writeTo' else writeTo' ++ [writeFromConfig]) rest
  end.

(** The test [appliesToNode] of [parseConfigFromFile]. *)
Definition appliesToNode (nodeID : string) (nodeConfig : nodeSpecificConfig) : bool :=
  existsb (String.eqb nodeID) (NodeList nodeConfig).

(** The loop of [parseConfigFromFile] over the node specific
    configurations. *)
Fixpoint overwriteFromNodes (nodeID : string) (newPluginConfig : PluginConfig)
    (nodeConfigs : list nodeSpecificConfig) : result PluginConfig :=
  match nodeConfigs with
  | [] => Ok newPluginConfig
  | nodeConfig :: rest =>
      if appliesToNode nodeID nodeConfig then
        let* d := overwriteFrom (DefaultConfig newPluginConfig) (nodeDefaultConfig nodeConfig) in
        let* f := overwriteFileSystemSpecificConfigs
                    (FileSystemSpecificConfigs newPluginConfig)
                    (nodeFileSystemSpecificConfigs nodeConfig) in
        overwriteFromNodes nodeID {| DefaultConfig := d; FileSystemSpecificConfigs := f |} rest
      else overwriteFromNodes nodeID newPluginConfig rest
  end.

(** The pattern [domainRegex] of [validateConfig]:
    [^(?:[_a-z0-9](?:[_a-z0-9-]{0,61}[a-z0-9]\.)|(?:[0-9]+/[0-9]{2})\.)+(?:[a-z](?:[a-z0-9-]{0,61}[a-z0-9])?)?$] *)
Definition domainRegex : GoRegexp.re :=
  let lower_digit := GoRegexp.ReClass (λ c, Byte.isLower c || Byte.isDigit c) in
  let first := GoRegexp.ReClass (λ c, Ascii.eqb c "_" || Byte.isLower c || Byte.isDigit c) in
  let inner_first := GoRegexp.ReClass
    (λ c, Ascii.eqb c "_" || Byte.isLower c || Byte.isDigit c || Ascii.eqb c "-") in
  let inner := GoRegexp.ReClass (λ c, Byte.isLower c || Byte.isDigit c || Ascii.eqb c "-") in
  let digit := GoRegexp.ReClass Byte.isDigit in
  let dot := GoRegexp.lit "." in
  let label := GoRegexp.ReCat first
                 (GoRegexp.ReCat (GoRegexp.upto 61 inner_first) (GoRegexp.ReCat lower_digit dot)) in
  let cidr_label := GoRegexp.ReCat
                      (GoRegexp.ReCat (GoRegexp.plus digit)
                         (GoRegexp.ReCat (GoRegexp.lit "/") (GoRegexp.times 2 digit)))
                      dot in
  let tld := GoRegexp.ReCat (GoRegexp.ReClass Byte.isLower)
               (GoRegexp.opt (GoRegexp.ReCat (GoRegexp.upto 61 inner) lower_digit)) in
  GoRegexp.ReCat (GoRegexp.plus (GoRegexp.ReAlt label cidr_label)) (GoRegexp.opt tld).

(** The host test of [validateConfig]: localhost, an IP address, or a
    domain name. *)
Definition validSysMgmtdHost (h : string) : bool :=
  negb (negb (String.eqb h "localhost")
        && bool_decide (GoNet.ParseIP h = None)
        && negb (GoRegexp.full_match domainRegex h)).

(** The filter test of [validateConfig]: [ParseCIDR] succeeds or
    [ParseIP] is not nil. *)
Definition validFilter (filter : string) : bool :=
  negb (bool_decide (GoNet.ParseCIDR filter = None) && bool_decide (GoNet.ParseIP filter = None)).

(** The first loop of [validateConfig]: the first invalid host ends it. *)
Fixpoint validateHosts (configs : list FileSystemSpecificConfig) : option string :=
  match configs with
  | [] => None
  | config :: rest =>
      if negb (validSysMgmtdHost (SysMgmtdHost config))
      then Some ("invalid SysMgmtdHost " +:+ SysMgmtdHost config)
      else validateHosts rest
  end.

(** One of the two inner loops over a filter list; [field] is the name
    in the message. *)
Fixpoint validateFilters (field : string) (filters : list string) : option string :=
  match filters with
  | [] => None
  | filter :: rest =>
      if negb (validFilter filter) then Some ("invalid " +:+ field +:+ " " +:+ filter)
      else validateFilters field rest
  end.

(** The second loop of [validateConfig] over [beegfsConfigs]. *)
Fixpoint validateBeegfsConfigs (beegfsConfigs : list beegfsConfig) : option string :=
  match beegfsConfigs with
  | [] => None
  | config :: rest =>
      match validateFilters "ConnNetFilter" (elems (ConnNetFilter config)) with
      | Some e => Some e
      | None =>
          match validateFilters "ConnTCPOnlyFilter" (elems (ConnTcpOnlyFilter config)) with
          | Some e => Some e
          | None => validateBeegfsConfigs rest
          end
      end
  end.

(** [PluginConfig.validateConfig]; [None] is the [nil] error. *)
Definition validateConfig (plConfig : PluginConfig) : option string :=
  let beegfsConfigs :=
    DefaultConfig plConfig :: map Config (FileSystemSpecificConfigs plConfig) in
  match validateHosts (FileSystemSpecificConfigs plConfig) with
  | Some e => Some e
  | None => validateBeegfsConfigs beegfsConfigs
  end.

(** The two inner loops of [stripConfig] on one configuration: every
    no-effect option that is present is deleted; an unsupported option
    is only logged.  The copies in [beegfsConfigs] share their maps with
    the plugin configuration, so the deletions are seen there. *)
Definition stripBeegfsConfig (config : beegfsConfig) : beegfsConfig :=
  {| ConnInterfaces := ConnInterfaces config;
     ConnNetFilter := ConnNetFilter config;
     ConnTcpOnlyFilter := ConnTcpOnlyFilter config;
     BeegfsClientConf :=
       fold_left
         (λ m noEffectOption,
            match mapGet m noEffectOption with
            | Some _ => mapDelete m noEffectOption
            | None => m
            end)
         noEffectBeegfsConfOptions (BeegfsClientConf config);
     connAuth := connAuth config |}.

(** [PluginConfig.stripConfig]. *)
Definition stripConfig (plConfig : PluginConfig) : PluginConfig :=
  {| DefaultConfig := stripBeegfsConfig (DefaultConfig plConfig);
     FileSystemSpecificConfigs :=
       map (λ config, {| SysMgmtdHost := SysMgmtdHost config;
                         Config := stripBeegfsConfig (Config config) |})
           (FileSystemSpecificConfigs plConfig) |}.

(** The body of [parseConfigFromFile] once the file is unmarshalled into
    [rawConfig]: the node specific configurations that apply are written
    over the plugin configuration of the file, the result is validated
    and stripped. *)
Definition newPluginConfigFromRaw (rawConfig : pluginConfigFromFile) (nodeID : string)
    : result PluginConfig :=
  let* newPluginConfig := overwriteFromNodes nodeID (filePluginConfig rawConfig)
                            (NodeSpecificConfigs rawConfig) in
  match validateConfig newPluginConfig with
  | Some e => Err (errors_Wrap e "config validation failed")
  | None => Ok (stripConfig newPluginConfig)
  end.

(** [parseConfigFromFile(path, nodeID)].  [ReadFile] is the file system
    and [UnmarshalStrict] the YAML decoder for [pluginConfigFromFile]. *)
Definition parseConfigFromFile
    (ReadFile : string → result string)
    (UnmarshalStrict : string → result pluginConfigFromFile)
    (path nodeID : string) : result PluginConfig :=
  match ReadFile path with
  | Panic p => Panic p
  | Err e => Err (errors_Wrap e "failed to read configuration file")
  | Ok rawConfigBytes =>
      match UnmarshalStrict rawConfigBytes with
      | Panic p => Panic p
      | Err e => Err (errors_Wrap e "failed to unmarshal configuration file")
      | Ok rawConfig => newPluginConfigFromRaw rawConfig nodeID
      end
  end.

(** The inner loop of [parseConnAuthFromFile]: the first configuration
    with the host of [auth] takes its ConnAuth; the flag is
    [foundMatchingConfig]. *)
Fixpoint setConnAuth (configs : list FileSystemSpecificConfig) (auth : connAuthConfig)
    : list FileSystemSpecificConfig * bool :=
  match configs with
  | [] => ([], false)
  | specificConfig :: rest =>
      if bool_decide (authSysMgmtdHost auth = SysMgmtdHost specificConfig) then
        ({| SysMgmtdHost := SysMgmtdHost specificConfig;
            Config := {| ConnInterfaces := ConnInterfaces (Config specificConfig);
                         ConnNetFilter := ConnNetFilter (Config specificConfig);
                         ConnTcpOnlyFilter := ConnTcpOnlyFilter (Config specificConfig);
                         BeegfsClientConf := BeegfsClientConf (Config specificConfig);
                         connAuth := ConnAuth auth |} |} :: rest, true)
      else
        let '(rest', found) := setConnAuth rest auth in (specificConfig :: rest', found)
  end.

(** The outer loop of [parseConnAuthFromFile]. *)
Definition applyConnAuth (configs : list FileSystemSpecificConfig) (auth : connAuthConfig)
    : list FileSystemSpecificConfig :=
  let '(configs', foundMatchingConfig) := setConnAuth configs auth in
  if foundMatchingConfig then configs'
  else configs' ++ [{| SysMgmtdHost := authSysMgmtdHost auth;
                       Config := {| ConnInterfaces := None; ConnNetFilter := None;
                                    ConnTcpOnlyFilter := None; BeegfsClientConf := None;
                                    connAuth := ConnAuth auth |} |}].

(** The body of [parseConnAuthFromFile] once the file is unmarshalled
    into [connAuthConfigs]. *)
Definition addConnAuth (connAuthConfigs : list connAuthConfig) (newPluginConfig : PluginConfig)
    : PluginConfig :=
  {| DefaultConfig := DefaultConfig newPluginConfig;
     FileSystemSpecificConfigs :=
       fold_left applyConnAuth connAuthConfigs (FileSystemSpecificConfigs newPluginConfig) |}.

(** [parseConnAuthFromFile(path, newPluginConfig)]: the plugin
    configuration with the connAuth information of the file. *)
Definition parseConnAuthFromFile
    (ReadFile : string → result string)
    (UnmarshalStrict : string → result (list connAuthConfig))
    (path : string) (newPluginConfig : PluginConfig) : result PluginConfig :=
  match ReadFile path with
  | Panic p => Panic p
  | Err e => Err (errors_Wrap e "failed to read connAuth file")
  | Ok rawConnAuthConfigBytes =>
      match UnmarshalStrict rawConnAuthConfigBytes with
      | Panic p => Panic p
      | Err e => Err (errors_Wrap e "failed to unmarshal connAuth file")
      | Ok connAuthConfigs => Ok (addConnAuth connAuthConfigs newPluginConfig)
      end
  end.

(** The loop of [squashConfigForSysMgmtdHost]. *)
Fixpoint squashLoop (sysMgmtdHost : string) (returnConfig : beegfsConfig)
    (configs : list FileSystemSpecificConfig) : result beegfsConfig :=
  match configs with
  | [] => Ok returnConfig
  | fileSystemSpecificConfig :: rest =>
      if bool_decide (sysMgmtdHost = SysMgmtdHost fileSystemSpecificConfig) then
        let* r := overwriteFrom returnConfig (Config fileSystemSpecificConfig) in
        squashLoop sysMgmtdHost r rest
      else squashLoop sysMgmtdHost returnConfig rest
  end.

(** [squashConfigForSysMgmtdHost]: the default configuration combined
    with the overrides for the host, which take preference. *)
Definition squashConfigForSysMgmtdHost (sysMgmtdHost : string) (config : PluginConfig)
    : result beegfsConfig :=
  let* returnConfig := overwriteFrom newBeegfsConfig (DefaultConfig config) in
  squashLoop sysMgmtdHost returnConfig (FileSystemSpecificConfigs config).

(** ** Package [crypto/sha1] and the verb [%x] of [fmt] *)
Module GoSha1.

Local Open Scope Z_scope.

(** 32-bit words are integers below [2^32]; addition wraps around. *)
Definition wrap (x : Z) : Z := x mod 2 ^ 32.
Definition add32 (x y : Z) : Z := wrap (x + y).
Definition rotl (n x : Z) : Z := wrap (Z.lor (Z.shiftl x n) (Z.shiftr x (32 - n))).
Definition not32 (x : Z) : Z := Z.lxor x (2 ^ 32 - 1).

(** The padded message: the byte [0x80], zero bytes up to 56 modulo 64,
    and the bit length as a 64-bit big-endian number. *)
Definition be_bytes (n : nat) (x : Z) : list Z :=
  map (λ i, Z.land (Z.shiftr x (8 * Z.of_nat i)) 255) (rev (seq 0 n)).

Definition padding (msg : list Z) : list Z :=
  let l := Z.of_nat (length msg) in
  let zeros := Z.to_nat ((55 - l) mod 64) in
  msg ++ [128] ++ replicate zeros 0 ++ be_bytes 8 (8 * l).

(** A big-endian word of four bytes. *)
Definition word_of (b : list Z) : Z :=
  fold_left (λ acc x, Z.lor (Z.shiftl acc 8) x) b 0.

(** The blocks of [size] items of a list, [fuel] bounding their number. *)
Fixpoint chunks {A : Type} (fuel size : nat) (l : list A) : list (list A) :=
  match fuel with
  | O => []
  | S fuel' =>
      match l with
      | [] => []
      | _ => firstn size l :: chunks fuel' size (skipn size l)
      end
  end.

(** The message schedule, most recent word first: [k] more words are
    added to [rw]. *)
Fixpoint schedule (k : nat) (rw : list Z) : list Z :=
  match k with
  | O => rw
  | S k' =>
      let w := rotl 1 (Z.lxor (Z.lxor (nth 2 rw 0) (nth 7 rw 0))
                              (Z.lxor (nth 13 rw 0) (nth 15 rw 0))) in
      schedule k' (w :: rw)
  end.

(** The chaining value and the working variables. *)
Record state : Type := { h0 : Z; h1 : Z; h2 : Z; h3 : Z; h4 : Z }.

Definition init : state :=
  {| h0 := 0x67452301; h1 := 0xEFCDAB89; h2 := 0x98BADCFE; h3 := 0x10325476;
     h4 := 0xC3D2E1F0 |}.

Definition round (t : nat) (s : state) (w : Z) : state :=
  let '(a, b, c, d, e) := (h0 s, h1 s, h2 s, h3 s, h4 s) in
  let '(f, k) :=
    if (t <? 20)%nat then (Z.lor (Z.land b c) (Z.land (not32 b) d), 0x5A827999)
    else if (t <? 40)%nat then (Z.lxor (Z.lxor b c) d, 0x6ED9EBA1)
    else if (t <? 60)%nat then
      (Z.lor (Z.lor (Z.land b c) (Z.land b d)) (Z.land c d), 0x8F1BBCDC)
    else (Z.lxor (Z.lxor b c) d, 0xCA62C1D6) in
  let temp := add32 (add32 (add32 (add32 (rotl 5 a) f) e) k) w in
  {| h0 := temp; h1 := a; h2 := rotl 30 b; h3 := c; h4 := d |}.

Fixpoint rounds (t : nat) (s : state) (ws : list Z) : state :=
  match ws with
  | [] => s
  | w :: ws' => rounds (S t) (round t s w) ws'
  end.

(** One 64-byte block. *)
Definition block (s : state) (b : list Z) : state :=
  let w16 := map word_of (chunks 16 4 b) in
  let ws := rev (schedule 64 (rev w16)) in
  let r := rounds 0 s ws in
  {| h0 := add32 (h0 s) (h0 r); h1 := add32 (h1 s) (h1 r); h2 := add32 (h2 s) (h2 r);
     h3 := add32 (h3 s) (h3 r); h4 := add32 (h4 s) (h4 r) |}.

Definition bytes_of_string (s : string) : list Z :=
  map (λ c, Z.of_nat (nat_of_ascii c)) (list_ascii_of_string s).

(** [sha1.Sum(data)]: the 20-byte checksum. *)
Definition Sum (data : string) : list Z :=
  let msg := padding (bytes_of_string data) in
  let s := fold_left block (chunks (length msg) 64 msg) init in
  be_bytes 4 (h0 s) ++ be_bytes 4 (h1 s) ++ be_bytes 4 (h2 s)
    ++ be_bytes 4 (h3 s) ++ be_bytes 4 (h4 s).

Definition hex_digit (n : Z) : ascii :=
  if n <? 10 then Byte.ofZ (48 + n) else Byte.ofZ (87 + n).

(** [fmt.Sprintf("%x", b)] of a byte array: two lower-case hexadecimal
    digits for each byte. *)
Fixpoint Sprintf_x (b : list Z) : string :=
  match b with
  | [] => EmptyString
  | x :: b' => String (hex_digit (Z.shiftr x 4)) (String (hex_digit (Z.land x 15)) (Sprintf_x b'))
  end.

End GoSha1.

(** * Volume identities ([beegfs_util.go]) *)

(** [sanitizeVolumeID] takes a volumeID like
    beegfs://127.0.0.1/scratch/vol1 and returns a string like
    127.0.0.1_scratch_vol1; any _ becomes __; the sha1 hash of the
    volumeID is returned if the result would be over 255 characters. *)
Definition sanitizeVolumeID (volumeID : string) : string :=
  let sanitizedVolumeID := GoStrings.Replace volumeID "beegfs://" "" 1 in
  let sanitizedVolumeID := GoStrings.Replace sanitizedVolumeID "_" "__" (-1) in
  let sanitizedVolumeID := GoStrings.Replace sanitizedVolumeID "/" "_" (-1) in
  if (255 <? String.length sanitizedVolumeID)%nat
  then GoSha1.Sprintf_x (GoSha1.Sum volumeID)
  else sanitizedVolumeID.

(** ** Package [path] *)
Module GoPath.

(** One path element applied to the elements kept so far (last element
    first).  An empty element and [.] are dropped; [..] removes the last
    element, is dropped at the root, and is kept in front of a path that
    is not rooted. *)
Definition step (rooted : bool) (out : list string) (elem : string) : list string :=
  if String.eqb elem "" || String.eqb elem "." then out
  else if String.eqb elem ".." then
    match out with
    | top :: rest => if String.eqb top ".." then elem :: out else rest
    | [] => if rooted then [] else [elem]
    end
  else elem :: out.

(** [path.Clean(path)]: the shortest path name equivalent to [path] by
    purely lexical processing. *)
Definition Clean (path : string) : string :=
  match path with
  | EmptyString => "."
  | String c _ =>
      let rooted := Ascii.eqb c "/" in
      let out := fold_left (step rooted) (GoStrings.SplitByte path "/") [] in
      if rooted then "/" +:+ GoStrings.Join (rev out) "/"
      else match out with
           | [] => "."
           | _ => GoStrings.Join (rev out) "/"
           end
  end.

(** The buffer of [path.Join]: leading empty elements are skipped, the
    others are separated by slashes. *)
Fixpoint join_buf (buf : string) (elem : list string) : string :=
  match elem with
  | [] => buf
  | e :: rest =>
      match buf, e with
      | EmptyString, EmptyString => join_buf buf rest
      | EmptyString, _ => join_buf e rest
      | _, _ => join_buf (buf +:+ "/" +:+ e) rest
      end
  end.

(** [path.Join(elem...)]. *)
Definition Join (elem : list string) : string :=
  if forallb (String.eqb "") elem then "" else Clean (join_buf "" elem).

End GoPath.

(** ** Package [net/url] (Go 1.16) *)
Module GoUrl.

Inductive encoding : Type :=
| encodePath | encodePathSegment | encodeHost | encodeZone
| encodeUserPassword | encodeQueryComponent | encodeFragment.

#[global] Instance encoding_eq_dec : EqDecision encoding.
Proof. solve_decision. Defined.

(** [shouldEscape(c, mode)]: the byte must be escaped when it appears in
    the given part of a URL. *)
Definition shouldEscape (c : ascii) (mode : encoding) : bool :=
  if Byte.isAlnum c then false
  else if (bool_decide (mode = encodeHost) || bool_decide (mode = encodeZone))
          && (Byte.oneOf "!$&'()*+,;=:[]<>" c || Ascii.eqb c (ascii_of_nat 34)) then false
  else if Byte.oneOf "-_.~" c then false
  else if Byte.oneOf "$&+,/:;=?@" c then
    match mode with
    | encodePath => Ascii.eqb c "?"
    | encodePathSegment => Byte.oneOf "/;,?" c
    | encodeUserPassword => Byte.oneOf "@/?:" c
    | encodeQueryComponent => true
    | encodeFragment => false
    | _ => true
    end
  else if bool_decide (mode = encodeFragment) && Byte.oneOf "!()*" c then false
  else true.

Definition upperhex (n : Z) : ascii :=
  if (n <? 10)%Z then Byte.ofZ (48 + n) else Byte.ofZ (55 + n).

(** [escape(s, mode)]. *)
Fixpoint escape (s : string) (mode : encoding) : string :=
  match s with
  | EmptyString => EmptyString
  | String c s' =>
      if negb (shouldEscape c mode) then String c (escape s' mode)
      else if Ascii.eqb c " " && bool_decide (mode = encodeQueryComponent)
      then String "+" (escape s' mode)
      else String "%" (String (upperhex (Z.shiftr (Byte.code c) 4))
                         (String (upperhex (Z.land (Byte.code c) 15)) (escape s' mode)))
  end.

Definition ishex (c : ascii) : bool :=
  Byte.isDigit c || Byte.between "a" "f" c || Byte.between "A" "F" c.

Definition unhex (c : ascii) : Z :=
  if Byte.isDigit c then Byte.code c - Byte.code "0"
  else if Byte.between "a" "f" c then Byte.code c - Byte.code "a" + 10
  else if Byte.between "A" "F" c then Byte.code c - Byte.code "A" + 10
  else 0.

(** The first pass of [unescape]: every [%] must start a well-formed
    escape, and a host admits neither an escaped ASCII byte (but [%25])
    nor a byte that would have to be escaped.  [Some e] is the error. *)
Fixpoint unescape_check (s : string) (mode : encoding) : option string :=
  match s with
  | EmptyString => None
  | String c s' =>
      if Ascii.eqb c "%" then
        match s' with
        | String a (String b rest) =>
            if negb (ishex a) || negb (ishex b)
            then Some ("invalid URL escape " +:+ GoStrings.Quote (GoStrings.take 3 s))
            else if bool_decide (mode = encodeHost) && (unhex a <? 8)%Z
                    && negb (String.eqb (GoStrings.take 3 s) "%25")
            then Some ("invalid URL escape " +:+ GoStrings.Quote (GoStrings.take 3 s))
            else if bool_decide (mode = encodeZone)
                    && negb (String.eqb (GoStrings.take 3 s) "%25")
                    && negb (Ascii.eqb (Byte.ofZ (Z.lor (Z.shiftl (unhex a) 4) (unhex b))) " ")
                    && shouldEscape (Byte.ofZ (Z.lor (Z.shiftl (unhex a) 4) (unhex b))) encodeHost
            then Some ("invalid URL escape " +:+ GoStrings.Quote (GoStrings.take 3 s))
            else unescape_check rest mode
        | _ => Some ("invalid URL escape " +:+ GoStrings.Quote (GoStrings.take 3 s))
        end
      else if (bool_decide (mode = encodeHost) || bool_decide (mode = encodeZone))
              && (Byte.code c <? 128)%Z && shouldEscape c encodeHost
      then Some ("invalid character " +:+ GoStrings.Quote (String c "") +:+ " in host name")
      else unescape_check s' mode
  end.

(** The second pass of [unescape], on checked input. *)
Fixpoint unescape_decode (s : string) (mode : encoding) : string :=
  match s with
  | EmptyString => EmptyString
  | String c s' =>
      if Ascii.eqb c "%" then
        match s' with
        | String a (String b rest) =>
            String (Byte.ofZ (Z.lor (Z.shiftl (unhex a) 4) (unhex b))) (unescape_decode rest mode)
        | _ => EmptyString
        end
      else if Ascii.eqb c "+" && bool_decide (mode = encodeQueryComponent)
      then String " " (unescape_decode s' mode)
      else String c (unescape_decode s' mode)
  end.

(** [unescape(s, mode)]. *)
Definition unescape (s : string) (mode : encoding) : result string :=
  match unescape_check s mode with
  | Some e => Err e
  | None => Ok (unescape_decode s mode)
  end.

(** [Userinfo]: the user name and the optional password. *)
Record Userinfo : Type := {
  username : string;
  password : string;
  passwordSet : bool
}.

(** [url.URL]. *)
Record URL : Type := {
  Scheme : string;
  Opaque : string;
  User : option Userinfo;
  Host : string;
  Path : string;
  RawPath : string;
  ForceQuery : bool;
  RawQuery : string;
  Fragment : string;
  RawFragment : string
}.

(** [validEncoded(s, mode)]. *)
Definition validEncoded (s : string) (mode : encoding) : bool :=
  GoStrings.all_bytes
    (λ c, Byte.oneOf "!$&'()*+,;=:@[]%" c || negb (shouldEscape c mode)) s.

(** [URL.EscapedPath()]. *)
Definition EscapedPath (u : URL) : string :=
  if negb (String.eqb (RawPath u) "") && validEncoded (RawPath u) encodePath
     && bool_decide (unescape (RawPath u) encodePath = Ok (Path u))
  then RawPath u
  else if String.eqb (Path u) "*" then "*"
  else escape (Path u) encodePath.

(** [URL.EscapedFragment()]. *)
Definition EscapedFragment (u : URL) : string :=
  if negb (String.eqb (RawFragment u) "") && validEncoded (RawFragment u) encodeFragment
     && bool_decide (unescape (RawFragment u) encodeFragment = Ok (Fragment u))
  then RawFragment u
  else escape (Fragment u) encodeFragment.

(** [Userinfo.String()]. *)
Definition Userinfo_String (u : Userinfo) : string :=
  escape (username u) encodeUserPassword
  +:+ (if passwordSet u then ":" +:+ escape (password u) encodeUserPassword else "").

Definition nonempty (s : string) : bool := negb (String.eqb s "").

Definition firstIs (s : string) (c : ascii) : bool :=
  match s with
  | String a _ => Ascii.eqb a c
  | EmptyString => false
  end.

(** [URL.String()]: scheme://userinfo@host/path?query#fragment, or
    scheme:opaque?query#fragment. *)
Definition String_ (u : URL) : string :=
  let buf := if nonempty (Scheme u) then Scheme u +:+ ":" else "" in
  let buf :=
    if nonempty (Opaque u) then buf +:+ Opaque u
    else
      let buf :=
        if nonempty (Scheme u) || nonempty (Host u) || bool_decide (User u ≠ None) then
          let buf :=
            if nonempty (Host u) || nonempty (Path u) || bool_decide (User u ≠ None)
            then buf +:+ "//" else buf in
          let buf :=
            match User u with
            | Some ui => buf +:+ Userinfo_String ui +:+ "@"
            | None => buf
            end in
          if nonempty (Host u) then buf +:+ escape (Host u) encodeHost else buf
        else buf in
      let path := EscapedPath u in
      let buf :=
        if nonempty path && negb (firstIs path "/") && nonempty (Host u)
        then buf +:+ "/" else buf in
      let buf :=
        match buf with
        | EmptyString =>
            match GoStrings.cut path ":" with
            | (before, Some _) => if GoStrings.Contains before "/" then buf else "./"
            | (_, None) => buf
            end
        | _ => buf
        end in
      buf +:+ path in
  let buf :=
    if ForceQuery u || nonempty (RawQuery u) then buf +:+ "?" +:+ RawQuery u else buf in
  if nonempty (Fragment u) then buf +:+ "#" +:+ EscapedFragment u else buf.

(** The scan of [getscheme]; [i] is the number of bytes passed. *)
Fixpoint getscheme_scan (rawurl s : string) (i : nat) : result (string * string) :=
  match s with
  | EmptyString => Ok ("", rawurl)
  | String c s' =>
      if Byte.isAlpha c then getscheme_scan rawurl s' (S i)
      else if Byte.isDigit c || Byte.oneOf "+-." c then
        if (i =? 0)%nat then Ok ("", rawurl) else getscheme_scan rawurl s' (S i)
      else if Ascii.eqb c ":" then
        if (i =? 0)%nat then Err "missing protocol scheme"
        else Ok (GoStrings.take i rawurl, s')
      else Ok ("", rawurl)
  end.

(** [getscheme(rawurl)]: the scheme and the rest. *)
Definition getscheme (rawurl : string) : result (string * string) :=
  getscheme_scan rawurl rawurl O.

(** [split(s, sep, cutc)]: the parts before and from the first [sep]. *)
Definition split (s : string) (sep : ascii) (cutc : bool) : string * string :=
  match GoStrings.cut s sep with
  | (h, Some t) => (h, if cutc then t else String sep t)
  | (h, None) => (h, "")
  end.

Definition stringContainsCTLByte (s : string) : bool :=
  negb (GoStrings.all_bytes
          (λ c, negb ((Byte.code c <? 32)%Z || (Byte.code c =? 127)%Z)) s).

(** [validOptionalPort(port)]: empty, or a colon and digits. *)
Definition validOptionalPort (port : string) : bool :=
  match port with
  | EmptyString => true
  | String c digits => Ascii.eqb c ":" && GoStrings.all_bytes Byte.isDigit digits
  end.

Definition validUserinfo (s : string) : bool :=
  GoStrings.all_bytes (λ c, Byte.isAlnum c || Byte.oneOf "-._:~!$&'()*+,;=%@" c) s.

(** [parseHost(host)]: an authority without user information. *)
Definition parseHost (host : string) : result string :=
  if GoStrings.HasPrefix host "[" then
    match GoStrings.LastIndex host "]" with
    | None => Err "missing ']' in host"
    | Some i =>
        let colonPort := GoStrings.drop (S i) host in
        if negb (validOptionalPort colonPort)
        then Err ("invalid port " +:+ GoStrings.Quote colonPort +:+ " after host")
        else
          match GoStrings.Index (GoStrings.take i host) "%25" with
          | Some zone =>
              let* host1 := unescape (GoStrings.take zone host) encodeHost in
              let* host2 := unescape (GoStrings.drop zone (GoStrings.take i host)) encodeZone in
              let* host3 := unescape (GoStrings.drop i host) encodeHost in
              Ok (host1 +:+ host2 +:+ host3)
          | None => unescape host encodeHost
          end
    end
  else
    match GoStrings.LastIndex host ":" with
    | Some i =>
        let colonPort := GoStrings.drop i host in
        if negb (validOptionalPort colonPort)
        then Err ("invalid port " +:+ GoStrings.Quote colonPort +:+ " after host")
        else unescape host encodeHost
    | None => unescape host encodeHost
    end.

(** [parseAuthority(authority)]: the user information and the host. *)
Definition parseAuthority (authority : string) : result (option Userinfo * string) :=
  match GoStrings.LastIndex authority "@" with
  | None =>
      let* host := parseHost authority in Ok (None, host)
  | Some i =>
      let* host := parseHost (GoStrings.drop (S i) authority) in
      let userinfo := GoStrings.take i authority in
      if negb (validUserinfo userinfo) then Err "net/url: invalid userinfo"
      else if negb (GoStrings.Contains userinfo ":") then
        let* name := unescape userinfo encodeUserPassword in
        Ok (Some {| username := name; password := ""; passwordSet := false |}, host)
      else
        let '(name, pass) := split userinfo ":" true in
        let* name := unescape name encodeUserPassword in
        let* pass := unescape pass encodeUserPassword in
        Ok (Some {| username := name; password := pass; passwordSet := true |}, host)
  end.

(** [parse(rawurl, viaRequest = false)]. *)
Definition parse (rawurl : string) : result URL :=
  let mk scheme opaque user host path rawpath force query :=
    {| Scheme := scheme; Opaque := opaque; User := user; Host := host; Path := path;
       RawPath := rawpath; ForceQuery := force; RawQuery := query;
       Fragment := ""; RawFragment := "" |} in
  if stringContainsCTLByte rawurl then Err "net/url: invalid control character in URL"
  else if String.eqb rawurl "*" then Ok (mk "" "" None "" "*" "" false "")
  else
    let* (scheme0, rest) := getscheme rawurl in
    let scheme := GoStrings.ToLower scheme0 in
    let '(rest, force, query) :=
      if GoStrings.HasSuffix rest "?" && (GoStrings.CountByte rest "?" =? 1)%nat
      then (GoStrings.take (String.length rest - 1) rest, true, "")
      else let '(r, q) := split rest "?" true in (r, false, q) in
    if negb (GoStrings.HasPrefix rest "/") && nonempty scheme
    then Ok (mk scheme rest None "" "" "" force query)
    else
      let colon_first :=
        match GoStrings.cut rest ":" with
        | (before, Some _) => negb (GoStrings.Contains before "/")
        | (_, None) => false
        end in
      if negb (GoStrings.HasPrefix rest "/") && colon_first
      then Err "first path segment in URL cannot contain colon"
      else
        let* (user, host, rest) :=
          if (nonempty scheme || negb (GoStrings.HasPrefix rest "///"))
             && GoStrings.HasPrefix rest "//"
          then
            let '(authority, rest') := split (GoStrings.drop 2 rest) "/" false in
            let* (user, host) := parseAuthority authority in
            Ok (user, host, rest')
          else Ok (None, "", rest) in
        let* path := unescape rest encodePath in
        let rawpath := if String.eqb rest (escape path encodePath) then "" else rest in
        Ok (mk scheme "" user host path rawpath force query).

(** The message of [&Error{"parse", url, err}]. *)
Definition parseError (url err : string) : string :=
  "parse " +:+ GoStrings.Quote url +:+ ": " +:+ err.

(** [url.Parse(rawurl)]: the fragment is cut off and set afterwards. *)
Definition Parse (rawurl : string) : result URL :=
  let '(u, frag) := split rawurl "#" true in
  match parse u with
  | Panic p => Panic p
  | Err e => Err (parseError u e)
  | Ok url =>
      if String.eqb frag "" then Ok url
      else
        match unescape frag encodeFragment with
        | Panic p => Panic p
        | Err e => Err (parseError rawurl e)
        | Ok f =>
            Ok {| Scheme := Scheme url; Opaque := Opaque url; User := User url;
                  Host := Host url; Path := Path url; RawPath := RawPath url;
                  ForceQuery := ForceQuery url; RawQuery := RawQuery url; Fragment := f;
                  RawFragment := if String.eqb frag (escape f encodeFragment) then ""
                                 else frag |}
        end
  end.

End GoUrl.

(** [newBeegfsUrl] converts the sysMgmtdHost and path into a URL with the
    format beegfs://host/path. *)
Definition newBeegfsUrl (host path : string) : string :=
  let structURL :=
    {| GoUrl.Scheme := "beegfs"; GoUrl.Opaque := ""; GoUrl.User := None;
       GoUrl.Host := host; GoUrl.Path := path; GoUrl.RawPath := "";
       GoUrl.ForceQuery := false; GoUrl.RawQuery := ""; GoUrl.Fragment := "";
       GoUrl.RawFragment := "" |} in
  GoUrl.String_ structURL.

(** [parseBeegfsUrl] parses a URL with the format beegfs://host/path
    and returns the sysMgmtdHost and path. *)
Definition parseBeegfsUrl (rawUrl : string) : result (string * string) :=
  match GoUrl.Parse rawUrl with
  | Panic p => Panic p
  | Err e => Err e
  | Ok structUrl =>
      if negb (String.eqb (GoUrl.Scheme structUrl) "beegfs")
      then Err "URL has incorrect scheme"
      else Ok (GoUrl.Host structUrl, GoUrl.Path structUrl)
  end.

(** * Diagnostic serialization ([MarshalJSON]) *)

(** ** Package [encoding/json], for the types that are logged.
    [encodeString] is the string encoder of the package (quoting and
    escaping), a parameter of everything below. *)
Module GoJson.

(** The key of a struct field, whose name needs no escaping. *)
Definition key (name : string) : string := GoStrings.Quote name +:+ ":".

(** A [[]string]: [null] for the nil slice, else an array. *)
Definition encodeSlice (encodeString : string → string) (s : option (list string)) : string :=
  match s with
  | None => "null"
  | Some l => "[" +:+ String.concat "," (map encodeString l) +:+ "]"
  end.

Fixpoint insertEntry (kv : string * string) (l : list (string * string)) : list (string * string) :=
  match l with
  | [] => [kv]
  | x :: rest => if String.leb (fst kv) (fst x) then kv :: l else x :: insertEntry kv rest
  end.

(** The entries of a map in the order of their keys. *)
Definition sortedEntries (m : gmap string string) : list (string * string) :=
  foldr insertEntry [] (map_to_list m).

(** A [map[string]string]: [null] for the nil map, else an object with
    the keys sorted. *)
Definition encodeMap (encodeString : string → string) (m : option (gmap string string)) : string :=
  match m with
  | None => "null"
  | Some g =>
      "{" +:+ String.concat ","
                (map (λ kv, encodeString (fst kv) +:+ ":" +:+ encodeString (snd kv))
                     (sortedEntries g)) +:+ "}"
  end.

(** A struct: its encoded fields between braces. *)
Definition encodeStruct (fields : list string) : string :=
  "{" +:+ String.concat "," fields +:+ "}".

End GoJson.

(** [beegfsConfig.MarshalJSON]: an anonymous struct with an exported
    ConnAuth field (omitted when empty) and the embedded alias of the
    configuration, whose unexported connAuth is not encoded. *)
Definition beegfsConfig_MarshalJSON (encodeString : string → string) (c : beegfsConfig) : string :=
  let connAuthString := if bool_decide (connAuth c ≠ "") then "******" else "" in
  GoJson.encodeStruct
    ((if bool_decide (connAuthString = "") then []
      else [GoJson.key "ConnAuth" +:+ encodeString connAuthString])
     ++ [GoJson.key "ConnInterfaces" +:+ GoJson.encodeSlice encodeString (ConnInterfaces c);
         GoJson.key "ConnNetFilter" +:+ GoJson.encodeSlice encodeString (ConnNetFilter c);
         GoJson.key "ConnTcpOnlyFilter" +:+ GoJson.encodeSlice encodeString (ConnTcpOnlyFilter c);
         GoJson.key "BeegfsClientConf" +:+ GoJson.encodeMap encodeString (BeegfsClientConf c)]).

(** [connAuthConfig.MarshalJSON]: the alias with ConnAuth replaced. *)
Definition connAuthConfig_MarshalJSON (encodeString : string → string) (c : connAuthConfig) : string :=
  let connAuthString := if bool_decide (ConnAuth c ≠ "") then "******" else "" in
  GoJson.encodeStruct
    [GoJson.key "SysMgmtdHost" +:+ encodeString (authSysMgmtdHost c);
     GoJson.key "ConnAuth" +:+ encodeString connAuthString].

(** * Mounting, unmounting and the controller service *)

(** [mount.MountPoint] of k8s.io/utils/mount. *)
Record MountPoint : Type := {
  Device : string;
  mountPointPath : string;
  mountPointType : string;
  Opts : list string
}.

(** [beegfsVolume], with the fields the functions below read. *)
Record beegfsVolume : Type := {
  config : beegfsConfig;
  clientConfPath : string;
  mountDirPath : string;
  mountPath : string;
  volSysMgmtdHost : string;
  volDirBasePathBeegfsRoot : string;
  volDirPathBeegfsRoot : string;
  volDirPath : string;
  volumeID : string
}.

(** What a request does to the world outside, in order. *)
Inductive Event : Type :=
| EvObtainLock (id : string) (obtained : bool)
| EvReleaseLock (id : string)
| EvMounterList
| EvCleanupMountPoint (path : string)
| EvReadDir (path : string)
| EvRemoveAll (path : string)
| EvMkdirAll (path : string)
| EvMkdir (path : string)
| EvIsLikelyNotMountPoint (path : string)
| EvMount (source target fstype : string) (opts : list string)
| EvWriteClientFiles (volumeID confTemplatePath : string)
| EvCreateDirectoryForVolume (volumeID : string)
| EvSetPatternForVolume (volumeID : string)
| EvStatDirectoryForVolume (volumeID : string)
| EvChmod (path : string).

(** The events that touch the file system, the mount table or the
    BeeGFS file system. *)
Definition isFileSystemEvent (e : Event) : bool :=
  match e with
  | EvObtainLock _ _ | EvReleaseLock _ => false
  | _ => true
  end.

(** The answer of [statDirectoryForVolume]. *)
Inductive statAnswer : Type :=
| StatOk
| StatNotExist (e : string)
| StatErr (e : string)
| StatPanic (p : string).

(** The external collaborators: the mounter, the file system, the
    beegfs-ctl executor and the writer of the client files.  Each answer
    may depend on everything that happened before. *)
Record Env : Type := {
  mounter_List : list Event → result (list MountPoint);
  mount_CleanupMountPoint : list Event → string → result unit;
  mounter_IsLikelyNotMountPoint : list Event → string → result bool;
  os_IsNotExist : string → bool;
  os_Mkdir : list Event → string → result unit;
  mounter_Mount : list Event → string → string → string → list string → result unit;
  ioutil_ReadDir : list Event → string → result (list string);
  fs_RemoveAll : list Event → string → result unit;
  fs_MkdirAll : list Event → string → result unit;
  os_Chmod : list Event → string → result unit;
  env_writeClientFiles : list Event → beegfsVolume → string → result unit;
  ctl_createDirectoryForVolume : list Event → beegfsVolume → result unit;
  ctl_setPatternForVolume : list Event → beegfsVolume → result unit;
  ctl_statDirectoryForVolume : list Event → beegfsVolume → statAnswer
}.

(** The state of the world a request runs in: the events so far and the
    volume identities in flight. *)
Record State : Type := {
  trace : list Event;
  inFlight : gset string
}.

(** A computation with effects. *)
Definition M (A : Type) : Type := State → result A * State.

Definition ret {A : Type} (a : A) : M A := λ st, (Ok a, st).

Definition fail {A : Type} (e : string) : M A := λ st, (Err e, st).

Definition andThen {A B : Type} (m : M A) (k : A → M B) : M B := λ st,
  match m st with
  | (Ok a, st') => k a st'
  | (Err e, st') => (Err e, st')
  | (Panic p, st') => (Panic p, st')
  end.

Notation "'do' x '<-' m 'in' k" := (andThen m (fun x => k))
  (at level 10, x pattern, m at level 100, k at level 200, only parsing).

(** A call of a collaborator: the event is recorded and the answer is
    the collaborator's. *)
Definition call {A : Type} (ev : Event) (answer : list Event → result A) : M A := λ st,
  (answer (trace st), {| trace := trace st ++ [ev]; inFlight := inFlight st |}).

(** [err] with a message in front, as [errors.Wrap] and
    [errors.WithMessage] do. *)
Definition wrapErr {A : Type} (msg : string) (m : M A) : M A := λ st,
  match m st with
  | (Err e, st') => (Err (errors_Wrap e msg), st')
  | r => r
  end.

(** The search of [unmountAndCleanUpIfNecessary] through the options of
    one mount table entry. *)
Definition optsReference (clientConfPath : string) (opts : list string) : bool :=
  existsb (λ opt, GoStrings.Contains opt clientConfPath) opts.

(** The loop of [unmountAndCleanUpIfNecessary] over the mount table: the
    first entry that is a bind mount of the file system mounted at
    [mountPath].  A file system may appear to be mounted at both
    /path/to/file/system and /host/path/to/file/system; these duplicates
    are not bind mounts, so the test is [!strings.Contains]. *)
Fixpoint findBindMount (vol : beegfsVolume) (allMounts : list MountPoint) : option MountPoint :=
  match allMounts with
  | [] => None
  | entry :: rest =>
      if String.eqb (Device entry) "beegfs_nodev"
         && negb (GoStrings.Contains (mountPointPath entry) (mountPath vol))
         && optsReference (clientConfPath vol) (Opts entry)
      then Some entry
      else findBindMount vol rest
  end.

(** The loop of [cleanUpIfNecessary] over the directory entries. *)
Fixpoint removeEntries (env : Env) (dirPath : string) (names : list string) : M unit :=
  match names with
  | [] => ret tt
  | d :: rest =>
      do _ <- call (EvRemoveAll (GoPath.Join [dirPath; d]))
                   (λ t, fs_RemoveAll env t (GoPath.Join [dirPath; d])) in
      removeEntries env dirPath rest
  end.

(** [cleanUpIfNecessary] deletes all files associated with a
    [beegfsVolume] that is not mounted, and [mountDirPath] itself if
    [rmDir] is set. *)
Definition cleanUpIfNecessary (env : Env) (vol : beegfsVolume) (rmDir : bool) : M unit :=
  if negb rmDir then
    do dir <- call (EvReadDir (mountDirPath vol)) (λ t, ioutil_ReadDir env t (mountDirPath vol)) in
    removeEntries env (mountDirPath vol) dir
  else
    call (EvRemoveAll (mountDirPath vol)) (λ t, fs_RemoveAll env t (mountDirPath vol)).

(** [unmountAndCleanUpIfNecessary] cleans up a mounted BeeGFS file
    system ONLY if it is not bind mounted somewhere else. *)
Definition unmountAndCleanUpIfNecessary (env : Env) (vol : beegfsVolume) (rmDir : bool) : M unit :=
  do allMounts <- wrapErr "error listing mounted filesystems"
                    (call EvMounterList (mounter_List env)) in
  match findBindMount vol allMounts with
  | Some entry =>
      fail ("refused to unmount staged file system at " +:+ mountPath vol
            +:+ " while bind mounted at " +:+ mountPointPath entry)
  | None =>
      do _ <- call (EvCleanupMountPoint (mountPath vol))
                   (λ t, mount_CleanupMountPoint env t (mountPath vol)) in
      wrapErr ("error cleaning up volume " +:+ volumeID vol) (cleanUpIfNecessary env vol rmDir)
  end.

(** [mountIfNecessary] mounts a BeeGFS file system to [vol.mountPath]
    unless it is mounted already. *)
Definition mountIfNecessary (env : Env) (vol : beegfsVolume) : M unit := λ st,
  let mountOpts := ["rw"; "relatime"; "cfgFile=" +:+ clientConfPath vol] in
  let mountIt : M unit :=
    call (EvMount "beegfs_nodev" (mountPath vol) "beegfs" mountOpts)
         (λ t, mounter_Mount env t "beegfs_nodev" (mountPath vol) "beegfs" mountOpts) in
  match call (EvIsLikelyNotMountPoint (mountPath vol))
             (λ t, mounter_IsLikelyNotMountPoint env t (mountPath vol)) st with
  | (Panic p, st') => (Panic p, st')
  | (Err e, st') =>
      if os_IsNotExist env e then
        (do _ <- call (EvMkdir (mountPath vol)) (λ t, os_Mkdir env t (mountPath vol)) in
         mountIt) st'
      else (Err e, st')
  | (Ok notMnt, st') => if negb notMnt then (Ok tt, st') else mountIt st'
  end.

(** ** The concurrency guard *)

(** Modelled from the spec: [threadSafeStringLock] is not in the sources
    at hand.  It is a registry of the identities that are held:
    acquiring returns false if the identity is already held, true and
    marks it held otherwise. *)
Definition obtainLockOnString (s : string) (st : State) : bool * State :=
  if bool_decide (s ∈ inFlight st)
  then (false, {| trace := trace st ++ [EvObtainLock s false]; inFlight := inFlight st |})
  else (true, {| trace := trace st ++ [EvObtainLock s true]; inFlight := {[s]} ∪ inFlight st |}).

(** Modelled from the spec: releasing marks the identity not held. *)
Definition releaseLockOnString (s : string) (st : State) : State :=
  {| trace := trace st ++ [EvReleaseLock s]; inFlight := inFlight st ∖ {[s]} |}.

(** ** The controller service *)

(** Modelled from the spec: the parameter names are declared outside the
    sources at hand; the CreateVolume scenario of the specification
    passes sysMgmtdHost and volDirBasePath. *)
Definition sysMgmtdHostKey : string := "sysMgmtdHost".
Definition volDirBasePathKey : string := "volDirBasePath".

(** The gRPC status codes the handlers use. *)
Inductive Code : Type :=
| InvalidArgument | Aborted | Internal | NotFound | Unimplemented.

(** The outcome of a handler: a response, a status error, or a panic
    that unwinds the handler. *)
Inductive reply (A : Type) : Type :=
| Reply (a : A)
| Status (code : Code) (msg : string)
| Panicked (p : string).
Arguments Reply {A} a.
Arguments Status {A} code msg.
Arguments Panicked {A} p.

(** A handler. *)
Definition H (A : Type) : Type := State → reply A * State.

(** A step of a handler whose error becomes a status with the given
    code ([newGrpcErrorFromCause]). *)
Definition step {A B : Type} (code : Code) (m : M A) (k : A → H B) : H B := λ st,
  match m st with
  | (Ok a, st') => k a st'
  | (Err e, st') => (Status code e, st')
  | (Panic p, st') => (Panicked p, st')
  end.

(** [defer d] around [body]: [d] runs when [body] is left, by a return
    or by a panic; a panic of [d] unwinds further. *)
Definition defer {A : Type} (d : State → option string * State) (body : H A) : H A := λ st,
  let '(r, st1) := body st in
  let '(p, st2) := d st1 in
  (match p with Some msg => Panicked msg | None => r end, st2).

(** The deferred clean-up closures: a failure to clean up is logged and
    not returned. *)
Definition logFailure (m : M unit) (st : State) : option string * State :=
  match m st with
  | (Panic p, st') => (Some p, st')
  | (_, st') => (None, st')
  end.

(** The deferred [releaseLockOnString]. *)
Definition release (s : string) (st : State) : option string * State :=
  (None, releaseLockOnString s st).

Record controllerServer : Type := {
  nodeID : string;
  pluginConfig : PluginConfig;
  clientConfTemplatePath : string;
  csDataDir : string
}.

Section Controller.

(** Types of the CSI protocol and of the package that the handlers only
    pass on. *)
Context {VolumeCapability permissionsConfig stripePatternConfig : Type}.

(** The functions of the package that the handlers call and that are not
    in the sources at hand, and the two parameter readers, whose loops
    over the request parameters matter here only by their outcome. *)
Record Package : Type := {
  isValidVolumeCapabilities : list VolumeCapability → bool * string;
  getPermissionsConfigFromParams : gmap string string → result permissionsConfig;
  getStripePatternConfigFromParams : gmap string string → result stripePatternConfig;
  hasSpecialPermissions : permissionsConfig → bool;
  newBeegfsVolume : string → string → string → PluginConfig → beegfsVolume;
  newBeegfsVolumeFromID : string → string → PluginConfig → result beegfsVolume
}.

Record CreateVolumeRequest : Type := {
  createName : string;
  createVolumeCapabilities : list VolumeCapability;
  createParameters : gmap string string
}.

Record DeleteVolumeRequest : Type := {
  deleteVolumeId : string
}.

Record ValidateVolumeCapabilitiesRequest : Type := {
  validateVolumeId : string;
  validateVolumeCapabilities : list VolumeCapability
}.

(** The responses: the identity of the created volume; nothing; the
    confirmed capabilities or the reason they are not confirmed. *)
Record CreateVolumeResponse : Type := { VolumeId : string }.

Inductive ValidateVolumeCapabilitiesResponse : Type :=
| Confirmed (caps : list VolumeCapability)
| NotConfirmed (message : string).

Variable pkg : Package.
Variable env : Env.

(** The method [newBeegfsVolume] of [controllerServer] selects the mountDirPath and
    passes the controller service's PluginConfig. *)
Definition cs_newBeegfsVolume (cs : controllerServer)
    (sysMgmtdHost volDirBasePathBeegfsRoot volName : string) : beegfsVolume :=
  let volDirPathBeegfsRoot := GoPath.Join [volDirBasePathBeegfsRoot; volName] in
  let volumeID := newBeegfsUrl sysMgmtdHost volDirPathBeegfsRoot in
  let mountDirPath := GoPath.Join [csDataDir cs; sanitizeVolumeID volumeID] in
  newBeegfsVolume pkg mountDirPath sysMgmtdHost volDirPathBeegfsRoot (pluginConfig cs).

(** The method [newBeegfsVolumeFromID] of [controllerServer]. *)
Definition cs_newBeegfsVolumeFromID (cs : controllerServer) (volumeID : string)
    : result beegfsVolume :=
  let mountDirPath := GoPath.Join [csDataDir cs; sanitizeVolumeID volumeID] in
  newBeegfsVolumeFromID pkg mountDirPath volumeID (pluginConfig cs).

(** [CreateVolume] generates a new volumeID and uses beegfs-ctl to create
    the directory on the BeeGFS file system. *)
Definition CreateVolume (cs : controllerServer) (req : CreateVolumeRequest)
    : H CreateVolumeResponse := λ st,
  let volName := createName req in
  if (String.length volName =? 0)%nat
  then (Status InvalidArgument "Volume name not provided", st) else
  let volCaps := createVolumeCapabilities req in
  if (length volCaps =? 0)%nat
  then (Status InvalidArgument "Volume capabilities not provided", st) else
  let '(valid, reason) := isValidVolumeCapabilities pkg volCaps in
  if negb valid
  then (Status InvalidArgument ("Volume capabilities not supported: " +:+ reason), st) else
  let reqParams := createParameters req in
  if (size reqParams =? 0)%nat
  then (Status InvalidArgument "Request parameters not provided", st) else
  match reqParams !! sysMgmtdHostKey with
  | None => (Status InvalidArgument (sysMgmtdHostKey +:+ " not provided"), st)
  | Some sysMgmtdHost =>
  match reqParams !! volDirBasePathKey with
  | None => (Status InvalidArgument (volDirBasePathKey +:+ " not provided"), st)
  | Some volDirBasePathBeegfsRoot =>
  let volDirBasePathBeegfsRoot := GoPath.Clean (GoPath.Join ["/"; volDirBasePathBeegfsRoot]) in
  match getPermissionsConfigFromParams pkg reqParams with
  | Panic p => (Panicked p, st)
  | Err e => (Status InvalidArgument e, st)
  | Ok permissionsConfig =>
  match getStripePatternConfigFromParams pkg reqParams with
  | Panic p => (Panicked p, st)
  | Err e => (Status InvalidArgument e, st)
  | Ok stripePatternConfig =>
  (* Construct an internal representation of the volume and ensure no
     other request is currently referencing it. *)
  let vol := cs_newBeegfsVolume cs sysMgmtdHost volDirBasePathBeegfsRoot volName in
  let '(obtained, st) := obtainLockOnString (volumeID vol) st in
  if negb obtained
  then (Status Aborted ("volumeID " +:+ volumeID vol +:+ " is in use by another request"), st)
  else
    defer (release (volumeID vol))
      (defer (logFailure (unmountAndCleanUpIfNecessary env vol true))
         (step Internal (call (EvMkdirAll (mountDirPath vol))
                              (λ t, fs_MkdirAll env t (mountDirPath vol))) (λ _,
          step Internal (call (EvWriteClientFiles (volumeID vol) (clientConfTemplatePath cs))
                              (λ t, env_writeClientFiles env t vol (clientConfTemplatePath cs))) (λ _,
          step Internal (call (EvCreateDirectoryForVolume (volumeID vol))
                              (λ t, ctl_createDirectoryForVolume env t vol)) (λ _,
          step Internal (call (EvSetPatternForVolume (volumeID vol))
                              (λ t, ctl_setPatternForVolume env t vol)) (λ _,
          if hasSpecialPermissions pkg permissionsConfig then
            step Internal (mountIfNecessary env vol) (λ _,
            step Internal (call (EvChmod (volDirPath vol))
                                (λ t, os_Chmod env t (volDirPath vol))) (λ _ st,
            (Reply {| VolumeId := volumeID vol |}, st)))
          else λ st, (Reply {| VolumeId := volumeID vol |}, st))))))) st
  end end end end.

(** [DeleteVolume] deletes the directory referenced in the volumeID from
    the BeeGFS file system referenced in the volumeID. *)
Definition DeleteVolume (cs : controllerServer) (req : DeleteVolumeRequest) : H unit := λ st,
  let volumeID_ := deleteVolumeId req in
  if (String.length volumeID_ =? 0)%nat
  then (Status InvalidArgument "Volume ID not provided", st) else
  match cs_newBeegfsVolumeFromID cs volumeID_ with
  | Panic p => (Panicked p, st)
  | Err e => (Status Internal e, st)
  | Ok vol =>
  let '(obtained, st) := obtainLockOnString (volumeID vol) st in
  if negb obtained
  then (Status Aborted ("volumeID " +:+ volumeID vol +:+ " is in use by another request"), st)
  else
    defer (release (volumeID vol))
      (defer (logFailure (unmountAndCleanUpIfNecessary env vol true))
         (step Internal (call (EvMkdirAll (mountDirPath vol))
                              (λ t, fs_MkdirAll env t (mountDirPath vol))) (λ _,
          step Internal (call (EvWriteClientFiles (volumeID vol) (clientConfTemplatePath cs))
                              (λ t, env_writeClientFiles env t vol (clientConfTemplatePath cs))) (λ _,
          step Internal (mountIfNecessary env vol) (λ _,
          step Internal (call (EvRemoveAll (volDirPath vol))
                              (λ t, fs_RemoveAll env t (volDirPath vol))) (λ _ st,
          (Reply tt, st))))))) st
  end.

(** The call of [statDirectoryForVolume] in
    [ValidateVolumeCapabilities], with its two error codes. *)
Definition statStep {B : Type} (vol : beegfsVolume) (k : H B) : H B := λ st,
  let st' := {| trace := trace st ++ [EvStatDirectoryForVolume (volumeID vol)];
                inFlight := inFlight st |} in
  match ctl_statDirectoryForVolume env (trace st) vol with
  | StatOk => k st'
  | StatNotExist e => (Status NotFound e, st')
  | StatErr e => (Status Internal e, st')
  | StatPanic p => (Panicked p, st')
  end.

(** [ValidateVolumeCapabilities]. *)
Definition ValidateVolumeCapabilities (cs : controllerServer)
    (req : ValidateVolumeCapabilitiesRequest) : H ValidateVolumeCapabilitiesResponse := λ st,
  let volumeID_ := validateVolumeId req in
  if (String.length volumeID_ =? 0)%nat
  then (Status InvalidArgument "Volume ID not provided", st) else
  let volCaps := validateVolumeCapabilities req in
  if (length volCaps =? 0)%nat
  then (Status InvalidArgument "Volume capabilities not provided", st) else
  match cs_newBeegfsVolumeFromID cs volumeID_ with
  | Panic p => (Panicked p, st)
  | Err e => (Status Internal e, st)
  | Ok vol =>
  let '(obtained, st) := obtainLockOnString (volumeID vol) st in
  if negb obtained
  then (Status Aborted ("volumeID " +:+ volumeID vol +:+ " is in use by another request"), st)
  else
    defer (release (volumeID vol))
      (defer (logFailure (cleanUpIfNecessary env vol true))
         (step Internal (call (EvMkdirAll (mountDirPath vol))
                              (λ t, fs_MkdirAll env t (mountDirPath vol))) (λ _,
          step Internal (call (EvWriteClientFiles (volumeID vol) (clientConfTemplatePath cs))
                              (λ t, env_writeClientFiles env t vol (clientConfTemplatePath cs))) (λ _,
          statStep vol (λ st,
            let '(confirmed, reason) := isValidVolumeCapabilities pkg volCaps in
            if confirmed then (Reply (Confirmed volCaps), st)
            else (Reply (NotConfirmed reason), st)))))) st
  end.

End Controller.

(** * The layering of the specification *)

(** The keys of a map, none for the nil map. *)
Definition mapOf (m : option (gmap string string)) : gmap string string := default ∅ m.

(** A map without the no-effect options. *)
Definition stripKeys (g : gmap string string) : gmap string string :=
  fold_left (λ g k, delete k g) noEffectBeegfsConfOptions g.

(** The override operation in the words of the specification: a list
    replaces the target's when it is not empty, the keys of the map are
    added to the target's and win over them, the secret replaces the
    target's when it is not empty.  Everything else stays. *)
Definition overwriteSpec (target fragment : beegfsConfig) : beegfsConfig :=
  let list_of (f : beegfsConfig → option (list string)) :=
    match elems (f fragment) with
    | [] => f target
    | l => Some l
    end in
  {| ConnInterfaces := list_of ConnInterfaces;
     ConnNetFilter := list_of ConnNetFilter;
     ConnTcpOnlyFilter := list_of ConnTcpOnlyFilter;
     BeegfsClientConf :=
       Some (mapOf (BeegfsClientConf fragment) ∪ mapOf (BeegfsClientConf target));
     connAuth := if bool_decide (connAuth fragment = "") then connAuth target
                 else connAuth fragment |}.

(** Layers applied to [x] from the lowest to the highest precedence. *)
Definition applyLayers (x : beegfsConfig) (layers : list beegfsConfig) : beegfsConfig :=
  fold_left overwriteSpec layers x.

Definition layered (layers : list beegfsConfig) : beegfsConfig :=
  applyLayers newBeegfsConfig layers.

Definition hostIs (h : string) (c : FileSystemSpecificConfig) : bool :=
  String.eqb h (SysMgmtdHost c).

(** The configurations for the host [h] in a list. *)
Definition hostConfigs (h : string) (l : list FileSystemSpecificConfig) : list beegfsConfig :=
  map Config (List.filter (hostIs h) l).

(** The layers of the configuration file for the backend [h] on the node
    [nodeID], lowest first: the global default; the default of every
    node-scoped fragment that applies, in file order; the global
    fragments for [h]; the fragments for [h] of every node-scoped
    fragment that applies, in file order. *)
Definition configLayers (rawConfig : pluginConfigFromFile) (nodeID h : string)
    : list beegfsConfig :=
  let nodes := List.filter (appliesToNode nodeID) (NodeSpecificConfigs rawConfig) in
  DefaultConfig (filePluginConfig rawConfig)
  :: map nodeDefaultConfig nodes
  ++ hostConfigs h (FileSystemSpecificConfigs (filePluginConfig rawConfig))
  ++ hostConfigs h (flat_map nodeFileSystemSpecificConfigs nodes).

(** An authentication entry as a fragment that sets the secret only. *)
Definition authLayer (a : connAuthConfig) : beegfsConfig :=
  {| ConnInterfaces := None; ConnNetFilter := None; ConnTcpOnlyFilter := None;
     BeegfsClientConf := None; connAuth := ConnAuth a |}.

Definition authIs (h : string) (a : connAuthConfig) : bool :=
  String.eqb h (authSysMgmtdHost a).

(** The effective configuration as the claim has it: the authentication
    entries for [h] are further layers on top. *)
Definition resolvedAsClaimed (rawConfig : pluginConfigFromFile) (nodeID : string)
    (auths : list connAuthConfig) (h : string) : beegfsConfig :=
  stripBeegfsConfig
    (layered (configLayers rawConfig nodeID h ++ map authLayer (List.filter (authIs h) auths))).

(** The secret of the last authentication entry for [h], if there is
    one. *)
Definition lastConnAuth (h : string) (auths : list connAuthConfig) : option string :=
  last (map ConnAuth (List.filter (authIs h) auths)).

Definition withConnAuth (s : option string) (c : beegfsConfig) : beegfsConfig :=
  match s with
  | None => c
  | Some a =>
      {| ConnInterfaces := ConnInterfaces c; ConnNetFilter := ConnNetFilter c;
         ConnTcpOnlyFilter := ConnTcpOnlyFilter c; BeegfsClientConf := BeegfsClientConf c;
         connAuth := a |}
  end.

(** The effective configuration as the code builds it: the layers of the
    configuration file, and the secret of the last authentication entry
    for [h], whether empty or not. *)
Definition resolved (rawConfig : pluginConfigFromFile) (nodeID : string)
    (auths : list connAuthConfig) (h : string) : beegfsConfig :=
  withConnAuth (lastConnAuth h auths)
    (stripBeegfsConfig (layered (configLayers rawConfig nodeID h))).

(** A configuration as the YAML decoder leaves it: no connAuth, which
    has no yaml tag. *)
Definition fsNoConnAuth (l : list FileSystemSpecificConfig) : Prop :=
  Forall (λ c, connAuth (Config c) = "") l.

Definition yamlDecoded (rawConfig : pluginConfigFromFile) : Prop :=
  connAuth (DefaultConfig (filePluginConfig rawConfig)) = ""
  ∧ fsNoConnAuth (FileSystemSpecificConfigs (filePluginConfig rawConfig))
  ∧ Forall (λ n, connAuth (nodeDefaultConfig n) = ""
                 ∧ fsNoConnAuth (nodeFileSystemSpecificConfigs n))
           (NodeSpecificConfigs rawConfig).

(** What an authentication entry with the secret [s] does to the
    configurations [G] for its host [h]: the first takes the secret, and
    a configuration is added when there is none. *)
Definition setFirstConnAuth (h s : string) (G : list FileSystemSpecificConfig)
    : list FileSystemSpecificConfig :=
  match G with
  | [] => [{| SysMgmtdHost := h;
              Config := {| ConnInterfaces := None; ConnNetFilter := None;
                           ConnTcpOnlyFilter := None; BeegfsClientConf := None;
                           connAuth := s |} |}]
  | e :: r => {| SysMgmtdHost := SysMgmtdHost e;
                 Config := withConnAuth (Some s) (Config e) |} :: r
  end.

(** ** Example configurations *)

(** A configuration file with a global default, one backend and a
    node-scoped fragment for node1. *)
Definition exampleRawConfig : pluginConfigFromFile :=
  {| filePluginConfig :=
       {| DefaultConfig :=
            {| ConnInterfaces := Some ["ib0"; "eth0"]; ConnNetFilter := None;
               ConnTcpOnlyFilter := None;
               BeegfsClientConf := Some {[ "connMaxInternodeNum" := "8" ]};
               connAuth := "" |};
          FileSystemSpecificConfigs :=
            [{| SysMgmtdHost := "10.0.0.1";
                Config := {| ConnInterfaces := None; ConnNetFilter := Some ["10.0.0.0/24"];
                             ConnTcpOnlyFilter := None;
                             BeegfsClientConf := Some {[ "sysMgmtdHost" := "10.0.0.9" ]};
                             connAuth := "" |} |}] |};
     NodeSpecificConfigs :=
       [{| NodeList := ["node1"; "node2"];
           nodeDefaultConfig :=
             {| ConnInterfaces := Some ["ib1"]; ConnNetFilter := None;
                ConnTcpOnlyFilter := None;
                BeegfsClientConf := Some {[ "connFallbackExpirationSecs" := "900" ]};
                connAuth := "" |};
           nodeFileSystemSpecificConfigs :=
             [{| SysMgmtdHost := "10.0.0.1";
                 Config := {| ConnInterfaces := None; ConnNetFilter := None;
                              ConnTcpOnlyFilter := None;
                              BeegfsClientConf := Some {[ "connAuthFile" := "/etc/auth" ]};
                              connAuth := "" |} |}] |}] |}.

Definition exampleAuths : list connAuthConfig :=
  [{| authSysMgmtdHost := "10.0.0.1"; ConnAuth := "secret1" |}].

(** The plugin configuration [newPluginConfigFromRaw] builds from
    [rawConfig], or the empty one if it fails. *)
Definition builtConfig (rawConfig : pluginConfigFromFile) (nodeID : string) : PluginConfig :=
  match newPluginConfigFromRaw rawConfig nodeID with
  | Ok cfg => cfg
  | _ => {| DefaultConfig := zeroBeegfsConfig; FileSystemSpecificConfigs := [] |}
  end.

(** The plugin configuration with the node specific configurations
    written over it, before validation, or the empty one if this fails. *)
Definition mergedConfig (rawConfig : pluginConfigFromFile) (nodeID : string) : PluginConfig :=
  match overwriteFromNodes nodeID (filePluginConfig rawConfig) (NodeSpecificConfigs rawConfig) with
  | Ok cfg => cfg
  | _ => {| DefaultConfig := zeroBeegfsConfig; FileSystemSpecificConfigs := [] |}
  end.

(** The empty configuration file. *)
Definition emptyRawConfig : pluginConfigFromFile :=
  {| filePluginConfig := {| DefaultConfig := zeroBeegfsConfig; FileSystemSpecificConfigs := [] |};
     NodeSpecificConfigs := [] |}.

(** Two authentication entries for one host, the second with an empty
    secret. *)
Definition duplicateAuths : list connAuthConfig :=
  [{| authSysMgmtdHost := "10.0.0.1"; ConnAuth := "secret1" |};
   {| authSysMgmtdHost := "10.0.0.1"; ConnAuth := "" |}].

(** A configuration file whose global default has no beegfsClientConf
    section while a fragment for node1 has one. *)
Definition nilMapRawConfig : pluginConfigFromFile :=
  {| filePluginConfig :=
       {| DefaultConfig :=
            {| ConnInterfaces := Some ["x"; "y"]; ConnNetFilter := None;
               ConnTcpOnlyFilter := None; BeegfsClientConf := None; connAuth := "" |};
          FileSystemSpecificConfigs := [] |};
     NodeSpecificConfigs :=
       [{| NodeList := ["node1"];
           nodeDefaultConfig :=
             {| ConnInterfaces := None; ConnNetFilter := None; ConnTcpOnlyFilter := None;
                BeegfsClientConf := Some {[ "b" := "2" ]}; connAuth := "" |};
           nodeFileSystemSpecificConfigs := [] |}] |}.

(** The configurations [validateConfig] and [stripConfig] go through. *)
Definition beegfsConfigsOf (plConfig : PluginConfig) : list beegfsConfig :=
  DefaultConfig plConfig :: map Config (FileSystemSpecificConfigs plConfig).


(** Modelled from the spec: a label of a domain name in the usual syntax
    (RFC 1035, 2.3.1, as relaxed by RFC 1123, 2.1): 1 to 63 letters,
    digits and hyphens, neither starting nor ending with a hyphen. *)
Definition isDomainLabel (l : string) : bool :=
  negb (String.eqb l "") && (String.length l <=? 63)%nat
  && GoStrings.all_bytes (λ c, Byte.isAlnum c || Ascii.eqb c "-") l
  && negb (GoStrings.HasPrefix l "-") && negb (GoStrings.HasSuffix l "-").

(** Modelled from the spec: a syntactically valid domain name: labels
    separated by dots, with or without a final dot, at most 253 bytes
    without it. *)
Definition isDomainName (s : string) : bool :=
  let name := if GoStrings.HasSuffix s "." then GoStrings.take (String.length s - 1) s
              else s in
  (String.length name <=? 253)%nat
  && forallb isDomainLabel (GoStrings.SplitByte name ".").


(** * The directory name in the words of the specification *)

(** One byte of the identity without its scheme: an underscore is
    doubled, a path separator becomes an underscore. *)
Definition encodeByte (c : ascii) : string :=
  if Ascii.eqb c "_" then "__"
  else if Ascii.eqb c "/" then "_"
  else String c EmptyString.

Fixpoint encodeBytes (s : string) : string :=
  match s with
  | EmptyString => EmptyString
  | String c s' => encodeByte c +:+ encodeBytes s'
  end.

(** Every byte replaced by a string. *)
Fixpoint mapBytes (f : ascii → string) (s : string) : string :=
  match s with
  | EmptyString => EmptyString
  | String c s' => f c +:+ mapBytes f s'
  end.

(** The lower-case hexadecimal digits. *)
Definition isLowerHex (c : ascii) : bool := Byte.oneOf "0123456789abcdef" c.

(** A path of [n] segments [/a]. *)
Fixpoint longPath (n : nat) : string :=
  match n with
  | O => EmptyString
  | S k => String "/" (String "a" (longPath k))
  end.

(** * Cleaned paths *)

(** A path element that [path.Clean] keeps. *)
Definition goodElem (e : string) : Prop :=
  GoStrings.Contains e "/" = false ∧ e ≠ "" ∧ e ≠ "." ∧ e ≠ "..".

(** The rooted path with the given elements, last element first. *)
Definition rootedPath (out : list string) : string :=
  "/" +:+ GoStrings.Join (rev out) "/".

(** The elements [path.Clean] keeps of a rooted path, last first,
    starting from the elements [out]. *)
Definition cleanElems (out : list string) (s : string) : list string :=
  fold_left (GoPath.step true) (GoStrings.SplitByte s "/") out.

(** * Valid hosts and paths of a volume identity *)

(** The bytes of a host name or an IPv4 literal: letters, digits,
    hyphen, dot, underscore and tilde. *)
Definition hostByte (c : ascii) : bool := Byte.isAlnum c || Byte.oneOf "-._~" c.

(** A valid host: a domain name, localhost or an IPv4 literal. *)
Definition validHost (h : string) : bool := GoStrings.all_bytes hostByte h.

(** A valid path: empty or absolute. *)
Definition validPath (p : string) : bool :=
  match p with
  | EmptyString => true
  | String c _ => Ascii.eqb c "/"
  end.

(** The bytes that end no part of a URL: neither a control byte nor one
    of [#] and [?]. *)
Definition plainByte (c : ascii) : bool :=
  negb ((Byte.code c <? 32)%Z || (Byte.code c =? 127)%Z || Byte.oneOf "#?" c).

(** * The logged form of a configuration *)

(** The fields of a logged [beegfsConfig] other than the secret. *)
Definition loggedFields (encodeString : string → string) (c : beegfsConfig) : list string :=
  [GoJson.key "ConnInterfaces" +:+ GoJson.encodeSlice encodeString (ConnInterfaces c);
   GoJson.key "ConnNetFilter" +:+ GoJson.encodeSlice encodeString (ConnNetFilter c);
   GoJson.key "ConnTcpOnlyFilter" +:+ GoJson.encodeSlice encodeString (ConnTcpOnlyFilter c);
   GoJson.key "BeegfsClientConf" +:+ GoJson.encodeMap encodeString (BeegfsClientConf c)].

(** The effective configuration of the example backend. *)
Definition exampleConfig : beegfsConfig :=
  {| ConnInterfaces := Some ["ib0"]; ConnNetFilter := None; ConnTcpOnlyFilter := Some [];
     BeegfsClientConf := Some {[ "connMaxInternodeNum" := "8"; "connAuthFile" := "/etc/auth" ]};
     connAuth := "" |}.

(** * Runs of the orchestration *)

(** An entry of the mount table is a bind mount of the volume's file
    system as [unmountAndCleanUpIfNecessary] tests it. *)
Definition isBindMountOf (vol : beegfsVolume) (entry : MountPoint) : Prop :=
  Device entry = "beegfs_nodev"
  ∧ GoStrings.Contains (mountPointPath entry) (mountPath vol) = false
  ∧ ∃ opt, opt ∈ Opts entry ∧ GoStrings.Contains opt (clientConfPath vol) = true.

(** An entry of the mount table as the claim describes it: the path is
    only required to differ from the mount path. *)
Definition isOtherMountOf (vol : beegfsVolume) (entry : MountPoint) : Prop :=
  Device entry = "beegfs_nodev"
  ∧ mountPointPath entry ≠ mountPath vol
  ∧ ∃ opt, opt ∈ Opts entry ∧ GoStrings.Contains opt (clientConfPath vol) = true.

(** The world with a given mount table, in which every operation
    succeeds and directories are empty. *)
Definition quietEnv (allMounts : list MountPoint) : Env :=
  {| mounter_List := λ _, Ok allMounts;
     mount_CleanupMountPoint := λ _ _, Ok tt;
     mounter_IsLikelyNotMountPoint := λ _ _, Ok true;
     os_IsNotExist := λ _, false;
     os_Mkdir := λ _ _, Ok tt;
     mounter_Mount := λ _ _ _ _ _, Ok tt;
     ioutil_ReadDir := λ _ _, Ok [];
     fs_RemoveAll := λ _ _, Ok tt;
     fs_MkdirAll := λ _ _, Ok tt;
     os_Chmod := λ _ _, Ok tt;
     env_writeClientFiles := λ _ _ _, Ok tt;
     ctl_createDirectoryForVolume := λ _ _, Ok tt;
     ctl_setPatternForVolume := λ _ _, Ok tt;
     ctl_statDirectoryForVolume := λ _ _, StatOk |}.

(** The volume of the CreateVolume scenario, staged under /data. *)
Definition exampleVolume : beegfsVolume :=
  {| config := newBeegfsConfig;
     clientConfPath := "/data/10.0.0.1_data_vol1/beegfs-client.conf";
     mountDirPath := "/data/10.0.0.1_data_vol1";
     mountPath := "/data/10.0.0.1_data_vol1/mount";
     volSysMgmtdHost := "10.0.0.1";
     volDirBasePathBeegfsRoot := "/data";
     volDirPathBeegfsRoot := "/data/vol1";
     volDirPath := "/data/10.0.0.1_data_vol1/mount/data/vol1";
     volumeID := "beegfs://10.0.0.1/data/vol1" |}.

(** A bind mount of the example volume into a container. *)
Definition bindMountEntry : MountPoint :=
  {| Device := "beegfs_nodev";
     mountPointPath := "/var/lib/kubelet/pods/1/volumes/vol1";
     mountPointType := "beegfs";
     Opts := ["rw"; "relatime"; "cfgFile=/data/10.0.0.1_data_vol1/beegfs-client.conf"] |}.

(** The mount of the example volume seen through the host's root file
    system mounted at /host. *)
Definition hostMountEntry : MountPoint :=
  {| Device := "beegfs_nodev";
     mountPointPath := "/host/data/10.0.0.1_data_vol1/mount";
     mountPointType := "beegfs";
     Opts := ["rw"; "relatime"; "cfgFile=/data/10.0.0.1_data_vol1/beegfs-client.conf"] |}.

Definition emptyState : State := {| trace := []; inFlight := ∅ |}.

(** The state after further events. *)
Definition after (st : State) (evs : list Event) : State :=
  {| trace := trace st ++ evs; inFlight := inFlight st |}.

(** A handler that honours the concurrency guard for the identity [id].
    From every state in which [id] is held, it returns the status
    Aborted, and nothing happens but the request that the guard
    refuses: no operation on the file system, and [id] stays with its
    holder.  From every state in which [id] is not held, it obtains the
    guard for [id] first, only touches the file system from then on,
    and releases [id] last, whatever the outcome: the identities held
    are those of the beginning again. *)
Definition guardedBy {A : Type} (id : string) (handler : H A) : Prop :=
  ∀ st,
    (id ∈ inFlight st →
     handler st
     = (Status Aborted ("volumeID " +:+ id +:+ " is in use by another request"),
        after st [EvObtainLock id false]))
    ∧ ((id ∉ inFlight st) →
       ∃ body,
         snd (handler st) = after st (EvObtainLock id true :: (body ++ [EvReleaseLock id]))
         ∧ Forall (λ e, isFileSystemEvent e = true) body).

(** A computation that only touches the file system: it leaves the
    identities in flight alone and adds file system events only. *)
Definition fileSystemOnly {R : Type} (m : State → R * State) : Prop :=
  ∀ st, ∃ evs, snd (m st) = after st evs ∧ Forall (λ e, isFileSystemEvent e = true) evs.

(** * The CreateVolume scenario *)

(** Modelled from the spec: the package's constructor of the volume
    working state is not in the sources at hand.  The working state is
    derived from the volume identity and the resolved configuration: a
    staging directory, a mount path and a client connection file in it,
    and the path to operate on below the mount path. *)
Definition exampleNewBeegfsVolume (mountDirPath sysMgmtdHost volDirPathBeegfsRoot : string)
    (pluginConfig : PluginConfig) : beegfsVolume :=
  let mountPath := GoPath.Join [mountDirPath; "mount"] in
  {| config := match squashConfigForSysMgmtdHost sysMgmtdHost pluginConfig with
               | Ok c => c
               | _ => newBeegfsConfig
               end;
     clientConfPath := GoPath.Join [mountDirPath; "beegfs-client.conf"];
     mountDirPath := mountDirPath;
     mountPath := mountPath;
     volSysMgmtdHost := sysMgmtdHost;
     volDirBasePathBeegfsRoot :=
       GoPath.Clean (GoStrings.take
                       (default O (S <$> GoStrings.LastIndex volDirPathBeegfsRoot "/"))
                       volDirPathBeegfsRoot);
     volDirPathBeegfsRoot := volDirPathBeegfsRoot;
     volDirPath := GoPath.Join [mountPath; volDirPathBeegfsRoot];
     volumeID := newBeegfsUrl sysMgmtdHost volDirPathBeegfsRoot |}.

(** Modelled from the spec: a package in which every capability is
    supported, no permissions or stripe pattern are asked for, and an
    identity is decoded by [parseBeegfsUrl]. *)
Definition examplePackage : @Package unit unit unit :=
  {| isValidVolumeCapabilities := λ _, (true, "");
     getPermissionsConfigFromParams := λ _, Ok tt;
     getStripePatternConfigFromParams := λ _, Ok tt;
     hasSpecialPermissions := λ _, false;
     newBeegfsVolume := exampleNewBeegfsVolume;
     newBeegfsVolumeFromID := λ mountDirPath volumeID pluginConfig,
       let* (sysMgmtdHost, volDirPathBeegfsRoot) := parseBeegfsUrl volumeID in
       Ok (exampleNewBeegfsVolume mountDirPath sysMgmtdHost volDirPathBeegfsRoot
             pluginConfig) |}.

Definition exampleServer : controllerServer :=
  {| nodeID := "node1";
     pluginConfig := {| DefaultConfig := newBeegfsConfig; FileSystemSpecificConfigs := [] |};
     clientConfTemplatePath := "/etc/beegfs/beegfs-client.conf";
     csDataDir := "/data" |}.

(** CreateVolume("vol1", one capability, sysMgmtdHost 10.0.0.1 and the
    volDirBasePath given). *)
Definition exampleCreate (volDirBasePath : string) : @CreateVolumeRequest unit :=
  {| createName := "vol1";
     createVolumeCapabilities := [tt];
     createParameters := {[ sysMgmtdHostKey := "10.0.0.1";
                            volDirBasePathKey := volDirBasePath ]} |}.

(** A handler whose responses all satisfy [P]. *)
Definition repliesOnly {A : Type} (P : A → Prop) (handler : H A) : Prop :=
  ∀ st a, fst (handler st) = Reply a → P a.


(** * Further properties: notions used in their statements *)

(** Two configurations that differ at most in the secret. *)
Definition sameButConnAuth (a b : beegfsConfig) : Prop :=
  ConnInterfaces a = ConnInterfaces b ∧ ConnNetFilter a = ConnNetFilter b
  ∧ ConnTcpOnlyFilter a = ConnTcpOnlyFilter b ∧ BeegfsClientConf a = BeegfsClientConf b.






(** Two worlds that differ at most in what cleaning up meets: the mount
    table, the clean-up of a mount point, and the listing and the
    removal of files and directories. *)
Definition sameButCleanUp (env1 env2 : Env) : Prop :=
  mounter_IsLikelyNotMountPoint env1 = mounter_IsLikelyNotMountPoint env2
  ∧ os_IsNotExist env1 = os_IsNotExist env2
  ∧ os_Mkdir env1 = os_Mkdir env2
  ∧ mounter_Mount env1 = mounter_Mount env2
  ∧ fs_MkdirAll env1 = fs_MkdirAll env2
  ∧ os_Chmod env1 = os_Chmod env2
  ∧ env_writeClientFiles env1 = env_writeClientFiles env2
  ∧ ctl_createDirectoryForVolume env1 = ctl_createDirectoryForVolume env2
  ∧ ctl_setPatternForVolume env1 = ctl_setPatternForVolume env2
  ∧ ctl_statDirectoryForVolume env1 = ctl_statDirectoryForVolume env2.

(** A world in which cleaning up may fail but does not panic. *)
Definition cleanUpNeverPanics (env : Env) : Prop :=
  (∀ t p, mounter_List env t ≠ Panic p)
  ∧ (∀ t path p, mount_CleanupMountPoint env t path ≠ Panic p)
  ∧ (∀ t path p, ioutil_ReadDir env t path ≠ Panic p)
  ∧ (∀ t path p, fs_RemoveAll env t path ≠ Panic p).

(** The world of [quietEnv] in which cleaning up fails. *)
Definition failingCleanUpEnv : Env :=
  {| mounter_List := λ _, Err "mount table unreadable";
     mount_CleanupMountPoint := λ _ _, Err "device busy";
     mounter_IsLikelyNotMountPoint := λ _ _, Ok true;
     os_IsNotExist := λ _, false;
     os_Mkdir := λ _ _, Ok tt;
     mounter_Mount := λ _ _ _ _ _, Ok tt;
     ioutil_ReadDir := λ _ _, Err "permission denied";
     fs_RemoveAll := λ _ _, Err "permission denied";
     fs_MkdirAll := λ _ _, Ok tt;
     os_Chmod := λ _ _, Ok tt;
     env_writeClientFiles := λ _ _ _, Ok tt;
     ctl_createDirectoryForVolume := λ _ _, Ok tt;
     ctl_setPatternForVolume := λ _ _, Ok tt;
     ctl_statDirectoryForVolume := λ _ _, StatOk |}.

(** A handler that never answers with the code InvalidArgument. *)
Definition neverInvalidArgument {A : Type} (handler : H A) : Prop :=
  ∀ st msg, fst (handler st) ≠ Status InvalidArgument msg.

(** * The parameters of CreateVolume *)

(** ** Package [strconv] *)
Module Strconv.

Local Open Scope Z_scope.

(** The two errors of [ParseUint]: [ErrSyntax] and [ErrRange]. *)
Inductive numError : Type := ErrSyntax | ErrRange.

(** [lower(c)]: [c | ('x' - 'X')]. *)
Definition lower (c : Z) : Z := Z.lor c 32.

(** The digit a byte stands for, if any. *)
Definition digit (c : Z) : option Z :=
  if (48 <=? c) && (c <=? 57) then Some (c - 48)
  else if (97 <=? lower c) && (lower c <=? 122) then Some (lower c - 97 + 10)
  else None.

(** The loop of [ParseUint] over the bytes of [s]; [n] is a [uint64]. *)
Fixpoint parseLoop (base maxVal cutoff : Z) (s : string) (n : Z) : Z + numError :=
  match s with
  | EmptyString => inl n
  | String c s' =>
      match digit (Byte.code c) with
      | None => inr ErrSyntax
      | Some d =>
          if base <=? d then inr ErrSyntax
          else if cutoff <=? n then inr ErrRange
          else
            let n := n * base in
            let n1 := (n + d) mod 2 ^ 64 in
            if (n1 <? n) || (maxVal <? n1) then inr ErrRange
            else parseLoop base maxVal cutoff s' n1
      end
  end.

(** [strconv.ParseUint(s, base, bitSize)] for a base from 2 to 36 and a
    bit size from 1 to 64, as the package calls it. *)
Definition ParseUint (s : string) (base bitSize : Z) : Z + numError :=
  match s with
  | EmptyString => inr ErrSyntax
  | _ => parseLoop base (2 ^ bitSize - 1) ((2 ^ 64 - 1) / base + 1) s 0
  end.

(** [NumError.Error()] of an error of [ParseUint]; [quote] is
    [strconv.Quote]. *)
Definition Error (quote : string → string) (s : string) (e : numError) : string :=
  "strconv.ParseUint: parsing " +:+ quote s +:+ ": "
  +:+ match e with
      | ErrSyntax => "invalid syntax"
      | ErrRange => "value out of range"
      end.

End Strconv.

(** ** The two readers of the parameters *)
Module Params.

(** [stripePatternConfig], with the fields
    [getStripePatternConfigFromParams] sets. *)
Record stripePattern : Type := {
  storagePoolID : string;
  stripePatternChunkSize : string;
  stripePatternNumTargets : string
}.

(** [permissionsConfig], with the fields
    [getPermissionsConfigFromParams] sets: [uid] and [gid] are [uint32],
    [mode] is [uint16]. *)
Record permissions : Type := {
  uid : Z;
  gid : Z;
  mode : Z
}.

(** [reqParams[key]]: the zero value for a key that is not there. *)
Definition paramOf (reqParams : gmap string string) (key : string) : string :=
  default "" (reqParams !! key).

Section Parameters.

(** The names of the parameters and the default mode are constants of
    the package that are declared outside the sources at hand. *)
Variables stripePatternStoragePoolIDKey stripePatternChunkSizeKey
  stripePatternNumTargetsKey : string.
Variables permissionsUIDKey permissionsGIDKey permissionsModeKey : string.
Variable defaultPermissionsMode : Z.

(** [strconv.Quote], for the messages. *)
Variable quote : string → string.

(** The loop of [getStripePatternConfigFromParams]; [params] is the
    sequence of keys in which [range reqParams] visits the map. *)
Fixpoint stripePatternLoop (reqParams : gmap string string) (cfg : stripePattern)
    (params : list string) : result stripePattern :=
  match params with
  | [] => Ok cfg
  | param :: rest =>
      if GoStrings.Contains param "stripePattern/" then
        if String.eqb param stripePatternStoragePoolIDKey then
          stripePatternLoop reqParams
            {| storagePoolID := paramOf reqParams stripePatternStoragePoolIDKey;
               stripePatternChunkSize := stripePatternChunkSize cfg;
               stripePatternNumTargets := stripePatternNumTargets cfg |} rest
        else if String.eqb param stripePatternChunkSizeKey then
          stripePatternLoop reqParams
            {| storagePoolID := storagePoolID cfg;
               stripePatternChunkSize := paramOf reqParams stripePatternChunkSizeKey;
               stripePatternNumTargets := stripePatternNumTargets cfg |} rest
        else if String.eqb param stripePatternNumTargetsKey then
          stripePatternLoop reqParams
            {| storagePoolID := storagePoolID cfg;
               stripePatternChunkSize := stripePatternChunkSize cfg;
               stripePatternNumTargets := paramOf reqParams stripePatternNumTargetsKey |} rest
        else Err ("CreateVolume parameter invalid: " +:+ param)
      else stripePatternLoop reqParams cfg rest
  end.

(** [getStripePatternConfigFromParams(reqParams)].  Go visits the keys of
    a map in an order that is not specified: [range] is that order. *)
Definition getStripePatternConfigFromParams (range : list string)
    (reqParams : gmap string string) : result stripePattern :=
  stripePatternLoop reqParams
    {| storagePoolID := ""; stripePatternChunkSize := ""; stripePatternNumTargets := "" |}
    range.

(** One number of [getPermissionsConfigFromParams]: the value is parsed,
    and an error is wrapped in [msg]. *)
Definition parseParam (val : string) (base bitSize : Z) (msg : string) : result Z :=
  match Strconv.ParseUint val base bitSize with
  | inl n => Ok n
  | inr e => Err (errors_Wrap (Strconv.Error quote val e) msg)
  end.

(** The loop of [getPermissionsConfigFromParams]. *)
Fixpoint permissionsLoop (reqParams : gmap string string) (cfg : permissions)
    (params : list string) : result permissions :=
  match params with
  | [] => Ok cfg
  | param :: rest =>
      if GoStrings.HasPrefix param "permissions/" then
        if String.eqb param permissionsUIDKey then
          let* n := parseParam (paramOf reqParams permissionsUIDKey) 10 32
                      "could not parse provided UID" in
          permissionsLoop reqParams
            {| uid := n mod 2 ^ 32; gid := gid cfg; mode := mode cfg |} rest
        else if String.eqb param permissionsGIDKey then
          let* n := parseParam (paramOf reqParams permissionsGIDKey) 10 32
                      "could not parse provided GID" in
          permissionsLoop reqParams
            {| uid := uid cfg; gid := n mod 2 ^ 32; mode := mode cfg |} rest
        else if String.eqb param permissionsModeKey then
          let* n := parseParam (paramOf reqParams permissionsModeKey) 8 12
                      "could not parse provided mode" in
          permissionsLoop reqParams
            {| uid := uid cfg; gid := gid cfg; mode := n mod 2 ^ 16 |} rest
        else Err ("CreateVolume parameter invalid: " +:+ param)
      else permissionsLoop reqParams cfg rest
  end.

(** [getPermissionsConfigFromParams(reqParams)], with the order [range]
    in which the keys are visited. *)
Definition getPermissionsConfigFromParams (range : list string)
    (reqParams : gmap string string) : result permissions :=
  permissionsLoop reqParams {| uid := 0; gid := 0; mode := defaultPermissionsMode |} range.

End Parameters.

End Params.

(** An order in which [range] may visit the keys of a map: each key
    once. *)
Definition rangeOf (reqParams : gmap string string) (range : list string) : Prop :=
  NoDup range ∧ list_to_set range =@{gset string} dom reqParams.

(** * The client files ([writeClientFiles]) *)

(** [strconv.Itoa]. *)
Definition Itoa (n : Z) : string := NilZero.string_of_int (Z.to_int n).

Module ClientFiles.

(** What is done to the network, in order: the socket is opened, its
    address is resolved, the socket is closed. *)
Inductive NetOp : Type := OpListen | OpResolve | OpClose.

(** What is written to the file system, in order:
    [fsutil.WriteFile(path, contents, 0644)], [fs.Create(path)], and
    [WriteTo] of an ini file into the file created at [path]. *)
Inductive FileOp : Type :=
| OpWriteFile (path contents : string)
| OpCreate (path : string)
| OpWriteTo (path : string) (ini : gmap string string).

(** The world [writeClientFiles] runs in.  An ini file is the map from
    the keys of its default section to their values, the only part of it
    that [writeClientFiles] looks at; [ini_Load] parses the bytes of a
    file.  The answer to a write may depend on what was written
    before. *)
Record World : Type := {
  net_ListenPacket : result unit;
  net_ResolveUDPAddr : result Z;
  conn_Close : result unit;
  fsutil_ReadFile : string → result string;
  ini_Load : string → result (gmap string string);
  fsutil_WriteFile : list FileOp → string → string → result unit;
  fs_Create : list FileOp → string → result unit;
  ini_WriteTo : list FileOp → string → gmap string string → result unit
}.

(** [getEphemeralPortUDP] returns an error or the system-assigned
    ephemeral port of a temporary UDP socket.  The deferred function
    closes the socket and puts an error of [Close] into the named result
    [err], behind an error that is there already ([multierr.Append]). *)
Definition getEphemeralPortUDP (w : World) : result Z * list NetOp :=
  match net_ListenPacket w with
  | Panic p => (Panic p, [OpListen])
  | Err e => (Err e, [OpListen])
  | Ok _ =>
      let returned := net_ResolveUDPAddr w in
      (match conn_Close w with
       | Panic p => Panic p
       | Ok _ => returned
       | Err closeErr =>
           match returned with
           | Ok _ => Err closeErr
           | Err err => Err (err +:+ "; " +:+ closeErr)
           | Panic p => Panic p
           end
       end, [OpListen; OpResolve; OpClose])
  end.

(** [setConfigValueIfKeyExists] sets the value of a key of the default
    section, and returns an error if the key did not exist in the
    original .ini file. *)
Definition setConfigValueIfKeyExists (iniFile : gmap string string) (key value : string)
    : result (gmap string string) :=
  if bool_decide (is_Some (iniFile !! key)) then Ok (<[key := value]> iniFile)
  else Err (key +:+ " not in template beegfs-client.conf file").

(** The loop over [vol.config.BeegfsClientConf]; [range] is the order in
    which the keys are visited. *)
Fixpoint setBeegfsClientConf (iniFile : gmap string string) (conf : gmap string string)
    (range : list string) : result (gmap string string) :=
  match range with
  | [] => Ok iniFile
  | k :: rest =>
      let* iniFile := setConfigValueIfKeyExists iniFile k (default "" (conf !! k)) in
      setBeegfsClientConf iniFile conf rest
  end.

(** A computation that writes files. *)
Definition W (A : Type) : Type := list FileOp → result A * list FileOp.

Definition wbind {A B : Type} (m : W A) (k : A → W B) : W B := λ ops,
  match m ops with
  | (Ok a, ops') => k a ops'
  | (Err e, ops') => (Err e, ops')
  | (Panic p, ops') => (Panic p, ops')
  end.

(** A write: the operation is recorded, the answer is the world's, and
    an error is wrapped in [msg] ([errors.Wrap]). *)
Definition write (op : FileOp) (answer : list FileOp → result unit) (msg : string) : W unit :=
  λ ops,
    (match answer ops with
     | Err e => Err (errors_Wrap e msg)
     | r => r
     end, ops ++ [op]).

(** A step that writes nothing. *)
Definition pure {A : Type} (r : result A) : W A := λ ops, (r, ops).

(** The new line. *)
Definition newline : string := String (ascii_of_nat 10) EmptyString.

(** One of the three blocks of [writeClientFiles] for a list of the
    configuration: when the list is not empty, its elements are written
    to the file at [path], one on a line, and the path becomes the value
    of [key]. *)
Definition writeListFile (w : World) (iniFile : gmap string string)
    (values : option (list string)) (key path msg : string) : W (gmap string string) :=
  if negb (len values =? 0)%nat then
    let contents := GoStrings.Join (elems values) newline +:+ newline in
    wbind (pure (setConfigValueIfKeyExists iniFile key path)) (λ iniFile,
    wbind (write (OpWriteFile path contents) (λ ops, fsutil_WriteFile w ops path contents) msg)
      (λ _, pure (Ok iniFile)))
  else pure (Ok iniFile).

(** [writeClientFiles] writes a beegfs-client.conf file and optionally a
    connInterfacesFile, a connNetFilterFile and a connTcpOnlyFilterFile
    to the [mountDirPath] of the volume.  The beegfs-client.conf file is
    the one at [confTemplatePath] with its values overridden by those of
    the volume's configuration.  [range] is the order in which the keys
    of [BeegfsClientConf] are visited. *)
Definition writeClientFiles (w : World) (range : list string) (vol : beegfsVolume)
    (confTemplatePath : string) : result unit * list FileOp :=
  let connInterfacesFilePath := GoPath.Join [mountDirPath vol; "connInterfacesFile"] in
  let connNetFilterFilePath := GoPath.Join [mountDirPath vol; "connNetFilterFile"] in
  let connTcpOnlyFilterFilePath := GoPath.Join [mountDirPath vol; "connTcpOnlyFilterFile"] in
  match fst (getEphemeralPortUDP w) with
  | Panic p => (Panic p, [])
  | Err e => (Err (errors_Wrap e "error selecting connClientPortUDP"), [])
  | Ok port =>
  let connClientPortUDP := Itoa port in
  match fsutil_ReadFile w confTemplatePath with
  | Panic p => (Panic p, [])
  | Err e =>
      (Err (errors_Wrap e ("error loading beegfs-client.conf file at " +:+ confTemplatePath)),
       [])
  | Ok clientConfBytes =>
  match ini_Load w clientConfBytes with
  | Panic p => (Panic p, [])
  | Err e => (Err (errors_Wrap e "error parsing template beegfs-client.conf file"), [])
  | Ok clientConfINI =>
  wbind (pure (setConfigValueIfKeyExists clientConfINI "sysMgmtdHost" (volSysMgmtdHost vol)))
    (λ clientConfINI,
  wbind (pure (setConfigValueIfKeyExists clientConfINI "connClientPortUDP" connClientPortUDP))
    (λ clientConfINI,
  wbind (pure (setBeegfsClientConf clientConfINI
                 (default ∅ (BeegfsClientConf (config vol))) range))
    (λ clientConfINI,
  wbind (writeListFile w clientConfINI (ConnInterfaces (config vol)) "connInterfacesFile"
           connInterfacesFilePath "error writing connInterfaces file")
    (λ clientConfINI,
  wbind (writeListFile w clientConfINI (ConnNetFilter (config vol)) "connNetFilterFile"
           connNetFilterFilePath "error writing connNetFilter file")
    (λ clientConfINI,
  wbind (writeListFile w clientConfINI (ConnTcpOnlyFilter (config vol)) "connTcpOnlyFilterFile"
           connTcpOnlyFilterFilePath "error writing connTcpOnlyFilter file")
    (λ clientConfINI,
  wbind (write (OpCreate (clientConfPath vol)) (λ ops, fs_Create w ops (clientConfPath vol))
           "error creating beegfs-client.conf file")
    (λ _,
  write (OpWriteTo (clientConfPath vol) clientConfINI)
    (λ ops, ini_WriteTo w ops (clientConfPath vol) clientConfINI)
    "error writing beegfs-client.conf file"))))))) []
  end end end.

(** The ini file that [writeClientFiles] writes for a template: the
    host and the port are set, then the client options, then the paths
    of the files of the lists that are not empty. *)
Definition writtenClientConf (template : gmap string string) (port : Z) (vol : beegfsVolume)
    : gmap string string :=
  let withPath (values : option (list string)) (key : string) (ini : gmap string string) :=
    if (len values =? 0)%nat then ini
    else <[key := GoPath.Join [mountDirPath vol; key]]> ini in
  withPath (ConnTcpOnlyFilter (config vol)) "connTcpOnlyFilterFile"
    (withPath (ConnNetFilter (config vol)) "connNetFilterFile"
       (withPath (ConnInterfaces (config vol)) "connInterfacesFile"
          (default ∅ (BeegfsClientConf (config vol))
           ∪ <["connClientPortUDP" := Itoa port]>
               (<["sysMgmtdHost" := volSysMgmtdHost vol]> template)))).

(** The keys that [writeClientFiles] sets. *)
Definition keysSet (vol : beegfsVolume) : gset string :=
  {["sysMgmtdHost"; "connClientPortUDP"]}
  ∪ dom (default ∅ (BeegfsClientConf (config vol)))
  ∪ (if (len (ConnInterfaces (config vol)) =? 0)%nat then ∅ else {["connInterfacesFile"]})
  ∪ (if (len (ConnNetFilter (config vol)) =? 0)%nat then ∅ else {["connNetFilterFile"]})
  ∪ (if (len (ConnTcpOnlyFilter (config vol)) =? 0)%nat then ∅
     else {["connTcpOnlyFilterFile"]}).

(** The file that [writeClientFiles] writes for a list of the
    configuration that is not empty. *)
Definition listFile (vol : beegfsVolume) (values : option (list string)) (key : string)
    : list FileOp :=
  if (len values =? 0)%nat then []
  else [OpWriteFile (GoPath.Join [mountDirPath vol; key])
          (GoStrings.Join (elems values) newline +:+ newline)].

(** The files of the three lists, in the order in which they are
    written. *)
Definition writtenListFiles (vol : beegfsVolume) : list FileOp :=
  listFile vol (ConnInterfaces (config vol)) "connInterfacesFile"
  ++ listFile vol (ConnNetFilter (config vol)) "connNetFilterFile"
  ++ listFile vol (ConnTcpOnlyFilter (config vol)) "connTcpOnlyFilterFile".

(** A write of a file of a list, in the mount directory of [vol]. *)
Definition isListFile (vol : beegfsVolume) (op : FileOp) : Prop :=
  ∃ key contents,
    key ∈ ["connInterfacesFile"; "connNetFilterFile"; "connTcpOnlyFilterFile"]
    ∧ op = OpWriteFile (GoPath.Join [mountDirPath vol; key]) contents.

(** The keys that the driver sets whatever the lists are. *)
Definition keysAlwaysSet (vol : beegfsVolume) : gset string :=
  {["sysMgmtdHost"; "connClientPortUDP"]}
  ∪ dom (default ∅ (BeegfsClientConf (config vol))).

End ClientFiles.

(** A volume with two interfaces and a client option. *)
Definition tunedVolume : beegfsVolume :=
  {| config := {| ConnInterfaces := Some ["ib0"; "eth0"];
                  ConnNetFilter := None;
                  ConnTcpOnlyFilter := None;
                  BeegfsClientConf := Some {[ "connMgmtdPortTCP" := "9008" ]};
                  connAuth := "" |};
     clientConfPath := "/data/10.0.0.1_data_vol1/beegfs-client.conf";
     mountDirPath := "/data/10.0.0.1_data_vol1";
     mountPath := "/data/10.0.0.1_data_vol1/mount";
     volSysMgmtdHost := "10.0.0.1";
     volDirBasePathBeegfsRoot := "/data";
     volDirPathBeegfsRoot := "/data/vol1";
     volDirPath := "/data/10.0.0.1_data_vol1/mount/data/vol1";
     volumeID := "beegfs://10.0.0.1/data/vol1" |}.

(** The world in which the port 40000 is free, every template has the
    keys of [template], and every write succeeds. *)
Definition quietWorld (template : gmap string string) : ClientFiles.World :=
  {| ClientFiles.net_ListenPacket := Ok tt;
     ClientFiles.net_ResolveUDPAddr := Ok 40000%Z;
     ClientFiles.conn_Close := Ok tt;
     ClientFiles.fsutil_ReadFile := λ _, Ok "";
     ClientFiles.ini_Load := λ _, Ok template;
     ClientFiles.fsutil_WriteFile := λ _ _ _, Ok tt;
     ClientFiles.fs_Create := λ _ _, Ok tt;
     ClientFiles.ini_WriteTo := λ _ _ _, Ok tt |}.

(** A template with the keys that the driver may set. *)
Definition fullTemplate : gmap string string :=
  {[ "sysMgmtdHost" := ""; "connClientPortUDP" := "8004"; "connMgmtdPortTCP" := "8008";
     "connInterfacesFile" := ""; "connNetFilterFile" := ""; "connTcpOnlyFilterFile" := "" ]}.

(** A template without the keys of the files of the lists. *)
Definition bareTemplate : gmap string string :=
  {[ "sysMgmtdHost" := ""; "connClientPortUDP" := "8004"; "connMgmtdPortTCP" := "8008" ]}.

(** The volume of the example with a client option that names another
    host, as a configuration that was not stripped may have it. *)
Definition redirectedVolume : beegfsVolume :=
  {| config := {| ConnInterfaces := None;
                  ConnNetFilter := None;
                  ConnTcpOnlyFilter := None;
                  BeegfsClientConf := Some {[ "sysMgmtdHost" := "10.9.9.9" ]};
                  connAuth := "" |};
     clientConfPath := "/data/10.0.0.1_data_vol1/beegfs-client.conf";
     mountDirPath := "/data/10.0.0.1_data_vol1";
     mountPath := "/data/10.0.0.1_data_vol1/mount";
     volSysMgmtdHost := "10.0.0.1";
     volDirBasePathBeegfsRoot := "/data";
     volDirPathBeegfsRoot := "/data/vol1";
     volDirPath := "/data/10.0.0.1_data_vol1/mount/data/vol1";
     volumeID := "beegfs://10.0.0.1/data/vol1" |}.

(** * The driver of the end-to-end tests *)

Module Driver.

(** [baseBeegfsDriver] is the data structure of all exported drivers.
    Its [driverInfo], which only [GetDriverInfo] and
    [SkipUnsupportedTest] read, is left out. *)
Record baseBeegfsDriver : Type := {
  perFSConfigs : list FileSystemSpecificConfig;
  fsIndex : Z;
  extraSCParams : option (gmap string string);
  dynamicVolDirBasePathBeegfsRoot : string;
  staticVolDirBasePathBeegfsRoot : string;
  staticDirName : string;
  staticDirNameOriginal : string
}.

(** [beegfsVolume] implements the interface
    [storageframework.TestVolume]. *)
Record beegfsVolume : Type := {
  volumeID : string
}.

(** [initBaseBeegfsDriver] handles basic initialization shared across
    all exported drivers. *)
Definition initBaseBeegfsDriver : baseBeegfsDriver :=
  {| perFSConfigs := [];
     fsIndex := 0;
     extraSCParams := None;
     dynamicVolDirBasePathBeegfsRoot := GoPath.Join ["e2e-test"; "dynamic"];
     staticVolDirBasePathBeegfsRoot := GoPath.Join ["e2e-test"; "static"];
     staticDirName := "static1";
     staticDirNameOriginal := "static1" |}.

(** [SetFSIndex] determines which of the [perFSConfigs] is used.  It
    intentionally has no internal error correction. *)
Definition SetFSIndex (d : baseBeegfsDriver) (i : Z) : baseBeegfsDriver :=
  {| perFSConfigs := perFSConfigs d;
     fsIndex := i;
     extraSCParams := extraSCParams d;
     dynamicVolDirBasePathBeegfsRoot := dynamicVolDirBasePathBeegfsRoot d;
     staticVolDirBasePathBeegfsRoot := staticVolDirBasePathBeegfsRoot d;
     staticDirName := staticDirName d;
     staticDirNameOriginal := staticDirNameOriginal d |}.

(** [GetNumFS] returns the maximum [fsIndex] that should be used with
    [SetFSIndex]. *)
Definition GetNumFS (d : baseBeegfsDriver) : Z := Z.of_nat (length (perFSConfigs d)).

(** [SetPerFSConfigs]. *)
Definition SetPerFSConfigs (d : baseBeegfsDriver) (configs : list FileSystemSpecificConfig)
    : baseBeegfsDriver :=
  {| perFSConfigs := configs;
     fsIndex := fsIndex d;
     extraSCParams := extraSCParams d;
     dynamicVolDirBasePathBeegfsRoot := dynamicVolDirBasePathBeegfsRoot d;
     staticVolDirBasePathBeegfsRoot := staticVolDirBasePathBeegfsRoot d;
     staticDirName := staticDirName d;
     staticDirNameOriginal := staticDirNameOriginal d |}.

(** [SetStaticDirName] controls the volDirPathBeegfsRoot used by
    [CreateVolume]. *)
Definition SetStaticDirName (d : baseBeegfsDriver) (name : string) : baseBeegfsDriver :=
  {| perFSConfigs := perFSConfigs d;
     fsIndex := fsIndex d;
     extraSCParams := extraSCParams d;
     dynamicVolDirBasePathBeegfsRoot := dynamicVolDirBasePathBeegfsRoot d;
     staticVolDirBasePathBeegfsRoot := staticVolDirBasePathBeegfsRoot d;
     staticDirName := name;
     staticDirNameOriginal := staticDirNameOriginal d |}.

(** [UnsetStaticDirName] reverses [SetStaticDirName]. *)
Definition UnsetStaticDirName (d : baseBeegfsDriver) : baseBeegfsDriver :=
  SetStaticDirName d (staticDirNameOriginal d).

(** The loop of [SetFSIndexForRDMA] from the index [i] on: the index of
    the first configuration whose client option connUseRDMA is true. *)
Fixpoint firstRDMA (i : Z) (configs : list FileSystemSpecificConfig) : option Z :=
  match configs with
  | [] => None
  | cfg :: rest =>
      match mapGet (BeegfsClientConf (Config cfg)) "connUseRDMA" with
      | Some boolString =>
          if String.eqb boolString "true" then Some i else firstRDMA (i + 1) rest
      | None => firstRDMA (i + 1) rest
      end
  end.

(** [SetFSIndexForRDMA] looks for an RDMA capable file system and sets
    [fsIndex] to refer to the first one it finds.  It returns false if
    there are no RDMA capable file systems. *)
Definition SetFSIndexForRDMA (d : baseBeegfsDriver) : bool * baseBeegfsDriver :=
  match firstRDMA 0 (perFSConfigs d) with
  | Some i => (true, SetFSIndex d i)
  | None => (false, d)
  end.

(** The index expression [s[i]], which panics out of range. *)
Definition index (s : list FileSystemSpecificConfig) (i : Z) : result FileSystemSpecificConfig :=
  if (i <? 0)%Z then Panic "index out of range"
  else match s !! Z.to_nat i with
       | Some c => Ok c
       | None => Panic "index out of range"
       end.

(** [CreateVolume] returns a test volume that references a pre-created
    directory on a BeeGFS file system known to the driver. *)
Definition CreateVolume (d : baseBeegfsDriver) : result beegfsVolume :=
  let* fsConfig := index (perFSConfigs d) (fsIndex d) in
  let volDirPathBeegfsRoot :=
    GoPath.Join [staticVolDirBasePathBeegfsRoot d; staticDirName d] in
  Ok {| volumeID := newBeegfsUrl (SysMgmtdHost fsConfig) volDirPathBeegfsRoot |}.

(** A file system whose client options say that it is RDMA capable. *)
Definition isRDMA (cfg : FileSystemSpecificConfig) : Prop :=
  mapGet (BeegfsClientConf (Config cfg)) "connUseRDMA" = Some "true".

End Driver.

(** Two file systems, the second of which is RDMA capable. *)
Definition twoFileSystems : list FileSystemSpecificConfig :=
  [ {| SysMgmtdHost := "10.0.0.1";
       Config := {| ConnInterfaces := None; ConnNetFilter := None;
                    ConnTcpOnlyFilter := None;
                    BeegfsClientConf := Some {[ "connUseRDMA" := "false" ]};
                    connAuth := "" |} |};
    {| SysMgmtdHost := "10.0.0.2";
       Config := {| ConnInterfaces := None; ConnNetFilter := None;
                    ConnTcpOnlyFilter := None;
                    BeegfsClientConf := Some {[ "connUseRDMA" := "true" ]};
                    connAuth := "" |} |} ].
(** * Proofs: the override operation *)

Lemma map_fold_insert_union (dst src : gmap string string) :
  map_fold (λ k v acc, <[k := v]> acc) dst src = src ∪ dst.
Proof.
  apply (map_fold_weak_ind (λ r m, r = m ∪ dst)).
  - symmetry. apply (left_id_L ∅ (∪)).
  - intros i x m r _ ->. by rewrite insert_union_l.
Qed.

Lemma overwriteMap_Some (dst : gmap string string) (w : option (gmap string string)) :
  overwriteMap (Some dst) w = Ok (Some (mapOf w ∪ dst)).
Proof.
  destruct w as [src|]; simpl; [|by rewrite (left_id_L ∅ (∪))].
  case_bool_decide as E.
  - subst. by rewrite (left_id_L ∅ (∪)).
  - by rewrite map_fold_insert_union.
Qed.

Lemma overwriteMap_empty (c w : option (gmap string string)) :
  mapOf w = ∅ → overwriteMap c w = Ok c.
Proof.
  destruct w as [src|]; simpl; [|done]. intros ->. by rewrite bool_decide_eq_true_2.
Qed.

Lemma overwriteMap_nil_panics (src : gmap string string) :
  src ≠ ∅ → overwriteMap None (Some src) = Panic "assignment to entry in nil map".
Proof. intros H. simpl. by rewrite bool_decide_eq_false_2. Qed.

Lemma overwriteSlice_spec (c w : option (list string)) :
  overwriteSlice c w = match elems w with [] => c | l => Some l end.
Proof. unfold overwriteSlice. by destruct w as [[|x l]|]. Qed.

(** On a target whose map is allocated, [overwriteFrom] is the override
    operation of the specification. *)
Lemma overwriteFrom_allocated (c w : beegfsConfig) :
  BeegfsClientConf c ≠ None → overwriteFrom c w = Ok (overwriteSpec c w).
Proof.
  intros H. unfold overwriteFrom, overwriteSpec.
  destruct (BeegfsClientConf c) as [dst|] eqn:E; [|done].
  rewrite overwriteMap_Some. simpl. rewrite !overwriteSlice_spec.
  f_equal. f_equal. by repeat case_bool_decide.
Qed.

Lemma beegfsConfig_eq (a b : beegfsConfig) :
  ConnInterfaces a = ConnInterfaces b → ConnNetFilter a = ConnNetFilter b →
  ConnTcpOnlyFilter a = ConnTcpOnlyFilter b → BeegfsClientConf a = BeegfsClientConf b →
  connAuth a = connAuth b → a = b.
Proof. destruct a, b; simpl; congruence. Qed.

Lemma elems_overwriteSlice (c w : option (list string)) :
  elems (overwriteSlice c w) = match elems w with [] => elems c | l => l end.
Proof. rewrite overwriteSlice_spec. by destruct (elems w). Qed.

Lemma mapOf_overwriteMap (c w r : option (gmap string string)) :
  overwriteMap c w = Ok r → mapOf r = mapOf w ∪ mapOf c.
Proof.
  destruct c as [dst|].
  - rewrite overwriteMap_Some. by intros [= <-].
  - destruct w as [src|]; simpl.
    + case_bool_decide as E; [|done]. intros [= <-]. subst. by rewrite (left_id_L ∅ (∪)).
    + intros [= <-]. by rewrite (left_id_L ∅ (∪)).
Qed.

(** A fragment obtained by writing [b] over [a] acts on a target as [a]
    followed by [b]. *)
Lemma overwriteSpec_assoc (a b c x : beegfsConfig) :
  overwriteFrom a b = Ok c →
  overwriteSpec x c = overwriteSpec (overwriteSpec x a) b.
Proof.
  unfold overwriteFrom. destruct (overwriteMap _ _) as [m| |] eqn:Em; [|done..].
  simpl. intros [= <-]. apply mapOf_overwriteMap in Em.
  apply beegfsConfig_eq; simpl.
  - rewrite elems_overwriteSlice. by destruct (elems (ConnInterfaces b)), (elems (ConnInterfaces a)).
  - rewrite elems_overwriteSlice. by destruct (elems (ConnNetFilter b)), (elems (ConnNetFilter a)).
  - rewrite elems_overwriteSlice.
    by destruct (elems (ConnTcpOnlyFilter b)), (elems (ConnTcpOnlyFilter a)).
  - rewrite Em. by rewrite (assoc_L (∪)).
  - by repeat case_bool_decide.
Qed.

Lemma union_absorb (w e y : gmap string string) : w ∪ (e ∪ (w ∪ y)) = w ∪ (e ∪ y).
Proof.
  apply map_eq. intros k. rewrite !lookup_union.
  destruct (w !! k), (e !! k), (y !! k); done.
Qed.

(** Writing [w] before [e] and [w] changes nothing. *)
Lemma overwriteSpec_absorb (y e w : beegfsConfig) :
  overwriteSpec (overwriteSpec (overwriteSpec y w) e) w
  = overwriteSpec (overwriteSpec y e) w.
Proof.
  apply beegfsConfig_eq; simpl.
  - by destruct (elems (ConnInterfaces w)), (elems (ConnInterfaces e)).
  - by destruct (elems (ConnNetFilter w)), (elems (ConnNetFilter e)).
  - by destruct (elems (ConnTcpOnlyFilter w)), (elems (ConnTcpOnlyFilter e)).
  - by rewrite union_absorb.
  - by repeat case_bool_decide.
Qed.

Lemma applyLayers_cons (x e : beegfsConfig) (R : list beegfsConfig) :
  applyLayers x (e :: R) = applyLayers (overwriteSpec x e) R.
Proof. done. Qed.

Lemma applyLayers_app (x : beegfsConfig) (l1 l2 : list beegfsConfig) :
  applyLayers x (l1 ++ l2) = applyLayers (applyLayers x l1) l2.
Proof. apply fold_left_app. Qed.

Lemma applyLayers_absorb (w : beegfsConfig) (R : list beegfsConfig) :
  ∀ y, overwriteSpec (applyLayers (overwriteSpec y w) R) w
       = overwriteSpec (applyLayers y R) w.
Proof.
  induction R as [|e R IH]; intros y; simpl.
  - apply beegfsConfig_eq; simpl.
    + by destruct (elems (ConnInterfaces w)).
    + by destruct (elems (ConnNetFilter w)).
    + by destruct (elems (ConnTcpOnlyFilter w)).
    + f_equal. apply map_eq. intros k. rewrite !lookup_union.
      by destruct (mapOf (BeegfsClientConf w) !! k), (mapOf (BeegfsClientConf y) !! k).
    + by repeat case_bool_decide.
  - fold (applyLayers (overwriteSpec (overwriteSpec y w) e) R).
    fold (applyLayers (overwriteSpec y e) R).
    rewrite <- (IH (overwriteSpec (overwriteSpec y w) e)).
    rewrite overwriteSpec_absorb. apply IH.
Qed.

(** * Proofs: merging the file system specific configurations *)

Lemma hostIs_true (h : string) (c : FileSystemSpecificConfig) :
  hostIs h c = true ↔ h = SysMgmtdHost c.
Proof. apply String.eqb_eq. Qed.

Lemma hostIs_false (h : string) (c : FileSystemSpecificConfig) :
  hostIs h c = false ↔ h ≠ SysMgmtdHost c.
Proof. apply String.eqb_neq. Qed.

Lemma hostConfigs_cons (h : string) (c : FileSystemSpecificConfig) l :
  hostConfigs h (c :: l) = (if hostIs h c then [Config c] else []) ++ hostConfigs h l.
Proof. unfold hostConfigs. simpl. by destruct (hostIs h c). Qed.

Lemma hostConfigs_app (h : string) (l1 l2 : list FileSystemSpecificConfig) :
  hostConfigs h (l1 ++ l2) = hostConfigs h l1 ++ hostConfigs h l2.
Proof. unfold hostConfigs. by rewrite List.filter_app, map_app. Qed.

(** The inner loop: the flag tells whether the host was there, other
    hosts are left alone, and for the host of [wf] every configuration
    has [wf] written over it. *)
Lemma overwriteMatching_spec (wf : FileSystemSpecificConfig) :
  ∀ L L' had, overwriteMatching L wf = Ok (L', had) →
    (had = false → L' = L ∧ hostConfigs (SysMgmtdHost wf) L = [])
    ∧ (∀ h, h ≠ SysMgmtdHost wf → hostConfigs h L' = hostConfigs h L)
    ∧ (had = true → ∀ x,
         applyLayers x (hostConfigs (SysMgmtdHost wf) L')
         = overwriteSpec (applyLayers x (hostConfigs (SysMgmtdHost wf) L)) (Config wf)).
Proof.
  induction L as [|e L IH]; intros L' had; simpl.
  - intros [= <- <-]. done.
  - case_bool_decide as Eh.
    + destruct (overwriteFrom (Config e) (Config wf)) as [c| |] eqn:Ec; [|done..]. simpl.
      destruct (overwriteMatching L wf) as [[rest' had']| |] eqn:Er; [|done..]. simpl.
      intros [= <- <-]. destruct (IH _ _ eq_refl) as (Hf & Hne & Ht).
      split; [done|]. split.
      * intros h Hh. rewrite !hostConfigs_cons. unfold hostIs. simpl.
        assert (String.eqb h (SysMgmtdHost e) = false) as ->
          by (apply String.eqb_neq; congruence).
        simpl. by apply Hne.
      * intros _ x. rewrite !hostConfigs_cons. unfold hostIs. simpl.
        assert (String.eqb (SysMgmtdHost wf) (SysMgmtdHost e) = true) as ->
          by (by apply String.eqb_eq).
        simpl. fold (applyLayers (overwriteSpec x c) (hostConfigs (SysMgmtdHost wf) rest')).
        fold (applyLayers (overwriteSpec x (Config e)) (hostConfigs (SysMgmtdHost wf) L)).
        rewrite (overwriteSpec_assoc _ _ _ x Ec).
        destruct had'.
        -- rewrite Ht by done. apply applyLayers_absorb.
        -- destruct (Hf eq_refl) as [-> ->]. done.
    + destruct (overwriteMatching L wf) as [[rest' had']| |] eqn:Er; [|done..]. simpl.
      intros [= <- <-]. destruct (IH _ _ eq_refl) as (Hf & Hne & Ht).
      assert (hostIs (SysMgmtdHost wf) e = false) as Ee by (apply hostIs_false; congruence).
      split; [|split].
      * intros ->. destruct (Hf eq_refl) as [-> HL]. split; [done|].
        rewrite hostConfigs_cons, Ee. done.
      * intros h Hh. rewrite !hostConfigs_cons. f_equal. by apply Hne.
      * intros -> x. rewrite !hostConfigs_cons, Ee. simpl. by apply Ht.
Qed.

(** [overwriteFileSystemSpecificConfigs]: for every host, the
    configurations of the result act as those of [writeTo] followed by
    those of [writeFrom]. *)
Lemma overwriteFileSystemSpecificConfigs_spec (h : string) :
  ∀ WF L L', overwriteFileSystemSpecificConfigs L WF = Ok L' →
    ∀ x, applyLayers x (hostConfigs h L')
         = applyLayers (applyLayers x (hostConfigs h L)) (hostConfigs h WF).
Proof.
  induction WF as [|wf WF IH]; intros L L'; simpl.
  - intros [= <-] x. done.
  - destruct (overwriteMatching L wf) as [[L1 had]| |] eqn:Em; [|done..]. simpl.
    intros HL' x. rewrite (IH _ _ HL'). rewrite hostConfigs_cons, applyLayers_app.
    f_equal. destruct (overwriteMatching_spec wf _ _ _ Em) as (Hf & Hne & Ht).
    destruct (hostIs h wf) eqn:Eh.
    + apply hostIs_true in Eh. subst h. destruct had.
      * by rewrite Ht.
      * destruct (Hf eq_refl) as [-> HL]. rewrite hostConfigs_app, applyLayers_app.
        rewrite (hostConfigs_cons _ wf []).
        assert (hostIs (SysMgmtdHost wf) wf = true) as -> by (by apply hostIs_true). done.
    + apply hostIs_false in Eh. simpl. destruct had.
      * by rewrite Hne.
      * rewrite hostConfigs_app, applyLayers_app, Hne by done.
        rewrite (hostConfigs_cons h wf []).
        assert (hostIs h wf = false) as -> by (by apply hostIs_false). done.
Qed.

(** The loop over the node specific configurations. *)
Lemma overwriteFromNodes_spec (nodeID : string) :
  ∀ nodes P P', overwriteFromNodes nodeID P nodes = Ok P' →
    let applicable := List.filter (appliesToNode nodeID) nodes in
    (∀ x, overwriteSpec x (DefaultConfig P')
          = applyLayers (overwriteSpec x (DefaultConfig P)) (map nodeDefaultConfig applicable))
    ∧ (∀ h x, applyLayers x (hostConfigs h (FileSystemSpecificConfigs P'))
              = applyLayers (applyLayers x (hostConfigs h (FileSystemSpecificConfigs P)))
                  (hostConfigs h (flat_map nodeFileSystemSpecificConfigs applicable))).
Proof.
  induction nodes as [|n nodes IH]; intros P P'; simpl.
  - intros [= <-]. done.
  - destruct (appliesToNode nodeID n) eqn:En.
    + destruct (overwriteFrom _ _) as [d| |] eqn:Ed; [|done..]. simpl.
      destruct (overwriteFileSystemSpecificConfigs _ _) as [f| |] eqn:Ef; [|done..]. simpl.
      intros HP'. destruct (IH _ _ HP') as [Hd Hf]. simpl in *. split.
      * intros x. rewrite Hd. by rewrite (overwriteSpec_assoc _ _ _ x Ed).
      * intros h x. rewrite Hf, hostConfigs_app, applyLayers_app.
        by rewrite (overwriteFileSystemSpecificConfigs_spec h _ _ _ Ef).
    + intros HP'. by apply IH.
Qed.

(** * Proofs: stripping *)

Lemma stripStep (g : gmap string string) (k : string) :
  match mapGet (Some g) k with
  | Some _ => mapDelete (Some g) k
  | None => Some g
  end = Some (delete k g).
Proof. simpl. destruct (g !! k) eqn:E; [done|]. by rewrite delete_id. Qed.

Lemma strip_BeegfsClientConf (c : beegfsConfig) :
  BeegfsClientConf (stripBeegfsConfig c) = stripKeys <$> BeegfsClientConf c.
Proof.
  unfold stripBeegfsConfig, stripKeys, noEffectBeegfsConfOptions. simpl.
  destruct (BeegfsClientConf c) as [g|]; [|done].
  by rewrite !stripStep.
Qed.

Lemma stripKeys_lookup_in (g : gmap string string) (k : string) :
  k ∈ noEffectBeegfsConfOptions → stripKeys g !! k = None.
Proof.
  unfold stripKeys, noEffectBeegfsConfOptions. simpl. rewrite !elem_of_cons.
  intros [->|[->|[->|H]]]; [by simplify_map_eq..|]. by apply elem_of_nil in H.
Qed.

Lemma stripKeys_lookup_notin (g : gmap string string) (k : string) :
  k ∉ noEffectBeegfsConfOptions → stripKeys g !! k = g !! k.
Proof.
  unfold stripKeys, noEffectBeegfsConfOptions. simpl. rewrite !not_elem_of_cons.
  intros (? & ? & ? & _). by rewrite !lookup_delete_ne.
Qed.

Lemma stripKeys_union (a b : gmap string string) :
  stripKeys (a ∪ b) = stripKeys a ∪ stripKeys b.
Proof. unfold stripKeys. simpl. by rewrite !delete_union. Qed.

Lemma mapOf_strip (c : beegfsConfig) :
  mapOf (BeegfsClientConf (stripBeegfsConfig c)) = stripKeys (mapOf (BeegfsClientConf c)).
Proof.
  rewrite strip_BeegfsClientConf. destruct (BeegfsClientConf c); simpl; [done|].
  unfold stripKeys. simpl. by rewrite !delete_empty.
Qed.

(** Stripping commutes with the override operation. *)
Lemma strip_overwriteSpec (x w : beegfsConfig) :
  stripBeegfsConfig (overwriteSpec x w)
  = overwriteSpec (stripBeegfsConfig x) (stripBeegfsConfig w).
Proof.
  apply beegfsConfig_eq; try done.
  transitivity (Some (stripKeys (mapOf (BeegfsClientConf w) ∪ mapOf (BeegfsClientConf x)))).
  { by rewrite strip_BeegfsClientConf. }
  rewrite stripKeys_union, <- !mapOf_strip. done.
Qed.

Lemma strip_applyLayers (R : list beegfsConfig) :
  ∀ x, stripBeegfsConfig (applyLayers x R)
       = applyLayers (stripBeegfsConfig x) (map stripBeegfsConfig R).
Proof.
  induction R as [|e R IH]; intros x; simpl; [done|].
  fold (applyLayers (overwriteSpec x e) R). rewrite IH, strip_overwriteSpec. done.
Qed.

Lemma hostConfigs_strip (h : string) (cfg : PluginConfig) :
  hostConfigs h (FileSystemSpecificConfigs (stripConfig cfg))
  = map stripBeegfsConfig (hostConfigs h (FileSystemSpecificConfigs cfg)).
Proof.
  unfold stripConfig. cbn [FileSystemSpecificConfigs].
  induction (FileSystemSpecificConfigs cfg) as [|e l IH]; [done|].
  rewrite map_cons, !hostConfigs_cons, IH, map_app. f_equal.
  unfold hostIs. cbn [SysMgmtdHost Config]. by destruct (String.eqb h (SysMgmtdHost e)).
Qed.

(** * Proofs: squashing *)

Lemma overwriteSpec_allocated (x w : beegfsConfig) :
  BeegfsClientConf (overwriteSpec x w) ≠ None.
Proof. done. Qed.

Lemma squashLoop_spec (h : string) :
  ∀ L x, BeegfsClientConf x ≠ None →
    squashLoop h x L = Ok (applyLayers x (hostConfigs h L)).
Proof.
  induction L as [|e L IH]; intros x Hx; simpl; [done|].
  rewrite hostConfigs_cons. case_bool_decide as Eh.
  - assert (hostIs h e = true) as -> by (by apply hostIs_true).
    rewrite overwriteFrom_allocated by done. simpl. by rewrite IH.
  - assert (hostIs h e = false) as -> by (by apply hostIs_false).
    simpl. by apply IH.
Qed.

(** [squashConfigForSysMgmtdHost] never panics: it is the default
    configuration and the configurations for the host, layered. *)
Lemma squashConfigForSysMgmtdHost_spec (h : string) (cfg : PluginConfig) :
  squashConfigForSysMgmtdHost h cfg
  = Ok (layered (DefaultConfig cfg :: hostConfigs h (FileSystemSpecificConfigs cfg))).
Proof.
  unfold squashConfigForSysMgmtdHost. rewrite overwriteFrom_allocated by done. simpl.
  by rewrite squashLoop_spec.
Qed.

(** * Proofs: the layers of the configuration file *)

Lemma newPluginConfigFromRaw_Ok (rawConfig : pluginConfigFromFile) (nodeID : string)
    (cfg : PluginConfig) :
  newPluginConfigFromRaw rawConfig nodeID = Ok cfg ↔
  ∃ merged, overwriteFromNodes nodeID (filePluginConfig rawConfig)
              (NodeSpecificConfigs rawConfig) = Ok merged
            ∧ validateConfig merged = None ∧ cfg = stripConfig merged.
Proof.
  unfold newPluginConfigFromRaw.
  destruct (overwriteFromNodes _ _ _) as [merged| |]; simpl.
  - destruct (validateConfig merged) eqn:Ev.
    + split; [done|]. intros (m & [= <-] & ? & _). congruence.
    + split.
      * intros [= <-]. by exists merged.
      * intros (m & [= <-] & _ & ->). done.
  - split; [done|]. by intros (m & ? & _).
  - split; [done|]. by intros (m & ? & _).
Qed.

Lemma strip_newBeegfsConfig : stripBeegfsConfig newBeegfsConfig = newBeegfsConfig.
Proof.
  by apply beegfsConfig_eq.
Qed.

(** The configuration of a backend after [parseConfigFromFile]: the
    layers of the file for the host, stripped. *)
Lemma squash_newPluginConfigFromRaw (rawConfig : pluginConfigFromFile) (nodeID h : string)
    (cfg : PluginConfig) :
  newPluginConfigFromRaw rawConfig nodeID = Ok cfg →
  squashConfigForSysMgmtdHost h cfg
  = Ok (stripBeegfsConfig (layered (configLayers rawConfig nodeID h))).
Proof.
  intros (merged & Hm & _ & ->)%newPluginConfigFromRaw_Ok.
  rewrite squashConfigForSysMgmtdHost_spec. f_equal.
  destruct (overwriteFromNodes_spec nodeID _ _ _ Hm) as [Hd Hf]. simpl in Hd, Hf.
  unfold layered, configLayers. cbn [applyLayers fold_left].
  fold (applyLayers (overwriteSpec newBeegfsConfig (DefaultConfig (stripConfig merged)))
          (hostConfigs h (FileSystemSpecificConfigs (stripConfig merged)))).
  match goal with |- _ = stripBeegfsConfig (fold_left _ ?l ?x) =>
    change (fold_left overwriteSpec l x) with (applyLayers x l) end.
  rewrite hostConfigs_strip. cbn [stripConfig DefaultConfig].
  rewrite <- strip_newBeegfsConfig at 1.
  rewrite <- strip_overwriteSpec, <- strip_applyLayers. f_equal.
  rewrite !applyLayers_app, Hf, Hd. done.
Qed.

(** * Proofs: the secrets *)

Lemma overwriteFrom_connAuth (a b c : beegfsConfig) :
  overwriteFrom a b = Ok c → connAuth a = "" → connAuth b = "" → connAuth c = "".
Proof.
  unfold overwriteFrom. destruct (overwriteMap _ _); [|done..]. simpl.
  intros [= <-] Ha Hb. simpl. by case_bool_decide.
Qed.

Lemma overwriteMatching_connAuth (wf : FileSystemSpecificConfig) :
  connAuth (Config wf) = "" →
  ∀ L L' had, overwriteMatching L wf = Ok (L', had) → fsNoConnAuth L → fsNoConnAuth L'.
Proof.
  intros Hwf. induction L as [|e L IH]; intros L' had; simpl.
  - by intros [= <- <-].
  - intros HL' [He HL]%Forall_cons. revert HL'. case_bool_decide.
    + destruct (overwriteFrom _ _) as [c| |] eqn:Ec; [|done..]. simpl.
      destruct (overwriteMatching L wf) as [[rest' had']| |] eqn:Er; [|done..]. simpl.
      intros [= <- <-]. apply Forall_cons. split; [|by eapply IH].
      simpl. by eapply overwriteFrom_connAuth.
    + destruct (overwriteMatching L wf) as [[rest' had']| |] eqn:Er; [|done..]. simpl.
      intros [= <- <-]. apply Forall_cons. split; [done|by eapply IH].
Qed.

Lemma overwriteFileSystemSpecificConfigs_connAuth :
  ∀ WF L L', overwriteFileSystemSpecificConfigs L WF = Ok L' →
    fsNoConnAuth WF → fsNoConnAuth L → fsNoConnAuth L'.
Proof.
  induction WF as [|wf WF IH]; intros L L'; simpl.
  - by intros [= <-].
  - destruct (overwriteMatching L wf) as [[L1 had]| |] eqn:Em; [|done..]. simpl.
    intros HL' [Hwf HWF]%Forall_cons HL. eapply IH; [done..|].
    pose proof (overwriteMatching_connAuth wf Hwf _ _ _ Em HL) as H1.
    destruct had; [done|]. apply Forall_app. split; [done|]. by apply Forall_singleton.
Qed.

Lemma overwriteFromNodes_connAuth (nodeID : string) :
  ∀ nodes P P', overwriteFromNodes nodeID P nodes = Ok P' →
    Forall (λ n, connAuth (nodeDefaultConfig n) = ""
                 ∧ fsNoConnAuth (nodeFileSystemSpecificConfigs n)) nodes →
    connAuth (DefaultConfig P) = "" → fsNoConnAuth (FileSystemSpecificConfigs P) →
    connAuth (DefaultConfig P') = "" ∧ fsNoConnAuth (FileSystemSpecificConfigs P').
Proof.
  induction nodes as [|n nodes IH]; intros P P'; simpl.
  - by intros [= <-].
  - intros HP' [[Hn1 Hn2] Hnodes]%Forall_cons Hd Hf. revert HP'.
    destruct (appliesToNode nodeID n).
    + destruct (overwriteFrom _ _) as [d| |] eqn:Ed; [|done..]. simpl.
      destruct (overwriteFileSystemSpecificConfigs _ _) as [f| |] eqn:Ef; [|done..]. simpl.
      intros HP'. eapply IH; [done..| |]; simpl.
      * by eapply overwriteFrom_connAuth.
      * by eapply overwriteFileSystemSpecificConfigs_connAuth.
    + intros HP'. by eapply IH.
Qed.

Lemma newPluginConfigFromRaw_connAuth (rawConfig : pluginConfigFromFile) (nodeID : string)
    (cfg : PluginConfig) :
  yamlDecoded rawConfig → newPluginConfigFromRaw rawConfig nodeID = Ok cfg →
  connAuth (DefaultConfig cfg) = "" ∧ fsNoConnAuth (FileSystemSpecificConfigs cfg).
Proof.
  intros (Hd & Hf & Hn) (merged & Hm & _ & ->)%newPluginConfigFromRaw_Ok.
  destruct (overwriteFromNodes_connAuth nodeID _ _ _ Hm Hn Hd Hf) as [H1 H2].
  split; [done|]. unfold stripConfig, fsNoConnAuth. simpl.
  apply Forall_map. eapply Forall_impl; [exact H2|]. done.
Qed.

(** * Proofs: the authentication entries *)

Lemma filter_cons_host (h : string) (e : FileSystemSpecificConfig) l :
  List.filter (hostIs h) (e :: l)
  = if hostIs h e then e :: List.filter (hostIs h) l else List.filter (hostIs h) l.
Proof. done. Qed.

Lemma setConnAuth_spec (a : connAuthConfig) :
  ∀ L L' found, setConnAuth L a = (L', found) →
    (∀ h, h ≠ authSysMgmtdHost a → List.filter (hostIs h) L' = List.filter (hostIs h) L)
    ∧ List.filter (hostIs (authSysMgmtdHost a)) L'
      = match List.filter (hostIs (authSysMgmtdHost a)) L with
        | [] => []
        | e :: r => {| SysMgmtdHost := SysMgmtdHost e;
                       Config := withConnAuth (Some (ConnAuth a)) (Config e) |} :: r
        end
    ∧ (found = false ↔ List.filter (hostIs (authSysMgmtdHost a)) L = []).
Proof.
  induction L as [|e L IH]; intros L' found; cbn [setConnAuth].
  - intros [= <- <-]. done.
  - case_bool_decide as Eh.
    + intros [= <- <-]. rewrite !filter_cons_host.
      assert (hostIs (authSysMgmtdHost a) e = true) as He by (by apply hostIs_true).
      rewrite He. split; [|split].
      * intros h Hh. rewrite !filter_cons_host.
        assert (hostIs h e = false) as -> by (apply hostIs_false; congruence).
        unfold hostIs at 1. cbn [SysMgmtdHost].
        assert (String.eqb h (SysMgmtdHost e) = false) as ->
          by (apply String.eqb_neq; congruence).
        done.
      * unfold hostIs at 1. cbn [SysMgmtdHost]. rewrite <- Eh, String.eqb_refl. done.
      * done.
    + destruct (setConnAuth L a) as [rest' found'] eqn:Er. intros [= <- <-].
      destruct (IH _ _ eq_refl) as (Hne & Heq & Hfound).
      assert (hostIs (authSysMgmtdHost a) e = false) as Ee by (by apply hostIs_false).
      rewrite !filter_cons_host, Ee. split; [|done].
      intros h Hh. rewrite !filter_cons_host, Hne by done. done.
Qed.

Lemma applyConnAuth_filter (h : string) (a : connAuthConfig) (L : list FileSystemSpecificConfig) :
  List.filter (hostIs h) (applyConnAuth L a)
  = if authIs h a then setFirstConnAuth h (ConnAuth a) (List.filter (hostIs h) L)
    else List.filter (hostIs h) L.
Proof.
  unfold applyConnAuth. destruct (setConnAuth L a) as [L' found] eqn:E.
  destruct (setConnAuth_spec a _ _ _ E) as (Hne & Heq & Hfound).
  unfold authIs. destruct (String.eqb h (authSysMgmtdHost a)) eqn:Eh.
  - apply String.eqb_eq in Eh. subst h. destruct found.
    + rewrite Heq. destruct (List.filter _ L) eqn:EL; [|done].
      by destruct Hfound as [_ Hf]; specialize (Hf eq_refl).
    + destruct Hfound as [Hf _]. specialize (Hf eq_refl).
      rewrite List.filter_app, Heq, Hf, filter_cons_host. unfold hostIs at 1.
      cbn [SysMgmtdHost]. by rewrite String.eqb_refl.
  - apply String.eqb_neq in Eh. destruct found.
    + by apply Hne.
    + rewrite List.filter_app, Hne, filter_cons_host by done. unfold hostIs at 2.
      cbn [SysMgmtdHost]. rewrite (proj2 (String.eqb_neq _ _) Eh).
      by rewrite app_nil_r.
Qed.

Lemma setFirstConnAuth_twice (h s s' : string) (G : list FileSystemSpecificConfig) :
  setFirstConnAuth h s (setFirstConnAuth h s' G) = setFirstConnAuth h s G.
Proof. by destruct G. Qed.

Lemma fold_applyConnAuth_filter (h : string) :
  ∀ auths L,
    List.filter (hostIs h) (fold_left applyConnAuth auths L)
    = match lastConnAuth h auths with
      | None => List.filter (hostIs h) L
      | Some s => setFirstConnAuth h s (List.filter (hostIs h) L)
      end.
Proof.
  unfold lastConnAuth.
  induction auths as [|a auths IH]; intros L; simpl; [done|].
  rewrite IH, applyConnAuth_filter. destruct (authIs h a); [|done].
  cbn [List.filter map]. destruct (map ConnAuth (List.filter (authIs h) auths)) as [|s l] eqn:E.
  - done.
  - rewrite last_cons_cons. destruct (last (s :: l)) as [s0|] eqn:El.
    + by rewrite setFirstConnAuth_twice.
    + by apply last_None in El.
Qed.

Lemma applyLayers_withConnAuth (s : string) (R : list beegfsConfig) :
  Forall (λ c, connAuth c = "") R →
  ∀ y, applyLayers (withConnAuth (Some s) y) R = withConnAuth (Some s) (applyLayers y R).
Proof.
  induction 1 as [|e R He HR IH]; intros y; [done|].
  rewrite !applyLayers_cons, <- IH. f_equal.
  apply beegfsConfig_eq; try done. simpl. by rewrite He.
Qed.

(** With no secret around, an entry's secret ends up in the result,
    empty or not, and nothing else changes. *)
Lemma applyLayers_setFirstConnAuth (h s : string) (G : list FileSystemSpecificConfig)
    (x : beegfsConfig) :
  fsNoConnAuth G → connAuth x = "" → BeegfsClientConf x ≠ None →
  applyLayers x (map Config (setFirstConnAuth h s G))
  = withConnAuth (Some s) (applyLayers x (map Config G)).
Proof.
  intros HG Hx Hm. destruct G as [|e r]; cbn [setFirstConnAuth map Config].
  - rewrite applyLayers_cons. cbn [applyLayers fold_left].
    apply beegfsConfig_eq; simpl; try done.
    + destruct (BeegfsClientConf x) as [g|]; [|done]. simpl. by rewrite (left_id_L ∅ (∪)).
    + case_bool_decide; congruence.
  - apply Forall_cons in HG as [He Hr].
    rewrite !applyLayers_cons, <- applyLayers_withConnAuth by (by apply Forall_map).
    f_equal. apply beegfsConfig_eq; try done. simpl. case_bool_decide; congruence.
Qed.

Lemma fsNoConnAuth_filter (h : string) (L : list FileSystemSpecificConfig) :
  fsNoConnAuth L → fsNoConnAuth (List.filter (hostIs h) L).
Proof.
  unfold fsNoConnAuth. rewrite !Forall_forall. intros H c Hc.
  apply H. apply list_elem_of_In in Hc. apply list_elem_of_In.
  apply List.filter_In in Hc. tauto.
Qed.

(** * The claims on the configuration *)

(** C1 (as amended).  For a configuration file as the YAML decoder
    leaves it and every nodeID, if [parseConfigFromFile] builds a plugin
    configuration, the effective configuration of every backend [h]
    after the authentication entries are added is the layering, lowest
    precedence first, of the global default, the default of every
    node-scoped fragment whose node list contains nodeID (file order),
    the global fragments for [h] and the fragments for [h] of those
    node-scoped fragments (file order), each overwriting only the fields
    it sets; without the no-effect options; and with the secret of the
    last authentication entry for [h], which is written even when it is
    empty. *)
Theorem C1_resolution_layers (rawConfig : pluginConfigFromFile) (nodeID : string)
    (auths : list connAuthConfig) (cfg : PluginConfig) (h : string) :
  yamlDecoded rawConfig →
  newPluginConfigFromRaw rawConfig nodeID = Ok cfg →
  squashConfigForSysMgmtdHost h (addConnAuth auths cfg)
  = Ok (resolved rawConfig nodeID auths h).
Proof.
  intros Hy Hcfg.
  destruct (newPluginConfigFromRaw_connAuth _ _ _ Hy Hcfg) as [Hd Hf].
  pose proof (squash_newPluginConfigFromRaw _ nodeID h _ Hcfg) as Hs.
  rewrite squashConfigForSysMgmtdHost_spec in Hs. injection Hs as Hs.
  rewrite squashConfigForSysMgmtdHost_spec. f_equal.
  unfold resolved. rewrite <- Hs. unfold layered. rewrite !applyLayers_cons.
  unfold hostConfigs, addConnAuth. cbn [DefaultConfig FileSystemSpecificConfigs].
  rewrite fold_applyConnAuth_filter.
  destruct (lastConnAuth h auths) as [s|]; [|done].
  apply applyLayers_setFirstConnAuth; [by apply fsNoConnAuth_filter| |done].
  simpl. rewrite Hd. done.
Qed.

(** The example file resolves for node1, and the theorem applies. *)
Lemma C1_resolution_layers_witness :
  squashConfigForSysMgmtdHost "10.0.0.1"
    (addConnAuth exampleAuths (builtConfig exampleRawConfig "node1"))
  = Ok (resolved exampleRawConfig "node1" exampleAuths "10.0.0.1").
Proof.
  apply (C1_resolution_layers exampleRawConfig "node1" exampleAuths
           (builtConfig exampleRawConfig "node1") "10.0.0.1").
  - repeat constructor.
  - vm_compute. reflexivity.
Defined.

(** C1 as stated fails: with two authentication entries for one host,
    the second with an empty secret, the claimed layering keeps the
    first secret while the code ends with the empty one. *)
Lemma C1_counterexample :
  yamlDecoded emptyRawConfig
  ∧ newPluginConfigFromRaw emptyRawConfig "node1" = Ok (builtConfig emptyRawConfig "node1")
  ∧ squashConfigForSysMgmtdHost "10.0.0.1"
      (addConnAuth duplicateAuths (builtConfig emptyRawConfig "node1"))
    = Ok newBeegfsConfig
  ∧ resolvedAsClaimed emptyRawConfig "node1" duplicateAuths "10.0.0.1"
    = withConnAuth (Some "secret1") newBeegfsConfig
  ∧ squashConfigForSysMgmtdHost "10.0.0.1"
      (addConnAuth duplicateAuths (builtConfig emptyRawConfig "node1"))
    ≠ Ok (resolvedAsClaimed emptyRawConfig "node1" duplicateAuths "10.0.0.1").
Proof.
  split; [repeat constructor|]. split; [by vm_compute|]. split; [by vm_compute|].
  split; [by vm_compute|]. vm_compute. discriminate.
Qed.

(** C2.  The override operation panics when the target has no map and
    the fragment sets a key: merging a fragment without beegfsClientConf
    and then the fragment with the map [b:2] does not yield [b:2].  The
    same happens in [parseConfigFromFile] on a file whose global default
    has no beegfsClientConf section and whose fragment for the node has
    one. *)
Theorem C2_overwriteFrom_nil_map :
  overwriteFrom (DefaultConfig (filePluginConfig nilMapRawConfig))
    {| ConnInterfaces := None; ConnNetFilter := None; ConnTcpOnlyFilter := None;
       BeegfsClientConf := Some {[ "b" := "2" ]}; connAuth := "" |}
  = Panic "assignment to entry in nil map"
  ∧ newPluginConfigFromRaw nilMapRawConfig "node1" = Panic "assignment to entry in nil map".
Proof. split; by vm_compute. Qed.

(** * Proofs: validation *)











(** The pattern of the driver and the syntax of domain names on some
    hosts: they agree on lower-case names whose labels before the last
    have two bytes or more; the pattern takes labels with an underscore
    or with a slash, and takes neither upper-case letters nor a label of
    one byte before the last. *)
Example domainRegex_examples :
  (GoRegexp.full_match domainRegex "mgmtd.example.com" = true
   ∧ isDomainName "mgmtd.example.com" = true)
  ∧ (GoRegexp.full_match domainRegex "storage-1.example.com." = true
     ∧ isDomainName "storage-1.example.com." = true)
  ∧ (GoRegexp.full_match domainRegex "_srv.example.com" = true
     ∧ isDomainName "_srv.example.com" = false)
  ∧ (GoRegexp.full_match domainRegex "999.999.999.999." = true
     ∧ GoNet.ParseIP "999.999.999.999." = None)
  ∧ (GoRegexp.full_match domainRegex "Mgmtd.Example.com" = false
     ∧ isDomainName "Mgmtd.Example.com" = true)
  ∧ (GoRegexp.full_match domainRegex "a.example.com" = false
     ∧ isDomainName "a.example.com" = true)
  ∧ (GoRegexp.full_match domainRegex "not a host!!" = false
     ∧ isDomainName "not a host!!" = false).
Proof. repeat split; by vm_compute. Qed.

(** * Proofs: the stripped configuration *)

Lemma mapGet_strip (c : beegfsConfig) (k : string) :
  mapGet (BeegfsClientConf (stripBeegfsConfig c)) k
  = if bool_decide (k ∈ noEffectBeegfsConfOptions) then None
    else mapGet (BeegfsClientConf c) k.
Proof.
  rewrite strip_BeegfsClientConf. destruct (BeegfsClientConf c) as [g|]; simpl.
  - case_bool_decide; [by apply stripKeys_lookup_in|by apply stripKeys_lookup_notin].
  - by case_bool_decide.
Qed.





(** In the example the no-effect option sysMgmtdHost of the backend is
    gone and the unsupported option connAuthFile is kept. *)
Example stripConfig_example :
  map (λ c, (mapGet (BeegfsClientConf c) "sysMgmtdHost",
             mapGet (BeegfsClientConf c) "connAuthFile"))
    (beegfsConfigsOf (mergedConfig exampleRawConfig "node1"))
  = [(None, None); (Some "10.0.0.9", Some "/etc/auth")]
  ∧ map (λ c, (mapGet (BeegfsClientConf c) "sysMgmtdHost",
               mapGet (BeegfsClientConf c) "connAuthFile"))
      (beegfsConfigsOf (stripConfig (mergedConfig exampleRawConfig "node1")))
    = [(None, None); (None, Some "/etc/auth")].
Proof. split; by vm_compute. Qed.

(** * Proofs: the directory name of a volume *)

Lemma replace_from_none (old new : string) (s : string) :
  GoStrings.replace_from old new 0 O s = s.
Proof. induction s as [|c s IH]; simpl; [done|]. by rewrite IH. Qed.

Lemma Replace_scheme (rest : string) :
  GoStrings.Replace ("beegfs://" +:+ rest) "beegfs://" "" 1 = rest.
Proof. simpl. destruct rest; simpl; [done|]. by rewrite replace_from_none. Qed.

Lemma prefix_empty (s : string) : String.prefix "" s = true.
Proof. by destruct s. Qed.

Lemma prefix_byte (a b : ascii) (s : string) :
  String.prefix (String a "") (String b s) = Ascii.eqb a b.
Proof.
  cbn [String.prefix]. destruct (ascii_dec a b) as [->|H].
  - by rewrite prefix_empty, Ascii.eqb_refl.
  - symmetry. by apply Ascii.eqb_neq.
Qed.

Lemma replace_from_byte (old : ascii) (new : string) (s : string) :
  ∀ n, (n < 0)%Z →
    GoStrings.replace_from (String old "") new n O s
    = mapBytes (λ c, if Ascii.eqb old c then new else String c "") s.
Proof.
  induction s as [|c s IH]; intros n Hn; [done|].
  cbn [GoStrings.replace_from mapBytes]. unfold GoStrings.HasPrefix. rewrite prefix_byte.
  assert (negb (n =? 0)%Z = true) as -> by (apply negb_true_iff, Z.eqb_neq; lia).
  cbn [andb String.length Nat.sub]. rewrite !IH by lia. by destruct (Ascii.eqb old c).
Qed.

Lemma append_assoc (a b c : string) : (a +:+ b) +:+ c = a +:+ (b +:+ c).
Proof.
  induction a as [|x a IH]; [done|].
  change (String x ((a +:+ b) +:+ c) = String x (a +:+ (b +:+ c))). by f_equal.
Qed.

Lemma mapBytes_app (f : ascii → string) (a b : string) :
  mapBytes f (a +:+ b) = mapBytes f a +:+ mapBytes f b.
Proof.
  induction a as [|x a IH]; [done|].
  change (String x a +:+ b) with (String x (a +:+ b)). cbn [mapBytes].
  rewrite IH. symmetry. apply append_assoc.
Qed.

Lemma encodeBytes_Replace (s : string) :
  GoStrings.Replace (GoStrings.Replace s "_" "__" (-1)) "/" "_" (-1) = encodeBytes s.
Proof.
  unfold GoStrings.Replace. rewrite !replace_from_byte by lia.
  induction s as [|c s IH]; [done|].
  cbn [encodeBytes mapBytes]. rewrite mapBytes_app, IH. f_equal.
  unfold encodeByte. rewrite (Ascii.eqb_sym c "_"), (Ascii.eqb_sym c "/").
  destruct (Ascii.eqb "_" c) eqn:E1.
  - apply Ascii.eqb_eq in E1. subst c. done.
  - destruct (Ascii.eqb "/" c) eqn:E2; cbn [mapBytes]; rewrite E2; reflexivity.
Qed.

Lemma be_bytes_length (n : nat) (x : Z) : length (GoSha1.be_bytes n x) = n.
Proof. unfold GoSha1.be_bytes. by rewrite length_map, length_rev, length_seq. Qed.

Lemma be_bytes_range (n : nat) (x : Z) :
  Forall (λ b, 0 ≤ b < 256)%Z (GoSha1.be_bytes n x).
Proof.
  unfold GoSha1.be_bytes. apply Forall_map, Forall_forall. intros i _. simpl.
  change 255%Z with (Z.ones 8). rewrite Z.land_ones by lia.
  apply Z.mod_pos_bound. lia.
Qed.

Lemma Sum_length (data : string) : length (GoSha1.Sum data) = 20.
Proof. unfold GoSha1.Sum. by rewrite !length_app, !be_bytes_length. Qed.

Lemma Sum_range (data : string) : Forall (λ b, 0 ≤ b < 256)%Z (GoSha1.Sum data).
Proof. unfold GoSha1.Sum. rewrite !Forall_app. repeat split; apply be_bytes_range. Qed.

Lemma Sprintf_x_length (b : list Z) : String.length (GoSha1.Sprintf_x b) = 2 * length b.
Proof. induction b as [|x b IH]; simpl; [done|]. rewrite IH. lia. Qed.

Lemma hex_digit_lower (n : Z) : (0 ≤ n < 16)%Z → isLowerHex (GoSha1.hex_digit n) = true.
Proof.
  intros H.
  assert (n ∈ [0; 1; 2; 3; 4; 5; 6; 7; 8; 9; 10; 11; 12; 13; 14; 15]%Z) as Hn.
  { rewrite !elem_of_cons. lia. }
  rewrite !elem_of_cons, elem_of_nil in Hn.
  repeat (destruct Hn as [->|Hn]; [by vm_compute|]). done.
Qed.

Lemma Sprintf_x_lower (b : list Z) :
  Forall (λ x, 0 ≤ x < 256)%Z b → GoStrings.all_bytes isLowerHex (GoSha1.Sprintf_x b) = true.
Proof.
  induction 1 as [|x b Hx Hb IH]; simpl; [done|].
  rewrite IH, !hex_digit_lower; [done| |].
  - change 15%Z with (Z.ones 4). rewrite Z.land_ones by lia. apply Z.mod_pos_bound. lia.
  - rewrite Z.shiftr_div_pow2 by lia. change (2 ^ 4)%Z with 16%Z. split.
    + apply Z.div_pos; lia.
    + apply Z.div_lt_upper_bound; lia.
Qed.

(** C4.  [sanitizeVolumeID] is a function of the volume identity: for
    the identity beegfs://rest, with every underscore of [rest] doubled
    and then every path separator replaced by one underscore, it is the
    40 lower-case hexadecimal digits of the SHA-1 hash of the whole
    identity exactly when the transformed [rest] is longer than 255
    bytes, and the transformed [rest] otherwise. *)
Theorem C4_sanitizeVolumeID (rest : string) :
  sanitizeVolumeID ("beegfs://" +:+ rest)
  = (if (255 <? String.length (encodeBytes rest))%nat
     then GoSha1.Sprintf_x (GoSha1.Sum ("beegfs://" +:+ rest))
     else encodeBytes rest)
  ∧ String.length (GoSha1.Sprintf_x (GoSha1.Sum ("beegfs://" +:+ rest))) = 40
  ∧ GoStrings.all_bytes isLowerHex (GoSha1.Sprintf_x (GoSha1.Sum ("beegfs://" +:+ rest))) = true.
Proof.
  split; [|split].
  - unfold sanitizeVolumeID. by rewrite Replace_scheme, encodeBytes_Replace.
  - by rewrite Sprintf_x_length, Sum_length.
  - apply Sprintf_x_lower, Sum_range.
Qed.

(** The identities of the documentation and of a path of 300 bytes. *)
Example sanitizeVolumeID_examples :
  sanitizeVolumeID "beegfs://127.0.0.1/scratch/vol1" = "127.0.0.1_scratch_vol1"
  ∧ sanitizeVolumeID "beegfs://127.0.0.1/scratch/vol_1" = "127.0.0.1_scratch_vol__1"
  ∧ String.length (encodeBytes ("h" +:+ longPath 150)) = 301
  ∧ sanitizeVolumeID ("beegfs://h" +:+ longPath 150)
    = "84a0a96cf9da284722deba92fff64429d48efb74".
Proof. repeat split; vm_compute; reflexivity. Qed.

(** * Proofs: lexical cleaning of paths *)

Lemma Contains_cons (c : ascii) (s sub : string) :
  GoStrings.Contains (String c s) sub
  = GoStrings.HasPrefix (String c s) sub || GoStrings.Contains s sub.
Proof. done. Qed.

Lemma Contains_slash_cons (c : ascii) (s : string) :
  GoStrings.Contains (String c s) "/" = Ascii.eqb "/" c || GoStrings.Contains s "/".
Proof. rewrite Contains_cons. unfold GoStrings.HasPrefix. by rewrite prefix_byte. Qed.

Lemma SplitByte_nonempty (s : string) (c : ascii) : GoStrings.SplitByte s c ≠ [].
Proof.
  destruct s as [|a s]; simpl; [done|].
  destruct (Ascii.eqb a c); [done|]. by destruct (GoStrings.SplitByte s c).
Qed.

Lemma SplitByte_slash_free (s : string) :
  GoStrings.Contains s "/" = false → GoStrings.SplitByte s "/" = [s].
Proof.
  induction s as [|a s IH]; [done|].
  rewrite Contains_slash_cons. intros [Ha Hs]%orb_false_iff.
  cbn [GoStrings.SplitByte]. rewrite Ascii.eqb_sym, Ha. by rewrite IH.
Qed.

Lemma SplitByte_app (a b : string) :
  GoStrings.SplitByte (a +:+ String "/" b) "/"
  = GoStrings.SplitByte a "/" ++ GoStrings.SplitByte b "/".
Proof.
  induction a as [|x a IH].
  - done.
  - change (String x a +:+ String "/" b) with (String x (a +:+ String "/" b)).
    cbn [GoStrings.SplitByte]. rewrite IH.
    destruct (Ascii.eqb x "/"); [done|].
    pose proof (SplitByte_nonempty a "/"). by destruct (GoStrings.SplitByte a "/").
Qed.

Lemma SplitByte_elems (s : string) :
  Forall (λ e, GoStrings.Contains e "/" = false) (GoStrings.SplitByte s "/").
Proof.
  induction s as [|a s IH]; [by repeat constructor|].
  cbn [GoStrings.SplitByte]. destruct (Ascii.eqb a "/") eqn:Ea.
  - by constructor.
  - pose proof (SplitByte_nonempty s "/") as Hne.
    destruct (GoStrings.SplitByte s "/") as [|h t]; [done|].
    apply Forall_cons in IH as [Hh Ht]. constructor; [|done].
    rewrite Contains_slash_cons, Ascii.eqb_sym, Ea. done.
Qed.

Lemma SplitByte_Join (l : list string) :
  l ≠ [] → Forall (λ e, GoStrings.Contains e "/" = false) l →
  GoStrings.SplitByte (GoStrings.Join l "/") "/" = l.
Proof.
  unfold GoStrings.Join. induction l as [|x l IH]; [done|]. intros _ [Hx Hl]%Forall_cons.
  destruct l as [|y l].
  - simpl. by apply SplitByte_slash_free.
  - change (String.concat "/" (x :: y :: l)) with (x +:+ String "/" (String.concat "/" (y :: l))).
    rewrite SplitByte_app, IH by done. by rewrite SplitByte_slash_free.
Qed.

Lemma step_good (out : list string) (e : string) :
  goodElem e → GoPath.step true out e = e :: out.
Proof.
  intros (_ & H1 & H2 & H3). unfold GoPath.step.
  rewrite (proj2 (String.eqb_neq _ _) H1), (proj2 (String.eqb_neq _ _) H2),
    (proj2 (String.eqb_neq _ _) H3). done.
Qed.

Lemma step_keeps_good (out : list string) (e : string) :
  GoStrings.Contains e "/" = false → Forall goodElem out →
  Forall goodElem (GoPath.step true out e).
Proof.
  intros He Hout. unfold GoPath.step.
  destruct (String.eqb e "") eqn:E1; [done|]. destruct (String.eqb e ".") eqn:E2; [done|].
  simpl. destruct (String.eqb e "..") eqn:E3.
  - destruct out as [|top rest]; [done|]. apply Forall_cons in Hout as [Ht Hr].
    destruct (String.eqb top "..") eqn:E4; [|done].
    apply String.eqb_eq in E4. by destruct Ht as (_ & _ & _ & ?).
  - constructor; [|done]. apply String.eqb_neq in E1, E2, E3. done.
Qed.

Lemma cleanElems_good (s : string) (out : list string) :
  Forall goodElem out → Forall goodElem (cleanElems out s).
Proof.
  unfold cleanElems. pose proof (SplitByte_elems s) as H. revert out.
  induction H as [|e l He Hl IH]; intros out Hout; simpl; [done|].
  apply IH. by apply step_keeps_good.
Qed.

Lemma fold_step_good (l out : list string) :
  Forall goodElem l → fold_left (GoPath.step true) l out = rev l ++ out.
Proof.
  intros H. revert out. induction H as [|e l He Hl IH]; intros out; simpl; [done|].
  rewrite IH, step_good by done. by rewrite <- app_assoc.
Qed.

Lemma cleanElems_rootedPath (out : list string) :
  Forall goodElem out → cleanElems [] (rootedPath out) = out.
Proof.
  intros Hout. unfold cleanElems, rootedPath.
  change ("/" +:+ ?s) with (String "/" s). cbn [GoStrings.SplitByte].
  rewrite Ascii.eqb_refl. cbn [fold_left]. change (GoPath.step true [] "") with (@nil string).
  destruct out as [|e out'] eqn:E; [done|]. rewrite <- E in *.
  rewrite SplitByte_Join.
  - rewrite fold_step_good by (by apply Forall_rev). by rewrite rev_involutive, app_nil_r.
  - subst. simpl. by destruct (rev out').
  - apply Forall_rev. eapply Forall_impl; [exact Hout|]. by intros ? [? _].
Qed.

Lemma Clean_rooted (s : string) :
  GoPath.Clean (String "/" s) = rootedPath (cleanElems [] (String "/" s)).
Proof. done. Qed.

Lemma cleanElems_slash (out : list string) (s : string) :
  cleanElems out (String "/" s) = cleanElems out s.
Proof. done. Qed.

Lemma cleanElems_app (out : list string) (a b : string) :
  cleanElems out (a +:+ String "/" b) = cleanElems (cleanElems out a) b.
Proof. unfold cleanElems. by rewrite SplitByte_app, fold_left_app. Qed.

(** Cleaning a cleaned rooted path changes nothing. *)
Lemma Clean_rootedPath (out : list string) :
  Forall goodElem out → GoPath.Clean (rootedPath out) = rootedPath out.
Proof.
  intros H. unfold rootedPath at 1. change ("/" +:+ ?s) with (String "/" s).
  rewrite Clean_rooted. f_equal. by apply cleanElems_rootedPath.
Qed.

(** The base path of [CreateVolume] and the path of the volume. *)
Lemma Clean_Join_root (base : string) :
  GoPath.Clean (GoPath.Join ["/"; base]) = rootedPath (cleanElems [] base).
Proof.
  assert (GoPath.Join ["/"; base] = rootedPath (cleanElems [] base)) as ->.
  { unfold GoPath.Join. cbn [forallb String.eqb andb GoPath.join_buf].
    change ("/" +:+ "/" +:+ base) with (String "/" (String "/" base)).
    rewrite Clean_rooted. by rewrite !cleanElems_slash. }
  apply Clean_rootedPath, cleanElems_good. done.
Qed.

Lemma Join_rootedPath (out : list string) (name : string) :
  Forall goodElem out →
  GoPath.Join [rootedPath out; name] = rootedPath (cleanElems out name).
Proof.
  intros H. unfold GoPath.Join, rootedPath at 1 2.
  change ("/" +:+ ?s) with (String "/" s).
  cbn [forallb String.eqb andb GoPath.join_buf].
  change (String "/" ?s +:+ "/" +:+ name) with (String "/" s +:+ String "/" name).
  match goal with |- GoPath.Clean (?a +:+ _) = _ =>
    change (GoPath.Clean (a +:+ String "/" name))
      with (rootedPath (cleanElems [] (a +:+ String "/" name))) end.
  rewrite cleanElems_app. f_equal. f_equal.
  by apply (cleanElems_rootedPath out).
Qed.

Lemma volDirPath_clean (base name : string) :
  GoPath.Join [GoPath.Clean (GoPath.Join ["/"; base]); name]
  = GoPath.Clean ("/" +:+ base +:+ "/" +:+ name)
  ∧ GoStrings.HasPrefix (GoPath.Clean ("/" +:+ base +:+ "/" +:+ name)) "/" = true
  ∧ GoPath.Clean (GoPath.Clean ("/" +:+ base +:+ "/" +:+ name))
    = GoPath.Clean ("/" +:+ base +:+ "/" +:+ name).
Proof.
  change ("/" +:+ base +:+ "/" +:+ name) with (String "/" (base +:+ String "/" name)).
  rewrite Clean_rooted, cleanElems_slash, cleanElems_app.
  rewrite Clean_Join_root, Join_rootedPath by (by apply cleanElems_good).
  split; [done|]. split.
  - unfold GoStrings.HasPrefix, rootedPath. change ("/" +:+ ?s) with (String "/" s).
    by rewrite prefix_byte.
  - apply Clean_rootedPath. by do 2 apply cleanElems_good.
Qed.

(** * Proofs: the volume identity codec *)

Ltac each_byte c := destruct c as [[] [] [] [] [] [] [] []].

Lemma all_bytes_app (P : ascii → bool) (a b : string) :
  GoStrings.all_bytes P (a +:+ b) = GoStrings.all_bytes P a && GoStrings.all_bytes P b.
Proof.
  induction a as [|x a IH]; [done|].
  change (String x a +:+ b) with (String x (a +:+ b)). cbn [GoStrings.all_bytes].
  by rewrite IH, andb_assoc.
Qed.

Lemma all_bytes_impl (P Q : ascii → bool) (s : string) :
  (∀ c, P c = true → Q c = true) →
  GoStrings.all_bytes P s = true → GoStrings.all_bytes Q s = true.
Proof.
  intros H. induction s as [|x s IH]; [done|]. cbn [GoStrings.all_bytes].
  intros [Hx Hs]%andb_true_iff. by rewrite (H _ Hx), IH.
Qed.

Lemma cut_absent (s : string) (c : ascii) :
  GoStrings.all_bytes (λ a, negb (Ascii.eqb a c)) s = true → GoStrings.cut s c = (s, None).
Proof.
  induction s as [|x s IH]; [done|]. cbn [GoStrings.all_bytes GoStrings.cut].
  intros [Hx Hs]%andb_true_iff. apply negb_true_iff in Hx. by rewrite Hx, IH.
Qed.

Lemma cut_app (a b : string) (c : ascii) :
  GoStrings.all_bytes (λ x, negb (Ascii.eqb x c)) a = true →
  GoStrings.cut (a +:+ String c b) c = (a, Some b).
Proof.
  induction a as [|x a IH].
  - intros _. simpl. by rewrite Ascii.eqb_refl.
  - change (String x a +:+ String c b) with (String x (a +:+ String c b)).
    cbn [GoStrings.all_bytes GoStrings.cut].
    intros [Hx Hs]%andb_true_iff. apply negb_true_iff in Hx. by rewrite Hx, IH.
Qed.

Lemma LastIndex_absent (s : string) (c : ascii) :
  GoStrings.all_bytes (λ a, negb (Ascii.eqb a c)) s = true →
  GoStrings.LastIndex s (String c "") = None.
Proof.
  induction s as [|x s IH]; [done|]. cbn [GoStrings.all_bytes GoStrings.LastIndex].
  intros [Hx Hs]%andb_true_iff. apply negb_true_iff in Hx. rewrite IH by done.
  unfold GoStrings.HasPrefix. by rewrite prefix_byte, Ascii.eqb_sym, Hx.
Qed.

Lemma CountByte_absent (s : string) (c : ascii) :
  GoStrings.all_bytes (λ a, negb (Ascii.eqb a c)) s = true → GoStrings.CountByte s c = 0.
Proof.
  induction s as [|x s IH]; [done|]. cbn [GoStrings.all_bytes GoStrings.CountByte].
  intros [Hx Hs]%andb_true_iff. apply negb_true_iff in Hx. by rewrite Hx, IH.
Qed.

(** ** Escaping a path and unescaping it *)

Lemma escape_byte_plain (c : ascii) :
  GoStrings.all_bytes plainByte (GoUrl.escape (String c "") GoUrl.encodePath) = true.
Proof. each_byte c; vm_compute; reflexivity. Qed.

Lemma escape_cons (c : ascii) (s : string) (mode : GoUrl.encoding) :
  GoUrl.escape (String c s) mode
  = GoUrl.escape (String c "") mode +:+ GoUrl.escape s mode.
Proof.
  cbn [GoUrl.escape]. destruct (negb (GoUrl.shouldEscape c mode)); [done|].
  by destruct (_ && _).
Qed.

Lemma escape_plain (p : string) :
  GoStrings.all_bytes plainByte (GoUrl.escape p GoUrl.encodePath) = true.
Proof.
  induction p as [|c p IH]; [done|].
  by rewrite escape_cons, all_bytes_app, escape_byte_plain, IH.
Qed.

Lemma unescape_check_byte (c : ascii) (rest : string) :
  GoUrl.unescape_check (GoUrl.escape (String c "") GoUrl.encodePath +:+ rest) GoUrl.encodePath
  = GoUrl.unescape_check rest GoUrl.encodePath.
Proof. each_byte c; reflexivity. Qed.

Lemma unescape_decode_byte (c : ascii) (rest : string) :
  GoUrl.unescape_decode (GoUrl.escape (String c "") GoUrl.encodePath +:+ rest) GoUrl.encodePath
  = String c (GoUrl.unescape_decode rest GoUrl.encodePath).
Proof. each_byte c; reflexivity. Qed.

Lemma unescape_escape_path (p : string) :
  GoUrl.unescape (GoUrl.escape p GoUrl.encodePath) GoUrl.encodePath = Ok p.
Proof.
  unfold GoUrl.unescape.
  assert (GoUrl.unescape_check (GoUrl.escape p GoUrl.encodePath) GoUrl.encodePath = None) as ->.
  { induction p as [|c p IH]; [done|]. by rewrite escape_cons, unescape_check_byte. }
  f_equal. induction p as [|c p IH]; [done|].
  by rewrite escape_cons, unescape_decode_byte, IH.
Qed.

Lemma escape_absolute (p : string) :
  validPath p = true →
  p = "" ∨ ∃ p', p = String "/" p' ∧ GoUrl.escape p GoUrl.encodePath
                   = String "/" (GoUrl.escape p' GoUrl.encodePath).
Proof.
  destruct p as [|c p']; [by left|]. simpl. intros ->%Ascii.eqb_eq. right. by exists p'.
Qed.

(** ** Hosts *)

Lemma hostByte_facts (c : ascii) :
  hostByte c = true →
  GoUrl.shouldEscape c GoUrl.encodeHost = false
  ∧ plainByte c = true
  ∧ Byte.oneOf "/:@%[" c = false.
Proof. each_byte c; vm_compute; intros H; try discriminate H; done. Qed.

Lemma validHost_absent (h : string) (c : ascii) :
  Byte.oneOf "/:@%[" c = true → validHost h = true →
  GoStrings.all_bytes (λ a, negb (Ascii.eqb a c)) h = true.
Proof.
  intros Hc. apply all_bytes_impl. intros a Ha.
  destruct (hostByte_facts a Ha) as (_ & _ & H).
  apply negb_true_iff, Ascii.eqb_neq. intros ->. congruence.
Qed.

Lemma validHost_plain (h : string) :
  validHost h = true → GoStrings.all_bytes plainByte h = true.
Proof. apply all_bytes_impl. intros a Ha. by destruct (hostByte_facts a Ha) as (_ & ? & _). Qed.

Lemma escape_host (h : string) :
  validHost h = true → GoUrl.escape h GoUrl.encodeHost = h.
Proof.
  induction h as [|c h IH]; [done|]. cbn [validHost GoStrings.all_bytes GoUrl.escape].
  intros [Hc Hh]%andb_true_iff. destruct (hostByte_facts c Hc) as (-> & _ & _).
  simpl. by rewrite IH.
Qed.

Lemma unescape_host (h : string) :
  validHost h = true → GoUrl.unescape h GoUrl.encodeHost = Ok h.
Proof.
  intros Hh. unfold GoUrl.unescape.
  assert (GoUrl.unescape_check h GoUrl.encodeHost = None
          ∧ GoUrl.unescape_decode h GoUrl.encodeHost = h) as [-> ->]; [|done].
  induction h as [|c h IH]; [done|].
  cbn [validHost GoStrings.all_bytes] in Hh. apply andb_true_iff in Hh as [Hc Hh].
  destruct (IH Hh) as [IH1 IH2].
  destruct (hostByte_facts c Hc) as (Hs & _ & Ho).
  assert (Ascii.eqb c "%" = false) as Hp.
  { apply Ascii.eqb_neq. intros ->. by vm_compute in Ho. }
  cbn [GoUrl.unescape_check GoUrl.unescape_decode]. rewrite Hp, Hs, IH1, IH2.
  split; [by rewrite andb_false_r|]. by rewrite andb_false_r.
Qed.

Lemma parseHost_valid (h : string) :
  validHost h = true → GoUrl.parseHost h = Ok h.
Proof.
  intros Hh. unfold GoUrl.parseHost.
  assert (GoStrings.HasPrefix h "[" = false) as ->.
  { destruct h as [|c h]; [done|]. unfold GoStrings.HasPrefix. rewrite prefix_byte.
    apply Ascii.eqb_neq. intros <-. by vm_compute in Hh. }
  rewrite (LastIndex_absent h ":") by (by apply validHost_absent).
  by apply unescape_host.
Qed.

Lemma parseAuthority_valid (h : string) :
  validHost h = true → GoUrl.parseAuthority h = Ok (None, h).
Proof.
  intros Hh. unfold GoUrl.parseAuthority.
  rewrite (LastIndex_absent h "@") by (by apply validHost_absent).
  by rewrite parseHost_valid.
Qed.

(** ** Parsing an encoded identity *)

Lemma plainByte_facts (c : ascii) :
  plainByte c = true →
  negb ((Byte.code c <? 32)%Z || (Byte.code c =? 127)%Z) = true
  ∧ negb (Ascii.eqb c "#") = true ∧ negb (Ascii.eqb c "?") = true.
Proof. each_byte c; vm_compute; intros H; try discriminate H; done. Qed.

Lemma plain_absent (s : string) :
  GoStrings.all_bytes plainByte s = true →
  GoUrl.stringContainsCTLByte s = false
  ∧ GoStrings.all_bytes (λ a, negb (Ascii.eqb a "#")) s = true
  ∧ GoStrings.all_bytes (λ a, negb (Ascii.eqb a "?")) s = true.
Proof.
  intros H. unfold GoUrl.stringContainsCTLByte. rewrite negb_false_iff.
  repeat split; revert H; apply all_bytes_impl; intros c Hc;
    by destruct (plainByte_facts c Hc) as (? & ? & ?).
Qed.

Lemma append_nil_r (s : string) : s +:+ "" = s.
Proof.
  induction s as [|c s IH]; [done|]. change (String c (s +:+ "") = String c s). by f_equal.
Qed.

Lemma split_absent (s : string) (c : ascii) (cutc : bool) :
  GoStrings.all_bytes (λ a, negb (Ascii.eqb a c)) s = true → GoUrl.split s c cutc = (s, "").
Proof. intros H. unfold GoUrl.split. by rewrite cut_absent. Qed.

Lemma getscheme_beegfs (rest : string) :
  GoUrl.getscheme ("beegfs:" +:+ rest) = Ok ("beegfs", rest).
Proof. reflexivity. Qed.

(** The authority and the path of [//host/path]. *)
Lemma split_authority (h ep : string) :
  validHost h = true → (ep = "" ∨ ∃ ep', ep = String "/" ep') →
  GoUrl.split (h +:+ ep) "/" false = (h, ep).
Proof.
  intros Hh [->|[ep' ->]]; unfold GoUrl.split.
  - rewrite append_nil_r. by rewrite cut_absent by (by apply validHost_absent).
  - by rewrite cut_app by (by apply validHost_absent).
Qed.

Lemma parse_identity (h ep p : string) :
  validHost h = true → GoStrings.all_bytes plainByte ep = true →
  (ep = "" ∨ ∃ ep', ep = String "/" ep') →
  GoUrl.unescape ep GoUrl.encodePath = Ok p →
  ∃ u, GoUrl.parse ("beegfs://" +:+ h +:+ ep) = Ok u
       ∧ GoUrl.Scheme u = "beegfs" ∧ GoUrl.Host u = h ∧ GoUrl.Path u = p.
Proof.
  intros Hh Hep Habs Hun.
  assert (GoStrings.all_bytes plainByte ("beegfs://" +:+ h +:+ ep) = true) as Hplain.
  { rewrite !all_bytes_app, Hep. rewrite (validHost_plain h Hh). reflexivity. }
  assert (GoStrings.all_bytes plainByte ("//" +:+ h +:+ ep) = true) as Hrest.
  { rewrite !all_bytes_app, Hep. rewrite (validHost_plain h Hh). reflexivity. }
  destruct (plain_absent _ Hplain) as (Hctl & _ & _).
  destruct (plain_absent _ Hrest) as (_ & _ & Hq).
  unfold GoUrl.parse. rewrite Hctl.
  assert (String.eqb ("beegfs://" +:+ h +:+ ep) "*" = false) as -> by reflexivity.
  change ("beegfs://" +:+ h +:+ ep) with ("beegfs:" +:+ ("//" +:+ h +:+ ep)).
  rewrite getscheme_beegfs. cbn [rbind].
  rewrite (CountByte_absent _ _ Hq), andb_false_r, (split_absent _ _ true Hq).
  assert (GoStrings.HasPrefix ("//" +:+ h +:+ ep) "/" = true) as -> by reflexivity.
  assert (GoStrings.HasPrefix ("//" +:+ h +:+ ep) "//" = true) as ->
    by (unfold GoStrings.HasPrefix; cbn; apply prefix_empty).
  assert (GoStrings.drop 2 ("//" +:+ h +:+ ep) = h +:+ ep) as -> by reflexivity.
  assert (GoUrl.nonempty (GoStrings.ToLower "beegfs") = true) as -> by reflexivity.
  cbn [negb andb orb].
  rewrite split_authority, parseAuthority_valid by done. cbn [rbind].
  rewrite Hun. cbn [rbind]. eexists. split; [reflexivity|]. done.
Qed.

(** ** The encoded identity *)

Lemma nonempty_cons (c : ascii) (s : string) : GoUrl.nonempty (String c s) = true.
Proof. done. Qed.

Lemma newBeegfsUrl_shape (h p : string) :
  validHost h = true → validPath p = true →
  newBeegfsUrl h p
  = if GoUrl.nonempty h || GoUrl.nonempty p
    then "beegfs://" +:+ h +:+ GoUrl.escape p GoUrl.encodePath
    else "beegfs:".
Proof.
  intros Hh Hp. unfold newBeegfsUrl, GoUrl.String_, GoUrl.EscapedPath.
  cbn [GoUrl.Scheme GoUrl.Opaque GoUrl.User GoUrl.Host GoUrl.Path GoUrl.RawPath
       GoUrl.ForceQuery GoUrl.RawQuery GoUrl.Fragment GoUrl.RawFragment].
  rewrite (escape_host h Hh).
  destruct (escape_absolute p Hp) as [->|(p' & -> & Hesc)].
  - destruct h as [|c h]; reflexivity.
  - rewrite Hesc. destruct h as [|c h]; reflexivity.
Qed.

(** Decoding an encoded identity. *)
Lemma parseBeegfsUrl_newBeegfsUrl (h p : string) :
  validHost h = true → validPath p = true →
  parseBeegfsUrl (newBeegfsUrl h p) = Ok (h, p).
Proof.
  intros Hh Hp. rewrite newBeegfsUrl_shape by done.
  destruct (GoUrl.nonempty h || GoUrl.nonempty p) eqn:E.
  - assert (GoStrings.all_bytes plainByte ("beegfs://" +:+ h +:+ GoUrl.escape p GoUrl.encodePath)
            = true) as Hplain.
    { rewrite !all_bytes_app, escape_plain. rewrite (validHost_plain h Hh). reflexivity. }
    destruct (plain_absent _ Hplain) as (_ & Hhash & _).
    destruct (parse_identity h (GoUrl.escape p GoUrl.encodePath) p Hh (escape_plain p))
      as (u & Hu & Hs & Hhost & Hpath).
    { destruct (escape_absolute p Hp) as [->|(p' & -> & ->)]; [by left|right; by eexists]. }
    { apply unescape_escape_path. }
    unfold parseBeegfsUrl, GoUrl.Parse. rewrite (split_absent _ _ true Hhash), Hu.
    cbn [String.eqb]. rewrite Hs, Hhost, Hpath. reflexivity.
  - apply orb_false_iff in E as [E1 E2].
    destruct h; [|done]. destruct p; [|done]. reflexivity.
Qed.

(** ** Every outcome of decoding *)

Lemma unescape_no_panic (s : string) (mode : GoUrl.encoding) (m : string) :
  GoUrl.unescape s mode ≠ Panic m.
Proof. unfold GoUrl.unescape. by destruct (GoUrl.unescape_check s mode). Qed.

Lemma rbind_no_panic {A B : Type} (r : result A) (k : A → result B) :
  (∀ m, r ≠ Panic m) → (∀ a m, k a ≠ Panic m) → ∀ m, rbind r k ≠ Panic m.
Proof. intros Hr Hk m. destruct r as [a|e|p]; simpl; [apply Hk|done|]. by destruct (Hr p). Qed.

Lemma parseHost_no_panic (host m : string) : GoUrl.parseHost host ≠ Panic m.
Proof.
  unfold GoUrl.parseHost. repeat case_match; try done; try apply unescape_no_panic.
  repeat (apply rbind_no_panic; [intros; apply unescape_no_panic|intros]). done.
Qed.

Lemma parseAuthority_no_panic (authority m : string) : GoUrl.parseAuthority authority ≠ Panic m.
Proof.
  unfold GoUrl.parseAuthority. repeat case_match; try done;
    (apply rbind_no_panic; [intros; apply parseHost_no_panic|intros]);
    repeat case_match; try done;
    repeat (apply rbind_no_panic; [intros; apply unescape_no_panic|intros]); done.
Qed.

Lemma getscheme_no_panic (rawurl m : string) : GoUrl.getscheme rawurl ≠ Panic m.
Proof.
  unfold GoUrl.getscheme. generalize 0 at 1. generalize rawurl at 1.
  induction rawurl as [|c s IH]; intros whole i; [done|].
  cbn [GoUrl.getscheme_scan].
  destruct (Byte.isAlpha c); [apply IH|].
  destruct (Byte.isDigit c || Byte.oneOf "+-." c).
  { destruct (i =? 0)%nat; [done|apply IH]. }
  destruct (Ascii.eqb c ":"); [|done]. by destruct (i =? 0)%nat.
Qed.

Lemma parse_no_panic (rawurl m : string) : GoUrl.parse rawurl ≠ Panic m.
Proof.
  unfold GoUrl.parse.
  destruct (GoUrl.stringContainsCTLByte rawurl); [done|].
  destruct (String.eqb rawurl "*"); [done|].
  apply rbind_no_panic; [intros; apply getscheme_no_panic|]. intros [scheme0 rest] m'.
  assert (∀ rest0 force query,
    (if negb (GoStrings.HasPrefix rest0 "/") && GoUrl.nonempty (GoStrings.ToLower scheme0)
     then Ok {| GoUrl.Scheme := GoStrings.ToLower scheme0; GoUrl.Opaque := rest0;
                GoUrl.User := None; GoUrl.Host := ""; GoUrl.Path := ""; GoUrl.RawPath := "";
                GoUrl.ForceQuery := force; GoUrl.RawQuery := query;
                GoUrl.Fragment := ""; GoUrl.RawFragment := "" |}
     else
       if negb (GoStrings.HasPrefix rest0 "/")
          && (let (before, o) := GoStrings.cut rest0 ":" in
              match o with
              | Some _ => negb (GoStrings.Contains before "/")
              | None => false
              end)
       then Err "first path segment in URL cannot contain colon"
       else
         rbind
           (if (GoUrl.nonempty (GoStrings.ToLower scheme0)
                || negb (GoStrings.HasPrefix rest0 "///"))
               && GoStrings.HasPrefix rest0 "//"
            then
              let '(authority, rest') := GoUrl.split (GoStrings.drop 2 rest0) "/" false in
              rbind (GoUrl.parseAuthority authority) (λ '(user, host), Ok (user, host, rest'))
            else Ok (None, "", rest0))
           (λ '(user, host, rest1),
              rbind (GoUrl.unescape rest1 GoUrl.encodePath)
                (λ path,
                   Ok {| GoUrl.Scheme := GoStrings.ToLower scheme0; GoUrl.Opaque := "";
                         GoUrl.User := user; GoUrl.Host := host; GoUrl.Path := path;
                         GoUrl.RawPath :=
                           if String.eqb rest1 (GoUrl.escape path GoUrl.encodePath)
                           then "" else rest1;
                         GoUrl.ForceQuery := force; GoUrl.RawQuery := query;
                         GoUrl.Fragment := ""; GoUrl.RawFragment := "" |})))
    ≠ Panic m') as Hmain.
  { intros rest0 force query.
    destruct (negb (GoStrings.HasPrefix rest0 "/") && _); [done|].
    destruct (negb (GoStrings.HasPrefix rest0 "/") && _); [done|].
    apply rbind_no_panic.
    - intros m''. destruct (_ && _); [|done].
      destruct (GoUrl.split _ _ _) as [authority rest'].
      apply rbind_no_panic; [intros; apply parseAuthority_no_panic|]. by intros [??] ?.
    - intros [[user host] rest1] m''.
      apply rbind_no_panic; [intros; apply unescape_no_panic|done]. }
  destruct (GoStrings.HasSuffix rest "?" && _); [apply Hmain|].
  destruct (GoUrl.split rest "?" true) as [r q]. apply Hmain.
Qed.

Lemma Parse_no_panic (rawurl m : string) : GoUrl.Parse rawurl ≠ Panic m.
Proof.
  unfold GoUrl.Parse. destruct (GoUrl.split rawurl "#" true) as [u frag].
  destruct (GoUrl.parse u) as [url|e|p] eqn:E; [|done|by apply parse_no_panic in E].
  destruct (String.eqb frag ""); [done|].
  destruct (GoUrl.unescape frag GoUrl.encodeFragment) as [f|e|p] eqn:Ef; [done..|].
  by apply unescape_no_panic in Ef.
Qed.

(** C5 (as amended).  For every host made of letters, digits, hyphens,
    dots, underscores and tildes and every path that is empty or
    absolute, decoding the encoded identity gives the pair back:
    parseBeegfsUrl(newBeegfsUrl(host, path)) = (host, path) with no
    error.  For every identity string, [parseBeegfsUrl] never panics; it
    returns the error of [url.Parse] when the string does not parse and
    the error "URL has incorrect scheme" when the scheme, in the lower
    case [url.Parse] puts it in, is not beegfs; otherwise it returns the
    host and the path. *)
Theorem C5_identity_codec (host path : string) :
  validHost host = true → validPath path = true →
  parseBeegfsUrl (newBeegfsUrl host path) = Ok (host, path)
  ∧ ∀ rawUrl,
      match GoUrl.Parse rawUrl with
      | Err e => parseBeegfsUrl rawUrl = Err e
      | Ok u =>
          (GoUrl.Scheme u ≠ "beegfs" → parseBeegfsUrl rawUrl = Err "URL has incorrect scheme")
          ∧ (GoUrl.Scheme u = "beegfs" →
             parseBeegfsUrl rawUrl = Ok (GoUrl.Host u, GoUrl.Path u))
      | Panic _ => False
      end.
Proof.
  intros Hh Hp. split; [by apply parseBeegfsUrl_newBeegfsUrl|].
  intros rawUrl. unfold parseBeegfsUrl.
  destruct (GoUrl.Parse rawUrl) as [u|e|m] eqn:E; [|done|by apply Parse_no_panic in E].
  split.
  - intros Hs. by rewrite (proj2 (String.eqb_neq _ _) Hs).
  - intros ->. done.
Qed.

(** The identity of the CreateVolume scenario. *)
Lemma C5_identity_codec_witness :
  parseBeegfsUrl (newBeegfsUrl "10.0.0.1" "/data/vol1") = Ok ("10.0.0.1", "/data/vol1")
  ∧ ∀ rawUrl,
      match GoUrl.Parse rawUrl with
      | Err e => parseBeegfsUrl rawUrl = Err e
      | Ok u =>
          (GoUrl.Scheme u ≠ "beegfs" → parseBeegfsUrl rawUrl = Err "URL has incorrect scheme")
          ∧ (GoUrl.Scheme u = "beegfs" →
             parseBeegfsUrl rawUrl = Ok (GoUrl.Host u, GoUrl.Path u))
      | Panic _ => False
      end.
Proof. apply (C5_identity_codec "10.0.0.1" "/data/vol1"); reflexivity. Defined.

(** C5 as stated fails: the scheme of BEEGFS://h/p, which [getscheme]
    reads as BEEGFS, is not exactly beegfs, and the identity is decoded
    without an error, because [url.Parse] puts the scheme in lower
    case.  And the host fe80::abcd, an IP literal that [validateConfig]
    accepts, does not come back: the identity encoded for it does not
    parse. *)
Lemma C5_counterexample :
  (GoUrl.getscheme "BEEGFS://h/p" = Ok ("BEEGFS", "//h/p")
   ∧ "BEEGFS" ≠ "beegfs"
   ∧ parseBeegfsUrl "BEEGFS://h/p" = Ok ("h", "/p"))
  ∧ (validSysMgmtdHost "fe80::abcd" = true
     ∧ parseBeegfsUrl (newBeegfsUrl "fe80::abcd" "/p") ≠ Ok ("fe80::abcd", "/p")).
Proof.
  split.
  - split; [reflexivity|]. split; [discriminate|reflexivity].
  - split; [reflexivity|]. vm_compute. discriminate.
Qed.

(** Other identities: a wrong scheme, no scheme, and a host that
    [validateConfig] accepts as an IP literal but [url.Parse] rejects. *)
Example parseBeegfsUrl_examples :
  parseBeegfsUrl "http://h/p" = Err "URL has incorrect scheme"
  ∧ parseBeegfsUrl "/h/p" = Err "URL has incorrect scheme"
  ∧ parseBeegfsUrl ":h"
    = Err ("parse " +:+ GoStrings.Quote ":h" +:+ ": missing protocol scheme")
  ∧ validSysMgmtdHost "fe80::abcd" = true
  ∧ newBeegfsUrl "fe80::abcd" "/p" = "beegfs://fe80::abcd/p"
  ∧ parseBeegfsUrl "beegfs://fe80::abcd/p"
    = Err ("parse " +:+ GoStrings.Quote "beegfs://fe80::abcd/p" +:+ ": invalid port "
           +:+ GoStrings.Quote ":abcd" +:+ " after host").
Proof. repeat split; vm_compute; reflexivity. Qed.

(** * The claim on the logged configuration *)

(** C6.  The JSON encoding of a [beegfsConfig] and of a [connAuthConfig]
    depends on the secret only through its being empty or not: two
    non-empty secrets [s] and [s'] give the same text, in which the
    field ConnAuth is the placeholder ******; with an empty secret the
    field is omitted from a [beegfsConfig] and is the empty string in a
    [connAuthConfig].  Whatever the encoder of strings is, it is never
    applied to the secret. *)
Theorem C6_secret_redacted (encodeString : string → string) (c : beegfsConfig)
    (h s s' : string) :
  s ≠ "" → s' ≠ "" →
  beegfsConfig_MarshalJSON encodeString (withConnAuth (Some s) c)
  = beegfsConfig_MarshalJSON encodeString (withConnAuth (Some s') c)
  ∧ beegfsConfig_MarshalJSON encodeString (withConnAuth (Some s) c)
    = GoJson.encodeStruct
        ((GoJson.key "ConnAuth" +:+ encodeString "******") :: loggedFields encodeString c)
  ∧ beegfsConfig_MarshalJSON encodeString (withConnAuth (Some "") c)
    = GoJson.encodeStruct (loggedFields encodeString c)
  ∧ connAuthConfig_MarshalJSON encodeString {| authSysMgmtdHost := h; ConnAuth := s |}
    = connAuthConfig_MarshalJSON encodeString {| authSysMgmtdHost := h; ConnAuth := s' |}
  ∧ connAuthConfig_MarshalJSON encodeString {| authSysMgmtdHost := h; ConnAuth := s |}
    = GoJson.encodeStruct [GoJson.key "SysMgmtdHost" +:+ encodeString h;
                           GoJson.key "ConnAuth" +:+ encodeString "******"]
  ∧ connAuthConfig_MarshalJSON encodeString {| authSysMgmtdHost := h; ConnAuth := "" |}
    = GoJson.encodeStruct [GoJson.key "SysMgmtdHost" +:+ encodeString h;
                           GoJson.key "ConnAuth" +:+ encodeString ""].
Proof.
  intros Hs Hs'.
  assert (∀ x, x ≠ "" →
            beegfsConfig_MarshalJSON encodeString (withConnAuth (Some x) c)
            = GoJson.encodeStruct
                ((GoJson.key "ConnAuth" +:+ encodeString "******")
                 :: loggedFields encodeString c)) as Hb.
  { intros x Hx. unfold beegfsConfig_MarshalJSON. cbn [withConnAuth connAuth].
    rewrite (bool_decide_eq_true_2 _ Hx). done. }
  assert (∀ x, x ≠ "" →
            connAuthConfig_MarshalJSON encodeString {| authSysMgmtdHost := h; ConnAuth := x |}
            = GoJson.encodeStruct [GoJson.key "SysMgmtdHost" +:+ encodeString h;
                                   GoJson.key "ConnAuth" +:+ encodeString "******"]) as Ha.
  { intros x Hx. unfold connAuthConfig_MarshalJSON. cbn [ConnAuth authSysMgmtdHost].
    rewrite (bool_decide_eq_true_2 _ Hx). done. }
  repeat split.
  - by rewrite !Hb.
  - by apply Hb.
  - by rewrite !Ha.
  - by apply Ha.
Qed.

(** Two secrets in the example configuration, with the quoting of plain
    strings as the encoder. *)
Lemma C6_secret_redacted_witness :
  beegfsConfig_MarshalJSON GoStrings.Quote (withConnAuth (Some "secret1") exampleConfig)
  = beegfsConfig_MarshalJSON GoStrings.Quote (withConnAuth (Some "hunter2") exampleConfig)
  ∧ beegfsConfig_MarshalJSON GoStrings.Quote (withConnAuth (Some "secret1") exampleConfig)
    = GoJson.encodeStruct
        ((GoJson.key "ConnAuth" +:+ GoStrings.Quote "******")
         :: loggedFields GoStrings.Quote exampleConfig)
  ∧ beegfsConfig_MarshalJSON GoStrings.Quote (withConnAuth (Some "") exampleConfig)
    = GoJson.encodeStruct (loggedFields GoStrings.Quote exampleConfig)
  ∧ connAuthConfig_MarshalJSON GoStrings.Quote
      {| authSysMgmtdHost := "10.0.0.1"; ConnAuth := "secret1" |}
    = connAuthConfig_MarshalJSON GoStrings.Quote
        {| authSysMgmtdHost := "10.0.0.1"; ConnAuth := "hunter2" |}
  ∧ connAuthConfig_MarshalJSON GoStrings.Quote
      {| authSysMgmtdHost := "10.0.0.1"; ConnAuth := "secret1" |}
    = GoJson.encodeStruct [GoJson.key "SysMgmtdHost" +:+ GoStrings.Quote "10.0.0.1";
                           GoJson.key "ConnAuth" +:+ GoStrings.Quote "******"]
  ∧ connAuthConfig_MarshalJSON GoStrings.Quote
      {| authSysMgmtdHost := "10.0.0.1"; ConnAuth := "" |}
    = GoJson.encodeStruct [GoJson.key "SysMgmtdHost" +:+ GoStrings.Quote "10.0.0.1";
                           GoJson.key "ConnAuth" +:+ GoStrings.Quote ""].
Proof.
  apply (C6_secret_redacted GoStrings.Quote exampleConfig "10.0.0.1" "secret1" "hunter2");
    discriminate.
Defined.

(** The text logged for the example configuration with a secret. *)
Example MarshalJSON_example :
  beegfsConfig_MarshalJSON GoStrings.Quote (withConnAuth (Some "secret1") exampleConfig)
  = GoJson.encodeStruct
      [GoJson.key "ConnAuth" +:+ GoStrings.Quote "******";
       GoJson.key "ConnInterfaces" +:+ "[" +:+ GoStrings.Quote "ib0" +:+ "]";
       GoJson.key "ConnNetFilter" +:+ "null";
       GoJson.key "ConnTcpOnlyFilter" +:+ "[]";
       GoJson.key "BeegfsClientConf" +:+ "{"
         +:+ GoStrings.Quote "connAuthFile" +:+ ":" +:+ GoStrings.Quote "/etc/auth" +:+ ","
         +:+ GoStrings.Quote "connMaxInternodeNum" +:+ ":" +:+ GoStrings.Quote "8" +:+ "}"].
Proof. vm_compute. reflexivity. Qed.

(** * Proofs: unmounting *)

Lemma optsReference_spec (clientConfPath : string) (opts : list string) :
  optsReference clientConfPath opts = true ↔
  ∃ opt, opt ∈ opts ∧ GoStrings.Contains opt clientConfPath = true.
Proof.
  unfold optsReference. rewrite existsb_exists. by setoid_rewrite list_elem_of_In.
Qed.

Lemma findBindMount_Some (vol : beegfsVolume) (allMounts : list MountPoint) (entry : MountPoint) :
  findBindMount vol allMounts = Some entry → entry ∈ allMounts ∧ isBindMountOf vol entry.
Proof.
  induction allMounts as [|e l IH]; simpl; [done|].
  destruct (_ && _) eqn:E.
  - intros [= <-]. split; [by left|].
    apply andb_true_iff in E as [[E1 E2]%andb_true_iff E3].
    split; [by apply String.eqb_eq|]. split; [by apply negb_true_iff|].
    by apply optsReference_spec.
  - intros [? ?]%IH. split; [by right|done].
Qed.

Lemma findBindMount_None (vol : beegfsVolume) (allMounts : list MountPoint) :
  findBindMount vol allMounts = None → ∀ entry, entry ∈ allMounts → ¬ isBindMountOf vol entry.
Proof.
  induction allMounts as [|e l IH]; simpl; [by intros _ ? ?%elem_of_nil|].
  destruct (_ && _) eqn:E; [done|]. intros Hn entry [->|Hin]%elem_of_cons; [|by apply IH].
  intros (H1 & H2 & H3). apply optsReference_spec in H3.
  apply String.eqb_eq in H1. rewrite H1, H2, H3 in E. done.
Qed.

(** The search of [unmountAndCleanUpIfNecessary] stops at the first bind
    mount of the table. *)
Lemma findBindMount_first (vol : beegfsVolume) (allMounts : list MountPoint)
    (entry : MountPoint) :
  findBindMount vol allMounts = Some entry →
  ∃ before rest,
    allMounts = before ++ entry :: rest
    ∧ Forall (λ e, ¬ isBindMountOf vol e) before
    ∧ isBindMountOf vol entry.
Proof.
  induction allMounts as [|e l IH]; simpl; [done|].
  destruct (_ && _) eqn:E.
  - intros [= <-]. exists [], l. split; [done|]. split; [constructor|].
    apply andb_true_iff in E as [[E1 E2]%andb_true_iff E3].
    split; [by apply String.eqb_eq|]. split; [by apply negb_true_iff|].
    by apply optsReference_spec.
  - intros (before & rest & -> & Hb & He)%IH. exists (e :: before), rest.
    split; [done|]. split; [|done]. constructor; [|done].
    intros (H1 & H2 & H3). apply optsReference_spec in H3.
    apply String.eqb_eq in H1. rewrite H1, H2, H3 in E. done.
Qed.

(** C3 (as amended).  If the mount table that [mounter.List] returns has
    an entry whose device is beegfs_nodev, whose path does not contain
    the volume's mount path and one of whose options contains the path
    of the volume's client configuration file, then
    [unmountAndCleanUpIfNecessary] returns the error "refused to
    unmount" naming the mount path and the path of the first such entry
    of the table, and does nothing but list the mounts: it neither
    unmounts nor reads or removes the working directory. *)
Theorem C3_refuses_bind_mounted (env : Env) (vol : beegfsVolume) (rmDir : bool)
    (st : State) (allMounts : list MountPoint) (entry : MountPoint) :
  mounter_List env (trace st) = Ok allMounts →
  entry ∈ allMounts → isBindMountOf vol entry →
  ∃ before first rest,
    allMounts = before ++ first :: rest
    ∧ Forall (λ e, ¬ isBindMountOf vol e) before
    ∧ isBindMountOf vol first
    ∧ unmountAndCleanUpIfNecessary env vol rmDir st
      = (Err ("refused to unmount staged file system at " +:+ mountPath vol
              +:+ " while bind mounted at " +:+ mountPointPath first),
         after st [EvMounterList]).
Proof.
  intros HL Hin Hbind.
  destruct (findBindMount vol allMounts) as [found|] eqn:Ef.
  - destruct (findBindMount_first _ _ _ Ef) as (before & rest & Hsplit & Hbefore & Hfound).
    exists before, found, rest. split; [done|]. split; [done|]. split; [done|].
    unfold unmountAndCleanUpIfNecessary, andThen, wrapErr, call. rewrite HL, Ef. done.
  - by destruct (findBindMount_None _ _ Ef entry Hin).
Qed.

(** The example volume bind mounted into a container, behind an entry
    for the same mount seen under /host: the theorem applies, and the
    error names the bind mount. *)
Lemma C3_refuses_bind_mounted_witness :
  ∃ before first rest,
    [hostMountEntry; bindMountEntry] = before ++ first :: rest
    ∧ Forall (λ e, ¬ isBindMountOf exampleVolume e) before
    ∧ isBindMountOf exampleVolume first
    ∧ unmountAndCleanUpIfNecessary (quietEnv [hostMountEntry; bindMountEntry])
        exampleVolume true emptyState
      = (Err ("refused to unmount staged file system at " +:+ mountPath exampleVolume
              +:+ " while bind mounted at " +:+ mountPointPath first),
         after emptyState [EvMounterList]).
Proof.
  apply (C3_refuses_bind_mounted (quietEnv [hostMountEntry; bindMountEntry]) exampleVolume
           true emptyState [hostMountEntry; bindMountEntry] bindMountEntry).
  - reflexivity.
  - right. left.
  - split; [reflexivity|]. split; [vm_compute; reflexivity|].
    exists "cfgFile=/data/10.0.0.1_data_vol1/beegfs-client.conf".
    split; [right; right; left|vm_compute; reflexivity].
Defined.

(** The run of the example: the entry under /host is passed over and the
    error names the path of the bind mount. *)
Example unmountAndCleanUpIfNecessary_refuses :
  unmountAndCleanUpIfNecessary (quietEnv [hostMountEntry; bindMountEntry]) exampleVolume
    true emptyState
  = (Err ("refused to unmount staged file system at /data/10.0.0.1_data_vol1/mount"
          +:+ " while bind mounted at /var/lib/kubelet/pods/1/volumes/vol1"),
     after emptyState [EvMounterList]).
Proof. vm_compute. reflexivity. Qed.

(** C3 as stated fails: the entry at /host/data/.../mount has the device
    tag, a path different from the mount path and an option that names
    the client configuration file, yet the volume is unmounted and its
    working directory removed, without an error. *)
Lemma C3_counterexample :
  isOtherMountOf exampleVolume hostMountEntry
  ∧ unmountAndCleanUpIfNecessary (quietEnv [hostMountEntry]) exampleVolume true emptyState
    = (Ok tt, after emptyState [EvMounterList;
                                EvCleanupMountPoint "/data/10.0.0.1_data_vol1/mount";
                                EvRemoveAll "/data/10.0.0.1_data_vol1"]).
Proof.
  split; [|vm_compute; reflexivity].
  split; [reflexivity|]. split; [discriminate|].
  exists "cfgFile=/data/10.0.0.1_data_vol1/beegfs-client.conf".
  split; [right; right; left|vm_compute; reflexivity].
Qed.

(** * Proofs: the handlers and the guard *)

Lemma after_nil (st : State) : after st [] = st.
Proof. destruct st. unfold after. simpl. by rewrite app_nil_r. Qed.

Lemma after_after (st : State) (e1 e2 : list Event) :
  after (after st e1) e2 = after st (e1 ++ e2).
Proof. unfold after. simpl. by rewrite app_assoc. Qed.

Lemma fileSystemOnly_pure {R : Type} (r : R) : fileSystemOnly (λ st, (r, st)).
Proof. intros st. exists []. split; [by rewrite after_nil|done]. Qed.

Lemma fileSystemOnly_call {A : Type} (ev : Event) (answer : list Event → result A) :
  isFileSystemEvent ev = true → fileSystemOnly (call ev answer).
Proof. intros H st. exists [ev]. split; [done|]. by constructor. Qed.

Lemma fileSystemOnly_andThen {A B : Type} (m : M A) (k : A → M B) :
  fileSystemOnly m → (∀ a, fileSystemOnly (k a)) → fileSystemOnly (andThen m k).
Proof.
  intros Hm Hk st. destruct (Hm st) as (e1 & H1 & F1). unfold andThen.
  destruct (m st) as [[a|e|p] st1]; cbn [snd] in H1; subst st1.
  - destruct (Hk a (after st e1)) as (e2 & H2 & F2). exists (e1 ++ e2).
    rewrite H2, after_after. split; [done|]. by apply Forall_app.
  - by exists e1.
  - by exists e1.
Qed.

Lemma fileSystemOnly_wrapErr {A : Type} (msg : string) (m : M A) :
  fileSystemOnly m → fileSystemOnly (wrapErr msg m).
Proof.
  intros Hm st. destruct (Hm st) as (evs & H & F). exists evs. split; [|done].
  unfold wrapErr. by destruct (m st) as [[a|e|p] st'].
Qed.

Lemma fileSystemOnly_removeEntries (env : Env) (dirPath : string) (names : list string) :
  fileSystemOnly (removeEntries env dirPath names).
Proof.
  induction names as [|d rest IH]; simpl; [apply fileSystemOnly_pure|].
  apply fileSystemOnly_andThen; [by apply fileSystemOnly_call|done].
Qed.

Lemma fileSystemOnly_cleanUpIfNecessary (env : Env) (vol : beegfsVolume) (rmDir : bool) :
  fileSystemOnly (cleanUpIfNecessary env vol rmDir).
Proof.
  unfold cleanUpIfNecessary. destruct rmDir; simpl.
  - by apply fileSystemOnly_call.
  - apply fileSystemOnly_andThen; [by apply fileSystemOnly_call|].
    intros; apply fileSystemOnly_removeEntries.
Qed.

Lemma fileSystemOnly_unmountAndCleanUpIfNecessary (env : Env) (vol : beegfsVolume)
    (rmDir : bool) :
  fileSystemOnly (unmountAndCleanUpIfNecessary env vol rmDir).
Proof.
  unfold unmountAndCleanUpIfNecessary.
  apply fileSystemOnly_andThen.
  - by apply fileSystemOnly_wrapErr, fileSystemOnly_call.
  - intros allMounts. destruct (findBindMount vol allMounts); [apply fileSystemOnly_pure|].
    apply fileSystemOnly_andThen; [by apply fileSystemOnly_call|]. intros _.
    apply fileSystemOnly_wrapErr, fileSystemOnly_cleanUpIfNecessary.
Qed.

Lemma fileSystemOnly_mountIfNecessary (env : Env) (vol : beegfsVolume) :
  fileSystemOnly (mountIfNecessary env vol).
Proof.
  intros st. unfold mountIfNecessary.
  set (mountIt := call (EvMount _ _ _ _) _).
  assert (fileSystemOnly mountIt) as Hm by (by apply fileSystemOnly_call).
  destruct (fileSystemOnly_call (EvIsLikelyNotMountPoint (mountPath vol))
              (λ t, mounter_IsLikelyNotMountPoint env t (mountPath vol)) eq_refl st)
    as (e1 & H1 & F1).
  destruct (call (EvIsLikelyNotMountPoint _) _ st) as [[b|e|p] st1]; cbn [snd] in H1; subst st1.
  - destruct (negb b); [by exists e1|].
    destruct (Hm (after st e1)) as (e2 & H2 & F2). exists (e1 ++ e2).
    rewrite H2, after_after. split; [done|]. by apply Forall_app.
  - destruct (os_IsNotExist env e); [|by exists e1].
    destruct (fileSystemOnly_andThen
                (call (EvMkdir (mountPath vol)) (λ t, os_Mkdir env t (mountPath vol)))
                (λ _, mountIt) (fileSystemOnly_call (EvMkdir (mountPath vol)) _ eq_refl) (λ _, Hm)
                (after st e1))
      as (e2 & H2 & F2).
    exists (e1 ++ e2). rewrite H2, after_after. split; [done|]. by apply Forall_app.
  - by exists e1.
Qed.

Lemma fileSystemOnly_step {A B : Type} (code : Code) (m : M A) (k : A → H B) :
  fileSystemOnly m → (∀ a, fileSystemOnly (k a)) → fileSystemOnly (step code m k).
Proof.
  intros Hm Hk st. destruct (Hm st) as (e1 & H1 & F1). unfold step.
  destruct (m st) as [[a|e|p] st1]; cbn [snd] in H1; subst st1.
  - destruct (Hk a (after st e1)) as (e2 & H2 & F2). exists (e1 ++ e2).
    rewrite H2, after_after. split; [done|]. by apply Forall_app.
  - by exists e1.
  - by exists e1.
Qed.

Lemma fileSystemOnly_logFailure (m : M unit) :
  fileSystemOnly m → fileSystemOnly (logFailure m).
Proof.
  intros Hm st. destruct (Hm st) as (evs & H & F). exists evs. split; [|done].
  unfold logFailure. by destruct (m st) as [[a|e|p] st'].
Qed.

Lemma fileSystemOnly_defer {A : Type} (d : State → option string * State) (body : H A) :
  fileSystemOnly d → fileSystemOnly body → fileSystemOnly (defer d body).
Proof.
  intros Hd Hb st. destruct (Hb st) as (e1 & H1 & F1).
  destruct (Hd (snd (body st))) as (e2 & H2 & F2).
  exists (e1 ++ e2). split; [|by apply Forall_app].
  unfold defer. destruct (body st) as [r st1]. cbn [snd] in *.
  destruct (d st1) as [p st2]. cbn [snd] in *. by rewrite H2, H1, after_after.
Qed.

(** What the three handlers do once the volume is known: consult the
    guard, and run the body under the two deferred calls. *)
Lemma guarded_body {A : Type} (id : string) (cleanup : State → option string * State)
    (body : H A) (st : State) :
  fileSystemOnly cleanup → fileSystemOnly body →
  ∃ evs,
    snd (let '(obtained, st1) := obtainLockOnString id st in
         if negb obtained
         then (Status Aborted ("volumeID " +:+ id +:+ " is in use by another request"), st1)
         else defer (release id) (defer cleanup body) st1) = after st evs
    ∧ ((id ∈ inFlight st ∧ evs = [EvObtainLock id false]
        ∧ fst (let '(obtained, st1) := obtainLockOnString id st in
               if negb obtained
               then (Status Aborted ("volumeID " +:+ id +:+ " is in use by another request"),
                     st1)
               else defer (release id) (defer cleanup body) st1)
          = Status Aborted ("volumeID " +:+ id +:+ " is in use by another request"))
       ∨ (∃ events, (id ∉ inFlight st)
                    ∧ evs = EvObtainLock id true :: (events ++ [EvReleaseLock id])
                    ∧ Forall (λ e, isFileSystemEvent e = true) events)).
Proof.
  intros Hc Hb. unfold obtainLockOnString. case_bool_decide as Hin.
  - exists [EvObtainLock id false]. cbn beta iota zeta delta [negb]. split; [done|]. by left.
  - cbn beta iota zeta delta [negb].
    set (st1 := {| trace := trace st ++ [EvObtainLock id true];
                   inFlight := {[id]} ∪ inFlight st |}).
    destruct (fileSystemOnly_defer cleanup body Hc Hb st1) as (events & He & Fe).
    exists (EvObtainLock id true :: (events ++ [EvReleaseLock id])).
    split; [|right; by exists events].
    unfold defer at 1. destruct (defer cleanup body st1) as [r st2]. cbn [snd] in He.
    subst st2. unfold release, releaseLockOnString, after. subst st1.
    cbn [snd trace inFlight]. f_equal.
    + by rewrite <- !app_assoc.
    + apply leibniz_equiv. intros x.
      rewrite elem_of_difference, elem_of_union, elem_of_singleton.
      split; [tauto|]. intros Hx. split; [tauto|]. by intros ->.
Qed.

Section ControllerProofs.

Context {VolumeCapability permissionsConfig stripePatternConfig : Type}.
Variable pkg : @Package VolumeCapability permissionsConfig stripePatternConfig.
Variable env : Env.
Variable cs : controllerServer.

Lemma guardedBy_guarded {A : Type} (id : string)
    (cleanup : State → option string * State) (body : H A) (st : State) :
  fileSystemOnly cleanup → fileSystemOnly body →
  let run := let '(obtained, st1) := obtainLockOnString id st in
             if negb obtained
             then (Status Aborted ("volumeID " +:+ id +:+ " is in use by another request"),
                   st1)
             else defer (release id) (defer cleanup body) st1 in
  (id ∈ inFlight st →
   run = (Status Aborted ("volumeID " +:+ id +:+ " is in use by another request"),
          after st [EvObtainLock id false]))
  ∧ ((id ∉ inFlight st) →
     ∃ events,
       snd run = after st (EvObtainLock id true :: (events ++ [EvReleaseLock id]))
       ∧ Forall (λ e, isFileSystemEvent e = true) events).
Proof.
  intros Hc Hb run. split.
  - intros Hin. subst run. unfold obtainLockOnString.
    rewrite bool_decide_eq_true_2 by done. reflexivity.
  - intros Hnin.
    destruct (guarded_body id cleanup body st Hc Hb)
      as (evs & Hs & [(Hin & _) | (events & _ & -> & F)]); [done|].
    by exists events.
Qed.

Lemma nonempty_length (s : string) : s ≠ "" → (String.length s =? 0)%nat = false.
Proof. by destruct s. Qed.

Lemma nonnil_length {T : Type} (l : list T) : l ≠ [] → (length l =? 0)%nat = false.
Proof. by destruct l. Qed.

Lemma present_size (m : gmap string string) (k v : string) :
  m !! k = Some v → (size m =? 0)%nat = false.
Proof.
  intros Hk. apply Nat.eqb_neq. intros Hz. apply map_size_empty_iff in Hz. subst m.
  by rewrite lookup_empty in Hk.
Qed.

Lemma CreateVolume_guardedBy (req : CreateVolumeRequest)
    (sysMgmtdHost volDirBasePath : string) (permissions : permissionsConfig)
    (stripePattern : stripePatternConfig) :
  createName req ≠ "" →
  createVolumeCapabilities req ≠ [] →
  fst (isValidVolumeCapabilities pkg (createVolumeCapabilities req)) = true →
  createParameters req !! sysMgmtdHostKey = Some sysMgmtdHost →
  createParameters req !! volDirBasePathKey = Some volDirBasePath →
  getPermissionsConfigFromParams pkg (createParameters req) = Ok permissions →
  getStripePatternConfigFromParams pkg (createParameters req) = Ok stripePattern →
  guardedBy
    (volumeID (cs_newBeegfsVolume pkg cs sysMgmtdHost
                 (GoPath.Clean (GoPath.Join ["/"; volDirBasePath])) (createName req)))
    (CreateVolume pkg env cs req).
Proof.
  intros Hname Hcaps Hvalid Hhost Hbase Hperm Hstripe st. unfold CreateVolume.
  rewrite (nonempty_length _ Hname), (nonnil_length _ Hcaps).
  destruct (isValidVolumeCapabilities pkg (createVolumeCapabilities req)) as [valid reason].
  cbn [fst] in Hvalid. subst valid. cbn [negb].
  rewrite (present_size _ _ _ Hhost), Hhost, Hbase, Hperm, Hstripe.
  apply guardedBy_guarded.
  - apply fileSystemOnly_logFailure, fileSystemOnly_unmountAndCleanUpIfNecessary.
  - repeat (apply fileSystemOnly_step; [by apply fileSystemOnly_call|intros _]).
    destruct (hasSpecialPermissions pkg permissions); [|apply fileSystemOnly_pure].
    apply fileSystemOnly_step; [apply fileSystemOnly_mountIfNecessary|intros _].
    apply fileSystemOnly_step; [by apply fileSystemOnly_call|intros _].
    apply fileSystemOnly_pure.
Qed.

Lemma DeleteVolume_guardedBy (req : DeleteVolumeRequest) (vol : beegfsVolume) :
  deleteVolumeId req ≠ "" →
  cs_newBeegfsVolumeFromID pkg cs (deleteVolumeId req) = Ok vol →
  guardedBy (volumeID vol) (DeleteVolume pkg env cs req).
Proof.
  intros Hid Hvol st. unfold DeleteVolume. rewrite (nonempty_length _ Hid), Hvol.
  apply guardedBy_guarded.
  - apply fileSystemOnly_logFailure, fileSystemOnly_unmountAndCleanUpIfNecessary.
  - repeat (apply fileSystemOnly_step; [by apply fileSystemOnly_call|intros _]).
    apply fileSystemOnly_step; [apply fileSystemOnly_mountIfNecessary|intros _].
    apply fileSystemOnly_step; [by apply fileSystemOnly_call|intros _].
    apply fileSystemOnly_pure.
Qed.

Lemma fileSystemOnly_statStep {B : Type} (vol : beegfsVolume) (k : H B) :
  fileSystemOnly k → fileSystemOnly (statStep env vol k).
Proof.
  intros Hk st. unfold statStep.
  set (st1 := {| trace := trace st ++ [EvStatDirectoryForVolume (volumeID vol)];
                 inFlight := inFlight st |}).
  destruct (ctl_statDirectoryForVolume env (trace st) vol);
    [|by exists [EvStatDirectoryForVolume (volumeID vol)]; split; [|by constructor]..].
  destruct (Hk st1) as (e2 & H2 & F2).
  exists (EvStatDirectoryForVolume (volumeID vol) :: e2). rewrite H2. split.
  - unfold after, st1. simpl. by rewrite <- app_assoc.
  - by constructor.
Qed.

Lemma ValidateVolumeCapabilities_guardedBy (req : ValidateVolumeCapabilitiesRequest)
    (vol : beegfsVolume) :
  validateVolumeId req ≠ "" →
  validateVolumeCapabilities req ≠ [] →
  cs_newBeegfsVolumeFromID pkg cs (validateVolumeId req) = Ok vol →
  guardedBy (volumeID vol) (ValidateVolumeCapabilities pkg env cs req).
Proof.
  intros Hid Hcaps Hvol st. unfold ValidateVolumeCapabilities.
  rewrite (nonempty_length _ Hid), (nonnil_length _ Hcaps), Hvol.
  apply guardedBy_guarded.
  - apply fileSystemOnly_logFailure, fileSystemOnly_cleanUpIfNecessary.
  - repeat (apply fileSystemOnly_step; [by apply fileSystemOnly_call|intros _]).
    apply fileSystemOnly_statStep.
    destruct (isValidVolumeCapabilities pkg (validateVolumeCapabilities req)) as [[] ?];
      apply fileSystemOnly_pure.
Qed.

(** C9.  Each of CreateVolume, DeleteVolume and
    ValidateVolumeCapabilities honours the concurrency guard for the
    identity of the volume it derives from the request: for CreateVolume
    the identity of the volume built from the sysMgmtdHost, the cleaned
    volDirBasePath and the name of a request that passes the checks of
    its arguments, for the other two the identity of the volume that the
    volume ID of the request decodes to.  Whenever the guard holds that
    identity, the handler returns the status Aborted and nothing else
    happens, no operation on the file system in particular; and whenever
    it does not, the handler obtains the guard for that identity and
    releases it as its last step, whether it returns a response, an
    error status, or is left by a panic. *)
Theorem C9_handlers_honour_guard :
  (∀ req sysMgmtdHost volDirBasePath permissions stripePattern,
     createName req ≠ "" →
     createVolumeCapabilities req ≠ [] →
     fst (isValidVolumeCapabilities pkg (createVolumeCapabilities req)) = true →
     createParameters req !! sysMgmtdHostKey = Some sysMgmtdHost →
     createParameters req !! volDirBasePathKey = Some volDirBasePath →
     getPermissionsConfigFromParams pkg (createParameters req) = Ok permissions →
     getStripePatternConfigFromParams pkg (createParameters req) = Ok stripePattern →
     guardedBy
       (volumeID (cs_newBeegfsVolume pkg cs sysMgmtdHost
                    (GoPath.Clean (GoPath.Join ["/"; volDirBasePath])) (createName req)))
       (CreateVolume pkg env cs req))
  ∧ (∀ req vol,
       deleteVolumeId req ≠ "" →
       cs_newBeegfsVolumeFromID pkg cs (deleteVolumeId req) = Ok vol →
       guardedBy (volumeID vol) (DeleteVolume pkg env cs req))
  ∧ (∀ req vol,
       validateVolumeId req ≠ "" →
       validateVolumeCapabilities req ≠ [] →
       cs_newBeegfsVolumeFromID pkg cs (validateVolumeId req) = Ok vol →
       guardedBy (volumeID vol) (ValidateVolumeCapabilities pkg env cs req)).
Proof.
  split; [exact CreateVolume_guardedBy|].
  split; [exact DeleteVolume_guardedBy|exact ValidateVolumeCapabilities_guardedBy].
Qed.

End ControllerProofs.

(** * The path of a minted volume identity *)

Lemma repliesOnly_pure {A : Type} (P : A → Prop) (a : A) :
  P a → repliesOnly P (λ st, (Reply a, st)).
Proof. intros HP st a' [= <-]. exact HP. Qed.

Lemma repliesOnly_step {A B : Type} (P : B → Prop) (code : Code) (m : M A) (k : A → H B) :
  (∀ a, repliesOnly P (k a)) → repliesOnly P (step code m k).
Proof.
  intros Hk st b. unfold step. destruct (m st) as [[a|e|p] st']; simpl; [|done..].
  apply Hk.
Qed.

Lemma repliesOnly_defer {A : Type} (P : A → Prop) (d : State → option string * State)
    (body : H A) :
  repliesOnly P body → repliesOnly P (defer d body).
Proof.
  intros Hb st a. unfold defer. specialize (Hb st a).
  destruct (body st) as [r st1]. destruct (d st1) as [[msg|] st2]; simpl; [done|].
  exact Hb.
Qed.

Section VolumePath.

Context {VolumeCapability permissionsConfig stripePatternConfig : Type}.
Variable pkg : @Package VolumeCapability permissionsConfig stripePatternConfig.
Variable env : Env.
Variable cs : controllerServer.

(** Every response of CreateVolume carries the identity of the volume
    built from the host parameter and the normalised base path. *)
Lemma CreateVolume_reply (req : CreateVolumeRequest) (st : State)
    (resp : CreateVolumeResponse) :
  fst (CreateVolume pkg env cs req st) = Reply resp →
  ∃ host base,
    createParameters req !! sysMgmtdHostKey = Some host
    ∧ createParameters req !! volDirBasePathKey = Some base
    ∧ VolumeId resp
      = volumeID (cs_newBeegfsVolume pkg cs host (GoPath.Clean (GoPath.Join ["/"; base]))
                    (createName req)).
Proof.
  unfold CreateVolume.
  destruct (String.length (createName req) =? 0)%nat; [done|].
  destruct (length (createVolumeCapabilities req) =? 0)%nat; [done|].
  destruct (isValidVolumeCapabilities pkg (createVolumeCapabilities req)) as [valid reason].
  destruct (negb valid); [done|].
  destruct (size (createParameters req) =? 0)%nat; [done|].
  destruct (createParameters req !! sysMgmtdHostKey) as [host|]; [|done].
  destruct (createParameters req !! volDirBasePathKey) as [base|]; [|done].
  destruct (getPermissionsConfigFromParams pkg (createParameters req))
    as [permissions| |]; [|done..].
  destruct (getStripePatternConfigFromParams pkg (createParameters req))
    as [stripePattern| |]; [|done..].
  set (vol := cs_newBeegfsVolume pkg cs host _ _).
  destruct (obtainLockOnString (volumeID vol) st) as [obtained st1].
  destruct obtained; simpl negb; cbv iota; [|done].
  intros Hreply. exists host, base. split; [done|]. split; [done|].
  revert Hreply.
  apply (repliesOnly_defer (λ r, VolumeId r = volumeID vol)), repliesOnly_defer.
  repeat (apply repliesOnly_step; intros _).
  destruct (hasSpecialPermissions pkg permissions).
  - repeat (apply repliesOnly_step; intros _). by apply repliesOnly_pure.
  - by apply repliesOnly_pure.
Qed.

(** C10.  CreateVolume normalises the volDirBasePath parameter as
    path.Clean(path.Join("/", volDirBasePath)) before use, so the volume
    is built for the path Clean("/" + volDirBasePath + "/" + name), which
    is absolute and lexically clean whatever separators, "." or ".."
    elements the parameter has; and where the package's constructor
    records the identity of the host and path it is given, every
    response of CreateVolume carries the identity of the parameter's host
    and that path, which decodes to them when the host is one of
    letters, digits, "-", ".", "_" and "~". *)
Theorem C10_volDirBasePath_normalised (req : CreateVolumeRequest) (st : State)
    (resp : CreateVolumeResponse) :
  (∀ mountDirPath host path config,
     volumeID (newBeegfsVolume pkg mountDirPath host path config) = newBeegfsUrl host path) →
  fst (CreateVolume pkg env cs req st) = Reply resp →
  ∃ host base,
    createParameters req !! sysMgmtdHostKey = Some host
    ∧ createParameters req !! volDirBasePathKey = Some base
    ∧ let p := GoPath.Clean ("/" +:+ base +:+ "/" +:+ createName req) in
      cs_newBeegfsVolume pkg cs host (GoPath.Clean (GoPath.Join ["/"; base])) (createName req)
      = newBeegfsVolume pkg
          (GoPath.Join [csDataDir cs; sanitizeVolumeID (newBeegfsUrl host p)])
          host p (pluginConfig cs)
      ∧ VolumeId resp = newBeegfsUrl host p
      ∧ GoStrings.HasPrefix p "/" = true
      ∧ GoPath.Clean p = p
      ∧ (validHost host = true → parseBeegfsUrl (VolumeId resp) = Ok (host, p)).
Proof.
  intros Hid Hreply.
  destruct (CreateVolume_reply req st resp Hreply) as (host & base & Hhost & Hbase & Hresp).
  exists host, base. split; [done|]. split; [done|].
  destruct (volDirPath_clean base (createName req)) as (Hjoin & Habs & Hclean).
  unfold cs_newBeegfsVolume in *. rewrite Hjoin in *. rewrite Hid in Hresp.
  cbv zeta. split; [done|]. split; [done|]. split; [done|]. split; [done|].
  intros Hvalid. rewrite Hresp. apply parseBeegfsUrl_newBeegfsUrl; [done|].
  unfold validPath. unfold GoStrings.HasPrefix in Habs.
  destruct (GoPath.Clean _) as [|c p]; [done|].
  rewrite prefix_byte in Habs. by rewrite Ascii.eqb_sym.
Qed.

End VolumePath.

Lemma C10_volDirBasePath_normalised_witness :
  ∃ host base,
    createParameters (exampleCreate "data/./x/..//") !! sysMgmtdHostKey = Some host
    ∧ createParameters (exampleCreate "data/./x/..//") !! volDirBasePathKey = Some base
    ∧ let p := GoPath.Clean ("/" +:+ base +:+ "/" +:+ "vol1") in
      cs_newBeegfsVolume examplePackage exampleServer host
        (GoPath.Clean (GoPath.Join ["/"; base])) "vol1"
      = exampleNewBeegfsVolume
          (GoPath.Join ["/data"; sanitizeVolumeID (newBeegfsUrl host p)])
          host p (pluginConfig exampleServer)
      ∧ "beegfs://10.0.0.1/data/vol1" = newBeegfsUrl host p
      ∧ GoStrings.HasPrefix p "/" = true
      ∧ GoPath.Clean p = p
      ∧ (validHost host = true
         → parseBeegfsUrl "beegfs://10.0.0.1/data/vol1" = Ok (host, p)).
Proof.
  apply (C10_volDirBasePath_normalised examplePackage (quietEnv []) exampleServer
           (exampleCreate "data/./x/..//") emptyState
           {| VolumeId := "beegfs://10.0.0.1/data/vol1" |}).
  - reflexivity.
  - vm_compute. reflexivity.
Defined.

(** The CreateVolume scenario: the volume is created under the guard and
    the identity beegfs://10.0.0.1/data/vol1 is returned. *)
Example CreateVolume_example :
  CreateVolume examplePackage (quietEnv []) exampleServer (exampleCreate "/data") emptyState
  = (Reply {| VolumeId := "beegfs://10.0.0.1/data/vol1" |},
     after emptyState
       [EvObtainLock "beegfs://10.0.0.1/data/vol1" true;
        EvMkdirAll "/data/10.0.0.1_data_vol1";
        EvWriteClientFiles "beegfs://10.0.0.1/data/vol1" "/etc/beegfs/beegfs-client.conf";
        EvCreateDirectoryForVolume "beegfs://10.0.0.1/data/vol1";
        EvSetPatternForVolume "beegfs://10.0.0.1/data/vol1";
        EvMounterList;
        EvCleanupMountPoint "/data/10.0.0.1_data_vol1/mount";
        EvRemoveAll "/data/10.0.0.1_data_vol1";
        EvReleaseLock "beegfs://10.0.0.1/data/vol1"]).
Proof. vm_compute. reflexivity. Qed.

(** The three requests for the volume of the scenario: the theorem
    applies to each. *)
Lemma C9_handlers_honour_guard_witness :
  guardedBy "beegfs://10.0.0.1/data/vol1"
    (CreateVolume examplePackage (quietEnv []) exampleServer (exampleCreate "/data"))
  ∧ guardedBy "beegfs://10.0.0.1/data/vol1"
      (DeleteVolume examplePackage (quietEnv []) exampleServer
         {| deleteVolumeId := "beegfs://10.0.0.1/data/vol1" |})
  ∧ guardedBy "beegfs://10.0.0.1/data/vol1"
      (ValidateVolumeCapabilities examplePackage (quietEnv []) exampleServer
         {| validateVolumeId := "beegfs://10.0.0.1/data/vol1";
            validateVolumeCapabilities := [tt] |}).
Proof.
  destruct (C9_handlers_honour_guard examplePackage (quietEnv []) exampleServer)
    as (HC & HD & HV).
  split; [|split].
  - apply (HC (exampleCreate "/data") "10.0.0.1" "/data" tt tt);
      [discriminate|discriminate|reflexivity..].
  - apply (HD {| deleteVolumeId := "beegfs://10.0.0.1/data/vol1" |}
              (exampleNewBeegfsVolume "/data/10.0.0.1_data_vol1" "10.0.0.1" "/data/vol1"
                 (pluginConfig exampleServer)));
      [discriminate|vm_compute; reflexivity].
  - apply (HV {| validateVolumeId := "beegfs://10.0.0.1/data/vol1";
                 validateVolumeCapabilities := [tt] |}
              (exampleNewBeegfsVolume "/data/10.0.0.1_data_vol1" "10.0.0.1" "/data/vol1"
                 (pluginConfig exampleServer)));
      [discriminate|discriminate|vm_compute; reflexivity].
Defined.

(** The scenario while another request holds the identity: the status
    Aborted, and nothing but the request that the guard refuses. *)
Example CreateVolume_in_flight :
  CreateVolume examplePackage (quietEnv []) exampleServer (exampleCreate "/data")
    {| trace := []; inFlight := {[ "beegfs://10.0.0.1/data/vol1" ]} |}
  = (Status Aborted "volumeID beegfs://10.0.0.1/data/vol1 is in use by another request",
     {| trace := [EvObtainLock "beegfs://10.0.0.1/data/vol1" false];
        inFlight := {[ "beegfs://10.0.0.1/data/vol1" ]} |}).
Proof. vm_compute. reflexivity. Qed.

(** * Further properties of the override operation *)

Lemma overwriteSlice_elems (c w : option (list string)) :
  elems (overwriteSlice c w) = if (len w =? 0)%nat then elems c else elems w.
Proof. unfold overwriteSlice. by destruct (len w =? 0)%nat. Qed.

Lemma mapOf_empty_iff (w : option (gmap string string)) :
  mapOf w = ∅ ↔ ∀ k, mapGet w k = None.
Proof.
  destruct w as [g|]; simpl; [|done]. split.
  - intros -> k. apply lookup_empty.
  - intros Hk. by apply map_empty.
Qed.

(** X1.  When the map of the target is allocated, [overwriteFrom]
    returns, and in its result: each of the three lists is the
    fragment's when the fragment's is not empty and the target's
    otherwise; every key of the fragment's map has the fragment's value
    and every other key the value it had in the target; the secret is
    the fragment's when that is not empty and the target's otherwise. *)
Theorem overwriteFrom_merges (c writeFrom : beegfsConfig) (dst : gmap string string) :
  BeegfsClientConf c = Some dst →
  ∃ r m,
    overwriteFrom c writeFrom = Ok r
    ∧ elems (ConnInterfaces r)
      = (if (len (ConnInterfaces writeFrom) =? 0)%nat then elems (ConnInterfaces c)
         else elems (ConnInterfaces writeFrom))
    ∧ elems (ConnNetFilter r)
      = (if (len (ConnNetFilter writeFrom) =? 0)%nat then elems (ConnNetFilter c)
         else elems (ConnNetFilter writeFrom))
    ∧ elems (ConnTcpOnlyFilter r)
      = (if (len (ConnTcpOnlyFilter writeFrom) =? 0)%nat then elems (ConnTcpOnlyFilter c)
         else elems (ConnTcpOnlyFilter writeFrom))
    ∧ BeegfsClientConf r = Some m
    ∧ (∀ k, m !! k = match mapGet (BeegfsClientConf writeFrom) k with
                     | Some v => Some v
                     | None => dst !! k
                     end)
    ∧ connAuth r = (if String.eqb (connAuth writeFrom) "" then connAuth c
                    else connAuth writeFrom).
Proof.
  intros Hdst. unfold overwriteFrom. rewrite Hdst, overwriteMap_Some. simpl.
  eexists _, _. split; [reflexivity|]. simpl.
  rewrite !overwriteSlice_elems. do 4 (split; [reflexivity|]). split.
  - intros k. rewrite lookup_union.
    destruct (BeegfsClientConf writeFrom) as [src|]; simpl.
    + destruct (src !! k), (dst !! k); done.
    + rewrite lookup_empty. by destruct (dst !! k).
  - case_bool_decide as Hne; destruct (String.eqb_spec (connAuth writeFrom) ""); done.
Qed.

Lemma overwriteFrom_merges_witness :
  ∃ r m,
    overwriteFrom
      {| ConnInterfaces := Some ["x"; "y"]; ConnNetFilter := None; ConnTcpOnlyFilter := None;
         BeegfsClientConf := Some {[ "a" := "1" ]}; connAuth := "" |}
      {| ConnInterfaces := Some ["z"]; ConnNetFilter := None; ConnTcpOnlyFilter := None;
         BeegfsClientConf := Some {[ "b" := "2" ]}; connAuth := "" |} = Ok r
    ∧ elems (ConnInterfaces r) = ["z"]
    ∧ elems (ConnNetFilter r) = []
    ∧ elems (ConnTcpOnlyFilter r) = []
    ∧ BeegfsClientConf r = Some m
    ∧ (∀ k, m !! k = match ({[ "b" := "2" ]} : gmap string string) !! k with
                     | Some v => Some v
                     | None => ({[ "a" := "1" ]} : gmap string string) !! k
                     end)
    ∧ connAuth r = "".
Proof.
  apply (overwriteFrom_merges
           {| ConnInterfaces := Some ["x"; "y"]; ConnNetFilter := None;
              ConnTcpOnlyFilter := None;
              BeegfsClientConf := Some {[ "a" := "1" ]}; connAuth := "" |}
           {| ConnInterfaces := Some ["z"]; ConnNetFilter := None; ConnTcpOnlyFilter := None;
              BeegfsClientConf := Some {[ "b" := "2" ]}; connAuth := "" |}
           {[ "a" := "1" ]}).
  reflexivity.
Defined.

(** X2.  [overwriteFrom] never returns an error, and it panics exactly
    when the map of the target is nil and the map of the fragment has a
    key.  A fragment that sets nothing (no list element, no key, no
    secret) leaves every target unchanged, also one with a nil map. *)
Theorem overwriteFrom_panics_iff (c writeFrom : beegfsConfig) :
  (∀ e, overwriteFrom c writeFrom ≠ Err e)
  ∧ ((∃ p, overwriteFrom c writeFrom = Panic p)
     ↔ BeegfsClientConf c = None ∧ ∃ k v, mapGet (BeegfsClientConf writeFrom) k = Some v)
  ∧ (len (ConnInterfaces writeFrom) = 0 ∧ len (ConnNetFilter writeFrom) = 0
     ∧ len (ConnTcpOnlyFilter writeFrom) = 0 ∧ connAuth writeFrom = ""
     ∧ (∀ k, mapGet (BeegfsClientConf writeFrom) k = None)
     → overwriteFrom c writeFrom = Ok c).
Proof.
  unfold overwriteFrom, overwriteMap.
  destruct (BeegfsClientConf writeFrom) as [src|] eqn:Hsrc; simpl.
  - case_bool_decide as Hempty; simpl.
    + subst src. split; [done|]. split.
      * split; [by intros [p ?]|]. intros (_ & k & v & Hk). by rewrite lookup_empty in Hk.
      * intros (H1 & H2 & H3 & H4 & _). unfold overwriteSlice. rewrite H1, H2, H3, H4. simpl.
        by destruct c.
    + destruct (BeegfsClientConf c) as [dst|] eqn:Hdst; simpl.
      * split; [done|]. split; [split; [by intros [p ?]|by intros [? _]]|].
        intros (_ & _ & _ & _ & Hk). destruct Hempty. by apply map_empty.
      * split; [done|]. split.
        -- split; [|by eauto]. intros _. split; [done|].
           destruct (map_choose src Hempty) as (k & v & Hk). eauto.
        -- intros (_ & _ & _ & _ & Hk). destruct Hempty. by apply map_empty.
  - split; [done|]. split.
    + split; [by intros [p ?]|]. by intros (_ & k & v & Hk).
    + intros (H1 & H2 & H3 & H4 & _). unfold overwriteSlice. rewrite H1, H2, H3, H4. simpl.
      by destruct c.
Qed.

Lemma overwriteSpec_twice (c w : beegfsConfig) :
  overwriteSpec (overwriteSpec c w) w = overwriteSpec c w.
Proof.
  unfold overwriteSpec. apply beegfsConfig_eq; simpl.
  - by destruct (elems (ConnInterfaces w)).
  - by destruct (elems (ConnNetFilter w)).
  - by destruct (elems (ConnTcpOnlyFilter w)).
  - f_equal. apply map_eq. intros k. rewrite !lookup_union.
    by destruct (mapOf (BeegfsClientConf w) !! k), (mapOf (BeegfsClientConf c) !! k).
  - by case_bool_decide.
Qed.

(** X3.  [overwriteFrom] is idempotent: writing a fragment over the
    result of writing it changes nothing. *)
Theorem overwriteFrom_idempotent (c writeFrom r : beegfsConfig) :
  overwriteFrom c writeFrom = Ok r → overwriteFrom r writeFrom = Ok r.
Proof.
  intros Hr. destruct (BeegfsClientConf c) as [dst|] eqn:Hdst.
  - rewrite overwriteFrom_allocated in Hr by (by rewrite Hdst). injection Hr as <-.
    rewrite overwriteFrom_allocated by apply overwriteSpec_allocated.
    by rewrite overwriteSpec_twice.
  - revert Hr. unfold overwriteFrom. rewrite Hdst.
    destruct (overwriteMap None (BeegfsClientConf writeFrom)) as [m| |] eqn:Hm; simpl; [|done..].
    intros [= <-]. simpl.
    assert (m = None ∧ overwriteMap None (BeegfsClientConf writeFrom) = Ok None) as [-> ->].
    { revert Hm. unfold overwriteMap. destruct (BeegfsClientConf writeFrom) as [src|].
      - case_bool_decide; [|done]. by intros [= <-].
      - by intros [= <-]. }
    simpl. f_equal. apply beegfsConfig_eq; simpl; try done.
    + unfold overwriteSlice. by destruct (len (ConnInterfaces writeFrom) =? 0)%nat.
    + unfold overwriteSlice. by destruct (len (ConnNetFilter writeFrom) =? 0)%nat.
    + unfold overwriteSlice. by destruct (len (ConnTcpOnlyFilter writeFrom) =? 0)%nat.
    + by case_bool_decide.
Qed.

Lemma overwriteFrom_idempotent_witness :
  overwriteFrom
    {| ConnInterfaces := Some ["z"]; ConnNetFilter := None; ConnTcpOnlyFilter := None;
       BeegfsClientConf := Some {[ "a" := "1"; "b" := "2" ]}; connAuth := "" |}
    {| ConnInterfaces := Some ["z"]; ConnNetFilter := None; ConnTcpOnlyFilter := None;
       BeegfsClientConf := Some {[ "b" := "2" ]}; connAuth := "" |}
  = Ok {| ConnInterfaces := Some ["z"]; ConnNetFilter := None; ConnTcpOnlyFilter := None;
          BeegfsClientConf := Some {[ "a" := "1"; "b" := "2" ]}; connAuth := "" |}.
Proof.
  apply (overwriteFrom_idempotent
           {| ConnInterfaces := Some ["x"; "y"]; ConnNetFilter := None;
              ConnTcpOnlyFilter := None;
              BeegfsClientConf := Some {[ "a" := "1" ]}; connAuth := "" |}).
  vm_compute. reflexivity.
Defined.

(** * Further properties of the file system specific configurations *)

Lemma overwriteMatching_hosts (wf : FileSystemSpecificConfig) :
  ∀ L L' had, overwriteMatching L wf = Ok (L', had) →
    map SysMgmtdHost L' = map SysMgmtdHost L
    ∧ (had = true ↔ SysMgmtdHost wf ∈ map SysMgmtdHost L)
    ∧ Forall2 (λ c c', SysMgmtdHost c ≠ SysMgmtdHost wf → c' = c) L L'.
Proof.
  induction L as [|e L IH]; intros L' had; simpl.
  - intros [= <- <-]. split; [done|]. split; [|constructor].
    split; [done|]. by intros ?%elem_of_nil.
  - case_bool_decide as He.
    + destruct (overwriteFrom (Config e) (Config wf)) as [c| |]; simpl; [|done..].
      destruct (overwriteMatching L wf) as [[rest' had']| |]; simpl; [|done..].
      intros [= <- <-]. destruct (IH rest' had' eq_refl) as (Hh & _ & HF).
      simpl. split; [by rewrite Hh|]. split.
      * split; [|done]. intros _. rewrite He. left.
      * constructor; [done|exact HF].
    + destruct (overwriteMatching L wf) as [[rest' had']| |]; simpl; [|done..].
      intros [= <- <-]. destruct (IH rest' had' eq_refl) as (Hh & Hhad & HF).
      simpl. split; [by rewrite Hh|]. split.
      * rewrite Hhad, elem_of_cons. split; [by right|]. intros [Heq|]; [|done].
        by destruct He.
      * by constructor.
Qed.

(** X4.  When [overwriteFileSystemSpecificConfigs] returns, its result
    is the entries of [writeTo] in their places, each with its host, and
    each unchanged when no entry of [writeFrom] has its host, followed by
    one new entry for every host of [writeFrom] that [writeTo] does not
    have: no host is lost, and none is added twice. *)
Theorem overwriteFileSystemSpecificConfigs_hosts :
  ∀ (writeFrom writeTo r : list FileSystemSpecificConfig),
    overwriteFileSystemSpecificConfigs writeTo writeFrom = Ok r →
    ∃ kept added,
      r = kept ++ added
      ∧ map SysMgmtdHost kept = map SysMgmtdHost writeTo
      ∧ Forall2 (λ c c', SysMgmtdHost c ∉ map SysMgmtdHost writeFrom → c' = c) writeTo kept
      ∧ NoDup (map SysMgmtdHost added)
      ∧ (∀ h, h ∈ map SysMgmtdHost added
              ↔ h ∈ map SysMgmtdHost writeFrom ∧ h ∉ map SysMgmtdHost writeTo).
Proof.
  induction writeFrom as [|wf rest IH]; intros writeTo r; simpl.
  - intros [= <-]. exists writeTo, []. rewrite app_nil_r. split; [done|]. split; [done|].
    split; [by apply Forall2_same_length_lookup_2; [done|]; intros i x y ? ? _; congruence|].
    split; [constructor|]. intros h. simpl. split; [by intros ?%elem_of_nil|].
    by intros [?%elem_of_nil _].
  - destruct (overwriteMatching writeTo wf) as [[L1 had]| |] eqn:HM; simpl; [|done..].
    destruct (overwriteMatching_hosts wf writeTo L1 had HM) as (Hh1 & Hhad & HF1).
    intros Hrec. destruct had.
    + destruct (IH L1 r Hrec) as (kept & added & -> & Hk & HF & Hnd & Hadd).
      assert (SysMgmtdHost wf ∈ map SysMgmtdHost writeTo) as Hin by (by apply Hhad).
      exists kept, added. split; [done|]. split; [by rewrite Hk|]. split; [|split; [done|]].
      * assert (length writeTo = length L1) as Hlen1
          by (by rewrite <- (length_map SysMgmtdHost), <- Hh1, length_map).
        apply Forall2_same_length_lookup_2.
        { rewrite Hlen1. by eapply Forall2_length. }
        intros i x z Hx Hz Hnot.
        destruct (Forall2_lookup_l _ _ _ _ _ HF1 Hx) as (y & Hy & Hxy).
        destruct (Forall2_lookup_lr _ _ _ _ _ _ HF Hy Hz).
        { assert (SysMgmtdHost y = SysMgmtdHost x) as Hyx.
          { assert (map SysMgmtdHost L1 !! i = map SysMgmtdHost writeTo !! i) as E
              by (by rewrite Hh1).
            rewrite !list_lookup_fmap, Hx, Hy in E. by injection E. }
          rewrite Hyx. intros ?. apply Hnot. by right. }
        apply Hxy. intros E. apply Hnot. rewrite E. left.
      * intros h. rewrite Hadd, Hh1, elem_of_cons. split; [by intros [? ?]; split; [right|]|].
        intros [[->|?] ?]; done.
    + destruct (IH (L1 ++ [wf]) r Hrec) as (kept' & added & -> & Hk & HF & Hnd & Hadd).
      assert (SysMgmtdHost wf ∉ map SysMgmtdHost writeTo) as Hnin.
      { intros Hin. by apply Hhad in Hin. }
      apply Forall2_app_inv_l in HF as (kept & last & HFk & HFl & ->).
      apply Forall2_cons_inv_l in HFl as (x & nil' & Hx & Hnil & ->).
      apply Forall2_nil_inv_l in Hnil as ->.
      rewrite !map_app in Hk. simpl in Hk.
      apply app_inj_tail in Hk as [Hk Hhx].
      exists kept, (x :: added). split; [by rewrite <- app_assoc|].
      split; [by rewrite Hk|]. split; [|split].
      * assert (length writeTo = length L1) as Hlen1
          by (by rewrite <- (length_map SysMgmtdHost), <- Hh1, length_map).
        apply Forall2_same_length_lookup_2.
        { rewrite Hlen1. by eapply Forall2_length. }
        intros i a z Ha Hz Hnot.
        destruct (Forall2_lookup_l _ _ _ _ _ HF1 Ha) as (y & Hy & Hay).
        destruct (Forall2_lookup_lr _ _ _ _ _ _ HFk Hy Hz).
        { assert (SysMgmtdHost y = SysMgmtdHost a) as Hya.
          { assert (map SysMgmtdHost L1 !! i = map SysMgmtdHost writeTo !! i) as E
              by (by rewrite Hh1).
            rewrite !list_lookup_fmap, Ha, Hy in E. by injection E. }
          rewrite Hya. intros ?. apply Hnot. by right. }
        apply Hay. intros E. apply Hnot. rewrite E. left.
      * simpl. constructor; [|done]. rewrite Hhx, Hadd, map_app, elem_of_app. simpl.
        intros [_ Hn]. apply Hn. right. left.
      * intros h. simpl. rewrite elem_of_cons, Hadd, map_app, elem_of_app, Hh1, Hhx.
        simpl. rewrite !elem_of_cons, elem_of_nil. split.
        -- intros [->|[Hr Hn]]; [by split; [left|]|]. split; [by right|]. tauto.
        -- intros [[->|Hr] Hn]; [by left|]. destruct (decide (h = SysMgmtdHost wf)); [by left|].
           right. split; [done|]. tauto.
Qed.

Lemma overwriteFileSystemSpecificConfigs_hosts_witness :
  ∃ kept added,
    [{| SysMgmtdHost := "a"; Config := newBeegfsConfig |};
     {| SysMgmtdHost := "b"; Config := newBeegfsConfig |};
     {| SysMgmtdHost := "c"; Config := zeroBeegfsConfig |}] = kept ++ added
    ∧ map SysMgmtdHost kept = ["a"; "b"]
    ∧ Forall2 (λ c c', SysMgmtdHost c ∉ ["b"; "c"; "c"] → c' = c)
        [{| SysMgmtdHost := "a"; Config := newBeegfsConfig |};
         {| SysMgmtdHost := "b"; Config := newBeegfsConfig |}] kept
    ∧ NoDup (map SysMgmtdHost added)
    ∧ (∀ h, h ∈ map SysMgmtdHost added ↔ h ∈ ["b"; "c"; "c"] ∧ h ∉ ["a"; "b"]).
Proof.
  apply (overwriteFileSystemSpecificConfigs_hosts
           [{| SysMgmtdHost := "b"; Config := zeroBeegfsConfig |};
            {| SysMgmtdHost := "c"; Config := zeroBeegfsConfig |};
            {| SysMgmtdHost := "c"; Config := zeroBeegfsConfig |}]
           [{| SysMgmtdHost := "a"; Config := newBeegfsConfig |};
            {| SysMgmtdHost := "b"; Config := newBeegfsConfig |}]).
  vm_compute. reflexivity.
Defined.

(** * Further properties of stripping, validation and resolution *)

Lemma stripKeys_idemp (g : gmap string string) : stripKeys (stripKeys g) = stripKeys g.
Proof.
  apply map_eq. intros k. destruct (decide (k ∈ noEffectBeegfsConfOptions)).
  - by rewrite !stripKeys_lookup_in.
  - by rewrite !stripKeys_lookup_notin.
Qed.

Lemma stripBeegfsConfig_idemp (c : beegfsConfig) :
  stripBeegfsConfig (stripBeegfsConfig c) = stripBeegfsConfig c.
Proof.
  apply beegfsConfig_eq; try done.
  rewrite !strip_BeegfsClientConf. destruct (BeegfsClientConf c); simpl; [|done].
  by rewrite stripKeys_idemp.
Qed.

Lemma validateHosts_strip (l : list FileSystemSpecificConfig) :
  validateHosts (map (λ config, {| SysMgmtdHost := SysMgmtdHost config;
                                   Config := stripBeegfsConfig (Config config) |}) l)
  = validateHosts l.
Proof. induction l as [|c l IH]; simpl; [done|]. by rewrite IH. Qed.

Lemma validateBeegfsConfigs_strip (l : list beegfsConfig) :
  validateBeegfsConfigs (map stripBeegfsConfig l) = validateBeegfsConfigs l.
Proof. induction l as [|c l IH]; simpl; [done|]. by rewrite IH. Qed.

(** X5.  [stripConfig] is idempotent and does not change what
    [validateConfig] answers; and it commutes with
    [squashConfigForSysMgmtdHost]: the effective configuration of every
    host under the stripped plugin configuration is the stripped
    effective configuration, in which no no-effect option is left. *)
Theorem stripConfig_neutral (plConfig : PluginConfig) :
  stripConfig (stripConfig plConfig) = stripConfig plConfig
  ∧ validateConfig (stripConfig plConfig) = validateConfig plConfig
  ∧ ∀ h, ∃ r,
      squashConfigForSysMgmtdHost h plConfig = Ok r
      ∧ squashConfigForSysMgmtdHost h (stripConfig plConfig) = Ok (stripBeegfsConfig r)
      ∧ ∀ k, k ∈ noEffectBeegfsConfOptions →
             mapGet (BeegfsClientConf (stripBeegfsConfig r)) k = None.
Proof.
  split; [|split].
  - unfold stripConfig. simpl. f_equal; [apply stripBeegfsConfig_idemp|].
    rewrite map_map. apply map_ext. intros c. simpl. by rewrite stripBeegfsConfig_idemp.
  - unfold validateConfig. simpl. rewrite validateHosts_strip.
    destruct (validateHosts (FileSystemSpecificConfigs plConfig)); [done|].
    rewrite map_map. simpl.
    by rewrite <- (map_map Config stripBeegfsConfig), validateBeegfsConfigs_strip.
  - intros h. eexists. split; [apply squashConfigForSysMgmtdHost_spec|].
    rewrite squashConfigForSysMgmtdHost_spec, hostConfigs_strip. split.
    + f_equal. unfold layered. rewrite strip_applyLayers, strip_newBeegfsConfig. done.
    + intros k Hk. rewrite mapGet_strip. by rewrite bool_decide_eq_true_2.
Qed.

Lemma overwriteFromNodes_filter (nodeID : string) :
  ∀ nodes P,
    overwriteFromNodes nodeID P (List.filter (appliesToNode nodeID) nodes)
    = overwriteFromNodes nodeID P nodes.
Proof.
  induction nodes as [|n nodes IH]; intros P; simpl; [done|].
  destruct (appliesToNode nodeID n) eqn:E; simpl; [|apply IH].
  rewrite E. destruct (overwriteFrom _ _); simpl; [|done..].
  destruct (overwriteFileSystemSpecificConfigs _ _); simpl; [|done..].
  apply IH.
Qed.

Lemma appliesToNode_false (nodeID : string) (n : nodeSpecificConfig) :
  appliesToNode nodeID n = false ↔ nodeID ∉ NodeList n.
Proof.
  unfold appliesToNode. induction (NodeList n) as [|x l IH]; simpl.
  - split; [|done]. intros _ ?%elem_of_nil. done.
  - rewrite orb_false_iff, IH, not_elem_of_cons.
    destruct (String.eqb_spec nodeID x); split; intros [? ?]; try done; by split.
Qed.

(** X6.  Node specific configurations that do not list the node have no
    influence on what [parseConfigFromFile] builds for it, whether a
    plugin configuration, a validation error or a panic; when no node
    specific configuration lists the node, the result is the plugin
    configuration of the file, validated and stripped. *)
Theorem parseConfig_other_nodes (rawConfig : pluginConfigFromFile) (nodeID : string) :
  newPluginConfigFromRaw rawConfig nodeID
  = newPluginConfigFromRaw
      {| filePluginConfig := filePluginConfig rawConfig;
         NodeSpecificConfigs :=
           List.filter (appliesToNode nodeID) (NodeSpecificConfigs rawConfig) |} nodeID
  ∧ (Forall (λ n, nodeID ∉ NodeList n) (NodeSpecificConfigs rawConfig) →
     newPluginConfigFromRaw rawConfig nodeID
     = match validateConfig (filePluginConfig rawConfig) with
       | Some e => Err ("config validation failed: " +:+ e)
       | None => Ok (stripConfig (filePluginConfig rawConfig))
       end).
Proof.
  unfold newPluginConfigFromRaw. simpl. split.
  - by rewrite overwriteFromNodes_filter.
  - intros Hall. rewrite <- overwriteFromNodes_filter.
    assert (List.filter (appliesToNode nodeID) (NodeSpecificConfigs rawConfig) = []) as ->.
    { induction Hall as [|n l Hn _ IH]; simpl; [done|].
      apply appliesToNode_false in Hn. by rewrite Hn. }
    simpl. by destruct (validateConfig (filePluginConfig rawConfig)).
Qed.

Lemma sameButConnAuth_overwriteSpec (a a' b b' : beegfsConfig) :
  sameButConnAuth a a' → sameButConnAuth b b' →
  sameButConnAuth (overwriteSpec a b) (overwriteSpec a' b').
Proof.
  intros (A1 & A2 & A3 & A4) (B1 & B2 & B3 & B4). unfold sameButConnAuth, overwriteSpec. simpl.
  by rewrite A1, A2, A3, A4, B1, B2, B3, B4.
Qed.

Lemma sameButConnAuth_applyLayers (R R' : list beegfsConfig) :
  Forall2 sameButConnAuth R R' →
  ∀ x x', sameButConnAuth x x' → sameButConnAuth (applyLayers x R) (applyLayers x' R').
Proof.
  induction 1 as [|c c' R R' Hc _ IH]; intros x x' Hx; [done|].
  rewrite !applyLayers_cons. apply IH. by apply sameButConnAuth_overwriteSpec.
Qed.

Lemma sameButConnAuth_refl (c : beegfsConfig) : sameButConnAuth c c.
Proof. by repeat split. Qed.

Lemma lastConnAuth_none (h : string) (auths : list connAuthConfig) :
  Forall (λ a, authSysMgmtdHost a ≠ h) auths → lastConnAuth h auths = None.
Proof.
  intros Hall. unfold lastConnAuth.
  assert (List.filter (authIs h) auths = []) as ->; [|done].
  induction Hall as [|a l Ha _ IH]; simpl; [done|].
  unfold authIs at 1. destruct (String.eqb_spec h (authSysMgmtdHost a)); [by subst|done].
Qed.

(** X7.  The entries of the connAuth file change nothing but secrets:
    under the plugin configuration with the entries added, the effective
    configuration of every host has the lists and the client options it
    had before; and it is the same altogether when no entry is for that
    host. *)
Theorem addConnAuth_isolated (auths : list connAuthConfig) (cfg : PluginConfig) (h : string) :
  ∃ r r',
    squashConfigForSysMgmtdHost h cfg = Ok r
    ∧ squashConfigForSysMgmtdHost h (addConnAuth auths cfg) = Ok r'
    ∧ ConnInterfaces r' = ConnInterfaces r
    ∧ ConnNetFilter r' = ConnNetFilter r
    ∧ ConnTcpOnlyFilter r' = ConnTcpOnlyFilter r
    ∧ BeegfsClientConf r' = BeegfsClientConf r
    ∧ (Forall (λ a, authSysMgmtdHost a ≠ h) auths → r' = r).
Proof.
  eexists _, _. split; [apply squashConfigForSysMgmtdHost_spec|].
  split; [apply squashConfigForSysMgmtdHost_spec|].
  simpl. unfold hostConfigs. rewrite fold_applyConnAuth_filter.
  set (G := List.filter (hostIs h) (FileSystemSpecificConfigs cfg)).
  assert (sameButConnAuth
            (layered (DefaultConfig cfg
                      :: map Config match lastConnAuth h auths with
                                    | Some s => setFirstConnAuth h s G
                                    | None => G
                                    end))
            (layered (DefaultConfig cfg :: map Config G))) as (H1 & H2 & H3 & H4).
  { unfold layered. rewrite !applyLayers_cons.
    destruct (lastConnAuth h auths) as [s|]; [|apply sameButConnAuth_refl].
    destruct G as [|e G]; cbn [setFirstConnAuth map].
    - unfold applyLayers. cbn [fold_left].
      unfold sameButConnAuth, overwriteSpec. simpl.
      by rewrite (left_id_L ∅ (∪)).
    - rewrite !applyLayers_cons. apply sameButConnAuth_applyLayers.
      + apply Forall2_same_length_lookup_2; [done|]. intros i x y ? ? . simplify_eq.
        apply sameButConnAuth_refl.
      + apply sameButConnAuth_overwriteSpec; [apply sameButConnAuth_refl|].
        by repeat split. }
  do 4 (split; [done|]). intros Hall. by rewrite lastConnAuth_none.
Qed.

Lemma hostConfigs_none (h : string) (l : list FileSystemSpecificConfig) :
  Forall (λ c, SysMgmtdHost c ≠ h) l → hostConfigs h l = [].
Proof.
  intros Hall. unfold hostConfigs. induction Hall as [|c l Hc _ IH]; [done|].
  rewrite filter_cons_host.
  rewrite (proj2 (hostIs_false h c)) by congruence. exact IH.
Qed.

(** X8.  [squashConfigForSysMgmtdHost] always returns a configuration
    whose map is allocated, whatever the plugin configuration, also one
    whose maps are nil; for a host without a file system specific
    configuration it returns the lists, the client options and the secret
    of the default configuration. *)
Theorem squashConfigForSysMgmtdHost_total (sysMgmtdHost : string) (config : PluginConfig) :
  ∃ r m,
    squashConfigForSysMgmtdHost sysMgmtdHost config = Ok r
    ∧ BeegfsClientConf r = Some m
    ∧ (Forall (λ c, SysMgmtdHost c ≠ sysMgmtdHost) (FileSystemSpecificConfigs config) →
       elems (ConnInterfaces r) = elems (ConnInterfaces (DefaultConfig config))
       ∧ elems (ConnNetFilter r) = elems (ConnNetFilter (DefaultConfig config))
       ∧ elems (ConnTcpOnlyFilter r) = elems (ConnTcpOnlyFilter (DefaultConfig config))
       ∧ (∀ k, m !! k = mapGet (BeegfsClientConf (DefaultConfig config)) k)
       ∧ connAuth r = connAuth (DefaultConfig config)).
Proof.
  assert (∃ m, BeegfsClientConf
                 (layered (DefaultConfig config
                           :: hostConfigs sysMgmtdHost (FileSystemSpecificConfigs config)))
               = Some m) as [m Hm].
  { unfold layered. rewrite applyLayers_cons.
    generalize (overwriteSpec_allocated newBeegfsConfig (DefaultConfig config)).
    generalize (overwriteSpec newBeegfsConfig (DefaultConfig config)).
    induction (hostConfigs sysMgmtdHost (FileSystemSpecificConfigs config)) as [|c R IH].
    - intros x Hx. simpl. destruct (BeegfsClientConf x); [eauto|done].
    - intros x _. rewrite applyLayers_cons. apply IH, overwriteSpec_allocated. }
  eexists _, m. split; [apply squashConfigForSysMgmtdHost_spec|]. split; [done|].
  intros Hall.
  pose proof (hostConfigs_none _ _ Hall) as Hnone.
  rewrite Hnone in Hm |- *. unfold layered, applyLayers, overwriteSpec in Hm |- *. simpl in *.
  injection Hm as <-.
  split; [by destruct (ConnInterfaces (DefaultConfig config)) as [[|]|]|].
  split; [by destruct (ConnNetFilter (DefaultConfig config)) as [[|]|]|].
  split; [by destruct (ConnTcpOnlyFilter (DefaultConfig config)) as [[|]|]|].
  split; [|by case_bool_decide].
  intros k. rewrite (right_id_L ∅ (∪)).
  by destruct (BeegfsClientConf (DefaultConfig config)).
Qed.

(** * Further properties of volume identities and directory names *)

Lemma append_cons (c : ascii) (s t : string) : String c s +:+ t = String c (s +:+ t).
Proof. reflexivity. Qed.

Lemma append_nil_l (t : string) : "" +:+ t = t.
Proof. reflexivity. Qed.

Lemma encodeBytes_no_slash (s : string) : GoStrings.Contains (encodeBytes s) "/" = false.
Proof.
  induction s as [|c s IH]; [done|]. cbn [encodeBytes]. unfold encodeByte.
  destruct (Ascii.eqb c "_") eqn:E1.
  - rewrite ?append_cons, ?append_nil_l. rewrite !Contains_slash_cons. by rewrite IH.
  - destruct (Ascii.eqb c "/") eqn:E2.
    + rewrite ?append_cons, ?append_nil_l. rewrite !Contains_slash_cons. by rewrite IH.
    + rewrite ?append_cons, ?append_nil_l. by rewrite Contains_slash_cons, IH, Ascii.eqb_sym, E2.
Qed.

Lemma lowerHex_no_slash (s : string) :
  GoStrings.all_bytes isLowerHex s = true → GoStrings.Contains s "/" = false.
Proof.
  induction s as [|c s IH]; [done|]. cbn [GoStrings.all_bytes].
  intros [Hc Hs]%andb_true_iff. rewrite Contains_slash_cons, (IH Hs).
  destruct (Ascii.eqb_spec "/" c) as [<-|]; [done|done].
Qed.

Lemma sanitizeVolumeID_unfold (volumeID : string) :
  sanitizeVolumeID volumeID
  = (if (255 <? String.length
                  (encodeBytes (GoStrings.Replace volumeID "beegfs://" "" 1)))%nat
     then GoSha1.Sprintf_x (GoSha1.Sum volumeID)
     else encodeBytes (GoStrings.Replace volumeID "beegfs://" "" 1)).
Proof. unfold sanitizeVolumeID. by rewrite encodeBytes_Replace. Qed.

Lemma sanitizeVolumeID_no_slash (volumeID : string) :
  GoStrings.Contains (sanitizeVolumeID volumeID) "/" = false.
Proof.
  rewrite sanitizeVolumeID_unfold. destruct (255 <? _)%nat.
  - apply lowerHex_no_slash, Sprintf_x_lower, Sum_range.
  - apply encodeBytes_no_slash.
Qed.

(** X9.  For every string whatsoever, [sanitizeVolumeID] returns a name
    without a path separator and at most 255 bytes long. *)
Theorem sanitizeVolumeID_name (volumeID : string) :
  GoStrings.Contains (sanitizeVolumeID volumeID) "/" = false
  ∧ (String.length (sanitizeVolumeID volumeID) ≤ 255)%nat.
Proof.
  split; [apply sanitizeVolumeID_no_slash|].
  rewrite sanitizeVolumeID_unfold.
  destruct (255 <? _)%nat eqn:E.
  - rewrite Sprintf_x_length, Sum_length. lia.
  - apply Nat.ltb_ge in E. lia.
Qed.

Lemma encodeBytes_app (a b : string) : encodeBytes (a +:+ b) = encodeBytes a +:+ encodeBytes b.
Proof.
  induction a as [|c a IH]; [done|]. rewrite append_cons. cbn [encodeBytes].
  by rewrite IH, append_assoc.
Qed.

Lemma append_inv_head (a b c : string) : a +:+ b = a +:+ c → b = c.
Proof.
  induction a as [|x a IH]; [done|]. rewrite !append_cons. intros [= E]. by apply IH.
Qed.

(** X10.  [sanitizeVolumeID] is not injective: the identities
    beegfs://x_/y and beegfs://x/_y are different and have the same
    name x___y, whatever [x] and [y] are, as long as the name is at most
    255 bytes long. *)
Theorem sanitizeVolumeID_collision (x y : string) :
  (String.length (encodeBytes (x +:+ "_/" +:+ y)) ≤ 255)%nat →
  "beegfs://" +:+ x +:+ "_/" +:+ y ≠ "beegfs://" +:+ x +:+ "/_" +:+ y
  ∧ sanitizeVolumeID ("beegfs://" +:+ x +:+ "_/" +:+ y)
    = sanitizeVolumeID ("beegfs://" +:+ x +:+ "/_" +:+ y)
  ∧ sanitizeVolumeID ("beegfs://" +:+ x +:+ "_/" +:+ y)
    = encodeBytes x +:+ "___" +:+ encodeBytes y.
Proof.
  intros Hlen. split.
  - intros E. do 2 apply append_inv_head in E. by rewrite !append_cons in E.
  - rewrite !sanitizeVolumeID_unfold, !Replace_scheme.
    assert (encodeBytes (x +:+ "/_" +:+ y) = encodeBytes (x +:+ "_/" +:+ y)) as ->
      by (by rewrite !encodeBytes_app).
    destruct (255 <? _)%nat eqn:E; [apply Nat.ltb_lt in E; lia|].
    split; [done|]. by rewrite !encodeBytes_app.
Qed.

Lemma sanitizeVolumeID_collision_witness :
  "beegfs://" +:+ "10.0.0.1/a" +:+ "_/" +:+ "b"
  ≠ "beegfs://" +:+ "10.0.0.1/a" +:+ "/_" +:+ "b"
  ∧ sanitizeVolumeID ("beegfs://" +:+ "10.0.0.1/a" +:+ "_/" +:+ "b")
    = sanitizeVolumeID ("beegfs://" +:+ "10.0.0.1/a" +:+ "/_" +:+ "b")
  ∧ sanitizeVolumeID ("beegfs://" +:+ "10.0.0.1/a" +:+ "_/" +:+ "b")
    = encodeBytes "10.0.0.1/a" +:+ "___" +:+ encodeBytes "b".
Proof. apply (sanitizeVolumeID_collision "10.0.0.1/a" "b"). vm_compute. lia. Defined.

Lemma Join_snoc (l : list string) (e : string) :
  l ≠ [] → GoStrings.Join (l ++ [e]) "/" = GoStrings.Join l "/" +:+ "/" +:+ e.
Proof.
  unfold GoStrings.Join. induction l as [|a l IH]; [done|]. intros _.
  destruct l as [|b l].
  - reflexivity.
  - cbn [app String.concat] in *. rewrite IH by done. by rewrite !append_assoc.
Qed.

Lemma Join_good_nonempty (l : list string) :
  l ≠ [] → Forall goodElem l → GoStrings.Join l "/" ≠ "".
Proof.
  unfold GoStrings.Join. destruct l as [|a l]; [done|]. intros _ Hall.
  apply Forall_cons in Hall as [(_ & Ha & _) _].
  destruct a as [|c a]; [done|]. by destruct l.
Qed.

(** The directory of a good name below an absolute directory. *)
Lemma Join_child (dir name : string) :
  GoStrings.HasPrefix dir "/" = true → goodElem name →
  GoPath.Join [dir; name]
  = (if String.eqb (GoPath.Clean dir) "/" then "" else GoPath.Clean dir) +:+ "/" +:+ name.
Proof.
  intros Hdir Hname. destruct dir as [|c d]; [done|].
  unfold GoStrings.HasPrefix in Hdir. rewrite prefix_byte in Hdir.
  apply Ascii.eqb_eq in Hdir as <-.
  assert (GoPath.Join [String "/" d; name]
          = GoPath.Clean (String "/" (d +:+ String "/" name))) as ->.
  { unfold GoPath.Join. cbn [forallb String.eqb andb GoPath.join_buf].
    destruct name; reflexivity. }
  rewrite !Clean_rooted, !cleanElems_slash, cleanElems_app. unfold cleanElems at 1.
  destruct Hname as (Hns & Hne & Hd & Hdd).
  rewrite (SplitByte_slash_free name Hns). cbn [fold_left].
  rewrite step_good by done.
  pose proof (cleanElems_good d [] (Forall_nil_2 _)) as Hgood.
  destruct (cleanElems [] d) as [|e out] eqn:Hout.
  - reflexivity.
  - unfold rootedPath. cbn [rev]. rewrite Join_snoc.
    2: { intros E. apply (f_equal (@length string)) in E. rewrite length_app in E.
         simpl in E. lia. }
    assert (GoStrings.Join (rev out ++ [e]) "/" ≠ "") as Hnz.
    { apply Join_good_nonempty.
      - intros E. apply (f_equal (@length string)) in E. rewrite length_app in E.
        simpl in E. lia.
      - change (rev out ++ [e]) with (rev (e :: out)). by apply Forall_rev. }
    destruct (GoStrings.Join (rev out ++ [e]) "/") as [|a s]; [done|].
    rewrite ?append_cons, ?append_nil_l; cbn [String.eqb]. reflexivity.
Qed.

Section StagingDirectory.

Context {VolumeCapability permissionsConfig stripePatternConfig : Type}.
Variable pkg : @Package VolumeCapability permissionsConfig stripePatternConfig.
Variable cs : controllerServer.

(** X11.  With an absolute data directory, the staging directory that
    [controllerServer.newBeegfsVolumeFromID] selects for an identity is
    the child of the cleaned data directory named by
    [sanitizeVolumeID], unless that name is empty, [.] or [..]. *)
Theorem newBeegfsVolumeFromID_staging (volumeID : string) :
  GoStrings.HasPrefix (csDataDir cs) "/" = true →
  sanitizeVolumeID volumeID ≠ "" →
  sanitizeVolumeID volumeID ≠ "." →
  sanitizeVolumeID volumeID ≠ ".." →
  cs_newBeegfsVolumeFromID pkg cs volumeID
  = newBeegfsVolumeFromID pkg
      ((if String.eqb (GoPath.Clean (csDataDir cs)) "/" then ""
        else GoPath.Clean (csDataDir cs))
       +:+ "/" +:+ sanitizeVolumeID volumeID)
      volumeID (pluginConfig cs).
Proof.
  intros Hdir H1 H2 H3. unfold cs_newBeegfsVolumeFromID.
  rewrite Join_child; [done|done|].
  split; [|done]. apply sanitizeVolumeID_no_slash.
Qed.

End StagingDirectory.

Lemma newBeegfsVolumeFromID_staging_witness :
  cs_newBeegfsVolumeFromID examplePackage exampleServer "beegfs://10.0.0.1/data/vol1"
  = newBeegfsVolumeFromID examplePackage
      ((if String.eqb (GoPath.Clean (csDataDir exampleServer)) "/" then ""
        else GoPath.Clean (csDataDir exampleServer))
       +:+ "/" +:+ sanitizeVolumeID "beegfs://10.0.0.1/data/vol1")
      "beegfs://10.0.0.1/data/vol1" (pluginConfig exampleServer).
Proof.
  apply (newBeegfsVolumeFromID_staging examplePackage exampleServer
           "beegfs://10.0.0.1/data/vol1"); [reflexivity|vm_compute; discriminate..].
Defined.

(** The names that are left out: the identity beegfs://.. has the name
    [..], and its staging directory is the parent of the data
    directory. *)
Example staging_parent :
  sanitizeVolumeID "beegfs://.." = ".."
  ∧ parseBeegfsUrl "beegfs://.." = Ok ("..", "")
  ∧ GoPath.Join ["/var/lib/beegfs-csi"; sanitizeVolumeID "beegfs://.."] = "/var/lib".
Proof. repeat split; vm_compute; reflexivity. Qed.

(** * Relative paths in a volume identity *)

Lemma escape_slash (p : string) :
  GoUrl.escape (String "/" p) GoUrl.encodePath = String "/" (GoUrl.escape p GoUrl.encodePath).
Proof. reflexivity. Qed.

Lemma escape_relative (c : ascii) (p : string) :
  c ≠ "/"%char →
  ∃ a s, GoUrl.escape (String c p) GoUrl.encodePath = String a s ∧ a ≠ "/"%char.
Proof.
  intros Hc. cbn [GoUrl.escape].
  destruct (negb (GoUrl.shouldEscape c GoUrl.encodePath)); [by eauto|].
  destruct (Ascii.eqb c " " && bool_decide (GoUrl.encodePath = GoUrl.encodeQueryComponent));
    by eauto.
Qed.

(** The identity of a relative path is that of the path with a slash in
    front. *)
Lemma newBeegfsUrl_rooted (host path : string) :
  validHost host = true → host ≠ "" → path ≠ "" → GoStrings.HasPrefix path "/" = false →
  parseBeegfsUrl (newBeegfsUrl host path) = Ok (host, "/" +:+ path)
  ∧ (path ≠ "*" → newBeegfsUrl host path = newBeegfsUrl host ("/" +:+ path)).
Proof.
  intros Hh Hne Hpne Hrel.
  destruct host as [|hc h]; [done|]. destruct path as [|c p]; [done|].
  unfold GoStrings.HasPrefix in Hrel. rewrite prefix_byte in Hrel.
  assert (c ≠ "/"%char) as Hc by (intros ->; done).
  set (ep := if String.eqb (String c p) "*" then "*"
             else GoUrl.escape (String c p) GoUrl.encodePath).
  assert (∃ a s, ep = String a s ∧ a ≠ "/"%char) as (a & s & Hep & Ha).
  { unfold ep. destruct (String.eqb (String c p) "*"); [by exists "*"%char, ""|].
    by apply escape_relative. }
  assert (newBeegfsUrl (String hc h) (String c p)
          = "beegfs://" +:+ String hc h +:+ String "/" ep) as Hshape.
  { unfold newBeegfsUrl, GoUrl.String_, GoUrl.EscapedPath.
    cbn [GoUrl.Scheme GoUrl.Opaque GoUrl.User GoUrl.Host GoUrl.Path GoUrl.RawPath
         GoUrl.ForceQuery GoUrl.RawQuery GoUrl.Fragment GoUrl.RawFragment].
    rewrite (escape_host _ Hh). fold ep. rewrite Hep.
    cbn [GoUrl.nonempty String.eqb negb andb orb GoUrl.firstIs].
    destruct (Ascii.eqb_spec a "/"); [done|].
    transitivity ((("beegfs://" +:+ String hc h) +:+ "/") +:+ String a s); [reflexivity|].
    rewrite !append_assoc. reflexivity. }
  assert (GoStrings.all_bytes plainByte (String "/" ep) = true) as Hplain.
  { unfold ep. destruct (String.eqb (String c p) "*"); [done|].
    cbn [GoStrings.all_bytes]. by rewrite escape_plain. }
  assert (GoUrl.unescape (String "/" ep) GoUrl.encodePath = Ok ("/" +:+ String c p)) as Hun.
  { unfold ep. destruct (String.eqb_spec (String c p) "*") as [->|]; [done|].
    rewrite <- escape_slash. apply unescape_escape_path. }
  split.
  - rewrite Hshape.
    assert (GoStrings.all_bytes plainByte ("beegfs://" +:+ String hc h +:+ String "/" ep)
            = true) as Hall.
    { rewrite !all_bytes_app, Hplain. rewrite (validHost_plain _ Hh). reflexivity. }
    destruct (plain_absent _ Hall) as (_ & Hhash & _).
    destruct (parse_identity (String hc h) (String "/" ep) ("/" +:+ String c p) Hh Hplain)
      as (u & Hu & Hs & Hhost & Hpath); [right; by eexists|done|].
    unfold parseBeegfsUrl, GoUrl.Parse. rewrite (split_absent _ _ true Hhash), Hu.
    cbn [String.eqb]. rewrite Hs, Hhost, Hpath. reflexivity.
  - intros Hstar. rewrite Hshape.
    rewrite (newBeegfsUrl_shape (String hc h) ("/" +:+ String c p) Hh eq_refl).
    cbn [GoUrl.nonempty String.eqb negb orb]. unfold ep.
    destruct (String.eqb_spec (String c p) "*"); [done|]. reflexivity.
Qed.

(** X12.  A relative path is rooted by the encoding: for a non-empty
    host of letters, digits, hyphens, dots, underscores and tildes and a
    non-empty path that does not start with a slash, the identity
    [newBeegfsUrl] builds decodes to the host and the path with a slash
    in front; unless the path is [*], the identity is the one of that
    absolute path. *)
Theorem newBeegfsUrl_relative (host path : string) :
  validHost host = true → host ≠ "" → path ≠ "" → GoStrings.HasPrefix path "/" = false →
  parseBeegfsUrl (newBeegfsUrl host path) = Ok (host, "/" +:+ path)
  ∧ (path ≠ "*" → newBeegfsUrl host path = newBeegfsUrl host ("/" +:+ path)).
Proof. exact (newBeegfsUrl_rooted host path). Qed.

Lemma newBeegfsUrl_relative_witness :
  parseBeegfsUrl (newBeegfsUrl "10.0.0.1" "e2e-test/static/static1")
  = Ok ("10.0.0.1", "/" +:+ "e2e-test/static/static1")
  ∧ ("e2e-test/static/static1" ≠ "*" →
     newBeegfsUrl "10.0.0.1" "e2e-test/static/static1"
     = newBeegfsUrl "10.0.0.1" ("/" +:+ "e2e-test/static/static1")).
Proof.
  apply (newBeegfsUrl_relative "10.0.0.1" "e2e-test/static/static1");
    [reflexivity|discriminate|discriminate|reflexivity].
Defined.

(** Without a host, the first element of a relative path is read back as
    the host. *)
Example newBeegfsUrl_no_host :
  newBeegfsUrl "" "a/b" = "beegfs://a/b" ∧ parseBeegfsUrl "beegfs://a/b" = Ok ("a", "/b").
Proof. split; vm_compute; reflexivity. Qed.

(** * Further properties of mounting, unmounting and cleaning up *)

Lemma prefix_refl (s : string) : String.prefix s s = true.
Proof.
  induction s as [|c s IH]; [done|]. cbn [String.prefix].
  by destruct (ascii_dec c c).
Qed.

Lemma Contains_suffix (a s : string) : GoStrings.Contains (a +:+ s) s = true.
Proof.
  induction a as [|c a IH].
  - destruct s as [|c s]; [done|]. rewrite append_nil_l, Contains_cons.
    unfold GoStrings.HasPrefix. by rewrite prefix_refl.
  - rewrite append_cons, Contains_cons, IH. apply orb_true_r.
Qed.

Lemma findBindMount_none_intro (vol : beegfsVolume) (allMounts : list MountPoint) :
  (∀ entry, entry ∈ allMounts → ¬ isBindMountOf vol entry) → findBindMount vol allMounts = None.
Proof.
  intros Hall. destruct (findBindMount vol allMounts) as [e|] eqn:E; [|done].
  apply findBindMount_Some in E as [Hin Hb]. by destruct (Hall e Hin).
Qed.

(** X13.  When the mount table has no bind mount of the volume's file
    system, [unmountAndCleanUpIfNecessary] never refuses: after listing
    the mounts it cleans up the mount point, whose error it returns as it
    is, and then cleans up the directory, whose error it returns behind
    the volume's identity; it returns no error only after both, and with
    [rmDir] only after the removal of [mountDirPath] was the last thing
    done. *)
Theorem unmount_proceeds (env : Env) (vol : beegfsVolume) (rmDir : bool) (st : State)
    (allMounts : list MountPoint) :
  mounter_List env (trace st) = Ok allMounts →
  (∀ entry, entry ∈ allMounts → ¬ isBindMountOf vol entry) →
  ∃ evs,
    snd (unmountAndCleanUpIfNecessary env vol rmDir st)
    = after st (EvMounterList :: EvCleanupMountPoint (mountPath vol) :: evs)
    ∧ (∀ e, mount_CleanupMountPoint env (trace st ++ [EvMounterList]) (mountPath vol) = Err e →
            unmountAndCleanUpIfNecessary env vol rmDir st
            = (Err e, after st [EvMounterList; EvCleanupMountPoint (mountPath vol)]))
    ∧ (mount_CleanupMountPoint env (trace st ++ [EvMounterList]) (mountPath vol) = Ok tt →
       ∀ e, fst (cleanUpIfNecessary env vol rmDir
                   (after st [EvMounterList; EvCleanupMountPoint (mountPath vol)])) = Err e →
            fst (unmountAndCleanUpIfNecessary env vol rmDir st)
            = Err ("error cleaning up volume " +:+ volumeID vol +:+ ": " +:+ e))
    ∧ (fst (unmountAndCleanUpIfNecessary env vol rmDir st) = Ok tt →
       mount_CleanupMountPoint env (trace st ++ [EvMounterList]) (mountPath vol) = Ok tt
       ∧ (rmDir = true → evs = [EvRemoveAll (mountDirPath vol)])).
Proof.
  intros HList Hnone. apply findBindMount_none_intro in Hnone.
  unfold unmountAndCleanUpIfNecessary, andThen, wrapErr, call. cbn [trace inFlight].
  rewrite HList, Hnone. cbn [trace inFlight].
  destruct (mount_CleanupMountPoint env (trace st ++ [EvMounterList]) (mountPath vol))
    as [[]|e|p] eqn:HC.
  - destruct (fileSystemOnly_cleanUpIfNecessary env vol rmDir
                (after st [EvMounterList; EvCleanupMountPoint (mountPath vol)]))
      as (evs & Hevs & _).
    assert ({| trace := (trace st ++ [EvMounterList]) ++ [EvCleanupMountPoint (mountPath vol)];
               inFlight := inFlight st |}
            = after st [EvMounterList; EvCleanupMountPoint (mountPath vol)]) as ->
      by (unfold after; by rewrite <- app_assoc).
    destruct (cleanUpIfNecessary env vol rmDir
                (after st [EvMounterList; EvCleanupMountPoint (mountPath vol)]))
      as [r st'] eqn:HCl.
    simpl in Hevs. subst st'. exists evs. split.
    { destruct r; simpl; by rewrite after_after. }
    split; [done|]. split.
    { intros _ e He. simpl in He. subst r. done. }
    intros HOk. split; [done|]. intros ->. revert HCl.
    unfold cleanUpIfNecessary, call. cbn [negb trace inFlight after].
    intros [= Hr Hst]. by apply app_inv_head in Hst.
  - exists []. split; [unfold after; simpl; by rewrite <- app_assoc|].
    split; [intros e' [= <-]; unfold after; simpl; by rewrite <- app_assoc|].
    split; [done|]. done.
  - exists []. split; [unfold after; simpl; by rewrite <- app_assoc|].
    split; [done|]. split; [done|]. done.
Qed.

Lemma unmount_proceeds_witness :
  ∃ evs,
    snd (unmountAndCleanUpIfNecessary (quietEnv [hostMountEntry]) exampleVolume true emptyState)
    = after emptyState
        (EvMounterList :: EvCleanupMountPoint (mountPath exampleVolume) :: evs)
    ∧ (∀ e, mount_CleanupMountPoint (quietEnv [hostMountEntry])
              (trace emptyState ++ [EvMounterList]) (mountPath exampleVolume) = Err e →
            unmountAndCleanUpIfNecessary (quietEnv [hostMountEntry]) exampleVolume true
              emptyState
            = (Err e, after emptyState
                        [EvMounterList; EvCleanupMountPoint (mountPath exampleVolume)]))
    ∧ (mount_CleanupMountPoint (quietEnv [hostMountEntry])
         (trace emptyState ++ [EvMounterList]) (mountPath exampleVolume) = Ok tt →
       ∀ e, fst (cleanUpIfNecessary (quietEnv [hostMountEntry]) exampleVolume true
                   (after emptyState
                      [EvMounterList; EvCleanupMountPoint (mountPath exampleVolume)])) = Err e →
            fst (unmountAndCleanUpIfNecessary (quietEnv [hostMountEntry]) exampleVolume true
                   emptyState)
            = Err ("error cleaning up volume " +:+ volumeID exampleVolume +:+ ": " +:+ e))
    ∧ (fst (unmountAndCleanUpIfNecessary (quietEnv [hostMountEntry]) exampleVolume true
              emptyState) = Ok tt →
       mount_CleanupMountPoint (quietEnv [hostMountEntry])
         (trace emptyState ++ [EvMounterList]) (mountPath exampleVolume) = Ok tt
       ∧ (true = true → evs = [EvRemoveAll (mountDirPath exampleVolume)])).
Proof.
  apply (unmount_proceeds (quietEnv [hostMountEntry]) exampleVolume true emptyState
           [hostMountEntry]).
  - reflexivity.
  - intros entry ->%list_elem_of_singleton (_ & Hc & _). vm_compute in Hc. discriminate.
Defined.






(** What [mountIfNecessary] does to the mounter and the file system, and
    how it ends. *)
Lemma mountIfNecessary_run (env : Env) (vol : beegfsVolume) (st : State) :
  let mountOpts := ["rw"; "relatime"; "cfgFile=" +:+ clientConfPath vol] in
  let mounted := EvMount "beegfs_nodev" (mountPath vol) "beegfs" mountOpts in
  ∃ evs,
    snd (mountIfNecessary env vol st)
    = after st (EvIsLikelyNotMountPoint (mountPath vol) :: evs)
    ∧ (evs = [] ∨ evs = [mounted] ∨ evs = [EvMkdir (mountPath vol)]
       ∨ evs = [EvMkdir (mountPath vol); mounted])
    ∧ (mounter_IsLikelyNotMountPoint env (trace st) (mountPath vol) = Ok false →
       evs = [] ∧ fst (mountIfNecessary env vol st) = Ok tt)
    ∧ (fst (mountIfNecessary env vol st) = Ok tt →
       mounter_IsLikelyNotMountPoint env (trace st) (mountPath vol) = Ok false
       ∨ last evs = Some mounted)
    ∧ (∀ entry, Device entry = "beegfs_nodev" → Opts entry = mountOpts →
                GoStrings.Contains (mountPointPath entry) (mountPath vol) = false →
                isBindMountOf vol entry).
Proof.
  intros mountOpts mounted. unfold mountIfNecessary, andThen, call. cbn [trace inFlight].
  fold mountOpts.
  assert (∀ entry, Device entry = "beegfs_nodev" → Opts entry = mountOpts →
                   GoStrings.Contains (mountPointPath entry) (mountPath vol) = false →
                   isBindMountOf vol entry) as Hbind.
  { intros entry HD HO HC. split; [done|]. split; [done|].
    exists ("cfgFile=" +:+ clientConfPath vol). split; [|apply Contains_suffix].
    rewrite HO. unfold mountOpts. rewrite !elem_of_cons. by auto. }
  destruct (mounter_IsLikelyNotMountPoint env (trace st) (mountPath vol)) as [[]|e|p] eqn:HI.
  - cbn [negb].
    destruct (mounter_Mount env _ _ _ _ _) as [[]|e|p] eqn:HM.
    + exists [mounted]. split; [unfold after; simpl; by rewrite <- app_assoc|].
      split; [by right; left|]. split; [done|]. split; [by right|done].
    + exists [mounted]. split; [unfold after; simpl; by rewrite <- app_assoc|].
      split; [by right; left|]. split; [done|]. split; [done|done].
    + exists [mounted]. split; [unfold after; simpl; by rewrite <- app_assoc|].
      split; [by right; left|]. split; [done|]. split; [done|done].
  - cbn [negb]. exists []. split; [done|]. split; [by left|]. split; [done|].
    split; [by left|done].
  - destruct (os_IsNotExist env e).
    + cbn [trace inFlight].
      destruct (os_Mkdir env _ _) as [[]|e'|p] eqn:HMk.
      * cbn [trace inFlight].
        destruct (mounter_Mount env _ _ _ _ _) as [[]|e''|p] eqn:HM.
        all: exists [EvMkdir (mountPath vol); mounted].
        all: split; [unfold after; simpl; by rewrite <- !app_assoc|].
        all: split; [by right; right; right|]. all: split; [done|].
        all: split; [by (right || done)|done].
      * exists [EvMkdir (mountPath vol)].
        split; [unfold after; simpl; by rewrite <- !app_assoc|].
        split; [by right; right; left|]. split; [done|]. split; [done|done].
      * exists [EvMkdir (mountPath vol)].
        split; [unfold after; simpl; by rewrite <- !app_assoc|].
        split; [by right; right; left|]. split; [done|]. split; [done|done].
    + exists []. split; [done|]. split; [by left|]. split; [done|]. split; [done|done].
  - exists []. split; [done|]. split; [by left|]. split; [done|]. split; [done|done].
Qed.

(** X15.  [mountIfNecessary] first asks whether the mount path is a
    mount point and then does nothing but create that directory and
    mount there, in this order and each at most once; it does nothing
    when the path is a mount point already; it returns no error only
    when the path was a mount point or the mount was the last thing
    done; and a mount table entry with the options of that mount at a
    path that does not contain the mount path is what
    [unmountAndCleanUpIfNecessary] takes for a bind mount. *)
Theorem mountIfNecessary_mounts (env : Env) (vol : beegfsVolume) (st : State) :
  let mountOpts := ["rw"; "relatime"; "cfgFile=" +:+ clientConfPath vol] in
  let mounted := EvMount "beegfs_nodev" (mountPath vol) "beegfs" mountOpts in
  ∃ evs,
    snd (mountIfNecessary env vol st)
    = after st (EvIsLikelyNotMountPoint (mountPath vol) :: evs)
    ∧ (evs = [] ∨ evs = [mounted] ∨ evs = [EvMkdir (mountPath vol)]
       ∨ evs = [EvMkdir (mountPath vol); mounted])
    ∧ (mounter_IsLikelyNotMountPoint env (trace st) (mountPath vol) = Ok false →
       evs = [] ∧ fst (mountIfNecessary env vol st) = Ok tt)
    ∧ (fst (mountIfNecessary env vol st) = Ok tt →
       mounter_IsLikelyNotMountPoint env (trace st) (mountPath vol) = Ok false
       ∨ last evs = Some mounted)
    ∧ (∀ entry, Device entry = "beegfs_nodev" → Opts entry = mountOpts →
                GoStrings.Contains (mountPointPath entry) (mountPath vol) = false →
                isBindMountOf vol entry).
Proof. exact (mountIfNecessary_run env vol st). Qed.

(** * Further properties of the controller service *)

Lemma logFailure_quiet (m : M unit) (st : State) :
  (∀ p, fst (m st) ≠ Panic p) → fst (logFailure m st) = None.
Proof.
  intros Hm. unfold logFailure. destruct (m st) as [[[]|e|p] st']; simpl; try done.
  by destruct (Hm p).
Qed.

Lemma call_no_panic {A : Type} (ev : Event) (answer : list Event → result A) (st : State) :
  (∀ t p, answer t ≠ Panic p) → ∀ p, fst (call ev answer st) ≠ Panic p.
Proof. intros Ha p. unfold call. simpl. apply Ha. Qed.

Lemma removeEntries_no_panic (env : Env) (dirPath : string) :
  cleanUpNeverPanics env →
  ∀ names st p, fst (removeEntries env dirPath names st) ≠ Panic p.
Proof.
  intros (_ & _ & _ & HRm). induction names as [|d names IH]; intros st p; [done|].
  cbn [removeEntries]. unfold andThen, call. cbn [trace inFlight].
  destruct (fs_RemoveAll env (trace st) (GoPath.Join [dirPath; d])) as [[]|e|q] eqn:E.
  - apply IH.
  - done.
  - by destruct (HRm _ _ _ E).
Qed.

Lemma cleanUpIfNecessary_no_panic (env : Env) (vol : beegfsVolume) (rmDir : bool) :
  cleanUpNeverPanics env →
  ∀ st p, fst (cleanUpIfNecessary env vol rmDir st) ≠ Panic p.
Proof.
  intros Henv st p. pose proof Henv as (_ & _ & HRd & HRm).
  unfold cleanUpIfNecessary. destruct rmDir; cbn [negb].
  - unfold call. simpl. apply HRm.
  - unfold andThen, call. cbn [trace inFlight].
    destruct (ioutil_ReadDir env (trace st) (mountDirPath vol)) as [names|e|q] eqn:E.
    + by apply removeEntries_no_panic.
    + done.
    + by destruct (HRd _ _ _ E).
Qed.

Lemma unmountAndCleanUpIfNecessary_no_panic (env : Env) (vol : beegfsVolume) (rmDir : bool) :
  cleanUpNeverPanics env →
  ∀ st p, fst (unmountAndCleanUpIfNecessary env vol rmDir st) ≠ Panic p.
Proof.
  intros Henv st p. pose proof Henv as (HL & HC & _ & _).
  unfold unmountAndCleanUpIfNecessary, andThen, wrapErr, call, fail. cbn [trace inFlight].
  destruct (mounter_List env (trace st)) as [allMounts|e|q] eqn:EL.
  - destruct (findBindMount vol allMounts); [done|]. cbn [trace inFlight].
    destruct (mount_CleanupMountPoint env _ _) as [[]|e|q] eqn:EC.
    + pose proof (cleanUpIfNecessary_no_panic env vol rmDir Henv
                    {| trace := (trace st ++ [EvMounterList])
                                ++ [EvCleanupMountPoint (mountPath vol)];
                       inFlight := inFlight st |} p) as Hc.
      destruct (cleanUpIfNecessary env vol rmDir _) as [[[]|e|q] st']; simpl in *; done.
    + done.
    + by destruct (HC _ _ _ EC).
  - done.
  - by destruct (HL _ _ EL).
Qed.

Lemma defer_quiet {A : Type} (d : State → option string * State) (body : H A) (st : State) :
  (∀ st', fst (d st') = None) → fst (defer d body st) = fst (body st).
Proof.
  intros Hd. unfold defer. destruct (body st) as [r st1]. specialize (Hd st1).
  destruct (d st1) as [p st2]. simpl in *. by subst p.
Qed.

Lemma guarded_reply {A : Type} (id : string) (m : M unit) (body : H A) (st : State) :
  (∀ st' p, fst (m st') ≠ Panic p) →
  fst (defer (release id) (defer (logFailure m) body) st) = fst (body st).
Proof.
  intros Hm. rewrite defer_quiet by done. apply defer_quiet.
  intros st'. by apply logFailure_quiet.
Qed.

Section Replies.

Context {VolumeCapability permissionsConfig stripePatternConfig : Type}.
Variable pkg : @Package VolumeCapability permissionsConfig stripePatternConfig.
Variable cs : controllerServer.

(** X16.  A failure to clean up is never returned: in two worlds that
    differ only in what cleaning up meets, and in which cleaning up does
    not panic, CreateVolume gives the same reply, and so does
    ValidateVolumeCapabilities; DeleteVolume too when the worlds agree
    on the removal of files, which it also uses to delete the volume. *)
Theorem cleanUp_failure_not_returned (env1 env2 : Env) (st : State) :
  sameButCleanUp env1 env2 → cleanUpNeverPanics env1 → cleanUpNeverPanics env2 →
  (∀ req, fst (CreateVolume pkg env1 cs req st) = fst (CreateVolume pkg env2 cs req st))
  ∧ (∀ req, fst (ValidateVolumeCapabilities pkg env1 cs req st)
            = fst (ValidateVolumeCapabilities pkg env2 cs req st))
  ∧ (fs_RemoveAll env1 = fs_RemoveAll env2 →
     ∀ req, fst (DeleteVolume pkg env1 cs req st) = fst (DeleteVolume pkg env2 cs req st)).
Proof.
  intros (E1 & E2 & E3 & E4 & E5 & E6 & E7 & E8 & E9 & E10) Hp1 Hp2.
  split; [|split].
  - intros req. unfold CreateVolume.
    destruct (String.length (createName req) =? 0)%nat; [done|].
    destruct (length (createVolumeCapabilities req) =? 0)%nat; [done|].
    destruct (isValidVolumeCapabilities pkg (createVolumeCapabilities req)) as [valid reason].
    destruct (negb valid); [done|].
    destruct (size (createParameters req) =? 0)%nat; [done|].
    destruct (createParameters req !! sysMgmtdHostKey) as [host|]; [|done].
    destruct (createParameters req !! volDirBasePathKey) as [base|]; [|done].
    destruct (getPermissionsConfigFromParams pkg (createParameters req))
      as [permissions| |]; [|done..].
    destruct (getStripePatternConfigFromParams pkg (createParameters req))
      as [stripePattern| |]; [|done..].
    set (vol := cs_newBeegfsVolume pkg cs host _ _).
    destruct (obtainLockOnString (volumeID vol) st) as [obtained st1].
    destruct obtained; cbn [negb]; [|done].
    rewrite !guarded_reply by (by apply unmountAndCleanUpIfNecessary_no_panic).
    unfold mountIfNecessary. by rewrite E1, E2, E3, E4, E5, E6, E7, E8, E9.
  - intros req. unfold ValidateVolumeCapabilities.
    destruct (String.length (validateVolumeId req) =? 0)%nat; [done|].
    destruct (length (validateVolumeCapabilities req) =? 0)%nat; [done|].
    destruct (cs_newBeegfsVolumeFromID pkg cs (validateVolumeId req)) as [vol| |]; [|done..].
    destruct (obtainLockOnString (volumeID vol) st) as [obtained st1].
    destruct obtained; cbn [negb]; [|done].
    rewrite !guarded_reply by (by apply cleanUpIfNecessary_no_panic).
    unfold statStep. by rewrite E5, E7, E10.
  - intros ERm req. unfold DeleteVolume.
    destruct (String.length (deleteVolumeId req) =? 0)%nat; [done|].
    destruct (cs_newBeegfsVolumeFromID pkg cs (deleteVolumeId req)) as [vol| |]; [|done..].
    destruct (obtainLockOnString (volumeID vol) st) as [obtained st1].
    destruct obtained; cbn [negb]; [|done].
    rewrite !guarded_reply by (by apply unmountAndCleanUpIfNecessary_no_panic).
    unfold mountIfNecessary. by rewrite E1, E2, E3, E4, E5, E7, ERm.
Qed.

End Replies.

Lemma cleanUp_failure_not_returned_witness :
  (∀ req, fst (CreateVolume examplePackage (quietEnv []) exampleServer req emptyState)
          = fst (CreateVolume examplePackage failingCleanUpEnv exampleServer req emptyState))
  ∧ (∀ req, fst (ValidateVolumeCapabilities examplePackage (quietEnv []) exampleServer req
                   emptyState)
            = fst (ValidateVolumeCapabilities examplePackage failingCleanUpEnv exampleServer
                     req emptyState))
  ∧ (fs_RemoveAll (quietEnv []) = fs_RemoveAll failingCleanUpEnv →
     ∀ req, fst (DeleteVolume examplePackage (quietEnv []) exampleServer req emptyState)
            = fst (DeleteVolume examplePackage failingCleanUpEnv exampleServer req
                     emptyState)).
Proof.
  apply (cleanUp_failure_not_returned examplePackage exampleServer (quietEnv [])
           failingCleanUpEnv emptyState).
  - repeat split.
  - repeat split; intros; discriminate.
  - repeat split; intros; discriminate.
Defined.

(** ** Invalid arguments *)

Lemma neverInvalidArgument_pure {A : Type} (a : A) :
  neverInvalidArgument (λ st, (Reply a, st)).
Proof. by intros st msg. Qed.

Lemma neverInvalidArgument_step {A B : Type} (code : Code) (m : M A) (k : A → H B) :
  code ≠ InvalidArgument → (∀ a, neverInvalidArgument (k a)) →
  neverInvalidArgument (step code m k).
Proof.
  intros Hc Hk st msg. unfold step. destruct (m st) as [[a|e|p] st']; simpl.
  - apply Hk.
  - by intros [= -> _].
  - done.
Qed.

Lemma neverInvalidArgument_defer {A : Type} (d : State → option string * State)
    (body : H A) :
  neverInvalidArgument body → neverInvalidArgument (defer d body).
Proof.
  intros Hb st msg. unfold defer. specialize (Hb st msg).
  destruct (body st) as [r st1]. destruct (d st1) as [[q|] st2]; simpl in *; done.
Qed.

Lemma length_zero_iff_empty (s : string) : (String.length s =? 0)%nat = true ↔ s = "".
Proof. destruct s; simpl; [done|]. split; done. Qed.

Lemma length_zero_iff_nil {A : Type} (l : list A) : (length l =? 0)%nat = true ↔ l = [].
Proof. destruct l; simpl; [done|]. split; done. Qed.

Lemma guarded_never {A : Type} (id : string) (cleanup : State → option string * State)
    (body : H A) (st : State) :
  neverInvalidArgument body →
  ∀ msg, fst (let '(obtained, st0) := obtainLockOnString id st in
              if negb obtained
              then (Status Aborted ("volumeID " +:+ id +:+ " is in use by another request"),
                    st0)
              else defer (release id) (defer cleanup body) st0)
         ≠ Status InvalidArgument msg.
Proof.
  intros Hbody msg. destruct (obtainLockOnString id st) as [obtained st1].
  destruct obtained; cbn [negb]; [|done].
  by apply neverInvalidArgument_defer, neverInvalidArgument_defer.
Qed.

Section InvalidArguments.

Context {VolumeCapability permissionsConfig stripePatternConfig : Type}.
Variable pkg : @Package VolumeCapability permissionsConfig stripePatternConfig.
Variable env : Env.
Variable cs : controllerServer.

(** X17.  The handlers answer InvalidArgument exactly for a malformed
    request, and then nothing has happened, the guard has not even been
    consulted.  For CreateVolume: no name, no capabilities, unsupported
    capabilities, no parameters, no sysMgmtdHost or no volDirBasePath
    parameter, or permissions or stripe pattern parameters that are
    rejected.  For DeleteVolume: no volume ID (an ID that does not decode
    is answered otherwise).  For ValidateVolumeCapabilities: no volume
    ID or no capabilities. *)
Theorem invalid_argument_untouched (st : State) :
  (∀ req,
     ((∃ msg, fst (CreateVolume pkg env cs req st) = Status InvalidArgument msg)
      ↔ createName req = "" ∨ createVolumeCapabilities req = []
        ∨ fst (isValidVolumeCapabilities pkg (createVolumeCapabilities req)) = false
        ∨ createParameters req = ∅
        ∨ createParameters req !! sysMgmtdHostKey = None
        ∨ createParameters req !! volDirBasePathKey = None
        ∨ (∃ e, getPermissionsConfigFromParams pkg (createParameters req) = Err e)
        ∨ ((∃ p, getPermissionsConfigFromParams pkg (createParameters req) = Ok p)
           ∧ ∃ e, getStripePatternConfigFromParams pkg (createParameters req) = Err e))
     ∧ (∀ msg, fst (CreateVolume pkg env cs req st) = Status InvalidArgument msg →
               snd (CreateVolume pkg env cs req st) = st))
  ∧ (∀ req,
       ((∃ msg, fst (DeleteVolume pkg env cs req st) = Status InvalidArgument msg)
        ↔ deleteVolumeId req = "")
       ∧ (∀ msg, fst (DeleteVolume pkg env cs req st) = Status InvalidArgument msg →
                 snd (DeleteVolume pkg env cs req st) = st))
  ∧ (∀ req,
       ((∃ msg, fst (ValidateVolumeCapabilities pkg env cs req st)
                = Status InvalidArgument msg)
        ↔ validateVolumeId req = "" ∨ validateVolumeCapabilities req = [])
       ∧ (∀ msg, fst (ValidateVolumeCapabilities pkg env cs req st)
                 = Status InvalidArgument msg →
                 snd (ValidateVolumeCapabilities pkg env cs req st) = st)).
Proof.
  split; [|split].
  - intros req. unfold CreateVolume.
    destruct (String.length (createName req) =? 0)%nat eqn:E1.
    { apply length_zero_iff_empty in E1. split; [|done]. split; [by left|by eauto]. }
    assert (createName req ≠ "") as N1 by (intros ?%length_zero_iff_empty; congruence).
    destruct (length (createVolumeCapabilities req) =? 0)%nat eqn:E2.
    { apply length_zero_iff_nil in E2. split; [|done]. split; [by right; left|by eauto]. }
    assert (createVolumeCapabilities req ≠ []) as N2
      by (intros ?%length_zero_iff_nil; congruence).
    destruct (isValidVolumeCapabilities pkg (createVolumeCapabilities req))
      as [valid reason] eqn:E3.
    destruct valid; cbn [negb fst].
    2: { split; [|done]. split; [by right; right; left|by eauto]. }
    destruct (size (createParameters req) =? 0)%nat eqn:E4.
    { apply Nat.eqb_eq, map_size_empty_iff in E4. split; [|done].
      split; [by right; right; right; left|by eauto]. }
    assert (createParameters req ≠ ∅) as N4.
    { intros E. apply map_size_empty_iff in E. apply Nat.eqb_neq in E4. done. }
    destruct (createParameters req !! sysMgmtdHostKey) as [host|] eqn:E5.
    2: { split; [|done]. split; [by do 4 right; left|by eauto]. }
    destruct (createParameters req !! volDirBasePathKey) as [base|] eqn:E6.
    2: { split; [|done]. split; [by do 5 right; left|by eauto]. }
    destruct (getPermissionsConfigFromParams pkg (createParameters req))
      as [permissions|e|p] eqn:E7.
    2: { split; [|done]. split; [by do 6 right; left; eauto|by eauto]. }
    2: { split; [|done]. split; [by intros [? ?]|].
         intros [|[|[|[|[|[|[[? ?]|[[? ?] _]]]]]]]]; done. }
    destruct (getStripePatternConfigFromParams pkg (createParameters req))
      as [stripePattern|e|p] eqn:E8.
    2: { split; [|done]. split; [by do 7 right; eauto|by eauto]. }
    2: { split; [|done]. split; [by intros [? ?]|].
         intros [|[|[|[|[|[|[[? ?]|[_ [? ?]]]]]]]]]; done. }
    set (vol := cs_newBeegfsVolume pkg cs host _ _).
    match goal with
    | |- context [defer (release _) (defer ?cleanup ?body)] =>
        assert (neverInvalidArgument body) as Hbody;
          [|pose proof (guarded_never (volumeID vol) cleanup body st Hbody) as Hnever]
    end.
    {
      repeat (apply neverInvalidArgument_step; [done|intros _]).
      destruct (hasSpecialPermissions pkg permissions).
      - repeat (apply neverInvalidArgument_step; [done|intros _]).
        apply neverInvalidArgument_pure.
      - apply neverInvalidArgument_pure. }
    split.
    + split; [by intros [msg Hmsg]; destruct (Hnever msg)|].
      intros [|[|[|[|[|[|[[? ?]|[_ [? ?]]]]]]]]]; done.
    + intros msg Hmsg. by destruct (Hnever msg).
  - intros req. unfold DeleteVolume.
    destruct (String.length (deleteVolumeId req) =? 0)%nat eqn:E1.
    { apply length_zero_iff_empty in E1. split; [|done]. split; [done|by eauto]. }
    assert (deleteVolumeId req ≠ "") as N1 by (intros ?%length_zero_iff_empty; congruence).
    destruct (cs_newBeegfsVolumeFromID pkg cs (deleteVolumeId req)) as [vol|e|p].
    2, 3: split; [split; [by intros [? ?]|done]|done].
    match goal with
    | |- context [defer (release _) (defer ?cleanup ?body)] =>
        assert (neverInvalidArgument body) as Hbody;
          [|pose proof (guarded_never (volumeID vol) cleanup body st Hbody) as Hnever]
    end.
    {
      repeat (apply neverInvalidArgument_step; [done|intros _]).
      apply neverInvalidArgument_pure. }
    split; [split; [by intros [msg Hmsg]; destruct (Hnever msg)|done]|].
    intros msg Hmsg. by destruct (Hnever msg).
  - intros req. unfold ValidateVolumeCapabilities.
    destruct (String.length (validateVolumeId req) =? 0)%nat eqn:E1.
    { apply length_zero_iff_empty in E1. split; [|done]. split; [by left|by eauto]. }
    assert (validateVolumeId req ≠ "") as N1 by (intros ?%length_zero_iff_empty; congruence).
    destruct (length (validateVolumeCapabilities req) =? 0)%nat eqn:E2.
    { apply length_zero_iff_nil in E2. split; [|done]. split; [by right|by eauto]. }
    assert (validateVolumeCapabilities req ≠ []) as N2
      by (intros ?%length_zero_iff_nil; congruence).
    destruct (cs_newBeegfsVolumeFromID pkg cs (validateVolumeId req)) as [vol|e|p].
    2, 3: split; [split; [by intros [? ?]|by intros [|]]|done].
    match goal with
    | |- context [defer (release _) (defer ?cleanup ?body)] =>
        assert (neverInvalidArgument body) as Hbody;
          [|pose proof (guarded_never (volumeID vol) cleanup body st Hbody) as Hnever]
    end.
    {
      repeat (apply neverInvalidArgument_step; [done|intros _]).
      intros st2 msg2. unfold statStep.
      destruct (ctl_statDirectoryForVolume env (trace st2) vol); try done.
      by destruct (isValidVolumeCapabilities pkg (validateVolumeCapabilities req)) as [[] ?]. }
    split; [split; [by intros [msg Hmsg]; destruct (Hnever msg)|by intros [|]]|].
    intros msg Hmsg. by destruct (Hnever msg).
Qed.

End InvalidArguments.

(** ** What the handlers touch *)












Section Footprints.

Context {VolumeCapability permissionsConfig stripePatternConfig : Type}.
Variable pkg : @Package VolumeCapability permissionsConfig stripePatternConfig.
Variable env : Env.
Variable cs : controllerServer.


End Footprints.

(** * The parameters of CreateVolume *)

Lemma rangeOf_elem (reqParams : gmap string string) (range : list string) (k : string) :
  rangeOf reqParams range → k ∈ range ↔ is_Some (reqParams !! k).
Proof. intros [_ Hset]. by rewrite <- elem_of_dom, <- Hset, elem_of_list_to_set. Qed.

Lemma paramOf_absent (reqParams : gmap string string) (k : string) :
  reqParams !! k = None → Params.paramOf reqParams k = "".
Proof. unfold Params.paramOf. by intros ->. Qed.

Lemma decide_cons_eq {A : Type} (x : string) (l : list string) (a b : A) :
  (if decide (x ∈ x :: l) then a else b) = a.
Proof. rewrite decide_True; [done|left]. Qed.

Lemma decide_cons_ne {A : Type} (x y : string) (l : list string) (a b : A) :
  x ≠ y → (if decide (x ∈ y :: l) then a else b) = (if decide (x ∈ l) then a else b).
Proof.
  intros Hne. destruct (decide (x ∈ l)) as [Hin|Hin].
  - rewrite decide_True; [done|by right].
  - rewrite decide_False; [done|]. by intros [?|?]%elem_of_cons.
Qed.

Section StripePattern.

Variables pool chunk num : string.
Variable reqParams : gmap string string.
Hypothesis pool_chunk : pool ≠ chunk.
Hypothesis pool_num : pool ≠ num.
Hypothesis chunk_num : chunk ≠ num.
Hypothesis marked : Forall (λ k, GoStrings.Contains k "stripePattern/" = true) [pool; chunk; num].

Lemma stripePatternLoop_Ok (range : list string) :
  (∀ k, k ∈ range → GoStrings.Contains k "stripePattern/" = true → k ∈ [pool; chunk; num]) →
  ∀ cfg,
    Params.stripePatternLoop pool chunk num reqParams cfg range
    = Ok {| Params.storagePoolID :=
              if decide (pool ∈ range) then Params.paramOf reqParams pool
              else Params.storagePoolID cfg;
            Params.stripePatternChunkSize :=
              if decide (chunk ∈ range) then Params.paramOf reqParams chunk
              else Params.stripePatternChunkSize cfg;
            Params.stripePatternNumTargets :=
              if decide (num ∈ range) then Params.paramOf reqParams num
              else Params.stripePatternNumTargets cfg |}.
Proof.
  apply Forall_cons in marked as [Mp [Mc [Mn _]%Forall_cons]%Forall_cons].
  induction range as [|param rest IH]; intros Hall cfg.
  - simpl. by destruct cfg.
  - cbn [Params.stripePatternLoop].
    assert (∀ k, k ∈ rest → GoStrings.Contains k "stripePattern/" = true →
                 k ∈ [pool; chunk; num]) as Hrest
      by (intros k Hk; apply Hall; by right).
    destruct (GoStrings.Contains param "stripePattern/") eqn:HC.
    + pose proof (Hall param (list_elem_of_here _ _) HC) as Hin.
      destruct (String.eqb_spec param pool) as [->|Np].
      { rewrite IH by done. cbn [Params.storagePoolID Params.stripePatternChunkSize
                                  Params.stripePatternNumTargets].
        rewrite decide_cons_eq, !decide_cons_ne by done.
        by destruct (decide (pool ∈ rest)). }
      destruct (String.eqb_spec param chunk) as [->|Nc].
      { rewrite IH by done. cbn [Params.storagePoolID Params.stripePatternChunkSize
                                  Params.stripePatternNumTargets].
        rewrite decide_cons_eq, !decide_cons_ne by done.
        by destruct (decide (chunk ∈ rest)). }
      destruct (String.eqb_spec param num) as [->|Nn].
      { rewrite IH by done. cbn [Params.storagePoolID Params.stripePatternChunkSize
                                  Params.stripePatternNumTargets].
        rewrite decide_cons_eq, !decide_cons_ne by done.
        by destruct (decide (num ∈ rest)). }
      apply elem_of_cons in Hin as [?|Hin]; [done|].
      apply elem_of_cons in Hin as [?|Hin]; [done|].
      apply elem_of_cons in Hin as [?|Hin]; [done|]. by apply elem_of_nil in Hin.
    + rewrite IH by done. by rewrite !decide_cons_ne by congruence.
Qed.

Lemma stripePatternLoop_Err (range : list string) :
  ∀ cfg r,
    Params.stripePatternLoop pool chunk num reqParams cfg range = r →
    match r with
    | Ok _ => ∀ k, k ∈ range → GoStrings.Contains k "stripePattern/" = true →
                   k ∈ [pool; chunk; num]
    | Err e => ∃ k, k ∈ range ∧ GoStrings.Contains k "stripePattern/" = true
                    ∧ (k ∉ [pool; chunk; num])
                    ∧ e = "CreateVolume parameter invalid: " +:+ k
    | Panic _ => False
    end.
Proof.
  induction range as [|param rest IH]; intros cfg r.
  - simpl. intros <-. by intros k ?%elem_of_nil.
  - cbn [Params.stripePatternLoop].
    assert (∀ r' : result Params.stripePattern, match r' with
                  | Ok _ => ∀ k, k ∈ rest → GoStrings.Contains k "stripePattern/" = true →
                                 k ∈ [pool; chunk; num]
                  | Err e => ∃ k, k ∈ rest ∧ GoStrings.Contains k "stripePattern/" = true
                                  ∧ (k ∉ [pool; chunk; num])
                                  ∧ e = "CreateVolume parameter invalid: " +:+ k
                  | Panic _ => False
                  end →
                  (GoStrings.Contains param "stripePattern/" = true →
                   param ∈ [pool; chunk; num]) →
                  match r' with
                  | Ok _ => ∀ k, k ∈ param :: rest →
                                 GoStrings.Contains k "stripePattern/" = true →
                                 k ∈ [pool; chunk; num]
                  | Err e => ∃ k, k ∈ param :: rest
                                  ∧ GoStrings.Contains k "stripePattern/" = true
                                  ∧ (k ∉ [pool; chunk; num])
                                  ∧ e = "CreateVolume parameter invalid: " +:+ k
                  | Panic _ => False
                  end) as Hlift.
    { intros [c|e|p] Hr Hparam; [|destruct Hr as (k & ? & ? & ? & ?); exists k; by repeat split; [right|..]|done].
      intros k [->|Hk]%elem_of_cons; [done|by apply Hr]. }
    destruct (GoStrings.Contains param "stripePattern/") eqn:HC.
    + destruct (String.eqb_spec param pool) as [->|Np].
      { intros <-. apply Hlift; [by eapply IH|]. intros _. left. }
      destruct (String.eqb_spec param chunk) as [->|Nc].
      { intros <-. apply Hlift; [by eapply IH|]. intros _. right. left. }
      destruct (String.eqb_spec param num) as [->|Nn].
      { intros <-. apply Hlift; [by eapply IH|]. intros _. do 2 right. left. }
      intros <-. exists param. split; [left|]. split; [done|]. split; [|done].
      intros Hin. apply elem_of_cons in Hin as [?|Hin]; [done|].
      apply elem_of_cons in Hin as [?|Hin]; [done|].
      apply elem_of_cons in Hin as [?|Hin]; [done|]. by apply elem_of_nil in Hin.
    + intros <-. apply Hlift; [by eapply IH|done].
Qed.

End StripePattern.

(** X19.  [getStripePatternConfigFromParams], for parameter names that
    are distinct and contain stripePattern/, and in whatever order the
    keys of the request are visited: it returns a configuration exactly
    when every key of the request that contains stripePattern/ anywhere
    is one of the three names, and the configuration has the values of
    the three parameters, empty when absent; otherwise it returns the
    error that names such a key; it never panics. *)
Theorem getStripePatternConfigFromParams_spec (pool chunk num : string)
    (range : list string) (reqParams : gmap string string) :
  pool ≠ chunk → pool ≠ num → chunk ≠ num →
  Forall (λ k, GoStrings.Contains k "stripePattern/" = true) [pool; chunk; num] →
  rangeOf reqParams range →
  (∀ cfg,
     Params.getStripePatternConfigFromParams pool chunk num range reqParams = Ok cfg
     ↔ (∀ k, is_Some (reqParams !! k) → GoStrings.Contains k "stripePattern/" = true →
             k ∈ [pool; chunk; num])
       ∧ cfg = {| Params.storagePoolID := Params.paramOf reqParams pool;
                  Params.stripePatternChunkSize := Params.paramOf reqParams chunk;
                  Params.stripePatternNumTargets := Params.paramOf reqParams num |})
  ∧ (∀ e,
       Params.getStripePatternConfigFromParams pool chunk num range reqParams = Err e →
       ∃ k, is_Some (reqParams !! k) ∧ GoStrings.Contains k "stripePattern/" = true
            ∧ (k ∉ [pool; chunk; num]) ∧ e = "CreateVolume parameter invalid: " +:+ k)
  ∧ (∀ p, Params.getStripePatternConfigFromParams pool chunk num range reqParams ≠ Panic p).
Proof.
  intros Hpc Hpn Hcn Hmarked Hrange. unfold Params.getStripePatternConfigFromParams.
  set (zero := {| Params.storagePoolID := ""; Params.stripePatternChunkSize := "";
                  Params.stripePatternNumTargets := "" |}).
  assert (∀ k, (if decide (k ∈ range) then Params.paramOf reqParams k else "")
               = Params.paramOf reqParams k) as Hfield.
  { intros k. destruct (decide (k ∈ range)) as [|Hn]; [done|]. symmetry.
    apply paramOf_absent. rewrite (rangeOf_elem _ _ k Hrange) in Hn.
    by apply eq_None_not_Some. }
  pose proof (stripePatternLoop_Err pool chunk num reqParams range zero _ eq_refl) as Hcases.
  split; [|split].
  - intros cfg. split.
    + intros HOk. rewrite HOk in Hcases. split.
      * intros k Hk. apply Hcases. by apply (rangeOf_elem _ _ k Hrange).
      * rewrite (stripePatternLoop_Ok pool chunk num reqParams Hpc Hpn Hcn Hmarked range)
          in HOk by done.
        injection HOk as <-. cbn [Params.storagePoolID Params.stripePatternChunkSize
                                  Params.stripePatternNumTargets zero].
        by rewrite !Hfield.
    + intros [Hall ->].
      rewrite (stripePatternLoop_Ok pool chunk num reqParams Hpc Hpn Hcn Hmarked range).
      * cbn [Params.storagePoolID Params.stripePatternChunkSize
             Params.stripePatternNumTargets zero]. by rewrite !Hfield.
      * intros k Hk. apply Hall. by apply (rangeOf_elem _ _ k Hrange).
  - intros e He. rewrite He in Hcases. destruct Hcases as (k & Hk & ? & ? & ?).
    exists k. split; [by apply (rangeOf_elem _ _ k Hrange)|done].
  - intros p Hp. by rewrite Hp in Hcases.
Qed.

Lemma getStripePatternConfigFromParams_spec_witness :
  (∀ cfg,
     Params.getStripePatternConfigFromParams "stripePattern/storagePoolID"
       "stripePattern/chunkSize" "stripePattern/numTargets"
       ["stripePattern/chunkSize"; "sysMgmtdHost"; "volDirBasePath"]
       {[ "sysMgmtdHost" := "10.0.0.1"; "volDirBasePath" := "/data";
          "stripePattern/chunkSize" := "1m" ]} = Ok cfg
     ↔ (∀ k, is_Some (({[ "sysMgmtdHost" := "10.0.0.1"; "volDirBasePath" := "/data";
                          "stripePattern/chunkSize" := "1m" ]} : gmap string string) !! k) →
             GoStrings.Contains k "stripePattern/" = true →
             k ∈ ["stripePattern/storagePoolID"; "stripePattern/chunkSize";
                  "stripePattern/numTargets"])
       ∧ cfg = {| Params.storagePoolID :=
                    Params.paramOf {[ "sysMgmtdHost" := "10.0.0.1";
                                      "volDirBasePath" := "/data";
                                      "stripePattern/chunkSize" := "1m" ]}
                      "stripePattern/storagePoolID";
                  Params.stripePatternChunkSize :=
                    Params.paramOf {[ "sysMgmtdHost" := "10.0.0.1";
                                      "volDirBasePath" := "/data";
                                      "stripePattern/chunkSize" := "1m" ]}
                      "stripePattern/chunkSize";
                  Params.stripePatternNumTargets :=
                    Params.paramOf {[ "sysMgmtdHost" := "10.0.0.1";
                                      "volDirBasePath" := "/data";
                                      "stripePattern/chunkSize" := "1m" ]}
                      "stripePattern/numTargets" |})
  ∧ (∀ e,
       Params.getStripePatternConfigFromParams "stripePattern/storagePoolID"
         "stripePattern/chunkSize" "stripePattern/numTargets"
         ["stripePattern/chunkSize"; "sysMgmtdHost"; "volDirBasePath"]
         {[ "sysMgmtdHost" := "10.0.0.1"; "volDirBasePath" := "/data";
            "stripePattern/chunkSize" := "1m" ]} = Err e →
       ∃ k, is_Some (({[ "sysMgmtdHost" := "10.0.0.1"; "volDirBasePath" := "/data";
                         "stripePattern/chunkSize" := "1m" ]} : gmap string string) !! k)
            ∧ GoStrings.Contains k "stripePattern/" = true
            ∧ (k ∉ ["stripePattern/storagePoolID"; "stripePattern/chunkSize";
                    "stripePattern/numTargets"])
            ∧ e = "CreateVolume parameter invalid: " +:+ k)
  ∧ (∀ p,
       Params.getStripePatternConfigFromParams "stripePattern/storagePoolID"
         "stripePattern/chunkSize" "stripePattern/numTargets"
         ["stripePattern/chunkSize"; "sysMgmtdHost"; "volDirBasePath"]
         {[ "sysMgmtdHost" := "10.0.0.1"; "volDirBasePath" := "/data";
            "stripePattern/chunkSize" := "1m" ]} ≠ Panic p).
Proof.
  apply (getStripePatternConfigFromParams_spec "stripePattern/storagePoolID"
           "stripePattern/chunkSize" "stripePattern/numTargets"
           ["stripePattern/chunkSize"; "sysMgmtdHost"; "volDirBasePath"]
           {[ "sysMgmtdHost" := "10.0.0.1"; "volDirBasePath" := "/data";
              "stripePattern/chunkSize" := "1m" ]}).
  - discriminate.
  - discriminate.
  - discriminate.
  - repeat constructor.
  - split.
    + apply (bool_decide_unpack _). vm_compute. exact I.
    + apply (bool_decide_unpack _). vm_compute. exact I.
Defined.

(** ** Permissions *)

Lemma parseLoop_bound (base maxVal cutoff : Z) (s : string) :
  ∀ n r, (0 ≤ n ≤ maxVal)%Z →
    Strconv.parseLoop base maxVal cutoff s n = inl r → (0 ≤ r ≤ maxVal)%Z.
Proof.
  induction s as [|c s IH]; intros n r Hn; cbn [Strconv.parseLoop].
  - by intros [= <-].
  - destruct (Strconv.digit (Byte.code c)) as [d|]; [|done].
    destruct (base <=? d)%Z; [done|]. destruct (cutoff <=? n)%Z; [done|].
    cbv zeta.
    destruct ((n * base + d) `mod` 2 ^ 64 <? n * base)%Z; [done|].
    destruct (maxVal <? (n * base + d) `mod` 2 ^ 64)%Z eqn:E; [done|]. cbn [orb].
    apply IH. apply Z.ltb_ge in E. split; [|done].
    by apply Z.mod_pos_bound.
Qed.

Lemma ParseUint_bound (s : string) (base bitSize : Z) (n : Z) :
  (0 ≤ bitSize)%Z → Strconv.ParseUint s base bitSize = inl n → (0 ≤ n < 2 ^ bitSize)%Z.
Proof.
  intros Hb. unfold Strconv.ParseUint. destruct s as [|c s]; [done|].
  intros H. apply parseLoop_bound in H; [lia|].
  assert (0 < 2 ^ bitSize)%Z by (by apply Z.pow_pos_nonneg). lia.
Qed.

Section Permissions.

Variables uidKey gidKey modeKey : string.
Variable defaultPermissionsMode : Z.
Variable quote : string → string.
Variable reqParams : gmap string string.
Hypothesis uid_gid : uidKey ≠ gidKey.
Hypothesis uid_mode : uidKey ≠ modeKey.
Hypothesis gid_mode : gidKey ≠ modeKey.
Hypothesis prefixed :
  Forall (λ k, GoStrings.HasPrefix k "permissions/" = true) [uidKey; gidKey; modeKey].

Lemma permissions_eq (a b : Params.permissions) :
  Params.uid a = Params.uid b → Params.gid a = Params.gid b →
  Params.mode a = Params.mode b → a = b.
Proof. destruct a, b. simpl. by intros -> -> ->. Qed.

Lemma permissionsLoop_Ok (range : list string) :
  ∀ cfg cfg',
    Params.permissionsLoop uidKey gidKey modeKey quote reqParams cfg range = Ok cfg'
    ↔ (∀ k, k ∈ range → GoStrings.HasPrefix k "permissions/" = true →
            k ∈ [uidKey; gidKey; modeKey])
      ∧ (if decide (uidKey ∈ range)
         then Strconv.ParseUint (Params.paramOf reqParams uidKey) 10 32
              = inl (Params.uid cfg')
         else Params.uid cfg' = Params.uid cfg)
      ∧ (if decide (gidKey ∈ range)
         then Strconv.ParseUint (Params.paramOf reqParams gidKey) 10 32
              = inl (Params.gid cfg')
         else Params.gid cfg' = Params.gid cfg)
      ∧ (if decide (modeKey ∈ range)
         then Strconv.ParseUint (Params.paramOf reqParams modeKey) 8 12
              = inl (Params.mode cfg')
         else Params.mode cfg' = Params.mode cfg).
Proof.
  apply Forall_cons in prefixed as [Pu [Pg [Pm _]%Forall_cons]%Forall_cons].
  induction range as [|param rest IH]; intros cfg cfg'.
  - cbn [Params.permissionsLoop]. rewrite !decide_False by apply not_elem_of_nil. split.
    + intros [= <-]. split; [by intros k ?%elem_of_nil|done].
    + intros (_ & ? & ? & ?). f_equal. by apply permissions_eq.
  - cbn [Params.permissionsLoop].
    assert ((∀ k, k ∈ param :: rest → GoStrings.HasPrefix k "permissions/" = true →
                  k ∈ [uidKey; gidKey; modeKey])
            ↔ (GoStrings.HasPrefix param "permissions/" = true →
               param ∈ [uidKey; gidKey; modeKey])
              ∧ (∀ k, k ∈ rest → GoStrings.HasPrefix k "permissions/" = true →
                      k ∈ [uidKey; gidKey; modeKey])) as Hcond.
    { split.
      - intros H. split; [apply H; left|]. intros k Hk. apply H. by right.
      - intros [H1 H2] k [->|Hk]%elem_of_cons; [done|by apply H2]. }
    rewrite Hcond. clear Hcond.
    destruct (GoStrings.HasPrefix param "permissions/") eqn:HP.
    + destruct (String.eqb_spec param uidKey) as [->|Nu].
      { rewrite decide_cons_eq, !decide_cons_ne by done. unfold Params.parseParam.
        destruct (Strconv.ParseUint (Params.paramOf reqParams uidKey) 10 32) as [n|e] eqn:E.
        - cbn [rbind]. rewrite IH. cbn [Params.uid Params.gid Params.mode].
          pose proof (ParseUint_bound _ 10 32 _ ltac:(lia) E) as Hn.
          rewrite Z.mod_small by lia.
          split.
          + intros (? & Hu & ? & ?). split; [split; [intros _; left|done]|].
            split; [|done]. destruct (decide (uidKey ∈ rest)); [done|]. by rewrite Hu.
          + intros ((_ & ?) & Hu & ? & ?). split; [done|]. split; [|done].
            destruct (decide (uidKey ∈ rest)); [done|]. by injection Hu.
        - cbn [rbind]. split; [done|]. by intros (_ & ? & _). }
      destruct (String.eqb_spec param gidKey) as [->|Ng].
      { rewrite decide_cons_eq, !decide_cons_ne by done. unfold Params.parseParam.
        destruct (Strconv.ParseUint (Params.paramOf reqParams gidKey) 10 32) as [n|e] eqn:E.
        - cbn [rbind]. rewrite IH. cbn [Params.uid Params.gid Params.mode].
          pose proof (ParseUint_bound _ 10 32 _ ltac:(lia) E) as Hn.
          rewrite Z.mod_small by lia.
          split.
          + intros (? & ? & Hg & ?). split; [split; [intros _; right; left|done]|].
            split; [done|]. split; [|done].
            destruct (decide (gidKey ∈ rest)); [done|]. by rewrite Hg.
          + intros ((_ & ?) & ? & Hg & ?). split; [done|]. split; [done|]. split; [|done].
            destruct (decide (gidKey ∈ rest)); [done|]. by injection Hg.
        - cbn [rbind]. split; [done|]. by intros (_ & _ & ? & _). }
      destruct (String.eqb_spec param modeKey) as [->|Nm].
      { rewrite decide_cons_eq, !decide_cons_ne by done. unfold Params.parseParam.
        destruct (Strconv.ParseUint (Params.paramOf reqParams modeKey) 8 12) as [n|e] eqn:E.
        - cbn [rbind]. rewrite IH. cbn [Params.uid Params.gid Params.mode].
          pose proof (ParseUint_bound _ 8 12 _ ltac:(lia) E) as Hn.
          rewrite Z.mod_small by lia.
          split.
          + intros (? & ? & ? & Hm). split; [split; [intros _; do 2 right; left|done]|].
            split; [done|]. split; [done|].
            destruct (decide (modeKey ∈ rest)); [done|]. by rewrite Hm.
          + intros ((_ & ?) & ? & ? & Hm). split; [done|]. split; [done|]. split; [done|].
            destruct (decide (modeKey ∈ rest)); [done|]. by injection Hm.
        - cbn [rbind]. split; [done|]. by intros (_ & _ & _ & ?). }
      split; [done|]. intros ((Hin & _) & _). specialize (Hin eq_refl).
      apply elem_of_cons in Hin as [?|Hin]; [done|].
      apply elem_of_cons in Hin as [?|Hin]; [done|].
      apply elem_of_cons in Hin as [?|Hin]; [done|]. by apply elem_of_nil in Hin.
    + rewrite IH, !decide_cons_ne by congruence. split.
      * intros (? & ? & ? & ?). by split.
      * intros ((_ & ?) & ? & ? & ?). by split.
Qed.

Lemma permissionsLoop_no_panic (range : list string) :
  ∀ cfg p, Params.permissionsLoop uidKey gidKey modeKey quote reqParams cfg range ≠ Panic p.
Proof.
  induction range as [|param rest IH]; intros cfg p; cbn [Params.permissionsLoop]; [done|].
  destruct (GoStrings.HasPrefix param "permissions/"); [|apply IH].
  unfold Params.parseParam.
  destruct (String.eqb param uidKey).
  { destruct (Strconv.ParseUint _ 10 32); [apply IH|done]. }
  destruct (String.eqb param gidKey).
  { destruct (Strconv.ParseUint _ 10 32); [apply IH|done]. }
  destruct (String.eqb param modeKey).
  { destruct (Strconv.ParseUint _ 8 12); [apply IH|done]. }
  done.
Qed.

End Permissions.

(** X20.  [getPermissionsConfigFromParams], for parameter names that are
    distinct and start with permissions/, and in whatever order the keys
    of the request are visited: it returns a configuration exactly when
    every key of the request that starts with permissions/ is one of the
    three names and the values of those that are there are parsed by
    [ParseUint], as decimal numbers of 32 bits for the UID and the GID
    and as an octal number of 12 bits for the mode; the configuration has
    these numbers, 0 for an absent UID or GID and the default for an
    absent mode, so the UID and the GID are below 2^32 and a given mode
    is below 2^12; it never panics. *)
Theorem getPermissionsConfigFromParams_spec (uidKey gidKey modeKey : string)
    (defaultPermissionsMode : Z) (quote : string → string)
    (range : list string) (reqParams : gmap string string) :
  uidKey ≠ gidKey → uidKey ≠ modeKey → gidKey ≠ modeKey →
  Forall (λ k, GoStrings.HasPrefix k "permissions/" = true) [uidKey; gidKey; modeKey] →
  rangeOf reqParams range →
  (∀ cfg,
     Params.getPermissionsConfigFromParams uidKey gidKey modeKey defaultPermissionsMode
       quote range reqParams = Ok cfg
     ↔ (∀ k, is_Some (reqParams !! k) → GoStrings.HasPrefix k "permissions/" = true →
             k ∈ [uidKey; gidKey; modeKey])
       ∧ match reqParams !! uidKey with
         | Some val => Strconv.ParseUint val 10 32 = inl (Params.uid cfg)
         | None => Params.uid cfg = 0%Z
         end
       ∧ match reqParams !! gidKey with
         | Some val => Strconv.ParseUint val 10 32 = inl (Params.gid cfg)
         | None => Params.gid cfg = 0%Z
         end
       ∧ match reqParams !! modeKey with
         | Some val => Strconv.ParseUint val 8 12 = inl (Params.mode cfg)
         | None => Params.mode cfg = defaultPermissionsMode
         end)
  ∧ (∀ cfg,
       Params.getPermissionsConfigFromParams uidKey gidKey modeKey defaultPermissionsMode
         quote range reqParams = Ok cfg →
       (0 ≤ Params.uid cfg < 2 ^ 32)%Z ∧ (0 ≤ Params.gid cfg < 2 ^ 32)%Z
       ∧ (is_Some (reqParams !! modeKey) → (0 ≤ Params.mode cfg < 2 ^ 12)%Z))
  ∧ (∀ p,
       Params.getPermissionsConfigFromParams uidKey gidKey modeKey defaultPermissionsMode
         quote range reqParams ≠ Panic p).
Proof.
  intros Hug Hum Hgm Hprefixed Hrange. unfold Params.getPermissionsConfigFromParams.
  assert (∀ key base bitSize (new old : Z),
            (if decide (key ∈ range)
             then Strconv.ParseUint (Params.paramOf reqParams key) base bitSize = inl new
             else new = old)
            ↔ match reqParams !! key with
              | Some val => Strconv.ParseUint val base bitSize = inl new
              | None => new = old
              end) as Hfield.
  { intros key base bitSize new old. unfold Params.paramOf.
    destruct (decide (key ∈ range)) as [Hin|Hin];
      rewrite (rangeOf_elem _ _ key Hrange) in Hin.
    - by destruct Hin as [v ->].
    - apply eq_None_not_Some in Hin. by rewrite Hin. }
  assert (∀ cfg,
            Params.permissionsLoop uidKey gidKey modeKey quote reqParams
              {| Params.uid := 0; Params.gid := 0; Params.mode := defaultPermissionsMode |}
              range = Ok cfg
            ↔ (∀ k, is_Some (reqParams !! k) → GoStrings.HasPrefix k "permissions/" = true →
                    k ∈ [uidKey; gidKey; modeKey])
              ∧ match reqParams !! uidKey with
                | Some val => Strconv.ParseUint val 10 32 = inl (Params.uid cfg)
                | None => Params.uid cfg = 0%Z
                end
              ∧ match reqParams !! gidKey with
                | Some val => Strconv.ParseUint val 10 32 = inl (Params.gid cfg)
                | None => Params.gid cfg = 0%Z
                end
              ∧ match reqParams !! modeKey with
                | Some val => Strconv.ParseUint val 8 12 = inl (Params.mode cfg)
                | None => Params.mode cfg = defaultPermissionsMode
                end) as Hspec.
  { intros cfg.
    rewrite (permissionsLoop_Ok uidKey gidKey modeKey quote reqParams Hug Hum Hgm Hprefixed).
    cbn [Params.uid Params.gid Params.mode]. rewrite !Hfield.
    split; intros (Hall & ? & ? & ?); (split; [|done]); intros k Hk; apply Hall;
      by apply (rangeOf_elem _ _ k Hrange). }
  split; [exact Hspec|]. split.
  - intros cfg Hcfg. apply Hspec in Hcfg as (_ & Hu & Hg & Hm). split; [|split].
    + destruct (reqParams !! uidKey); [|lia]. by apply ParseUint_bound in Hu.
    + destruct (reqParams !! gidKey); [|lia]. by apply ParseUint_bound in Hg.
    + intros [v Hv]. rewrite Hv in Hm. by apply ParseUint_bound in Hm.
  - apply permissionsLoop_no_panic.
Qed.

Lemma getPermissionsConfigFromParams_spec_witness :
  (∀ cfg,
     Params.getPermissionsConfigFromParams "permissions/uid" "permissions/gid"
       "permissions/mode" 511 GoStrings.Quote ["permissions/mode"; "sysMgmtdHost"]
       {[ "sysMgmtdHost" := "10.0.0.1"; "permissions/mode" := "0755" ]} = Ok cfg
     ↔ (∀ k, is_Some (({[ "sysMgmtdHost" := "10.0.0.1"; "permissions/mode" := "0755" ]}
                       : gmap string string) !! k) →
             GoStrings.HasPrefix k "permissions/" = true →
             k ∈ ["permissions/uid"; "permissions/gid"; "permissions/mode"])
       ∧ match ({[ "sysMgmtdHost" := "10.0.0.1"; "permissions/mode" := "0755" ]}
                : gmap string string) !! "permissions/uid" with
         | Some val => Strconv.ParseUint val 10 32 = inl (Params.uid cfg)
         | None => Params.uid cfg = 0%Z
         end
       ∧ match ({[ "sysMgmtdHost" := "10.0.0.1"; "permissions/mode" := "0755" ]}
                : gmap string string) !! "permissions/gid" with
         | Some val => Strconv.ParseUint val 10 32 = inl (Params.gid cfg)
         | None => Params.gid cfg = 0%Z
         end
       ∧ match ({[ "sysMgmtdHost" := "10.0.0.1"; "permissions/mode" := "0755" ]}
                : gmap string string) !! "permissions/mode" with
         | Some val => Strconv.ParseUint val 8 12 = inl (Params.mode cfg)
         | None => Params.mode cfg = 511%Z
         end)
  ∧ (∀ cfg,
       Params.getPermissionsConfigFromParams "permissions/uid" "permissions/gid"
         "permissions/mode" 511 GoStrings.Quote ["permissions/mode"; "sysMgmtdHost"]
         {[ "sysMgmtdHost" := "10.0.0.1"; "permissions/mode" := "0755" ]} = Ok cfg →
       (0 ≤ Params.uid cfg < 2 ^ 32)%Z ∧ (0 ≤ Params.gid cfg < 2 ^ 32)%Z
       ∧ (is_Some (({[ "sysMgmtdHost" := "10.0.0.1"; "permissions/mode" := "0755" ]}
                    : gmap string string) !! "permissions/mode") →
          (0 ≤ Params.mode cfg < 2 ^ 12)%Z))
  ∧ (∀ p,
       Params.getPermissionsConfigFromParams "permissions/uid" "permissions/gid"
         "permissions/mode" 511 GoStrings.Quote ["permissions/mode"; "sysMgmtdHost"]
         {[ "sysMgmtdHost" := "10.0.0.1"; "permissions/mode" := "0755" ]} ≠ Panic p).
Proof.
  apply (getPermissionsConfigFromParams_spec "permissions/uid" "permissions/gid"
           "permissions/mode" 511 GoStrings.Quote ["permissions/mode"; "sysMgmtdHost"]
           {[ "sysMgmtdHost" := "10.0.0.1"; "permissions/mode" := "0755" ]}).
  - discriminate.
  - discriminate.
  - discriminate.
  - repeat constructor.
  - split.
    + apply (bool_decide_unpack _). vm_compute. exact I.
    + apply (bool_decide_unpack _). vm_compute. exact I.
Defined.

(** [ParseUint] on the modes and numbers of a request: an octal mode, a
    mode of more than 12 bits, a digit that is none of the base, an
    empty value, and the largest UID. *)
Example ParseUint_examples :
  Strconv.ParseUint "0755" 8 12 = inl 493%Z
  ∧ Strconv.ParseUint "10000" 8 12 = inr Strconv.ErrRange
  ∧ Strconv.ParseUint "0789" 8 12 = inr Strconv.ErrSyntax
  ∧ Strconv.ParseUint "" 10 32 = inr Strconv.ErrSyntax
  ∧ Strconv.ParseUint "4294967295" 10 32 = inl 4294967295%Z
  ∧ Strconv.ParseUint "4294967296" 10 32 = inr Strconv.ErrRange
  ∧ Strconv.ParseUint "-1" 10 32 = inr Strconv.ErrSyntax.
Proof. repeat split; vm_compute; reflexivity. Qed.

(** The request with the mode 0755 and no UID or GID. *)
Example getPermissionsConfigFromParams_example :
  Params.getPermissionsConfigFromParams "permissions/uid" "permissions/gid"
    "permissions/mode" 511 GoStrings.Quote ["permissions/mode"; "sysMgmtdHost"]
    {[ "sysMgmtdHost" := "10.0.0.1"; "permissions/mode" := "0755" ]}
  = Ok {| Params.uid := 0; Params.gid := 0; Params.mode := 493 |}.
Proof. vm_compute. reflexivity. Qed.

(** * Proofs: the client files *)

Section ClientFilesProofs.

Import ClientFiles.

Lemma setConfigValueIfKeyExists_Ok (ini ini' : gmap string string) (key value : string) :
  setConfigValueIfKeyExists ini key value = Ok ini'
  ↔ is_Some (ini !! key) ∧ ini' = <[key := value]> ini.
Proof.
  unfold setConfigValueIfKeyExists. case_bool_decide as Hk; split.
  - by intros [= <-].
  - by intros [_ ->].
  - done.
  - by intros [? _].
Qed.

Lemma setConfigValueIfKeyExists_Err (ini : gmap string string) (key value e : string) :
  setConfigValueIfKeyExists ini key value = Err e
  ↔ ini !! key = None ∧ e = key +:+ " not in template beegfs-client.conf file".
Proof.
  unfold setConfigValueIfKeyExists. case_bool_decide as Hk; split.
  - done.
  - intros [Hn _]. rewrite Hn in Hk. by destruct Hk.
  - intros [= <-]. split; [|done]. by apply eq_None_not_Some.
  - by intros [_ ->].
Qed.

Lemma setConfigValueIfKeyExists_no_panic (ini : gmap string string) (key value p : string) :
  setConfigValueIfKeyExists ini key value ≠ Panic p.
Proof. unfold setConfigValueIfKeyExists. by case_bool_decide. Qed.

Lemma insert_present_dom (ini : gmap string string) (key value : string) :
  is_Some (ini !! key) → dom (<[key := value]> ini) = dom ini.
Proof.
  intros Hk. apply elem_of_dom in Hk. rewrite dom_insert_L.
  apply set_eq. intros x. rewrite elem_of_union, elem_of_singleton.
  split; [by intros [-> | ?]|by right].
Qed.

(** The loop over the client options: it fails at the first key that the
    file does not have, and otherwise sets every key. *)
Lemma setBeegfsClientConf_Ok (conf : gmap string string) :
  ∀ l ini ini',
    setBeegfsClientConf ini conf l = Ok ini' →
    (∀ k, k ∈ l → is_Some (ini !! k))
    ∧ (∀ k, ini' !! k
            = if decide (k ∈ l) then Some (default "" (conf !! k)) else ini !! k).
Proof.
  induction l as [|k l IH]; intros ini ini'; simpl.
  - intros [= <-]. split; [by intros k Hk; apply elem_of_nil in Hk|].
    intros k. destruct (decide (k ∈ [])) as [Hk|]; [by apply elem_of_nil in Hk|done].
  - destruct (setConfigValueIfKeyExists ini k (default "" (conf !! k))) as [ini1| |] eqn:E;
      simpl; [|done..].
    apply setConfigValueIfKeyExists_Ok in E as [Hk ->].
    intros H. destruct (IH _ _ H) as [Hall Hlook]. split.
    + intros k' [-> | Hk']%elem_of_cons; [done|].
      specialize (Hall k' Hk'). destruct (decide (k' = k)) as [-> | Hne]; [done|].
      by rewrite lookup_insert_ne in Hall.
    + intros k'. rewrite Hlook.
      destruct (decide (k' ∈ l)) as [Hin|Hnin].
      * rewrite decide_True; [done|by apply elem_of_cons; right].
      * destruct (decide (k' = k)) as [-> | Hne].
        -- rewrite decide_True; [|by apply elem_of_cons; left].
           by rewrite lookup_insert_eq.
        -- rewrite decide_False; [by rewrite lookup_insert_ne|].
           by intros [? | ?]%elem_of_cons.
Qed.

Lemma setBeegfsClientConf_cases (conf : gmap string string) :
  ∀ l ini,
    (∃ ini', setBeegfsClientConf ini conf l = Ok ini')
    ∨ (∃ k, k ∈ l ∧ ini !! k = None
            ∧ setBeegfsClientConf ini conf l
              = Err (k +:+ " not in template beegfs-client.conf file")).
Proof.
  induction l as [|k l IH]; intros ini; simpl; [by left; eexists|].
  destruct (setConfigValueIfKeyExists ini k (default "" (conf !! k))) as [ini1|e|p] eqn:E;
    simpl.
  - apply setConfigValueIfKeyExists_Ok in E as [Hk ->].
    destruct (IH (<[k := default "" (conf !! k)]> ini)) as [?|(k' & Hin & Hnone & Herr)];
      [by left|].
    right. exists k'. split; [by apply elem_of_cons; right|]. split; [|done].
    destruct (decide (k' = k)) as [-> | Hne]; [by rewrite lookup_insert_eq in Hnone|].
    by rewrite lookup_insert_ne in Hnone.
  - apply setConfigValueIfKeyExists_Err in E as [Hk ->].
    right. exists k. split; [by apply elem_of_cons; left|done].
  - by apply setConfigValueIfKeyExists_no_panic in E.
Qed.

Lemma setBeegfsClientConf_union (conf ini ini' : gmap string string) (range : list string) :
  rangeOf conf range →
  setBeegfsClientConf ini conf range = Ok ini' →
  dom conf ⊆ dom ini ∧ ini' = conf ∪ ini.
Proof.
  intros Hrange H. apply setBeegfsClientConf_Ok in H as [Hall Hlook]. split.
  - intros k Hk. apply elem_of_dom. apply Hall. apply (rangeOf_elem conf range k Hrange).
    by apply elem_of_dom.
  - apply map_eq. intros k. rewrite Hlook, lookup_union.
    destruct (decide (k ∈ range)) as [Hin|Hnin].
    + apply (rangeOf_elem conf range k Hrange) in Hin as [v Hv]. rewrite Hv. simpl.
      by destruct (ini !! k).
    + assert (conf !! k = None) as ->.
      { apply eq_None_not_Some. by intros ?%(rangeOf_elem conf range k Hrange). }
      by destruct (ini !! k).
Qed.

Lemma wbind_pure_Ok {A B : Type} (a : A) (k : A → W B) (ops : list FileOp) :
  wbind (pure (Ok a)) k ops = k a ops.
Proof. done. Qed.

Lemma wbind_pure_Err {A B : Type} (e : string) (k : A → W B) (ops : list FileOp) :
  wbind (pure (Err e)) k ops = (Err e, ops).
Proof. done. Qed.

(** One block of a list: nothing is done for an empty list; otherwise
    the key must be there, and then the file of the list is written. *)
Lemma writeListFile_cases (w : World) (vol : beegfsVolume) (ini : gmap string string)
    (values : option (list string)) (key msg : string) (ops : list FileOp) :
  key ∈ ["connInterfacesFile"; "connNetFilterFile"; "connTcpOnlyFilterFile"] →
  let r := writeListFile w ini values key (GoPath.Join [mountDirPath vol; key]) msg ops in
  (r = (Ok (if (len values =? 0)%nat then ini
            else <[key := GoPath.Join [mountDirPath vol; key]]> ini),
        ops ++ listFile vol values key)
   ∧ ((len values =? 0)%nat = false → is_Some (ini !! key)))
  ∨ ((len values =? 0)%nat = false
     ∧ (∀ i, fst r ≠ Ok i)
     ∧ (ini !! key = None ∨ ∃ o p c, fsutil_WriteFile w o p c ≠ Ok tt)
     ∧ ∃ new, snd r = ops ++ new ∧ Forall (isListFile vol) new).
Proof.
  intros Hkey r. subst r. unfold writeListFile, listFile.
  destruct (len values =? 0)%nat eqn:Hlen; cbn [negb].
  { left. split; [|done]. unfold pure. by rewrite app_nil_r. }
  destruct (setConfigValueIfKeyExists ini key (GoPath.Join [mountDirPath vol; key]))
    as [ini1|e|p] eqn:E.
  - apply setConfigValueIfKeyExists_Ok in E as [Hk ->]. rewrite wbind_pure_Ok.
    unfold wbind, write, pure.
    destruct (fsutil_WriteFile w ops _ _) as [[]|e|p] eqn:Hw.
    + left. by split.
    + right. split; [done|]. split; [done|].
      split; [right; eexists _, _, _; by rewrite Hw|].
      eexists. split; [done|]. constructor; [|constructor]. by eexists _, _.
    + right. split; [done|]. split; [done|].
      split; [right; eexists _, _, _; by rewrite Hw|].
      eexists. split; [done|]. constructor; [|constructor]. by eexists _, _.
  - right. split; [done|]. rewrite wbind_pure_Err. split; [done|].
    apply setConfigValueIfKeyExists_Err in E as [Hn _]. split; [by left|].
    exists []. split; [by rewrite app_nil_r|constructor].
  - by apply setConfigValueIfKeyExists_no_panic in E.
Qed.

Lemma listFile_isListFile (vol : beegfsVolume) (values : option (list string))
    (key : string) :
  key ∈ ["connInterfacesFile"; "connNetFilterFile"; "connTcpOnlyFilterFile"] →
  Forall (isListFile vol) (listFile vol values key).
Proof.
  intros Hkey. unfold listFile. destruct (len values =? 0)%nat; constructor; [|constructor].
  by eexists _, _.
Qed.

Lemma writtenListFiles_isListFile (vol : beegfsVolume) :
  Forall (isListFile vol) (writtenListFiles vol).
Proof.
  unfold writtenListFiles. repeat (apply Forall_app; split);
    apply listFile_isListFile; rewrite !elem_of_cons; by auto 6.
Qed.

Ltac inlist := rewrite !elem_of_cons; by auto 6.

Lemma wbind_fail {A B : Type} (m : W A) (k : A → W B) (ops : list FileOp) :
  (∀ a, fst (m ops) ≠ Ok a) →
  (∀ b, fst (wbind m k ops) ≠ Ok b) ∧ snd (wbind m k ops) = snd (m ops).
Proof. unfold wbind. destruct (m ops) as [[a|e|p] ops']; simpl; [by intros H; destruct (H a)|done..]. Qed.

Lemma wbind_Ok {A B : Type} (m : W A) (k : A → W B) (ops ops' : list FileOp) (a : A) :
  m ops = (Ok a, ops') → wbind m k ops = k a ops'.
Proof. unfold wbind. by intros ->. Qed.

(** X21.  [getEphemeralPortUDP] returns a port exactly when the socket
    was opened, its address resolved and the socket closed, all without
    error; the socket is closed exactly when it was opened, also when the
    address is not resolved; and an error of the close is returned, alone
    when the address was resolved and behind the error of the resolution
    otherwise. *)
Theorem getEphemeralPortUDP_closes (w : World) :
  (∀ port, fst (getEphemeralPortUDP w) = Ok port
           ↔ net_ListenPacket w = Ok tt ∧ net_ResolveUDPAddr w = Ok port
             ∧ conn_Close w = Ok tt)
  ∧ (OpClose ∈ snd (getEphemeralPortUDP w) ↔ net_ListenPacket w = Ok tt)
  ∧ (∀ closeErr, net_ListenPacket w = Ok tt → conn_Close w = Err closeErr →
       fst (getEphemeralPortUDP w)
       = match net_ResolveUDPAddr w with
         | Ok _ => Err closeErr
         | Err err => Err (err +:+ "; " +:+ closeErr)
         | Panic p => Panic p
         end).
Proof.
  unfold getEphemeralPortUDP.
  destruct (net_ListenPacket w) as [[]|e|p]; cbn [fst snd].
  - split; [|split].
    + intros port. destruct (conn_Close w) as [[]|e|p];
        destruct (net_ResolveUDPAddr w) as [n|e'|p'];
        (split; [intros H | intros (_ & H1 & H2)]); simplify_eq; by repeat split.
    + split; [done|]. intros _. rewrite !elem_of_cons. by auto.
    + intros closeErr _ ->. by destruct (net_ResolveUDPAddr w).
  - split; [|split]; [| |done].
    + intros port. split; [done|]. by intros (? & _).
    + split; [|done]. rewrite !elem_of_cons. intros [? | ?%elem_of_nil]; done.
  - split; [|split]; [| |done].
    + intros port. split; [done|]. by intros (? & _).
    + split; [|done]. rewrite !elem_of_cons. intros [? | ?%elem_of_nil]; done.
Qed.

Section Run.

Variable w : World.
Variable range : list string.
Variable vol : beegfsVolume.
Variable confTemplatePath clientConfBytes : string.
Variable port : Z.
Variable template : gmap string string.

Hypothesis Hrange : rangeOf (default ∅ (BeegfsClientConf (config vol))) range.
Hypothesis Hport : fst (getEphemeralPortUDP w) = Ok port.
Hypothesis Hread : fsutil_ReadFile w confTemplatePath = Ok clientConfBytes.
Hypothesis Hload : ini_Load w clientConfBytes = Ok template.

(** How a run of [writeClientFiles] ends once the port is there and the
    template is read: at a key that the template does not have, before
    anything is written; in the files of the lists; when
    beegfs-client.conf is created; or when it is written. *)
Lemma writeClientFiles_run :
  let r := writeClientFiles w range vol confTemplatePath in
  (∃ k, k ∈ keysAlwaysSet vol ∧ (k ∉ dom template)
        ∧ r = (Err (k +:+ " not in template beegfs-client.conf file"), []))
  ∨ (keysAlwaysSet vol ⊆ dom template
     ∧ (∀ u, fst r ≠ Ok u)
     ∧ Forall (isListFile vol) (snd r)
     ∧ (¬ keysSet vol ⊆ dom template ∨ ∃ o p c, fsutil_WriteFile w o p c ≠ Ok tt))
  ∨ (keysSet vol ⊆ dom template
     ∧ (∀ u, fst r ≠ Ok u)
     ∧ snd r = writtenListFiles vol ++ [OpCreate (clientConfPath vol)]
     ∧ ∃ o p, fs_Create w o p ≠ Ok tt)
  ∨ (keysSet vol ⊆ dom template
     ∧ snd r = writtenListFiles vol
               ++ [OpCreate (clientConfPath vol);
                   OpWriteTo (clientConfPath vol) (writtenClientConf template port vol)]
     ∧ dom (writtenClientConf template port vol) = dom template
     ∧ (fst r = Ok tt ∨ ∃ o p i, ini_WriteTo w o p i ≠ Ok tt)).
Proof.
  intros r. pose proof (eq_refl r) as Hr. unfold r at 1 in Hr. clearbody r.
  unfold writeClientFiles in Hr. rewrite Hport, Hread, Hload in Hr.
  set (conf := default ∅ (BeegfsClientConf (config vol))) in *.
  (* the host *)
  destruct (setConfigValueIfKeyExists template "sysMgmtdHost" (volSysMgmtdHost vol))
    as [ini1|e|p] eqn:E1.
  2: { apply setConfigValueIfKeyExists_Err in E1 as [Hn ->]. left. exists "sysMgmtdHost".
       split; [unfold keysAlwaysSet; rewrite !elem_of_union, !elem_of_singleton; by auto|]. split; [by apply not_elem_of_dom|].
       by rewrite wbind_pure_Err in Hr. }
  2: { by apply setConfigValueIfKeyExists_no_panic in E1. }
  apply setConfigValueIfKeyExists_Ok in E1 as [Hk1 ->]. rewrite wbind_pure_Ok in Hr.
  pose proof (insert_present_dom template "sysMgmtdHost" (volSysMgmtdHost vol) Hk1) as Hd1.
  set (ini1 := <["sysMgmtdHost" := volSysMgmtdHost vol]> template) in *.
  (* the port *)
  destruct (setConfigValueIfKeyExists ini1 "connClientPortUDP" (Itoa port))
    as [ini2|e|p] eqn:E2.
  2: { apply setConfigValueIfKeyExists_Err in E2 as [Hn ->]. left.
       exists "connClientPortUDP".
       split; [unfold keysAlwaysSet; rewrite !elem_of_union, !elem_of_singleton; by auto|].
       split; [rewrite <- Hd1; by apply not_elem_of_dom|].
       by rewrite wbind_pure_Err in Hr. }
  2: { by apply setConfigValueIfKeyExists_no_panic in E2. }
  apply setConfigValueIfKeyExists_Ok in E2 as [Hk2 ->]. rewrite wbind_pure_Ok in Hr.
  pose proof (insert_present_dom ini1 "connClientPortUDP" (Itoa port) Hk2) as Hd2.
  rewrite Hd1 in Hd2.
  apply elem_of_dom in Hk1, Hk2. rewrite Hd1 in Hk2.
  set (ini2 := <["connClientPortUDP" := Itoa port]> ini1) in *.
  (* the client options *)
  destruct (setBeegfsClientConf_cases conf range ini2)
    as [[ini3 E3] | (k & Hin & Hnone & E3)]; rewrite E3 in Hr.
  2: { left. exists k. split.
       - unfold keysAlwaysSet. apply elem_of_union. right. apply elem_of_dom.
         by apply (rangeOf_elem conf range k Hrange).
       - split; [rewrite <- Hd2; by apply not_elem_of_dom|].
         by rewrite wbind_pure_Err in Hr. }
  rewrite wbind_pure_Ok in Hr.
  apply (setBeegfsClientConf_union conf ini2 ini3 range Hrange) in E3 as [Hsub ->].
  rewrite Hd2 in Hsub.
  assert (dom (conf ∪ ini2) = dom template) as Hd3.
  { rewrite dom_union_L, Hd2. apply set_eq. intros x. rewrite elem_of_union.
    split; [intros [?|?]; [by apply Hsub|done]|by right]. }
  set (ini3 := conf ∪ ini2) in *.
  assert (keysAlwaysSet vol ⊆ dom template) as HA.
  { unfold keysAlwaysSet. fold conf. intros x [[->%elem_of_singleton | ->%elem_of_singleton]%elem_of_union | Hx]%elem_of_union;
      [done|done|by apply Hsub]. }
  (* connInterfacesFile *)
  destruct (writeListFile_cases w vol ini3 (ConnInterfaces (config vol)) "connInterfacesFile"
              "error writing connInterfaces file" [] ltac:(inlist))
    as [[E4 H4] | (Hlen & Hfail & Hwhy & new & Hs & Hall)].
  2: { match type of Hr with
       | wbind ?m ?k ?ops = _ => destruct (wbind_fail m k ops Hfail) as [Hf Hs']
       end.
       rewrite Hr in Hf, Hs'. right. left. split; [done|]. split; [done|].
       split; [rewrite Hs', Hs; repeat (apply Forall_app; split); try done;
                 try (apply listFile_isListFile; inlist); apply Forall_nil_2|].
       destruct Hwhy as [Hn|?]; [left|by right].
       intros Hsub'. apply not_elem_of_dom in Hn. rewrite Hd3 in Hn. apply Hn, Hsub'.
       unfold keysSet. rewrite Hlen. cbv iota. rewrite !elem_of_union, !elem_of_singleton.
       by auto 7. }
  rewrite (wbind_Ok _ _ _ _ _ E4) in Hr. clear E4.
  assert (dom (if (len (ConnInterfaces (config vol)) =? 0)%nat then ini3
               else <["connInterfacesFile" := GoPath.Join [mountDirPath vol; "connInterfacesFile"]]> ini3)
          = dom template) as Hd4.
  { destruct (len (ConnInterfaces (config vol)) =? 0)%nat; [done|].
    by rewrite insert_present_dom; [|apply H4]. }
  assert ((len (ConnInterfaces (config vol)) =? 0)%nat = false → "connInterfacesFile" ∈ dom template) as Hk4.
  { intros Hlen. rewrite <- Hd3. apply elem_of_dom. by apply H4. }
  clear H4.
  set (ini4 := if (len (ConnInterfaces (config vol)) =? 0)%nat then ini3
               else <["connInterfacesFile" := GoPath.Join [mountDirPath vol; "connInterfacesFile"]]> ini3) in *.
  (* connNetFilterFile *)
  destruct (writeListFile_cases w vol ini4 (ConnNetFilter (config vol)) "connNetFilterFile"
              "error writing connNetFilter file" ([] ++ listFile vol (ConnInterfaces (config vol)) "connInterfacesFile") ltac:(inlist))
    as [[E5 H5] | (Hlen & Hfail & Hwhy & new & Hs & Hall)].
  2: { match type of Hr with
       | wbind ?m ?k ?ops = _ => destruct (wbind_fail m k ops Hfail) as [Hf Hs']
       end.
       rewrite Hr in Hf, Hs'. right. left. split; [done|]. split; [done|].
       split; [rewrite Hs', Hs; repeat (apply Forall_app; split); try done;
                 try (apply listFile_isListFile; inlist); apply Forall_nil_2|].
       destruct Hwhy as [Hn|?]; [left|by right].
       intros Hsub'. apply not_elem_of_dom in Hn. rewrite Hd4 in Hn. apply Hn, Hsub'.
       unfold keysSet. rewrite Hlen. cbv iota. rewrite !elem_of_union, !elem_of_singleton.
       by auto 7. }
  rewrite (wbind_Ok _ _ _ _ _ E5) in Hr. clear E5.
  assert (dom (if (len (ConnNetFilter (config vol)) =? 0)%nat then ini4
               else <["connNetFilterFile" := GoPath.Join [mountDirPath vol; "connNetFilterFile"]]> ini4)
          = dom template) as Hd5.
  { destruct (len (ConnNetFilter (config vol)) =? 0)%nat; [done|].
    by rewrite insert_present_dom; [|apply H5]. }
  assert ((len (ConnNetFilter (config vol)) =? 0)%nat = false → "connNetFilterFile" ∈ dom template) as Hk5.
  { intros Hlen. rewrite <- Hd4. apply elem_of_dom. by apply H5. }
  clear H5.
  set (ini5 := if (len (ConnNetFilter (config vol)) =? 0)%nat then ini4
               else <["connNetFilterFile" := GoPath.Join [mountDirPath vol; "connNetFilterFile"]]> ini4) in *.
  (* connTcpOnlyFilterFile *)
  destruct (writeListFile_cases w vol ini5 (ConnTcpOnlyFilter (config vol)) "connTcpOnlyFilterFile"
              "error writing connTcpOnlyFilter file" (([] ++ listFile vol (ConnInterfaces (config vol)) "connInterfacesFile") ++ listFile vol (ConnNetFilter (config vol)) "connNetFilterFile") ltac:(inlist))
    as [[E6 H6] | (Hlen & Hfail & Hwhy & new & Hs & Hall)].
  2: { match type of Hr with
       | wbind ?m ?k ?ops = _ => destruct (wbind_fail m k ops Hfail) as [Hf Hs']
       end.
       rewrite Hr in Hf, Hs'. right. left. split; [done|]. split; [done|].
       split; [rewrite Hs', Hs; repeat (apply Forall_app; split); try done;
                 try (apply listFile_isListFile; inlist); apply Forall_nil_2|].
       destruct Hwhy as [Hn|?]; [left|by right].
       intros Hsub'. apply not_elem_of_dom in Hn. rewrite Hd5 in Hn. apply Hn, Hsub'.
       unfold keysSet. rewrite Hlen. cbv iota. rewrite !elem_of_union, !elem_of_singleton.
       by auto 7. }
  rewrite (wbind_Ok _ _ _ _ _ E6) in Hr. clear E6.
  assert (dom (if (len (ConnTcpOnlyFilter (config vol)) =? 0)%nat then ini5
               else <["connTcpOnlyFilterFile" := GoPath.Join [mountDirPath vol; "connTcpOnlyFilterFile"]]> ini5)
          = dom template) as Hd6.
  { destruct (len (ConnTcpOnlyFilter (config vol)) =? 0)%nat; [done|].
    by rewrite insert_present_dom; [|apply H6]. }
  assert ((len (ConnTcpOnlyFilter (config vol)) =? 0)%nat = false → "connTcpOnlyFilterFile" ∈ dom template) as Hk6.
  { intros Hlen. rewrite <- Hd5. apply elem_of_dom. by apply H6. }
  clear H6.
  set (ini6 := if (len (ConnTcpOnlyFilter (config vol)) =? 0)%nat then ini5
               else <["connTcpOnlyFilterFile" := GoPath.Join [mountDirPath vol; "connTcpOnlyFilterFile"]]> ini5) in *.
  rewrite app_nil_l, <- app_assoc in Hr. fold (writtenListFiles vol) in Hr.
  change ini6 with (writtenClientConf template port vol) in *.
  assert (keysSet vol ⊆ dom template) as HK.
  { intros x Hx. unfold keysSet in Hx.
    apply elem_of_union in Hx as [Hx|H3];
      [apply elem_of_union in Hx as [Hx|H2]; [apply elem_of_union in Hx as [Hx|H1]|]|].
    - by apply HA.
    - destruct (len (ConnInterfaces (config vol)) =? 0)%nat; [by apply elem_of_empty in H1|].
      apply elem_of_singleton in H1 as ->. by apply Hk4.
    - destruct (len (ConnNetFilter (config vol)) =? 0)%nat; [by apply elem_of_empty in H2|].
      apply elem_of_singleton in H2 as ->. by apply Hk5.
    - destruct (len (ConnTcpOnlyFilter (config vol)) =? 0)%nat;
        [by apply elem_of_empty in H3|].
      apply elem_of_singleton in H3 as ->. by apply Hk6. }
  (* beegfs-client.conf *)
  unfold wbind, write in Hr.
  destruct (fs_Create w (writtenListFiles vol) (clientConfPath vol)) as [[]|e|p] eqn:EC.
  2,3: right; right; left; subst r; cbn [fst snd]; split; [done|]; split; [done|];
       split; [done|]; eexists _, _; by rewrite EC.
  right. right. right. subst r. cbn [fst snd]. split; [done|].
  split; [by rewrite <- app_assoc|]. split; [done|].
  destruct (ini_WriteTo w _ _ _) as [[]|e|p] eqn:EW; [by left|right..];
    eexists _, _, _; by rewrite EW.
Qed.

(** X22.  When [writeClientFiles] returns no error, with the port that
    [getEphemeralPortUDP] selected and the template that was read and
    parsed, the template has every key that the driver sets, and what
    was written is, in this order: the file of each list that is not empty, then
    beegfs-client.conf, created and written once, with the values of the
    template except for the host, the port, the client options of the
    volume, which win over the host and the port, and the paths of the
    files of the lists, which win over all of them.  The file has the
    keys of the template and no other. *)
Theorem writeClientFiles_written (ops : list FileOp) :
  writeClientFiles w range vol confTemplatePath = (Ok tt, ops) →
  ops = writtenListFiles vol
        ++ [OpCreate (clientConfPath vol);
            OpWriteTo (clientConfPath vol) (writtenClientConf template port vol)]
  ∧ keysSet vol ⊆ dom template
  ∧ dom (writtenClientConf template port vol) = dom template.
Proof.
  intros Hrun.
  destruct writeClientFiles_run
    as [(k & _ & _ & H) | [(_ & H & _) | [(_ & H & _) | (HK & Hs & Hd & _)]]];
    rewrite Hrun in *; cbn [fst snd] in *.
  - done.
  - by destruct (H tt).
  - by destruct (H tt).
  - done.
Qed.

(** X23.  Once the port is selected and the template is read and
    parsed, and when every write succeeds, [writeClientFiles] returns no
    error exactly when the template has every key that the driver sets: the
    host, the port, the client options of the volume and, for each list
    that is not empty, the key of its file. *)
Theorem writeClientFiles_template_keys :
  (∀ o p c, fsutil_WriteFile w o p c = Ok tt) →
  (∀ o p, fs_Create w o p = Ok tt) →
  (∀ o p i, ini_WriteTo w o p i = Ok tt) →
  fst (writeClientFiles w range vol confTemplatePath) = Ok tt
  ↔ keysSet vol ⊆ dom template.
Proof.
  intros HW HC HT.
  destruct writeClientFiles_run
    as [(k & Hk & Hn & H) | [(HA & H & _ & Hwhy) | [(HK & H & _ & Hwhy)
        | (HK & _ & _ & Hwhy)]]].
  - rewrite H. cbn [fst]. split; [done|]. intros HK. destruct Hn. apply HK.
    unfold keysSet. fold (keysAlwaysSet vol). rewrite !elem_of_union. by auto.
  - split; [by intros E; destruct (H tt)|]. intros HK.
    destruct Hwhy as [Hn | (o & p & c & Hn)]; [done|]. by destruct Hn.
  - destruct Hwhy as (o & p & Hn). by destruct Hn.
  - destruct Hwhy as [E | (o & p & i & Hn)]; [done|]. by destruct Hn.
Qed.

(** X24.  Once the port is selected and the template is read and
    parsed: when the template lacks a key that the driver sets,
    [writeClientFiles] returns an error or panics, and beegfs-client.conf
    is neither created nor written: all that may have been written are
    files of the lists.  When the key that lacks is the host, the port or
    a client option of the volume, nothing at all is written and the
    error names a key that lacks. *)
Theorem writeClientFiles_missing_key :
  ¬ keysSet vol ⊆ dom template →
  (∀ u, fst (writeClientFiles w range vol confTemplatePath) ≠ Ok u)
  ∧ Forall (isListFile vol) (snd (writeClientFiles w range vol confTemplatePath))
  ∧ (¬ keysAlwaysSet vol ⊆ dom template →
     ∃ k, k ∈ keysAlwaysSet vol ∧ (k ∉ dom template)
          ∧ writeClientFiles w range vol confTemplatePath
            = (Err (k +:+ " not in template beegfs-client.conf file"), [])).
Proof.
  intros Hmiss.
  destruct writeClientFiles_run
    as [(k & Hk & Hn & H) | [(HA & H & Hall & _) | [(HK & _) | (HK & _)]]]; [| |done..].
  - rewrite H. cbn [fst snd]. split; [done|]. split; [constructor|]. intros _. by exists k.
  - split; [done|]. split; [done|]. by intros HA'.
Qed.

(** X25.  For a volume whose configuration is that of a host under a
    stripped plugin configuration, as [parseConfigFromFile] returns it,
    the beegfs-client.conf that [writeClientFiles] writes, once the port
    is selected and the template is read and parsed, has the host of the
    volume as sysMgmtdHost and the port that was selected as
    connClientPortUDP: the client options cannot replace them. *)
Theorem writeClientFiles_host_and_port (plConfig : PluginConfig) (h path : string)
    (ini : gmap string string) :
  squashConfigForSysMgmtdHost h (stripConfig plConfig) = Ok (config vol) →
  OpWriteTo path ini ∈ snd (writeClientFiles w range vol confTemplatePath) →
  ini !! "sysMgmtdHost" = Some (volSysMgmtdHost vol)
  ∧ ini !! "connClientPortUDP" = Some (Itoa port).
Proof.
  intros Hsq Hin.
  assert (∀ k, k ∈ noEffectBeegfsConfOptions →
               default ∅ (BeegfsClientConf (config vol)) !! k = None) as Hstrip.
  { intros k Hk. rewrite squashConfigForSysMgmtdHost_spec, hostConfigs_strip in Hsq.
    injection Hsq as <-. unfold layered. cbn [stripConfig DefaultConfig].
    set (hs := hostConfigs h (FileSystemSpecificConfigs plConfig)).
    change (stripBeegfsConfig (DefaultConfig plConfig) :: map stripBeegfsConfig hs)
      with (map stripBeegfsConfig (DefaultConfig plConfig :: hs)).
    rewrite <- strip_newBeegfsConfig, <- strip_applyLayers.
    match goal with |- default ∅ ?m !! _ = _ => change (default ∅ m) with (mapOf m) end.
    rewrite mapOf_strip. by apply stripKeys_lookup_in. }
  assert (ini = writtenClientConf template port vol) as ->.
  { destruct writeClientFiles_run
      as [(k & _ & _ & H) | [(_ & _ & Hall & _) | [(_ & _ & Hs & _) | (_ & Hs & _)]]].
    - rewrite H in Hin. by apply elem_of_nil in Hin.
    - rewrite Forall_forall in Hall. by destruct (Hall _ Hin) as (? & ? & _ & ?).
    - rewrite Hs in Hin. apply elem_of_app in Hin as [Hin | Hin].
      + pose proof (writtenListFiles_isListFile vol) as Hall.
        rewrite Forall_forall in Hall. by destruct (Hall _ Hin) as (? & ? & _ & ?).
      + apply list_elem_of_singleton in Hin. done.
    - rewrite Hs in Hin. apply elem_of_app in Hin as [Hin | Hin].
      + pose proof (writtenListFiles_isListFile vol) as Hall.
        rewrite Forall_forall in Hall. by destruct (Hall _ Hin) as (? & ? & _ & ?).
      + apply elem_of_cons in Hin as [Hin | Hin]; [done|].
        apply list_elem_of_singleton in Hin. by injection Hin as _ ->. }
  unfold writtenClientConf.
  assert (∀ k (values : option (list string)) (key : string) (m : gmap string string),
            k ≠ key →
            (if (len values =? 0)%nat then m
             else <[key := GoPath.Join [mountDirPath vol; key]]> m) !! k = m !! k) as Hwith.
  { intros k values key m Hne. destruct (len values =? 0)%nat; [done|].
    by rewrite lookup_insert_ne. }
  split.
  - rewrite !Hwith by done. rewrite lookup_union, Hstrip by (unfold noEffectBeegfsConfOptions; inlist).
    rewrite lookup_insert_ne by done. by rewrite lookup_insert_eq.
  - rewrite !Hwith by done. rewrite lookup_union, Hstrip by (unfold noEffectBeegfsConfOptions; inlist).
    by rewrite lookup_insert_eq.
Qed.

End Run.

End ClientFilesProofs.

Lemma writeClientFiles_written_witness :
  snd (ClientFiles.writeClientFiles (quietWorld fullTemplate) ["connMgmtdPortTCP"]
         tunedVolume "/etc/beegfs/beegfs-client.conf")
  = ClientFiles.writtenListFiles tunedVolume
    ++ [ClientFiles.OpCreate (clientConfPath tunedVolume);
        ClientFiles.OpWriteTo (clientConfPath tunedVolume)
          (ClientFiles.writtenClientConf fullTemplate 40000 tunedVolume)]
  ∧ ClientFiles.keysSet tunedVolume ⊆ dom fullTemplate
  ∧ dom (ClientFiles.writtenClientConf fullTemplate 40000 tunedVolume) = dom fullTemplate.
Proof.
  apply (writeClientFiles_written (quietWorld fullTemplate) ["connMgmtdPortTCP"]
           tunedVolume "/etc/beegfs/beegfs-client.conf" "" 40000 fullTemplate).
  - split; apply (bool_decide_unpack _); vm_compute; exact I.
  - reflexivity.
  - reflexivity.
  - reflexivity.
  - vm_compute. reflexivity.
Defined.

Lemma writeClientFiles_template_keys_witness :
  fst (ClientFiles.writeClientFiles (quietWorld fullTemplate) ["connMgmtdPortTCP"]
         tunedVolume "/etc/beegfs/beegfs-client.conf") = Ok tt
  ↔ ClientFiles.keysSet tunedVolume ⊆ dom fullTemplate.
Proof.
  apply (writeClientFiles_template_keys (quietWorld fullTemplate) ["connMgmtdPortTCP"]
           tunedVolume "/etc/beegfs/beegfs-client.conf" "" 40000 fullTemplate).
  - split; apply (bool_decide_unpack _); vm_compute; exact I.
  - reflexivity.
  - reflexivity.
  - reflexivity.
  - reflexivity.
  - reflexivity.
  - reflexivity.
Defined.

Lemma writeClientFiles_missing_key_witness :
  (∀ u, fst (ClientFiles.writeClientFiles (quietWorld bareTemplate) ["connMgmtdPortTCP"]
               tunedVolume "/etc/beegfs/beegfs-client.conf") ≠ Ok u)
  ∧ Forall (ClientFiles.isListFile tunedVolume)
      (snd (ClientFiles.writeClientFiles (quietWorld bareTemplate) ["connMgmtdPortTCP"]
              tunedVolume "/etc/beegfs/beegfs-client.conf"))
  ∧ (¬ ClientFiles.keysAlwaysSet tunedVolume ⊆ dom bareTemplate →
     ∃ k, k ∈ ClientFiles.keysAlwaysSet tunedVolume ∧ (k ∉ dom bareTemplate)
          ∧ ClientFiles.writeClientFiles (quietWorld bareTemplate) ["connMgmtdPortTCP"]
              tunedVolume "/etc/beegfs/beegfs-client.conf"
            = (Err (k +:+ " not in template beegfs-client.conf file"), [])).
Proof.
  apply (writeClientFiles_missing_key (quietWorld bareTemplate) ["connMgmtdPortTCP"]
           tunedVolume "/etc/beegfs/beegfs-client.conf" "" 40000 bareTemplate).
  - split; apply (bool_decide_unpack _); vm_compute; exact I.
  - reflexivity.
  - reflexivity.
  - reflexivity.
  - apply (bool_decide_unpack _). vm_compute. exact I.
Defined.

Lemma writeClientFiles_host_and_port_witness :
  ClientFiles.writtenClientConf fullTemplate 40000 tunedVolume !! "sysMgmtdHost"
  = Some (volSysMgmtdHost tunedVolume)
  ∧ ClientFiles.writtenClientConf fullTemplate 40000 tunedVolume !! "connClientPortUDP"
    = Some (Itoa 40000).
Proof.
  apply (writeClientFiles_host_and_port (quietWorld fullTemplate) ["connMgmtdPortTCP"]
           tunedVolume "/etc/beegfs/beegfs-client.conf" "" 40000 fullTemplate
           ltac:(split; apply (bool_decide_unpack _); vm_compute; exact I)
           eq_refl eq_refl eq_refl
           {| DefaultConfig := config tunedVolume; FileSystemSpecificConfigs := [] |}
           "10.0.0.1" (clientConfPath tunedVolume)).
  - vm_compute. reflexivity.
  - apply (list_elem_of_lookup_2 _ 2). vm_compute. reflexivity.
Defined.

(** The run of the example: the file of the interfaces, then
    beegfs-client.conf with the host, the port, the client option and the
    path of the file of the interfaces. *)
Example writeClientFiles_example :
  ClientFiles.writeClientFiles (quietWorld fullTemplate) ["connMgmtdPortTCP"] tunedVolume
    "/etc/beegfs/beegfs-client.conf"
  = (Ok tt,
     [ClientFiles.OpWriteFile "/data/10.0.0.1_data_vol1/connInterfacesFile"
        ("ib0" +:+ ClientFiles.newline +:+ "eth0" +:+ ClientFiles.newline);
      ClientFiles.OpCreate "/data/10.0.0.1_data_vol1/beegfs-client.conf";
      ClientFiles.OpWriteTo "/data/10.0.0.1_data_vol1/beegfs-client.conf"
        {[ "sysMgmtdHost" := "10.0.0.1"; "connClientPortUDP" := "40000";
           "connMgmtdPortTCP" := "9008";
           "connInterfacesFile" := "/data/10.0.0.1_data_vol1/connInterfacesFile";
           "connNetFilterFile" := ""; "connTcpOnlyFilterFile" := "" ]}]).
Proof. vm_compute. reflexivity. Qed.

(** With a template that has no key for the file of the interfaces, the
    run ends before anything is written. *)
Example writeClientFiles_bare_template :
  ClientFiles.writeClientFiles (quietWorld bareTemplate) ["connMgmtdPortTCP"] tunedVolume
    "/etc/beegfs/beegfs-client.conf"
  = (Err "connInterfacesFile not in template beegfs-client.conf file", []).
Proof. vm_compute. reflexivity. Qed.

(** A client option sysMgmtdHost, which [stripConfig] removes, would
    replace the host of the volume in the file. *)
Example writeClientFiles_unstripped :
  ∃ ini,
    snd (ClientFiles.writeClientFiles (quietWorld fullTemplate) ["sysMgmtdHost"]
           redirectedVolume "/etc/beegfs/beegfs-client.conf")
    = [ClientFiles.OpCreate (clientConfPath redirectedVolume);
       ClientFiles.OpWriteTo (clientConfPath redirectedVolume) ini]
    ∧ volSysMgmtdHost redirectedVolume = "10.0.0.1"
    ∧ ini !! "sysMgmtdHost" = Some "10.9.9.9".
Proof. eexists. split; [vm_compute; reflexivity|]. split; [done|]. vm_compute. reflexivity. Qed.

(** * Proofs: the driver of the end-to-end tests *)

Section DriverProofs.

Import Driver.

Lemma step_good_relative (out : list string) (e : string) :
  goodElem e → GoPath.step false out e = e :: out.
Proof.
  intros (_ & H1 & H2 & H3). unfold GoPath.step.
  rewrite (proj2 (String.eqb_neq _ _) H1), (proj2 (String.eqb_neq _ _) H2),
    (proj2 (String.eqb_neq _ _) H3). done.
Qed.

Lemma Clean_not_rooted (s : string) :
  s ≠ "" → GoStrings.HasPrefix s "/" = false →
  GoPath.Clean s
  = match fold_left (GoPath.step false) (GoStrings.SplitByte s "/") [] with
    | [] => "."
    | e :: out => GoStrings.Join (rev (e :: out)) "/"
    end.
Proof.
  destruct s as [|c s]; [done|]. intros _. unfold GoStrings.HasPrefix.
  rewrite prefix_byte, Ascii.eqb_sym. intros Hc. unfold GoPath.Clean. rewrite Hc.
  by destruct (fold_left _ _ _).
Qed.

(** The directory of a good name below the base directory of the
    pre-created volumes. *)
Lemma Join_static (name : string) :
  goodElem name →
  GoPath.Join [staticVolDirBasePathBeegfsRoot initBaseBeegfsDriver; name]
  = "e2e-test/static/" +:+ name.
Proof.
  intros Hname.
  change (staticVolDirBasePathBeegfsRoot initBaseBeegfsDriver) with "e2e-test/static".
  assert (GoPath.Join ["e2e-test/static"; name]
          = GoPath.Clean ("e2e-test/static" +:+ String "/" name)) as ->.
  { unfold GoPath.Join. cbn [forallb String.eqb Ascii.eqb andb Bool.eqb GoPath.join_buf].
    destruct name; reflexivity. }
  rewrite Clean_not_rooted by done. rewrite SplitByte_app.
  change (GoStrings.SplitByte "e2e-test/static" "/") with ["e2e-test"; "static"].
  destruct Hname as (Hns & Hne & Hd & Hdd).
  rewrite (SplitByte_slash_free name Hns). cbn [app fold_left].
  rewrite !step_good_relative by done. reflexivity.
Qed.

(** The loop of [SetFSIndexForRDMA]: the index found is that of the
    first RDMA capable file system. *)
Lemma firstRDMA_Some (configs : list FileSystemSpecificConfig) :
  ∀ i j, firstRDMA i configs = Some j →
    (i ≤ j)%Z
    ∧ (∃ cfg, configs !! Z.to_nat (j - i) = Some cfg ∧ isRDMA cfg)
    ∧ (∀ n cfg, (n < Z.to_nat (j - i))%nat → configs !! n = Some cfg → ¬ isRDMA cfg).
Proof.
  induction configs as [|c configs IH]; intros i j; simpl; [done|].
  assert (firstRDMA i (c :: configs) = Some j → ¬ isRDMA c → firstRDMA (i + 1) configs = Some j)
    as Hskip.
  { simpl. unfold isRDMA.
    destruct (mapGet (BeegfsClientConf (Config c)) "connUseRDMA") as [b|]; [|done].
    destruct (String.eqb_spec b "true") as [-> | Hb]; [by intros _ []|done]. }
  destruct (mapGet (BeegfsClientConf (Config c)) "connUseRDMA") as [b|] eqn:Hget.
  - destruct (String.eqb_spec b "true") as [-> | Hb].
    + intros [= <-]. split; [lia|]. rewrite Z.sub_diag. split; [by exists c|].
      intros n cfg Hn. simpl in Hn. lia.
    + intros H. destruct (IH _ _ H) as (Hle & (cfg & Hcfg & Hr) & Hbefore).
      split; [lia|].
      replace (Z.to_nat (j - i)) with (S (Z.to_nat (j - (i + 1)))) by lia.
      split; [by exists cfg|].
      intros [|n] cfg'; simpl.
      * intros _ [= <-]. unfold isRDMA. rewrite Hget. by intros [= ->].
      * intros Hn. apply Hbefore. lia.
  - intros H. destruct (IH _ _ H) as (Hle & (cfg & Hcfg & Hr) & Hbefore).
    split; [lia|].
    replace (Z.to_nat (j - i)) with (S (Z.to_nat (j - (i + 1)))) by lia.
    split; [by exists cfg|].
    intros [|n] cfg'; simpl.
    * intros _ [= <-]. unfold isRDMA. by rewrite Hget.
    * intros Hn. apply Hbefore. lia.
Qed.

Lemma firstRDMA_None (configs : list FileSystemSpecificConfig) :
  ∀ i, firstRDMA i configs = None → ∀ cfg, cfg ∈ configs → ¬ isRDMA cfg.
Proof.
  induction configs as [|c configs IH]; intros i; simpl.
  - intros _ cfg Hin. by apply elem_of_nil in Hin.
  - destruct (mapGet (BeegfsClientConf (Config c)) "connUseRDMA") as [b|] eqn:Hget.
    + destruct (String.eqb_spec b "true") as [-> | Hb]; [done|].
      intros H cfg [-> | Hin]%elem_of_cons; [|by eapply IH].
      unfold isRDMA. rewrite Hget. by intros [= ->].
    + intros H cfg [-> | Hin]%elem_of_cons; [|by eapply IH].
      unfold isRDMA. by rewrite Hget.
Qed.

(** X26.  [SetFSIndexForRDMA] returns true exactly when a file system of
    the driver has the client option connUseRDMA with the value true.
    Then the index is set to the first such file system, which is in
    range, so that [CreateVolume] refers to the host of that file system
    and does not panic; nothing else of the driver changes.  When it
    returns false, the driver is as it was. *)
Theorem SetFSIndexForRDMA_first (d : baseBeegfsDriver) :
  let found := fst (SetFSIndexForRDMA d) in
  let d' := snd (SetFSIndexForRDMA d) in
  (found = true ↔ ∃ cfg, cfg ∈ perFSConfigs d ∧ isRDMA cfg)
  ∧ (found = false → d' = d)
  ∧ (found = true →
     d' = SetFSIndex d (fsIndex d')
     ∧ (0 ≤ fsIndex d' < GetNumFS d')%Z
     ∧ (∃ cfg, index (perFSConfigs d') (fsIndex d') = Ok cfg ∧ isRDMA cfg
               ∧ CreateVolume d'
                 = Ok {| volumeID :=
                           newBeegfsUrl (SysMgmtdHost cfg)
                             (GoPath.Join [staticVolDirBasePathBeegfsRoot d;
                                           staticDirName d]) |})
     ∧ (∀ n cfg, (n < Z.to_nat (fsIndex d'))%nat → perFSConfigs d !! n = Some cfg →
                 ¬ isRDMA cfg)).
Proof.
  intros found d'. subst found d'. unfold SetFSIndexForRDMA.
  destruct (firstRDMA 0 (perFSConfigs d)) as [j|] eqn:E; cbn [fst snd].
  - destruct (firstRDMA_Some _ _ _ E) as (Hle & (cfg & Hcfg & Hr) & Hbefore).
    rewrite Z.sub_0_r in Hcfg, Hbefore.
    split; [split; [intros _|done]|split; [done|intros _]].
    { exists cfg. split; [|done]. by eapply list_elem_of_lookup_2. }
    cbn [SetFSIndex fsIndex perFSConfigs]. split; [done|].
    assert (index (perFSConfigs d) j = Ok cfg) as Hidx.
    { unfold index. destruct (Z.ltb_spec j 0); [lia|]. by rewrite Hcfg. }
    split; [|split; [|done]].
    + unfold GetNumFS, SetFSIndex. cbn [perFSConfigs]. apply lookup_lt_Some in Hcfg. lia.
    + exists cfg. split; [done|]. split; [done|].
      unfold CreateVolume, SetFSIndex.
      cbn [perFSConfigs fsIndex staticVolDirBasePathBeegfsRoot staticDirName].
      by rewrite Hidx.
  - split; [split; [done|]|split; [done|done]].
    intros (cfg & Hin & Hr). by destruct (firstRDMA_None _ _ E cfg Hin).
Qed.

(** X27.  The volume of [CreateVolume] for a driver with the base
    directory of the initialization, an index in range, a non-empty host
    of letters, digits, hyphens, dots, underscores and tildes, and a
    directory name that is one path element: its identity decodes to the
    host and to the absolute path /e2e-test/static/name, although the
    driver joins relative paths, and is the identity of that absolute
    path. *)
Theorem CreateVolume_identity (d : baseBeegfsDriver) (fsConfig : FileSystemSpecificConfig) :
  staticVolDirBasePathBeegfsRoot d = staticVolDirBasePathBeegfsRoot initBaseBeegfsDriver →
  index (perFSConfigs d) (fsIndex d) = Ok fsConfig →
  validHost (SysMgmtdHost fsConfig) = true → SysMgmtdHost fsConfig ≠ "" →
  goodElem (staticDirName d) →
  ∃ vol,
    CreateVolume d = Ok vol
    ∧ parseBeegfsUrl (volumeID vol)
      = Ok (SysMgmtdHost fsConfig, "/e2e-test/static/" +:+ staticDirName d)
    ∧ volumeID vol
      = newBeegfsUrl (SysMgmtdHost fsConfig) ("/e2e-test/static/" +:+ staticDirName d).
Proof.
  intros Hbase Hidx Hhost Hne Hname. eexists. unfold CreateVolume. rewrite Hidx.
  split; [reflexivity|]. cbn [volumeID]. rewrite Hbase, (Join_static _ Hname).
  destruct (newBeegfsUrl_rooted (SysMgmtdHost fsConfig)
              ("e2e-test/static/" +:+ staticDirName d) Hhost Hne)
    as [Hparse Hsame]; [done|done|].
  split; [exact Hparse|]. apply Hsame.
  rewrite !append_cons. done.
Qed.

(** The index of the initialization is out of range until
    [SetPerFSConfigs] is called with a file system. *)
Example CreateVolume_unconfigured :
  CreateVolume initBaseBeegfsDriver = Panic "index out of range".
Proof. reflexivity. Qed.

End DriverProofs.

Lemma CreateVolume_identity_witness :
  ∃ vol,
    Driver.CreateVolume
      (Driver.SetFSIndex (Driver.SetPerFSConfigs Driver.initBaseBeegfsDriver twoFileSystems) 1)
    = Ok vol
    ∧ parseBeegfsUrl (Driver.volumeID vol) = Ok ("10.0.0.2", "/e2e-test/static/" +:+ "static1")
    ∧ Driver.volumeID vol = newBeegfsUrl "10.0.0.2" ("/e2e-test/static/" +:+ "static1").
Proof.
  apply (CreateVolume_identity
           (Driver.SetFSIndex
              (Driver.SetPerFSConfigs Driver.initBaseBeegfsDriver twoFileSystems) 1)
           {| SysMgmtdHost := "10.0.0.2";
              Config := {| ConnInterfaces := None; ConnNetFilter := None;
                           ConnTcpOnlyFilter := None;
                           BeegfsClientConf := Some {[ "connUseRDMA" := "true" ]};
                           connAuth := "" |} |}).
  - reflexivity.
  - reflexivity.
  - reflexivity.
  - discriminate.
  - repeat split; discriminate.
Defined.

(** The driver with the two file systems selects the second for RDMA. *)
Example SetFSIndexForRDMA_example :
  Driver.fsIndex
    (snd (Driver.SetFSIndexForRDMA
            (Driver.SetPerFSConfigs Driver.initBaseBeegfsDriver twoFileSystems))) = 1%Z
  ∧ fst (Driver.SetFSIndexForRDMA
           (Driver.SetPerFSConfigs Driver.initBaseBeegfsDriver twoFileSystems)) = true
  ∧ fst (Driver.SetFSIndexForRDMA Driver.initBaseBeegfsDriver) = false.
Proof. repeat split; vm_compute; reflexivity. Qed.
